(* ===== verification/_CoqProject ===== *)
-Q . S2P
Prelude.v
Common.v
LockSlot.v
TxContext.v
TxCoordinator.v
TwoPhase.v
AtomicCommit.v
Raft.v
RaftElection.v
RaftLog.v
RaftRuns.v
WaitPath.v
TarjanScc.v
Deadlock.v
Bytes.v
ByteBuffer.v
MessageCodec.v
Connection.v
ConnectionSend.v
TxLogFormat.v
LogService.v
RlBlock.v
LockMgr.v
LockView.v
BlockRun.v
Isolation.v
CalvinSequencer.v
CalvinEpochs.v
Calvin.v
Store.v
DsBlock.v
TxStamp.v
CcBlock.v
Blocks.v
Simulation.v
BlocksAtomic.v
LogPath.v
Config.v
Deploy.v
NetClient.v
Terminal.v
Workload.v
Node.v
NetService.v
Timer.v
