(* ===== verification/Prelude.v ===== *)
(** * Verification of a composable transactional database

    The program is a distributed database made of blocks that exchange
    messages: concurrency blocks ([src/concurrency]), replicated-log blocks
    ([src/raft], [src/replog]) and storage blocks ([src/store]), with the
    network and the vocabulary they share ([src/network], [include/common]).
    A client's transaction arrives at a concurrency block, locks its rows and
    runs there or, when it touches several shards, under a coordinator with
    two-phase commit; its log records go to the replicated log, come back to
    the block when they are committed, and are replayed to the storage blocks.
    A second build replaces locking on demand by Calvin's deterministic epochs.

    ** The files

    Shared:
    - this file: record updates, machine integers, handlers ([act]: a state
      transformer that returns the calls it makes, in order) and the relations
      they keep ([respects]), tactics and hints;
    - [Common]: error codes, enumerations, node ids, TPC-C keys, operations, log
      records and requests ([include/common], [src/proto]).

    Concurrency, shared-nothing build:
    - [LockSlot]: the lock of one row ([lock_slot.cpp]);
    - [LockMgr]: the tables of slots and tuples over it ([lock_mgr.cpp],
      [lock_mgr_global.cpp], [access_mgr.cpp], [data_mgr.cpp], [hash_table.h]);
    - [TxContext]: a transaction on one block ([tx_context.cpp]);
    - [LockView], [BlockRun], [Isolation]: the transactions of one block with the
      locks and the tuple cache they share;
    - [TxCoordinator]: the coordinator ([tx_coordinator.cpp]);
    - [TwoPhase], [AtomicCommit]: both composed as [cc_block.cpp] connects them,
      for one transaction, over a network that loses, repeats and reorders
      messages;
    - [CcBlock]: the block with its tables, ids, strands and message handlers
      ([cc_block.cpp]);
    - [TxStamp], [Blocks], [Simulation], [BlocksAtomic]: all blocks with all their
      transactions, and that each of these behaves as [TwoPhase] does;
    - [LogPath]: the block and its replicated log, from registration to the
      committed record;
    - [WaitPath], [TarjanScc], [Deadlock]: the wait-for graph, the search for
      circles and the detector ([wait_path.cpp], [tx_wait.h], [deadlock.cpp]).

    Concurrency, deterministic build:
    - [CalvinSequencer], [CalvinEpochs]: the sequencer and all sequencers
      together ([calvin_sequencer.cpp]);
    - [Calvin]: scheduler, contexts and collectors ([calvin_scheduler.cpp],
      [calvin_context.cpp], [calvin_collector.cpp]).

    Replicated log:
    - [Raft], [RaftElection], [RaftLog], [RaftRuns]: the replica and clusters of
      them ([raft/state_machine.cpp]);
    - [LogService]: the replica's store ([log_service_impl.cpp]);
    - [TxLogFormat]: log records as bytes and the write-ahead log ([tx_log.h],
      [write_ahead_log.cpp]);
    - [RlBlock]: the block around the replica ([rl_block.cpp]).

    Storage:
    - [Store]: the engine interface and its two engines ([store.h],
      [rocks_store.cpp], [tkrzw_store.cpp], [key128.h]);
    - [DsBlock]: the block around the engine ([ds_block.cpp]).

    Network:
    - [Bytes], [ByteBuffer], [MessageCodec]: memory, buffers and the wire format
      ([byte_buffer.h], [read_write_pb.hpp]);
    - [Connection], [ConnectionSend]: both halves of a connection
      ([connection.cpp], [net_service.cpp]);
    - [NetService]: the peers, thread pools, clients and acceptors around the
      connections ([net_service.cpp], [sock_server.cpp]);
    - [NetClient]: the blocking client of a terminal ([connection.h],
      [db_client.h]);
    - [Node]: a server process: which block and which overload a message reaches
      ([message_processor.h], [message.h], [portal_server.cpp]);
    - [Timer]: the repeating timer of the blocks ([timer.h]).

    Around the blocks:
    - [Config]: zones, shards, node ids, leaders and the mapping that all blocks
      read ([config.cpp], [node_config.h]);
    - [Deploy]: the concurrency blocks started from one configuration;
    - [Terminal]: how a terminal finds the leader of its shard
      ([portal/workload.cpp]);
    - [Workload]: the generator of TPC-C transactions that loads and drives the
      database ([portal/workload.cpp], [portal/workload.h]).

    ** How code is rendered

    A class is a record with the members as fields, named as in the source; a
    handler is one definition with the source's guards and early returns.  A
    handler runs on a strand or under a mutex and is one atomic step.  Calls to
    other components are events; where components are composed ([TwoPhase],
    [Blocks], [BlockRun], [RaftElection], [CalvinEpochs]) the steps deliver them in any order.
    A stored closure is a value of a type of tasks.  A failed assertion, and
    memory accessed out of range, is [None] or a flag of the state.  Iteration
    over an unordered container takes the order of [elements] or
    [map_to_list].  In front of each definition a tag names the lines it
    renders.

    ** What is shown

    - Two-phase commit: agreement, what a commit and the client's answer rest
      on, and a refinement of an abstract atomic-commit specification whose state
      is the outcome each participant has logged ([AtomicCommit]); the same for
      every transaction when all run beside each other on the blocks, through the
      tables, ids and strands of [CcBlock] ([Simulation], [BlocksAtomic]).
    - Ids and registration: ids are distinct until the sequence number wraps
      ([CcBlock]), a refused append is recovered from, and committed records reach
      the strands of their transactions once and in order ([LogPath]).
    - Locking: the invariant of a slot, what a request is told, that an unlock
      serves the queue, and that the tables of slots keep rows apart
      ([LockSlot], [LockMgr]).
    - Isolation: conflicting accesses of two transactions of a block are separated
      by the end of the first, so the order of ends is a serial order
      ([Isolation]); the requests of the workload are of the kind for which this
      holds ([Workload.new_order_well_formed]).
    - Deadlocks: the search reports exactly the strongly connected components
      with two or more transactions, a round makes one of each a victim,
      wait-die admits no circle, and dependency messages arrive unchanged and
      stop ([TarjanScc], [Deadlock]).
    - Replication: one leader per term and committed entries in order, both
      without restarts; the runs in which the code departs from Raft
      ([RaftElection], [RaftLog], [RaftRuns]); records go back to their writers
      and to the storage block whole and in order ([RlBlock], [TxLogFormat]).
    - Storage: the RocksDB engine keeps the laws [StoreLaws] of the interface, and
      with them a read gives what the last committed operation left, whatever engine
      is behind the interface ([Store], [DsBlock]).
    - Calvin: leaders schedule the same epochs in lockstep, a part commits once,
      an epoch is acknowledged once all its locks are granted
      ([CalvinEpochs], [Calvin]).
    - Network: messages survive any cut of the byte stream, and sender and
      receiver together hand over what was sent ([Connection],
      [ConnectionSend]); a blocking client's requests and the responses to it
      arrive in order ([NetClient]); a client keeps trying to connect, and every
      context is served by threads ([NetService]); a node routes by one table, by
      which every message that is sent is handled ([Node]); a timer ticks until it
      is cancelled and then stops ([Timer]).
    - Configuration: the leaders it names are what the blocks rely on, so that
      blocks started from one configuration are atomic ([Config], [Deploy]); ids
      tell the servers apart, and the two ways to ask for leaders agree.
    - Workload: a request is made for every order, whatever is drawn, and names
      only rows that the storage block of its shard has loaded; what the terminals
      count ([Workload]), and that they go on exactly when the leaders are those
      the configuration prefers ([Terminal]).
    - Where the code does something else than it means to, the theorem says what
      it does: [upgrade_keeps_other_readers], [restart_two_leaders],
      [minority_commit], [deposed_leader_appends], [log_never_read],
      [aborted_writes_stored], [cached_row_not_refreshed],
      [read_only_answered_twice], [distributed_by_last],
      [neighbour_is_own_shard], [failed_send_stuck] and others in the files.

    ** Bounds, fuel and parameters

    Ids, counters and sizes of the wire and log formats are reduced to their
    width; the theorems that need it state that a size fits.  Fuel: a loop over a
    queue gets one unit per element and [strong_connect] one per node of the
    graph; [unlock_serves_queue] and [find_scc_correct] state that the result is
    there, so the fuel is enough.  A loop that draws again until a number differs
    has as much fuel as draws may be equal in a row, which is a property of the
    generator ([Workload.random_ok]).

    Code outside the repository is a parameter: protobuf's serialization
    ([body], [parse]), RocksDB (the classes [KvStore] and [Rocks] with the laws
    relied on, and instances in memory that have them), Tkrzw (the class
    [Tkrzw]), clocks, random draws, shuffling and made-up tuples (arguments).

    ** Not modelled

    The geo-replication and shared-storage builds (the functions of the first that
    make locks violable are declared and nowhere defined); system calls of sockets
    and threads (their outcomes and order are the steps); statistics, traces and debug output, which no decision
    reads; the text of configuration files and the schema (the values read are
    parameters); pages for debugging; the command lines of the portal programs, and of the workload
    generator the latencies and the windows of results;
    the vendored TPC-C driver for MySQL; scripts and the TLA+ text. *)

From stdpp Require Export prelude gmap fin_maps fin_sets relations.
From Stdlib Require Export ZArith Lia.
#[global] Open Scope Z_scope.

(** ** Record updates

    [r <| f := v |>] is the record [r] with field [f] replaced: the C++ code
    assigns members one at a time, and the model does the same.  A record type
    registers its eta-expansion once ([Eta]); the setter of each field is
    derived from it. *)

Class Eta (R : Type) := eta_of : R → R.
Class Setter {R E : Type} (proj : R → E) := set_by : (E → E) → R → R.

Ltac derive_setter :=
  lazymatch goal with
  | |- @Setter ?R ?E ?proj =>
      let inst := constr:(_ : Eta R) in
      let body := eval red in inst in
      lazymatch (eval pattern proj in body) with
      | ?ctx _ =>
          let s := eval cbv beta in (fun (g : E → E) => ctx (fun r => g (proj r))) in
          exact s
      end
  end.
#[export] Hint Extern 1 (Setter _) => derive_setter : typeclass_instances.

Definition update_field {R E : Type} (proj : R → E) {s : Setter proj} (g : E → E) (r : R) : R :=
  s g r.
Arguments update_field {R E} proj {s} g r /.

Declare Scope record_scope.
Delimit Scope record_scope with record.
#[global] Open Scope record_scope.
Notation "r <| f := v |>" := (update_field f (fun _ => v) r)
  (at level 1, left associativity, f at level 9, v at level 200,
   format "r  <| f  :=  v |>") : record_scope.
Notation "r <| f ::= g |>" := (update_field f g r)
  (at level 1, left associativity, f at level 9, g at level 200,
   format "r  <| f  ::=  g |>") : record_scope.


(** ** Machine integers

    A C++ unsigned integer of [w] bits is an integer in [0, 2^w); every
    arithmetic result is reduced modulo [2^w]. *)

Definition wrap (w : Z) (x : Z) : Z := x mod 2 ^ w.
Abbreviation u8 := (wrap 8).
Abbreviation u32 := (wrap 32).
Abbreviation u64 := (wrap 64).

(** [x] is representable on [w] bits. *)
Definition fits (w : Z) (x : Z) : Prop := 0 ≤ x < 2 ^ w.

Lemma wrap_fits w x : 0 ≤ w → fits w (wrap w x).
Proof. intros Hw. apply Z.mod_pos_bound. apply Z.pow_pos_nonneg; lia. Qed.

Lemma wrap_small w x : fits w x → wrap w x = x.
Proof. apply Z.mod_small. Qed.

Lemma wrap_wrap_add w x y : wrap w (wrap w x + y) = wrap w (x + y).
Proof. apply Zplus_mod_idemp_l. Qed.

Lemma wrap_wrap_sub w x y : wrap w (wrap w x - y) = wrap w (x - y).
Proof. apply Zminus_mod_idemp_l. Qed.

Create HintDb tddb.
Create Rewrite HintDb tddb.
#[export] Hint Resolve wrap_fits : tddb.
#[export] Hint Rewrite wrap_wrap_add wrap_wrap_sub : tddb.

(** ** Sets *)

#[global] Arguments size : simpl never.
#[global] Arguments singleton : simpl never.
#[global] Arguments union : simpl never.
#[global] Arguments difference : simpl never.
#[global] Arguments elem_of : simpl never.

Section gset_size.
Context `{Countable A}.
Implicit Types (X Y : gset A) (x : A).

Lemma size_insert_new X x : x ∉ X → Z.of_nat (size ({[x]} ∪ X)) = Z.of_nat (size X) + 1.
Proof. intros Hx. rewrite size_union by set_solver. rewrite size_singleton. lia. Qed.

Lemma size_remove_old X x : x ∈ X → Z.of_nat (size (X ∖ {[x]})) = Z.of_nat (size X) - 1.
Proof.
  intros Hx. assert (X = {[x]} ∪ X ∖ {[x]}) as HX.
  { apply set_eq. intros y. destruct (decide (y = x)); set_solver. }
  pose proof (size_insert_new (X ∖ {[x]}) x ltac:(set_solver)) as Hs.
  rewrite <- HX in Hs. lia.
Qed.

Lemma size_zero_iff X : Z.of_nat (size X) = 0 ↔ X = ∅.
Proof.
  split; [|intros ->; done].
  intros Hs. apply leibniz_equiv, size_empty_iff. lia.
Qed.
End gset_size.

(** ** Tactics

    [case_test] splits on the test of a conditional, [case_scrut] on the
    scrutinee of a [match]; both keep the equation. *)

Ltac case_test :=
  match goal with
  | |- context [if ?b then _ else _] => let E := fresh "E" in destruct b eqn:E
  | H : context [if ?b then _ else _] |- _ => let E := fresh "E" in destruct b eqn:E
  end.

Ltac case_scrut :=
  match goal with
  | |- context [match ?x with _ => _ end] => let E := fresh "E" in destruct x eqn:E
  | H : context [match ?x with _ => _ end] |- _ => let E := fresh "E" in destruct x eqn:E
  end.

(** ** Handlers

    A handler of an event-driven component changes the component's state and
    makes calls to others; [act S E] is such a handler, with the calls as a list
    of events in the order they are made. *)

Definition act (S E : Type) : Type := S → S * list E.

Section handlers.
Context {S E : Type}.

Definition skip : act S E := fun s => (s, []).
Definition emit (e : E) : act S E := fun s => (s, [e]).
Definition modify (f : S → S) : act S E := fun s => (f s, []).
Definition and_then (a b : act S E) : act S E :=
  fun s => let '(s1, e1) := a s in let '(s2, e2) := b s1 in (s2, e1 ++ e2).
Definition when (b : bool) (a : act S E) : act S E := if b then a else skip.
Fixpoint each {A : Type} (f : A → act S E) (l : list A) : act S E :=
  match l with
  | [] => skip
  | x :: l => and_then (f x) (each f l)
  end.
End handlers.

Declare Scope act_scope.
Delimit Scope act_scope with act.
Notation "a ;; b" := (and_then a b) (at level 100, right associativity) : act_scope.
Bind Scope act_scope with act.

(** The event list of a sequence is the concatenation of the two lists. *)
Lemma and_then_eq {S E} (a b : act S E) s :
  and_then a b s = ((b (a s).1).1, (a s).2 ++ (b (a s).1).2).
Proof. unfold and_then. destruct (a s) as [s1 e1]. simpl. by destruct (b s1). Qed.

(** A loop that only makes calls. *)
Lemma each_emit {S E A} (f : A → E) (l : list A) (s : S) : each (fun x => emit (f x)) l s = (s, map f l).
Proof. induction l as [|x l IH]; [done|]. simpl. rewrite and_then_eq. simpl. by rewrite IH. Qed.

Lemma each_snoc {S E A} (f : A → act S E) l x s :
  each f (l ++ [x]) s = ((f x (each f l s).1).1, (each f l s).2 ++ (f x (each f l s).1).2).
Proof.
  revert s. induction l as [|y l IH]; intros s; simpl.
  - rewrite and_then_eq. simpl. by rewrite app_nil_r.
  - rewrite !and_then_eq. simpl. rewrite IH. simpl. by rewrite app_assoc.
Qed.

Lemma modify_then {S E} (f : S → S) (b : act S E) s : and_then (modify f) b s = b (f s).
Proof. unfold and_then, modify. by destruct (b (f s)). Qed.

(** ** Handlers that keep a relation

    [respects R P h]: whatever the state, [h] moves along [R] and makes only
    calls that satisfy [P].  The rules follow the structure of the handler, so
    a proof is a search with the hints below. *)

Section respects.
Context {S E : Type} (R : relation S) (P : E → Prop) `{!Reflexive R} `{!Transitive R}.

Definition respects (h : act S E) : Prop := ∀ s, R s (h s).1 ∧ Forall P (h s).2.

Lemma respects_skip : respects skip.
Proof. intros s. split; [reflexivity|constructor]. Qed.

Lemma respects_emit e : P e → respects (emit e).
Proof. intros He s. split; [reflexivity|by repeat constructor]. Qed.

Lemma respects_modify f : (∀ s, R s (f s)) → respects (modify f).
Proof. intros Hf s. split; [apply Hf|constructor]. Qed.

Lemma respects_then a b : respects a → respects b → respects (and_then a b).
Proof.
  intros Ha Hb s. rewrite and_then_eq. destruct (Ha s) as [Fa Ea]. destruct (Hb (a s).1) as [Fb Eb].
  simpl. split; [by etrans|]. by apply Forall_app.
Qed.

Lemma respects_when b a : respects a → respects (when b a).
Proof. intros Ha. destruct b; [done|apply respects_skip]. Qed.

Lemma respects_each {A} (f : A → act S E) l : (∀ x, respects (f x)) → respects (each f l).
Proof.
  intros Hf. induction l as [|x l IH]; [apply respects_skip|]. by apply respects_then.
Qed.

(** A handler that reads the state first, and one that starts elsewhere. *)
Lemma respects_read (h : S → act S E) : (∀ t, respects (h t)) → respects (fun s => h s s).
Proof. intros Hh s. apply Hh. Qed.

Lemma respects_emit_read (f : S → E) : (∀ s, P (f s)) → respects (fun s => emit (f s) s).
Proof. intros Hf s. split; [reflexivity|by repeat constructor]. Qed.

Lemma respects_at h s s' : R s s' → respects h → R s (h s').1 ∧ Forall P (h s').2.
Proof. intros Hs Hh. destruct (Hh s') as [F Ev]. split; [by etrans|done]. Qed.
End respects.

Create HintDb respects.
#[export] Hint Extern 1 (respects _ _ skip) => refine (respects_skip _ _) : respects.
#[export] Hint Extern 1 (respects _ _ (and_then _ _)) => refine (respects_then _ _ _ _ _ _) : respects.
#[export] Hint Extern 1 (respects _ _ (when _ _)) => refine (respects_when _ _ _ _ _) : respects.
#[export] Hint Extern 1 (respects _ _ (each _ _)) => refine (respects_each _ _ _ _ _); intros : respects.
#[export] Hint Extern 2 (respects _ _ (emit _)) => apply respects_emit; solve [cbv beta; done] : respects.
#[export] Hint Extern 2 (respects _ _ (fun _ => emit _ _)) =>
  apply respects_emit_read; intros; solve [cbv beta; done] : respects.
#[export] Hint Extern 2 (respects _ _ (modify _)) =>
  apply respects_modify; intros; by repeat case_match : respects.
