(* ===== verification/Common.v ===== *)
(** * Shared vocabulary: identifiers, enumerations and keys

    The enumerations and small inline functions of [include/common] that every
    block uses: error codes ([error_code.h]), the database type
    ([db_type.h]), lock modes ([lock_mode.h]), node identifiers ([id.h],
    [block_type.h]), table identifiers ([table_id.h]), the TPC-C tuple keys
    ([make_key.h]) and the shard directory ([shard2node.h]).  The enumerations
    of [src/proto/tx_operation.proto] and [src/proto/tx_log.proto] are here
    too.  An id is an integer at the width of its C++ typedef. *)

From S2P Require Import Prelude.
From Stdlib Require Export String Ascii.
From stdpp Require Export strings.
#[local] Open Scope Z_scope.

(** ** Error codes and enumerations *)

(* @src include/common/error_code.h 9 53 EC *)
Inductive EC :=
| EC_OK | EC_CODE_BEGIN | EC_TX_ABORT | EC_MARSHALL_ERROR | EC_UNMARSHALL_ERROR
| EC_BUFFER_OVERFLOW | EC_INSUFFICIENT_SPACE | EC_LOCK_ERROR
| EC_EXSISTING_TRANSACTION | EC_NO_SUCH_TRANSACTION | EC_IO_ERROR
| EC_CONFIG_ERROR | EC_UNKNOWN_TABLE_ID | EC_NOT_LEADER | EC_FLOW_CONTROL
| EC_UNKNOWN | EC_SYSTEM_ERROR | EC_NOT_IMPLEMENTED | EC_PRECONDITION_ERROR
| EC_INVALID_ARGUMENT | EC_CANCELED_ERROR | EC_NOT_FOUND_ERROR
| EC_PERMISSION_ERROR | EC_INFEASIBLE_ERROR | EC_DUPLICATION_ERROR
| EC_BROKEN_DATA_ERROR | EC_NETWORK_ERROR | EC_NET_UNCONNECTED
| EC_NET_CANNOT_FIND_CONNECTION | EC_NET_RESOLVE_ADDRESS_FAIL
| EC_UNKNOWN_MESSAGE_TYPE | EC_APPLICATION_ERROR | EC_MESSAGE_HASH_ERROR
| EC_MESSAGE_LENGTH_ERROR | EC_MESSAGE_MAGIC_ERROR | EC_MESSAGE_ID_ERROR
| EC_CASCADE | EC_VICTIM | EC_APPEND_LOG_ERROR.

#[export] Instance EC_eq_dec : EqDecision EC.
Proof. solve_decision. Defined.

Definition EC_eqb (a b : EC) : bool := bool_decide (a = b).

(** The outcome of a fallible call, [result<A>] of [common/result.hpp]. *)
Definition result (A : Type) : Type := sum A EC.

(* @src src/proto/tx_operation.proto 5 13 tx_op_type *)
Inductive tx_op_type :=
| TX_OP_ACCESS_BEGIN | TX_OP_READ | TX_OP_READ_FOR_WRITE | TX_OP_INSERT
| TX_OP_UPDATE | TX_OP_DELETE | TX_OP_ACCESS_END.

#[export] Instance tx_op_type_eq_dec : EqDecision tx_op_type.
Proof. solve_decision. Defined.

(* @src src/proto/tx_log.proto 5 21 tx_cmd_type *)
Inductive tx_cmd_type :=
| TX_CMD_RM_READ | TX_CMD_RM_WRITE | TX_CMD_RM_BEGIN
| TX_CMD_RM_PREPARE_COMMIT | TX_CMD_RM_PREPARE_ABORT
| TX_CMD_RM_COMMIT | TX_CMD_RM_ABORT
| TX_CMD_TM_BEGIN | TX_CMD_TM_COMMIT | TX_CMD_TM_ABORT | TX_CMD_TM_END
| TX_CMD_REPLAY_DSB | RAFT_LOG_ENTRY.

#[export] Instance tx_cmd_type_eq_dec : EqDecision tx_cmd_type.
Proof. solve_decision. Defined.

(* @src include/common/db_type.h 47 53 db_type *)
Inductive db_type := DB_S | DB_SN | DB_D | DB_GRO | DB_TK.

#[export] Instance db_type_eq_dec : EqDecision db_type.
Proof. solve_decision. Defined.

(* @src include/common/db_type.h 67 67 is_shared *)
Definition is_shared (t : db_type) : bool := bool_decide (t = DB_S).
(* @src include/common/db_type.h 69 71 is_shared_nothing *)
Definition is_shared_nothing (t : db_type) : bool :=
  bool_decide (t = DB_SN) || bool_decide (t = DB_GRO).
(* @src include/common/db_type.h 73 73 is_deterministic *)
Definition is_deterministic (t : db_type) : bool := bool_decide (t = DB_D).
(* @src include/common/db_type.h 75 75 is_non_deterministic *)
Definition is_non_deterministic (t : db_type) : bool := negb (bool_decide (t = DB_D)).
(* @src include/common/db_type.h 77 79 is_geo_rep_optimized *)
Definition is_geo_rep_optimized (t : db_type) : bool := bool_decide (t = DB_GRO).

(* @src include/common/lock_mode.h 5 10 lock_mode *)
Inductive lock_mode :=
| LOCK_INVALID | LOCK_READ_PREDICATE | LOCK_READ_ROW | LOCK_WRITE_ROW.

#[export] Instance lock_mode_eq_dec : EqDecision lock_mode.
Proof. solve_decision. Defined.

(** The default case asserts and then answers [LOCK_INVALID]. *)
(* @src include/common/lock_mode.h 12 22 op_type_to_lock_mode *)
Definition op_type_to_lock_mode (op : tx_op_type) : lock_mode :=
  match op with
  | TX_OP_UPDATE | TX_OP_DELETE | TX_OP_INSERT | TX_OP_READ_FOR_WRITE => LOCK_WRITE_ROW
  | TX_OP_READ => LOCK_READ_ROW
  | _ => LOCK_INVALID
  end.

(** ** Node identifiers

    A node id packs the shard, the availability zone and the set of blocks the
    node runs into 32 bits. *)

Module NodeId.

(* @src include/common/block_type.h 22 28 block_type_id_t *)
Inductive block_type_id_t :=
| BLOCK_TYPE_ID_CCB | BLOCK_TYPE_ID_RLB | BLOCK_TYPE_ID_DSB | BLOCK_TYPE_SIZE.

#[export] Instance block_type_id_eq_dec : EqDecision block_type_id_t.
Proof. solve_decision. Defined.

Definition CCB_FLAG : Z := 1.
Definition RLB_FLAG : Z := 2.
Definition DSB_FLAG : Z := 4.

Definition BLOCK_CCB : string := "CCB"%string.
Definition BLOCK_RLB : string := "RLB"%string.
Definition BLOCK_DSB : string := "DSB"%string.

(** The shifts are on [uint32_t]: the high bits of a large shard id or zone
    fall off, and the [|] mixes overlapping fields. *)
(* @src include/common/id.h 28 34 MAKE_NODE_ID *)
Definition MAKE_NODE_ID (az sd_id : Z) (block_types : gset string) : Z :=
  let ccb_flag := if bool_decide (BLOCK_CCB ∈ block_types) then CCB_FLAG else 0 in
  let rlb_flag := if bool_decide (BLOCK_RLB ∈ block_types) then RLB_FLAG else 0 in
  let dsb_flag := if bool_decide (BLOCK_DSB ∈ block_types) then DSB_FLAG else 0 in
  Z.lor (Z.lor (Z.lor (Z.lor (u32 (Z.shiftl sd_id 16)) (u32 (Z.shiftl az 8)))
                  ccb_flag) rlb_flag) dsb_flag.

(* @src include/common/id.h 36 36 TO_RG_ID *)
Definition TO_RG_ID (node_id : Z) : Z := Z.shiftr node_id 16.
(* @src include/common/id.h 38 40 TO_AZ_ID *)
Definition TO_AZ_ID (node_id : Z) : Z := Z.shiftr (Z.land node_id 0xff00) 8.
(* @src include/common/id.h 42 44 is_ccb_block *)
Definition is_ccb_block (node_id : Z) : bool := negb (Z.land node_id CCB_FLAG =? 0).
(* @src include/common/id.h 46 48 is_rlb_block *)
Definition is_rlb_block (node_id : Z) : bool := negb (Z.land node_id RLB_FLAG =? 0).
(* @src include/common/id.h 50 52 is_dsb_block *)
Definition is_dsb_block (node_id : Z) : bool := negb (Z.land node_id DSB_FLAG =? 0).

(* @src include/common/id.h 54 64 is_block_type *)
Definition is_block_type (node_id : Z) (id : block_type_id_t) : bool :=
  match id with
  | BLOCK_TYPE_ID_DSB => is_dsb_block node_id
  | BLOCK_TYPE_ID_CCB => is_ccb_block node_id
  | BLOCK_TYPE_ID_RLB => is_rlb_block node_id
  | BLOCK_TYPE_SIZE => false
  end.

(* @src include/common/block_type.h 44 52 node_type_id_2_name *)
Definition node_type_id_2_name (id : block_type_id_t) : string :=
  match id with
  | BLOCK_TYPE_ID_CCB => BLOCK_CCB
  | BLOCK_TYPE_ID_RLB => BLOCK_RLB
  | BLOCK_TYPE_ID_DSB => BLOCK_DSB
  | BLOCK_TYPE_SIZE => ""%string
  end.

(** The block flags as one three-bit number. *)
Definition flags (block_types : gset string) : Z :=
  (if bool_decide (BLOCK_CCB ∈ block_types) then 1 else 0)
  + (if bool_decide (BLOCK_RLB ∈ block_types) then 2 else 0)
  + (if bool_decide (BLOCK_DSB ∈ block_types) then 4 else 0).

Lemma flags_bound bt : 0 ≤ flags bt < 8.
Proof. unfold flags. repeat case_bool_decide; lia. Qed.

Lemma lor_disjoint_add a b k : 0 ≤ k → 0 ≤ b < 2 ^ k →
  Z.lor (Z.shiftl a k) b = a * 2 ^ k + b.
Proof.
  intros Hk Hb. rewrite <- Z.shiftl_mul_pow2 by lia.
  symmetry. rewrite <- Z.add_lor_land.
  assert (Z.land (Z.shiftl a k) b = 0) as ->; [|lia].
  apply Z.bits_inj'. intros i Hi. rewrite Z.land_spec, Z.bits_0.
  destruct (decide (i < k)).
  - by rewrite Z.shiftl_spec_low by lia.
  - rewrite andb_false_iff. right.
    rewrite <- (Z.mod_small b (2 ^ k)) by lia. apply Z.mod_pow2_bits_high. lia.
Qed.

(** In range, packing is positional notation. *)
Lemma MAKE_NODE_ID_eq az sd bt :
  fits 8 az → fits 16 sd →
  MAKE_NODE_ID az sd bt = sd * 2 ^ 16 + az * 2 ^ 8 + flags bt.
Proof.
  intros [Ha1 Ha2] [Hs1 Hs2]. unfold MAKE_NODE_ID.
  rewrite (wrap_small 32 (Z.shiftl sd 16)), (wrap_small 32 (Z.shiftl az 8))
    by (unfold fits; rewrite Z.shiftl_mul_pow2 by lia; lia).
  rewrite <- !Z.lor_assoc.
  set (f := Z.lor (if bool_decide (BLOCK_CCB ∈ bt) then CCB_FLAG else 0) _).
  assert (f = flags bt) as Hf.
  { unfold f, flags, CCB_FLAG, RLB_FLAG, DSB_FLAG. by repeat case_bool_decide. }
  rewrite Hf. pose proof (flags_bound bt) as Hb.
  rewrite (lor_disjoint_add az (flags bt)) by lia.
  rewrite lor_disjoint_add by lia. lia.
Qed.

Lemma flag_of_sum a c r d :
  c = 0 ∨ c = 1 → r = 0 ∨ r = 2 → d = 0 ∨ d = 4 →
  Z.land (a * 2 ^ 8 + (c + r + d)) 1 = c ∧
  Z.land (a * 2 ^ 8 + (c + r + d)) 2 = r ∧
  Z.land (a * 2 ^ 8 + (c + r + d)) 4 = d.
Proof.
  intros Hc Hr Hd.
  assert (∀ k m, 0 ≤ k ≤ 2 → m = 2 ^ k →
    Z.land (a * 2 ^ 8 + (c + r + d)) m = Z.land (c + r + d) m) as Hland.
  { intros k m Hk ->. apply Z.bits_inj'. intros i Hi.
    rewrite !Z.land_spec, Z.pow2_bits_eqb by lia.
    destruct (Z.eqb_spec k i) as [<-|]; [|by rewrite !andb_false_r].
    rewrite <- (Z.mod_pow2_bits_low (a * 2 ^ 8 + _) 8 k),
            <- (Z.mod_pow2_bits_low (c + r + d) 8 k) by lia.
    by rewrite Z.add_comm, Z.mod_add by lia. }
  rewrite (Hland 0 1), (Hland 1 2), (Hland 2 4) by lia.
  destruct Hc as [->| ->], Hr as [->| ->], Hd as [->| ->]; by vm_compute.
Qed.

Lemma MAKE_NODE_ID_flag az sd bt :
  fits 8 az → fits 16 sd →
  is_ccb_block (MAKE_NODE_ID az sd bt) = bool_decide (BLOCK_CCB ∈ bt) ∧
  is_rlb_block (MAKE_NODE_ID az sd bt) = bool_decide (BLOCK_RLB ∈ bt) ∧
  is_dsb_block (MAKE_NODE_ID az sd bt) = bool_decide (BLOCK_DSB ∈ bt).
Proof.
  intros Ha Hs. rewrite MAKE_NODE_ID_eq by done.
  unfold is_ccb_block, is_rlb_block, is_dsb_block, CCB_FLAG, RLB_FLAG, DSB_FLAG, flags.
  replace (sd * 2 ^ 16 + az * 2 ^ 8) with ((sd * 2 ^ 8 + az) * 2 ^ 8) by lia.
  edestruct (flag_of_sum (sd * 2 ^ 8 + az)) as (-> & -> & ->);
    repeat case_bool_decide; auto.
Qed.

Lemma az_of_sum sd az f :
  0 ≤ sd → 0 ≤ az < 2 ^ 8 → 0 ≤ f < 2 ^ 8 →
  TO_AZ_ID (sd * 2 ^ 16 + az * 2 ^ 8 + f) = az.
Proof.
  intros Hs Ha Hf. unfold TO_AZ_ID.
  change 0xff00 with (Z.shiftl (Z.ones 8) 8).
  rewrite Z.shiftr_land, Z.shiftr_shiftl_l, Z.shiftl_0_r by lia.
  rewrite Z.land_ones, Z.shiftr_div_pow2 by lia.
  replace ((sd * 2 ^ 16 + az * 2 ^ 8 + f) `div` 2 ^ 8) with (az + sd * 2 ^ 8)
    by (apply Z.div_unique with f; lia).
  rewrite Z.mod_add by lia. by apply Z.mod_small.
Qed.

(** Packing a node id and reading its parts back: for a zone on 8 bits
    and a shard on 16 bits, [TO_RG_ID] and [TO_AZ_ID] return the shard and
    the zone, [is_block_type] tells for every block type whether it was in
    the packed set, and the id fits its 32-bit typedef. *)
Theorem node_id_roundtrip az sd bt :
  fits 8 az → fits 16 sd →
  TO_RG_ID (MAKE_NODE_ID az sd bt) = sd ∧
  TO_AZ_ID (MAKE_NODE_ID az sd bt) = az ∧
  (∀ t, t ≠ BLOCK_TYPE_SIZE →
    is_block_type (MAKE_NODE_ID az sd bt) t = bool_decide (node_type_id_2_name t ∈ bt)) ∧
  fits 32 (MAKE_NODE_ID az sd bt).
Proof.
  intros Ha Hs. destruct (MAKE_NODE_ID_flag az sd bt Ha Hs) as (HC & HR & HD).
  split_and!.
  - rewrite MAKE_NODE_ID_eq by done. pose proof (flags_bound bt). unfold fits in *.
    unfold TO_RG_ID. rewrite Z.shiftr_div_pow2 by lia.
    symmetry. apply Z.div_unique with (az * 2 ^ 8 + flags bt); lia.
  - rewrite MAKE_NODE_ID_eq by done. pose proof (flags_bound bt). unfold fits in *.
    apply az_of_sum; lia.
  - intros [] Ht; simpl; done.
  - rewrite MAKE_NODE_ID_eq by done. pose proof (flags_bound bt). unfold fits in *. lia.
Qed.

Lemma node_id_roundtrip_witness :
  TO_RG_ID (MAKE_NODE_ID 3 7 {[BLOCK_RLB]}) = 7.
Proof. destruct (node_id_roundtrip 3 7 {[BLOCK_RLB]}) as [H _]; [split; lia..|exact H]. Defined.
End NodeId.

(** ** Tuple keys of the TPC-C tables *)

Module Keys.

(* @src include/common/make_key.h 5 10 make_customer_key *)
Definition make_customer_key (wid did cid num_warehouse num_district : Z) : Z :=
  u64 (wid + did * (num_warehouse + 1)
       + cid * (num_warehouse + 1) * (num_district + 1)).

(* @src include/common/make_key.h 12 15 make_stock_key *)
Definition make_stock_key (wid iid num_warehouse : Z) : Z :=
  u64 (wid + iid * (num_warehouse + 1)).

(* @src include/common/make_key.h 17 22 make_order_key *)
Definition make_order_key (wid did oid num_warehouse num_district : Z) : Z :=
  u64 (wid + did * (num_warehouse + 1)
       + oid * (num_warehouse + 1) * (num_district + 1)).

(* @src include/common/make_key.h 24 27 make_district_key *)
Definition make_district_key (wid did num_warehouse : Z) : Z :=
  u64 (wid + did * (num_warehouse + 1)).

(* @src include/common/make_key.h 29 38 make_order_line_key *)
Definition make_order_line_key (wid did oid olid num_warehouse num_district num_order : Z) : Z :=
  u64 (wid + did * (num_warehouse + 1)
       + oid * (num_warehouse + 1) * (num_district + 1)
       + (num_order + 1) * (num_warehouse + 1) * (num_district + 1) * olid).

(** Two-digit mixed-radix numbers are equal only digit by digit. *)
Lemma radix_inj B a a' b b' :
  0 ≤ a < B → 0 ≤ a' < B → a + B * b = a' + B * b' → a = a' ∧ b = b'.
Proof.
  intros Ha Ha' E.
  destruct (Zdiv.Zdiv_mod_unique B b b' a a') as [-> ->]; lia.
Qed.

Lemma radix_fits nd nw x y z :
  0 ≤ nw → 0 ≤ nd → 0 ≤ x ≤ nw → 0 ≤ y ≤ nd → 0 ≤ z →
  (nw + 1) * (nd + 1) * (z + 1) ≤ 2 ^ 64 →
  fits 64 (x + (nw + 1) * (y + (nd + 1) * z)).
Proof.
  intros Hnw Hnd Hx Hy Hz Hf. set (t := y + (nd + 1) * z).
  assert (0 ≤ (nd + 1) * z) by (apply Z.mul_nonneg_nonneg; lia).
  assert (0 ≤ (nw + 1) * t) by (apply Z.mul_nonneg_nonneg; lia).
  assert ((nw + 1) * t ≤ (nw + 1) * ((nd + 1) * (z + 1) - 1))
    by (apply Z.mul_le_mono_nonneg_l; lia).
  unfold fits. lia.
Qed.

Section bounded.
Context (nw nd no : Z).
Hypothesis (Hnw : 0 ≤ nw) (Hnd : 0 ≤ nd) (Hno : 0 ≤ no).

Lemma make_order_key_inj w d o w' d' o' :
  0 ≤ w ≤ nw → 0 ≤ w' ≤ nw → 0 ≤ d ≤ nd → 0 ≤ d' ≤ nd → 0 ≤ o → 0 ≤ o' →
  (nw + 1) * (nd + 1) * (o + 1) ≤ 2 ^ 64 → (nw + 1) * (nd + 1) * (o' + 1) ≤ 2 ^ 64 →
  make_order_key w d o nw nd = make_order_key w' d' o' nw nd →
  w = w' ∧ d = d' ∧ o = o'.
Proof.
  intros Hw Hw' Hd Hd' Ho Ho' Hf Hf' E.
  assert (∀ x y z, 0 ≤ x ≤ nw → 0 ≤ y ≤ nd → 0 ≤ z → (nw + 1) * (nd + 1) * (z + 1) ≤ 2 ^ 64 →
    make_order_key x y z nw nd = x + (nw + 1) * (y + (nd + 1) * z)) as Hmk.
  { intros x y z Hx Hy Hz Hf0. unfold make_order_key.
    replace (x + y * (nw + 1) + z * (nw + 1) * (nd + 1))
      with (x + (nw + 1) * (y + (nd + 1) * z)) by ring.
    apply wrap_small. apply (radix_fits nd); lia. }
  rewrite !Hmk in E by done.
  apply radix_inj in E as [-> E]; [|lia..].
  apply radix_inj in E as [-> ->]; lia.
Qed.
End bounded.
End Keys.

(** ** Operations, logs and requests

    The protocol-buffer messages the concurrency block exchanges
    ([src/proto/tx_operation.proto], [tx_log.proto], [tx_request.proto]),
    restricted to the fields the modelled code reads.  A tuple is its binary
    string; the empty string is the nil tuple ([is_tuple_nil]). *)

(* @src include/proto/tx_op_type.h 5 7 is_write_operation *)
Definition is_write_operation (op : tx_op_type) : bool :=
  match op with TX_OP_UPDATE | TX_OP_INSERT | TX_OP_DELETE => true | _ => false end.

(* @src src/proto/tx_operation.proto 15 26 tx_operation *)
Record tx_operation := mk_op {
  op_type : tx_op_type;
  op_xid : Z;
  op_sd_id : Z;
  op_table_id : Z;
  op_shard_id : Z;
  op_tuple_id : Z;
  op_tuple : string;
  op_operation_id : Z;
}.
#[export] Instance eta_op : Eta tx_operation := fun o =>
  mk_op (op_type o) (op_xid o) (op_sd_id o) (op_table_id o) (op_shard_id o) (op_tuple_id o)
    (op_tuple o) (op_operation_id o).

(* @src src/proto/tx_log.proto 23 27 tx_log *)
Record tx_log := mk_log {
  log_type : tx_cmd_type;
  log_xid : Z;
  log_operations : list tx_operation;
}.
#[export] Instance eta_log : Eta tx_log := fun l =>
  mk_log (log_type l) (log_xid l) (log_operations l).

(** A default-constructed protocol-buffer log. *)
Definition new_log : tx_log := mk_log TX_CMD_RM_READ 0 [].

(* @src src/proto/tx_request.proto 5 15 tx_request *)
Record tx_request := mk_request {
  req_xid : Z;
  req_source : Z;
  req_dest : Z;
  req_read_only : bool;
  req_oneshot : bool;
  req_distributed : bool;
  req_client_request : bool;
  req_operations : list tx_operation;
  req_terminal_id : Z;
}.
#[export] Instance eta_request : Eta tx_request := fun r =>
  mk_request (req_xid r) (req_source r) (req_dest r) (req_read_only r) (req_oneshot r)
    (req_distributed r) (req_client_request r) (req_operations r) (req_terminal_id r).

Definition new_request : tx_request := mk_request 0 0 0 false false false false [] 0.

(* @src src/proto/tuple_row.proto 5 10 tuple_row *)
Record tuple_row := mk_row { tr_table_id : Z; tr_shard_id : Z; tr_tuple_id : Z; tr_tuple : string }.
(* @src src/proto/block.proto 24 34 ccb_read_request *)
Record ccb_read_request := mk_read_request {
  rq_source : Z; rq_dest : Z; rq_cno : Z; rq_xid : Z; rq_oid : Z; rq_table_id : Z; rq_shard_id : Z; rq_tuple_id : Z }.
(* @src src/proto/block.proto 36 46 dsb_read_response *)
Record dsb_read_response := mk_read_response {
  rs_source : Z; rs_dest : Z; rs_xid : Z; rs_oid : Z; rs_error_code : EC; rs_tuple_row : option tuple_row }.

(* @src include/common/tuple.h 41 41 is_tuple_nil *)
Definition is_tuple_nil (t : string) : bool := String.eqb t "".

(** [PANIC] when the shard is unknown is [None]. *)
(* @src include/common/shard2node.h 8 23 node_id_of_shard *)
Definition node_id_of_shard (shard_id : Z) (opt_node_id : option Z) (shard2node : gmap Z Z)
    : option Z :=
  match opt_node_id with
  | Some n => Some n
  | None => shard2node !! shard_id
  end.

(* @src include/common/make_int.h 5 7 make_uint64 *)
Definition make_uint64 (a b : Z) : Z := Z.lor (u64 (Z.shiftl a 32)) b.
(* @src include/common/make_int.h 9 9 higher_uint32 *)
Definition higher_uint32 (i : Z) : Z := u32 (Z.shiftr i 32).
(** The mask keeps the upper half of the low word only. *)
(* @src include/common/make_int.h 11 11 lower_uint32 *)
Definition lower_uint32 (i : Z) : Z := u32 (Z.land i 0xffff0000).
