(* ===== verification/LockSlot.v ===== *)
(** * The lock slot: shared/exclusive locking of one tuple

    [src/concurrency/lock_slot.cpp] with [include/concurrency/lock_slot.h] and
    [include/concurrency/lock.h].  A slot guards one tuple: the transactions
    that hold it in read or write mode, a FIFO queue of waiters, and a record
    per transaction ([info_]).  Each public method runs under the slot's mutex
    and on the lock manager's strand, so an operation is one atomic step of
    the model.  The callbacks a method makes ([fn_before_], [fn_after_],
    [tx_rm::async_lock_acquire], the deadlock detector's registration) are the
    list of events the operation returns, in call order. *)

From S2P Require Import Prelude Common.
#[local] Open Scope Z_scope.

Module LockSlot.

(** ** State *)

(** A transaction's record in a slot.  [ctx_] is the transaction the shared
    pointer refers to, named by its xid. *)
(* @src include/concurrency/lock.h 14 34 tx_lock_ctx *)
Record tx_lock_ctx := mk_ctx {
  ctx_ : Z;
  oid_ : list Z;
  type_ : lock_mode;
  acquired_ : bool;
}.
#[export] Instance eta_ctx : Eta tx_lock_ctx :=
  fun c => mk_ctx (ctx_ c) (oid_ c) (type_ c) (acquired_ c).

(* @src include/concurrency/lock_slot.h 25 33 xid_oid_t *)
Record xid_oid_t := mk_xid_oid { xid_ : Z; xo_oid_ : Z }.

(** [fn_before_] and [fn_after_] are optional callbacks: the record keeps
    whether each is set. *)
(* @src include/concurrency/lock_slot.h 34 55 lock_slot *)
Record lock_slot := mk_slot {
  table_id_ : Z;
  shard_id_ : Z;
  tuple_id_ : Z;
  fn_before_ : bool;
  fn_after_ : bool;
  read_count_ : Z;
  write_count_ : Z;
  read_ : gset Z;
  write_ : gset Z;
  wait_ : list xid_oid_t;
  info_ : gmap Z tx_lock_ctx;
}.
#[export] Instance eta_slot : Eta lock_slot :=
  fun s => mk_slot (table_id_ s) (shard_id_ s) (tuple_id_ s) (fn_before_ s) (fn_after_ s)
    (read_count_ s) (write_count_ s) (read_ s) (write_ s) (wait_ s) (info_ s).

(** What a slot tells the outside world. *)
Inductive slot_event :=
| FnBefore (cmd : tx_cmd_type) (xid oid : Z)
| FnAfter (cmd : tx_cmd_type) (xid oid : Z)
| LockAcquire (ec : EC) (xid oid : Z)
| AddDependency (xid : Z).

Definition is_read_mode (m : lock_mode) : bool :=
  match m with LOCK_READ_ROW | LOCK_READ_PREDICATE => true | _ => false end.

(** ** Operations *)

Section operations.
(** [is_non_deterministic()] of the running database, and the owning lock
    manager's [conflict] ([None] when [mgr_] is null). *)
Context (non_deterministic : bool).
Context (mgr_conflict : option (Z → Z → bool)).

(* @src src/concurrency/lock_slot.cpp 11 15 lock_slot::lock_slot *)
Definition new_slot (table_id shard_id tuple_id : Z) (before after : bool) : lock_slot :=
  mk_slot table_id shard_id tuple_id before after 0 0 ∅ ∅ [] ∅.

(* @src src/concurrency/lock_slot.cpp 463 472 lock_slot::on_lock_acquired *)
Definition on_lock_acquired (s : lock_slot) (ec : EC) (mode : lock_mode) (txn oid : Z)
    : list slot_event :=
  (if fn_after_ s
   then [FnAfter (if is_read_mode mode then TX_CMD_RM_READ else TX_CMD_RM_WRITE) txn oid]
   else [])
  ++ [LockAcquire ec txn oid].

(** Returns the slot and whether the transaction already held it. *)
(* @src src/concurrency/lock_slot.cpp 402 422 lock_slot::add_lock_info *)
Definition add_lock_info (mode : lock_mode) (ctx oid : Z) (s : lock_slot) : lock_slot * bool :=
  match info_ s !! ctx with
  | Some iw =>
      (s <| info_ := <[ctx := iw <| oid_ := oid_ iw ++ [oid] |>]> (info_ s) |>,
       acquired_ iw)
  | None =>
      (s <| info_ := <[ctx := mk_ctx ctx [oid] mode false]> (info_ s) |>, false)
  end.

(* @src src/concurrency/lock_slot.cpp 44 56 lock_slot::add_wait *)
Definition add_wait (x oid : Z) (s : lock_slot) : lock_slot * list slot_event :=
  (s <| wait_ := wait_ s ++ [mk_xid_oid x oid] |>,
   if non_deterministic then [AddDependency x] else []).

(** [info->acquired_ = true] through the pointer stored in [info_]. *)
Definition mark_acquired (x : Z) (I : gmap Z tx_lock_ctx) : gmap Z tx_lock_ctx :=
  alter (fun i => i <| acquired_ := true |>) x I.
Definition set_acquired (x : Z) (s : lock_slot) : lock_slot :=
  s <| info_ := mark_acquired x (info_ s) |>.

(* @src src/concurrency/lock_slot.cpp 58 70 lock_slot::add_read *)
Definition add_read (x : Z) (s : lock_slot) : lock_slot :=
  let s := set_acquired x s in
  if bool_decide (x ∈ read_ s) then s
  else s <| read_count_ := u32 (read_count_ s + 1) |> <| read_ := {[x]} ∪ read_ s |>.

(* @src src/concurrency/lock_slot.cpp 72 85 lock_slot::add_write *)
Definition add_write (x : Z) (s : lock_slot) : lock_slot :=
  let s := set_acquired x s in
  if bool_decide (x ∈ write_ s) then s
  else s <| write_count_ := u32 (write_count_ s + 1) |> <| write_ := {[x]} ∪ write_ s |>.

(* @src src/concurrency/lock_slot.cpp 134 147 lock_slot::acquire_read_lock *)
Definition acquire_read_lock (x oid : Z) (s : lock_slot) : bool * lock_slot * list slot_event :=
  if write_count_ s =? 0 then (true, add_read x s, [])
  else let '(s, ev) := add_wait x oid s in (false, s, ev).

Definition before_event (s : lock_slot) (cmd : tx_cmd_type) (x oid : Z) : list slot_event :=
  if fn_before_ s then [FnBefore cmd x oid] else [].

(* @src src/concurrency/lock_slot.cpp 87 105 lock_slot::read_lock *)
Definition read_lock (x oid : Z) (s : lock_slot) : bool * lock_slot * list slot_event :=
  let '(acquire, s, ev) := acquire_read_lock x oid s in
  (acquire, s, ev ++ before_event s TX_CMD_RM_READ x oid
               ++ if acquire then on_lock_acquired s EC_OK LOCK_READ_ROW x oid else []).

(* @src src/concurrency/lock_slot.cpp 107 132 lock_slot::write_lock *)
Definition write_lock (x oid : Z) (s : lock_slot) : bool * lock_slot * list slot_event :=
  let '(acquire, s, ev) :=
    if (write_count_ s =? 0) && (read_count_ s =? 0) then (true, add_write x s, [])
    else let '(s, ev) := add_wait x oid s in (false, s, ev) in
  (acquire, s, ev ++ before_event s TX_CMD_RM_WRITE x oid
               ++ if acquire then on_lock_acquired s EC_OK LOCK_WRITE_ROW x oid else []).

(* @src src/concurrency/lock_slot.cpp 19 36 lock_slot::lock *)
Definition lock (type : lock_mode) (tx oid : Z) (s : lock_slot)
    : bool * lock_slot * list slot_event :=
  let '(s, held) := add_lock_info type tx oid s in
  if held then (true, s, on_lock_acquired s EC_OK LOCK_READ_ROW tx oid)
  else match type with
       | LOCK_READ_ROW | LOCK_READ_PREDICATE => read_lock tx oid s
       | LOCK_WRITE_ROW => write_lock tx oid s
       | LOCK_INVALID => (false, s, [])
       end.

(* @src src/concurrency/lock_slot.cpp 156 197 lock_slot::remove_lock *)
Definition remove_lock (xid : Z) (s : lock_slot) : bool * lock_slot :=
  match info_ s !! xid with
  | Some ti =>
      if acquired_ ti then
        match type_ ti with
        | LOCK_READ_ROW | LOCK_READ_PREDICATE =>
            let s := s <| info_ := delete xid (info_ s) |> in
            (true, if bool_decide (xid ∈ read_ s)
                   then s <| read_count_ := u32 (read_count_ s - 1) |>
                          <| read_ := read_ s ∖ {[xid]} |>
                   else s)
        | LOCK_WRITE_ROW =>
            let s := s <| info_ := delete xid (info_ s) |> in
            (true, if bool_decide (xid ∈ write_ s)
                   then s <| write_ := write_ s ∖ {[xid]} |>
                          <| write_count_ := u32 (write_count_ s - 1) |>
                   else s)
        | LOCK_INVALID => (true, s)
        end
      else
        (true, s <| info_ := delete xid (info_ s) |>
                 <| wait_ := filter (fun w => xid_ w ≠ xid) (wait_ s) |>)
  | None => (false, s)
  end.

(** The [while] loop over the queue: the transactions to wake, in order,
    and the queue that remains.  A record of mode [LOCK_INVALID] at the head
    neither leaves the queue nor the loop: the source spins ([None]). *)
(* @src src/concurrency/lock_slot.cpp 206 245 lock_slot::notify_lock_acquire *)
Fixpoint notify_scan (s : lock_slot) (read write : Z) (wait : list xid_oid_t)
    : option (list Z * list xid_oid_t) :=
  match wait with
  | [] => Some ([], [])
  | xo :: wait' =>
      match info_ s !! xid_ xo with
      | None => notify_scan s read write wait'
      | Some i =>
          match type_ i with
          | LOCK_READ_ROW | LOCK_READ_PREDICATE =>
              if (write =? 0) && (write_count_ s =? 0) then
                let blocked :=
                  match type_ i, mgr_conflict with
                  | LOCK_READ_PREDICATE, Some conflict => conflict (ctx_ i) (xo_oid_ xo)
                  | _, _ => false
                  end in
                if blocked then Some ([], wait)
                else prod_map (cons (xid_ xo)) id <$> notify_scan s (u32 (read + 1)) write wait'
              else Some ([], wait)
          | LOCK_WRITE_ROW =>
              if ((read =? 0) && (write =? 0)) && ((read_count_ s =? 0) && (write_count_ s =? 0))
              then Some ([xid_ xo], wait')
              else Some ([], wait)
          | LOCK_INVALID => None
          end
      end
  end.

(** One turn of the second loop: the woken transaction becomes a holder and
    each of its pending operations is told. *)
(* @src src/concurrency/lock_slot.cpp 247 270 lock_slot::notify_lock_acquire *)
Definition notify_grant (x : Z) (s : lock_slot) : lock_slot * list slot_event :=
  match info_ s !! x with
  | Some i =>
      let s := if is_read_mode (type_ i) then add_read x s
               else match type_ i with
                    | LOCK_WRITE_ROW => add_write x s
                    | _ => set_acquired x s
                    end in
      (s, concat (map (on_lock_acquired s EC_OK (type_ i) (ctx_ i)) (oid_ i)))
  | None => (s, [])
  end.

Fixpoint notify_all (xs : list Z) (s : lock_slot) : lock_slot * list slot_event :=
  match xs with
  | [] => (s, [])
  | x :: xs =>
      let '(s, ev) := notify_grant x s in
      let '(s, ev') := notify_all xs s in (s, ev ++ ev')
  end.

(* @src src/concurrency/lock_slot.cpp 199 282 lock_slot::notify_lock_acquire *)
Definition notify_lock_acquire (s : lock_slot) : option (lock_slot * list slot_event) :=
  '(xs, wait) ← notify_scan s 0 0 (wait_ s);
  Some (notify_all xs (s <| wait_ := wait |>)).

(* @src src/concurrency/lock_slot.cpp 149 154 lock_slot::unlock_gut *)
Definition unlock_gut (xid : Z) (s : lock_slot) : option (lock_slot * list slot_event) :=
  notify_lock_acquire (remove_lock xid s).2.

(* @src src/concurrency/lock_slot.cpp 38 42 lock_slot::unlock *)
Definition unlock (tx : Z) (s : lock_slot) : option (lock_slot * list slot_event) :=
  unlock_gut tx s.

(** The transactions a waiter is reported to wait for ([w->in_set_]). *)
(* @src src/concurrency/lock_slot.cpp 423 433 lock_slot::tx_build_dependency *)
Definition tx_build_dependency (xid : Z) (s : lock_slot) : gset Z :=
  match info_ s !! xid with
  | Some i =>
      match type_ i with
      | LOCK_READ_ROW => write_ s
      | LOCK_WRITE_ROW => read_ s ∪ write_ s
      | _ => ∅
      end
  | None => ∅
  end.

(* @src src/concurrency/lock_slot.cpp 349 356 lock_slot::build_dependency *)
Definition build_dependency (s : lock_slot) : list (Z * gset Z) :=
  map (fun w => (xid_ w, tx_build_dependency (xid_ w) s)) (wait_ s).

(* @src src/concurrency/lock_slot.cpp 369 382 lock_slot::tx_wait_for *)
Definition tx_wait_for (xid : Z) (s : lock_slot) : result (gset Z) :=
  match info_ s !! xid with
  | None => inr EC_NOT_FOUND_ERROR
  | Some i => if acquired_ i then inr EC_NOT_FOUND_ERROR
              else inl (tx_build_dependency xid s)
  end.

(** The callback the deadlock detector polls for a waiter; [ended] is
    [rm->is_end()]. *)
(* @src src/concurrency/lock_slot.cpp 384 400 lock_slot::async_add_dependency *)
Definition poll_dependency (xid : Z) (ended : bool) (s : lock_slot) : result (gset Z) :=
  if ended then inr EC_NOT_FOUND_ERROR else tx_wait_for xid s.

(* @src src/concurrency/lock_slot.cpp 435 462 lock_slot::predicate_conflict *)
Definition predicate_conflict (xid oid txn : Z) (s : lock_slot) : bool * lock_slot :=
  let acquire := write_count_ s =? 0 in
  match info_ s !! xid with
  | Some ir => (if acquired_ ir then true else acquire, s)
  | None =>
      let s := if acquire then s <| read_count_ := u32 (read_count_ s + 1) |>
               else s <| wait_ := wait_ s ++ [mk_xid_oid xid oid] |> in
      (acquire, s <| info_ := <[xid := mk_ctx txn [oid] LOCK_READ_PREDICATE acquire]> (info_ s) |>)
  end.

(** The assertions the slot re-checks around every change. *)
(* @src src/concurrency/lock_slot.cpp 358 367 lock_slot::assert_check *)
Definition assert_check (s : lock_slot) : bool :=
  (write_count_ s =? Z.of_nat (size (write_ s))) && (read_count_ s =? Z.of_nat (size (read_ s))).
End operations.

(** ** Well-formedness

    [core p s]: the counters, the holder sets, the queue and the records agree,
    where the transactions of [p] have been taken off the queue (or not yet
    put on it) and are about to be granted.  Between operations [p] is empty. *)

Definition holder (m : lock_mode → bool) (I : gmap Z tx_lock_ctx) (x : Z) : Prop :=
  ∃ i, I !! x = Some i ∧ acquired_ i = true ∧ m (type_ i) = true.

Definition is_write_mode (m : lock_mode) : bool :=
  match m with LOCK_WRITE_ROW => true | _ => false end.

Definition waiter (I : gmap Z tx_lock_ctx) (x : Z) : Prop :=
  ∃ i, I !! x = Some i ∧ acquired_ i = false.

Definition row_mode (m : lock_mode) : bool :=
  match m with LOCK_READ_ROW | LOCK_WRITE_ROW => true | _ => false end.

Record core (p : list Z) (s : lock_slot) : Prop := {
  core_rc : read_count_ s = Z.of_nat (size (read_ s));
  core_wc : write_count_ s = Z.of_nat (size (write_ s));
  core_cap : Z.of_nat (size (info_ s)) < 2 ^ 32;
  core_read : ∀ x, x ∈ read_ s ↔ holder is_read_mode (info_ s) x;
  core_write : ∀ x, x ∈ write_ s ↔ holder is_write_mode (info_ s) x;
  core_wait : ∀ x, x ∈ p ++ map xid_ (wait_ s) ↔ waiter (info_ s) x;
  core_nodup : NoDup (p ++ map xid_ (wait_ s));
  core_ctx : ∀ x i, info_ s !! x = Some i → ctx_ i = x ∧ row_mode (type_ i) = true;
  core_excl : write_ s = ∅ ∨ (∃ x, write_ s = {[x]}) ∧ read_ s = ∅;
}.

(** No waiter is left behind: if someone waits then someone holds, and a
    reader at the head of the queue waits for a writer. *)
Definition queue_blocked (s : lock_slot) : Prop :=
  match wait_ s with
  | [] => True
  | h :: _ => ∀ i, info_ s !! xid_ h = Some i →
      write_ s ≠ ∅ ∨ (is_write_mode (type_ i) = true ∧ read_ s ≠ ∅)
  end.

Definition wf (s : lock_slot) : Prop := core [] s ∧ queue_blocked s.

Lemma row_mode_cases m : row_mode m = true → m = LOCK_READ_ROW ∨ m = LOCK_WRITE_ROW.
Proof. destruct m; naive_solver. Qed.

Lemma core_holders_bound p s : core p s →
  Z.of_nat (size (read_ s)) < 2 ^ 32 ∧ Z.of_nat (size (write_ s)) < 2 ^ 32.
Proof.
  intros [_ _ Hcap Hr Hw _ _ _ _].
  assert (size (read_ s) ≤ size (dom (info_ s)) ∧ size (write_ s) ≤ size (dom (info_ s)))%nat as [? ?].
  { split; apply subseteq_size; intros x Hx; apply elem_of_dom.
    - apply Hr in Hx as (i & Hi & _). by exists i.
    - apply Hw in Hx as (i & Hi & _). by exists i. }
  rewrite size_dom in *. lia.
Qed.

Lemma core_write_free p s : core p s → (write_count_ s =? 0) = true ↔ write_ s = ∅.
Proof. intros H. rewrite Z.eqb_eq, (core_wc _ _ H). apply size_zero_iff. Qed.

Lemma core_read_free p s : core p s → (read_count_ s =? 0) = true ↔ read_ s = ∅.
Proof. intros H. rewrite Z.eqb_eq, (core_rc _ _ H). apply size_zero_iff. Qed.

Arguments mark_acquired : simpl never.

(** Marking a record acquired changes the record of that transaction only. *)
Lemma lookup_mark x I y :
  mark_acquired x I !! y =
  if decide (x = y) then (fun i => i <| acquired_ := true |>) <$> I !! x else I !! y.
Proof.
  unfold mark_acquired. case_decide as E.
  - subst. apply lookup_alter_eq.
  - by apply lookup_alter_ne.
Qed.

Lemma size_mark x I : size (mark_acquired x I) = size I.
Proof. unfold mark_acquired. rewrite <- !(size_dom (D := gset Z)). by rewrite dom_alter_L. Qed.

Lemma holder_mark m x I y i :
  I !! x = Some i →
  holder m (mark_acquired x I) y ↔ (y = x ∧ m (type_ i) = true) ∨ (y ≠ x ∧ holder m I y).
Proof.
  intros Hi. unfold holder. setoid_rewrite lookup_mark.
  destruct (decide (x = y)) as [->|Hne].
  - rewrite Hi; simpl. split.
    + intros (j & [= <-] & _ & Hm). left. by split.
    + intros [[_ Hm]|[? _]]; [|done]. eexists; split_and!; [done| |]; done.
  - naive_solver.
Qed.

Lemma waiter_mark x I y : waiter (mark_acquired x I) y ↔ y ≠ x ∧ waiter I y.
Proof.
  unfold waiter. setoid_rewrite lookup_mark.
  destruct (decide (x = y)) as [->|Hne].
  - destruct (I !! y); simpl; naive_solver.
  - naive_solver.
Qed.

(** The fields of a slot that a grant changes, as one shape for both modes. *)
Lemma core_pending_fresh x p s i :
  core (x :: p) s → info_ s !! x = Some i →
  acquired_ i = false ∧ x ∉ read_ s ∧ x ∉ write_ s.
Proof.
  intros H Hi.
  assert (acquired_ i = false) as Ha.
  { destruct (proj1 (core_wait _ _ H x)) as (j & Hj & Ha); [set_solver|congruence]. }
  split_and!; [done| |].
  - rewrite (core_read _ _ H). intros (j & Hj & Hb & _). congruence.
  - rewrite (core_write _ _ H). intros (j & Hj & Hb & _). congruence.
Qed.

Lemma core_wait_drop x p s : core (x :: p) s →
  ∀ y, y ∈ p ++ map xid_ (wait_ s) ↔ y ≠ x ∧ waiter (info_ s) y.
Proof.
  intros H y. rewrite <- (core_wait _ _ H y). pose proof (core_nodup _ _ H) as Hnd.
  apply NoDup_cons in Hnd as [Hx _]. simpl. rewrite elem_of_cons. naive_solver.
Qed.

Lemma core_grant_read x p s i :
  core (x :: p) s → info_ s !! x = Some i → is_read_mode (type_ i) = true → write_ s = ∅ →
  core p (add_read x s) ∧ read_ (add_read x s) = {[x]} ∪ read_ s ∧ write_ (add_read x s) = ∅.
Proof.
  intros H Hi Hm Hw. destruct (core_pending_fresh _ _ _ _ H Hi) as (Ha & Hnr & _).
  unfold add_read. rewrite bool_decide_eq_false_2 by done. simpl.
  destruct (core_holders_bound _ _ H) as [Hb _].
  assert (Z.of_nat (size ({[x]} ∪ read_ s)) < 2 ^ 32) as Hb'.
  { assert (size ({[x]} ∪ read_ s) ≤ size (dom (info_ s)))%nat as Hle.
    { apply subseteq_size. intros y [->%elem_of_singleton|Hy]%elem_of_union; apply elem_of_dom.
      - by exists i.
      - apply (core_read _ _ H) in Hy as (j & Hj & _). by exists j. }
    rewrite size_dom in Hle. pose proof (core_cap _ _ H). lia. }
  split_and!; [|done|done].
  split; simpl.
  - rewrite (core_rc _ _ H), <- (size_insert_new (read_ s) x) by done. apply wrap_small. split; lia.
  - apply (core_wc _ _ H).
  - rewrite size_mark. apply (core_cap _ _ H).
  - intros y. rewrite (holder_mark _ _ _ _ i Hi), <- (core_read _ _ H). set_solver.
  - intros y. rewrite (holder_mark _ _ _ _ i Hi), <- (core_write _ _ H).
    destruct (type_ i); set_solver.
  - intros y. rewrite waiter_mark. by apply core_wait_drop.
  - pose proof (core_nodup _ _ H) as Hnd. by apply NoDup_cons in Hnd as [_ Hnd].
  - intros y j. rewrite lookup_mark. case_decide; [subst|apply (core_ctx _ _ H)].
    rewrite Hi. intros [= <-]. simpl. by apply (core_ctx _ _ H).
  - by left.
Qed.

Lemma core_grant_write x p s i :
  core (x :: p) s → info_ s !! x = Some i → type_ i = LOCK_WRITE_ROW →
  write_ s = ∅ → read_ s = ∅ →
  core p (add_write x s) ∧ write_ (add_write x s) = {[x]} ∧ read_ (add_write x s) = ∅.
Proof.
  intros H Hi Hm Hw Hr. unfold add_write. rewrite bool_decide_eq_false_2 by (simpl; set_solver).
  simpl. rewrite Hw, union_empty_r_L.
  split_and!; [|done|done].
  split; simpl.
  - apply (core_rc _ _ H).
  - rewrite (core_wc _ _ H), Hw, size_singleton. done.
  - rewrite size_mark. apply (core_cap _ _ H).
  - intros y. rewrite (holder_mark _ _ _ _ i Hi), <- (core_read _ _ H), Hm. set_solver.
  - intros y. rewrite (holder_mark _ _ _ _ i Hi), <- (core_write _ _ H), Hm. set_solver.
  - intros y. rewrite waiter_mark. by apply core_wait_drop.
  - pose proof (core_nodup _ _ H) as Hnd. by apply NoDup_cons in Hnd as [_ Hnd].
  - intros y j. rewrite lookup_mark. case_decide; [subst|apply (core_ctx _ _ H)].
    rewrite Hi. intros [= <-]. simpl. by apply (core_ctx _ _ H).
  - right. eauto.
Qed.

(** ** [lock] preserves well-formedness *)

Lemma core_add_wait nd x oid s : core [x] s → core [] (add_wait nd x oid s).1.
Proof.
  intros H. destruct H as [H1 H2 H3 H4 H5 H6 H7 H8 H9]. split; simpl; try done.
  - intros y. rewrite map_app, <- H6. simpl. set_solver.
  - rewrite map_app. simpl. by rewrite Permutation_app_comm.
Qed.

Lemma core_new_info mode x oid s :
  core [] s → info_ s !! x = None → row_mode mode = true →
  Z.of_nat (size (info_ s)) + 1 < 2 ^ 32 →
  core [x] (s <| info_ := <[x := mk_ctx x [oid] mode false]> (info_ s) |>).
Proof.
  intros H Hx Hm Hc. destruct H as [H1 H2 H3 H4 H5 H6 H7 H8 H9].
  assert (∀ m y, holder m (<[x := mk_ctx x [oid] mode false]> (info_ s)) y ↔ holder m (info_ s) y) as Hh.
  { intros m y. unfold holder. destruct (decide (x = y)) as [->|].
    - rewrite lookup_insert_eq, Hx. naive_solver.
    - by rewrite lookup_insert_ne. }
  split; simpl; try done.
  - rewrite map_size_insert_None by done. lia.
  - intros y. by rewrite Hh.
  - intros y. by rewrite Hh.
  - intros y. rewrite elem_of_cons. simpl in H6. rewrite H6. unfold waiter.
    destruct (decide (x = y)) as [->|].
    + rewrite lookup_insert_eq. naive_solver.
    + rewrite lookup_insert_ne by done. naive_solver.
  - apply NoDup_cons. split; [|done]. simpl in H6. rewrite H6. intros (i & Hi & _). congruence.
  - intros y j. destruct (decide (x = y)) as [->|].
    + rewrite lookup_insert_eq. intros [= <-]. done.
    + rewrite lookup_insert_ne by done. apply H8.
Qed.

Lemma core_touch_info x oid s i :
  core [] s → info_ s !! x = Some i →
  core [] (s <| info_ := <[x := i <| oid_ := oid_ i ++ [oid] |>]> (info_ s) |>).
Proof.
  intros H Hi. destruct H as [H1 H2 H3 H4 H5 H6 H7 H8 H9].
  assert (∀ P : tx_lock_ctx → Prop, (∀ j o, P (j <| oid_ := o |>) ↔ P j) → ∀ y,
    (∃ j, <[x := i <| oid_ := oid_ i ++ [oid] |>]> (info_ s) !! y = Some j ∧ P j) ↔
    (∃ j, info_ s !! y = Some j ∧ P j)) as Hh.
  { intros P HP y. destruct (decide (x = y)) as [->|].
    - rewrite lookup_insert_eq, Hi. split.
      + intros (j & [= <-] & Hj). exists i. split; [done|]. by apply (HP i (oid_ i ++ [oid])).
      + intros (j & [= <-] & Hj). eexists. split; [done|]. by apply (HP i (oid_ i ++ [oid])).
    - by rewrite lookup_insert_ne. }
  split; simpl; try done.
  - rewrite map_size_insert_Some by done. done.
  - intros y. rewrite H4. symmetry. by apply (Hh (fun j => acquired_ j = true ∧ _)).
  - intros y. rewrite H5. symmetry. by apply (Hh (fun j => acquired_ j = true ∧ _)).
  - intros y. simpl in H6. rewrite H6. symmetry. by apply (Hh (fun j => acquired_ j = false)).
  - intros y j. destruct (decide (x = y)) as [->|].
    + rewrite lookup_insert_eq. intros [= <-]. simpl. by apply H8.
    + rewrite lookup_insert_ne by done. apply H8.
Qed.

(** The queue stays blocked when a request joins at the back, or when a
    reader joins the holders. *)
Lemma queue_blocked_mono s s' :
  queue_blocked s → wait_ s' = wait_ s →
  (∀ h, h ∈ map xid_ (wait_ s) → type_ <$> info_ s' !! h = type_ <$> info_ s !! h) →
  write_ s ⊆ write_ s' → read_ s ⊆ read_ s' → queue_blocked s'.
Proof.
  unfold queue_blocked. intros Hq -> Hinfo Hw Hr. destruct (wait_ s) as [|h l]; [done|].
  intros i' Hi'. specialize (Hinfo (xid_ h)). simpl in Hinfo.
  rewrite Hi' in Hinfo. destruct (info_ s !! xid_ h) as [i|] eqn:Hi; simpl in Hinfo.
  - specialize (Hinfo ltac:(set_solver)). injection Hinfo as Ht. rewrite Ht.
    destruct (Hq i eq_refl) as [|[]]; set_solver.
  - specialize (Hinfo ltac:(set_solver)). done.
Qed.

Definition may_lock (x : Z) (s : lock_slot) : Prop :=
  ∀ i, info_ s !! x = Some i → acquired_ i = true.

Lemma core_not_waiting p s x i :
  core p s → info_ s !! x = Some i → acquired_ i = true → x ∉ map xid_ (wait_ s).
Proof.
  intros H Hi Ha Hin. destruct (proj1 (core_wait _ _ H x)) as (j & Hj & Hb); [set_solver|].
  congruence.
Qed.

Lemma add_read_frame x s :
  wait_ (add_read x s) = wait_ s ∧ info_ (add_read x s) = mark_acquired x (info_ s).
Proof. unfold add_read. by case_bool_decide. Qed.

Lemma add_write_frame x s :
  wait_ (add_write x s) = wait_ s ∧ info_ (add_write x s) = mark_acquired x (info_ s).
Proof. unfold add_write. by case_bool_decide. Qed.

Lemma type_mark x I h : type_ <$> mark_acquired x I !! h = type_ <$> I !! h.
Proof. rewrite lookup_mark. case_decide; [subst|done]. by destruct (I !! h). Qed.

Lemma read_lock_wf nd x oid s i b s' ev :
  core [x] s → queue_blocked s → info_ s !! x = Some i → is_read_mode (type_ i) = true →
  read_lock nd x oid s = (b, s', ev) → wf s'.
Proof.
  intros H Hq Hi Hm. unfold read_lock, acquire_read_lock.
  destruct (write_count_ s =? 0) eqn:E.
  - apply (core_write_free _ _ H) in E. intros [= _ <- _].
    destruct (core_grant_read x [] s i H Hi Hm E) as (Hc & Hr & Hw).
    destruct (add_read_frame x s) as [Hwt Hin]. split; [done|].
    apply (queue_blocked_mono s); [done..| | |]; rewrite ?Hr; try set_solver.
    intros h _. rewrite Hin. apply type_mark.
  - intros [= _ <- _]. pose proof (core_add_wait nd x oid s H) as Hc. split; [done|].
    unfold queue_blocked, add_wait; simpl. unfold queue_blocked in Hq.
    assert (write_ s ≠ ∅) as Hne.
    { intros Hn. apply (core_write_free _ _ H) in Hn. congruence. }
    destruct (wait_ s); simpl; auto.
Qed.

Lemma write_lock_wf nd x oid s i b s' ev :
  core [x] s → queue_blocked s → info_ s !! x = Some i → type_ i = LOCK_WRITE_ROW →
  write_lock nd x oid s = (b, s', ev) → wf s'.
Proof.
  intros H Hq Hi Hm. unfold write_lock.
  destruct ((write_count_ s =? 0) && (read_count_ s =? 0)) eqn:E.
  - apply andb_true_iff in E as [E1 E2].
    apply (core_write_free _ _ H) in E1. apply (core_read_free _ _ H) in E2.
    intros [= _ <- _]. destruct (core_grant_write x [] s i H Hi Hm E1 E2) as (Hc & Hw & Hr).
    destruct (add_write_frame x s) as [Hwt Hin]. split; [done|].
    apply (queue_blocked_mono s); [done..| | |]; rewrite ?Hw; try set_solver.
    intros h _. rewrite Hin. apply type_mark.
  - intros [= _ <- _]. pose proof (core_add_wait nd x oid s H) as Hc. split; [done|].
    unfold queue_blocked, add_wait; simpl. unfold queue_blocked in Hq.
    destruct (wait_ s); simpl; [|done]. intros j Hj. assert (j = i) as -> by congruence.
    rewrite Hm. rewrite andb_false_iff in E. destruct E as [E|E].
    + left. intros Hn. apply (core_write_free _ _ H) in Hn. congruence.
    + right. split; [done|]. intros Hn. apply (core_read_free _ _ H) in Hn. congruence.
Qed.

Lemma lock_wf nd mode x oid s b s' ev :
  wf s → may_lock x s → row_mode mode = true → Z.of_nat (size (info_ s)) + 1 < 2 ^ 32 →
  lock nd mode x oid s = (b, s', ev) → wf s'.
Proof.
  intros [H Hq] Hmay Hm Hcap. unfold lock, add_lock_info.
  destruct (info_ s !! x) as [i|] eqn:Hi; simpl.
  - pose proof (core_touch_info x oid s i H Hi) as Hc. simpl in Hc.
    rewrite (Hmay i Hi) in *. intros [= _ <- _]. split; [done|].
    apply (queue_blocked_mono s); [done..| |done|done].
    intros h Hh. destruct (decide (x = h)) as [->|]; simpl.
    + by rewrite lookup_insert_eq, Hi.
    + by rewrite lookup_insert_ne.
  - pose proof (core_new_info mode x oid s H Hi Hm Hcap) as Hc.
    set (s1 := s <| info_ := _ |>) in *.
    assert (queue_blocked s1) as Hq1.
    { apply (queue_blocked_mono s); [done..| |done|done].
      intros h Hh. simpl. destruct (decide (x = h)) as [->|]; [|by rewrite lookup_insert_ne].
      apply (core_wait [] s H) in Hh as (j & Hj & _). congruence. }
    assert (info_ s1 !! x = Some (mk_ctx x [oid] mode false)) as Hi1 by apply lookup_insert_eq.
    destruct (row_mode_cases _ Hm) as [->| ->]; intros E.
    + by eapply read_lock_wf.
    + by eapply write_lock_wf.
Qed.

(** ** [unlock] preserves well-formedness *)

Lemma holder_delete m x I y : holder m (delete x I) y ↔ y ≠ x ∧ holder m I y.
Proof. unfold holder. setoid_rewrite lookup_delete_Some. naive_solver. Qed.

Lemma waiter_delete x I y : waiter (delete x I) y ↔ y ≠ x ∧ waiter I y.
Proof. unfold waiter. setoid_rewrite lookup_delete_Some. naive_solver. Qed.

Lemma size_delete_le (x : Z) (I : gmap Z tx_lock_ctx) : (size (delete x I) ≤ size I)%nat.
Proof.
  rewrite <- !(size_dom (D := gset Z)), dom_delete_L. apply subseteq_size. set_solver.
Qed.

Lemma map_filter_xid x (w : list xid_oid_t) y :
  y ∈ map xid_ (filter (fun w => xid_ w ≠ x) w) ↔ y ≠ x ∧ y ∈ map xid_ w.
Proof.
  rewrite !list_elem_of_In, !in_map_iff. setoid_rewrite <- list_elem_of_In.
  setoid_rewrite list_elem_of_filter. naive_solver.
Qed.

Lemma NoDup_map_filter x (w : list xid_oid_t) :
  NoDup (map xid_ w) → NoDup (map xid_ (filter (fun w => xid_ w ≠ x) w)).
Proof.
  induction w as [|h w IH]; [done|]. simpl. intros [Hh Hw]%NoDup_cons.
  rewrite filter_cons. case_decide; simpl; auto. apply NoDup_cons. split; [|auto].
  rewrite map_filter_xid. naive_solver.
Qed.

(** The records of the others stay what they were. *)
Lemma ctx_delete x s y j : core [] s → delete x (info_ s) !! y = Some j → ctx_ j = y ∧ row_mode (type_ j) = true.
Proof. intros H [_ Hj]%lookup_delete_Some. by apply (core_ctx _ _ H). Qed.

(** A holder is not queued and holds in its own mode only. *)
Lemma delete_holder_waits x s i y :
  core [] s → info_ s !! x = Some i → acquired_ i = true → y ∈ map xid_ (wait_ s) ↔ waiter (delete x (info_ s)) y.
Proof.
  intros H Hi Ha. rewrite waiter_delete, <- (core_wait [] s H). simpl. split; [|naive_solver].
  intros Hy. split; [|done]. intros ->. apply (core_wait [] s H) in Hy as (j & Hj & ?). congruence.
Qed.

Lemma holder_type m x s i : info_ s !! x = Some i → holder m (info_ s) x → m (type_ i) = true.
Proof. intros Hi (j & Hj & _ & Hm). by simplify_eq. Qed.

Lemma holder_delete_ne m x I y : (y = x → ¬ holder m I y) → holder m I y ↔ holder m (delete x I) y.
Proof. rewrite holder_delete. naive_solver. Qed.

Lemma core_remove_reader x s i :
  core [] s → info_ s !! x = Some i → acquired_ i = true → type_ i = LOCK_READ_ROW → core [] (remove_lock x s).2.
Proof.
  intros H Hi Ha Ht. pose proof (size_delete_le x (info_ s)) as Hsz. pose proof (core_holders_bound _ _ H) as [Hbr _].
  pose proof (fun y => delete_holder_waits x s i y H Hi Ha) as Hwait. pose proof (fun y j => ctx_delete x s y j H) as Hctx.
  unfold remove_lock. rewrite Hi, Ha, Ht. destruct H as [H1 H2 H3 H4 H5 _ H7 _ H9]. simpl in H7.
  assert (x ∈ read_ s) as Hx by (apply H4; exists i; by rewrite Ht).
  simpl. rewrite bool_decide_eq_true_2 by done. split; simpl; try done.
  - rewrite H1, size_remove_old by done.
    assert (Z.of_nat (size (read_ s)) ≠ 0) by (rewrite size_zero_iff; set_solver).
    apply wrap_small. split; lia.
  - lia.
  - intros y. rewrite holder_delete, <- H4. set_solver.
  - intros y. rewrite H5. apply holder_delete_ne. intros -> Hw%(holder_type _ _ _ i Hi). by rewrite Ht in Hw.
  - destruct H9 as [|[? Hr]]; [by left|]. exfalso. set_solver.
Qed.

Lemma core_remove_writer x s i :
  core [] s → info_ s !! x = Some i → acquired_ i = true → type_ i = LOCK_WRITE_ROW → core [] (remove_lock x s).2.
Proof.
  intros H Hi Ha Ht. pose proof (size_delete_le x (info_ s)) as Hsz. pose proof (core_holders_bound _ _ H) as [_ Hbw].
  pose proof (fun y => delete_holder_waits x s i y H Hi Ha) as Hwait. pose proof (fun y j => ctx_delete x s y j H) as Hctx.
  unfold remove_lock. rewrite Hi, Ha, Ht. destruct H as [H1 H2 H3 H4 H5 _ H7 _ H9]. simpl in H7.
  assert (x ∈ write_ s) as Hx by (apply H5; exists i; by rewrite Ht).
  simpl. rewrite bool_decide_eq_true_2 by done. split; simpl; try done.
  - rewrite H2, size_remove_old by done.
    assert (Z.of_nat (size (write_ s)) ≠ 0) by (rewrite size_zero_iff; set_solver).
    apply wrap_small. split; lia.
  - lia.
  - intros y. rewrite H4. apply holder_delete_ne. intros -> Hw%(holder_type _ _ _ i Hi). by rewrite Ht in Hw.
  - intros y. rewrite holder_delete, <- H5. set_solver.
  - left. destruct H9 as [He|[[z Hz] _]]; [by rewrite He in Hx|]. rewrite Hz in Hx |- *.
    apply elem_of_singleton in Hx as ->. by rewrite difference_diag_L.
Qed.

Lemma core_remove_waiter x s i :
  core [] s → info_ s !! x = Some i → acquired_ i = false → core [] (remove_lock x s).2.
Proof.
  intros H Hi Ha. pose proof (size_delete_le x (info_ s)) as Hsz. pose proof (fun y j => ctx_delete x s y j H) as Hctx.
  unfold remove_lock. rewrite Hi, Ha. destruct H as [H1 H2 H3 H4 H5 H6 H7 _ H9]. simpl in H6, H7.
  assert (∀ m y, holder m (info_ s) y ↔ holder m (delete x (info_ s)) y) as Hh.
  { intros m y. apply holder_delete_ne. intros -> (j & Hj & ? & _). congruence. }
  simpl. split; simpl; try done.
  - lia.
  - intros y. by rewrite <- Hh.
  - intros y. by rewrite <- Hh.
  - intros y. by rewrite map_filter_xid, waiter_delete, H6.
  - by apply NoDup_map_filter.
Qed.

Lemma core_remove_lock x s : core [] s → core [] (remove_lock x s).2.
Proof.
  intros H. destruct (info_ s !! x) as [i|] eqn:Hi; [|unfold remove_lock; by rewrite Hi].
  destruct (acquired_ i) eqn:Ha; [|by eapply core_remove_waiter].
  destruct (core_ctx _ _ H x i Hi) as [_ [Ht|Ht]%row_mode_cases]; eauto using core_remove_reader, core_remove_writer.
Qed.

(** What one scan of the queue may wake: the readers in front when no writer
    holds the slot, or the single writer in front of a free slot. *)
Definition wakes_readers (s : lock_slot) (xs : list Z) : Prop :=
  (xs ≠ [] → write_count_ s = 0) ∧
  ∀ x, x ∈ xs → ∃ i, info_ s !! x = Some i ∧ is_read_mode (type_ i) = true.

Definition wakes_writer (s : lock_slot) (xs : list Z) : Prop :=
  read_count_ s = 0 ∧ write_count_ s = 0 ∧
  ∃ x i, xs = [x] ∧ info_ s !! x = Some i ∧ type_ i = LOCK_WRITE_ROW.

Definition head_blocked (s : lock_slot) (read : Z) (xs : list Z) (rest : list xid_oid_t) : Prop :=
  match rest with
  | [] => True
  | h :: _ => ∀ i, info_ s !! xid_ h = Some i →
      write_count_ s ≠ 0 ∨ wakes_writer s xs ∨
      (is_write_mode (type_ i) = true ∧ (read ≠ 0 ∨ xs ≠ [] ∨ read_count_ s ≠ 0))
  end.

Lemma notify_scan_spec c s read w :
  (∀ x, x ∈ map xid_ w → ∃ i, info_ s !! x = Some i ∧ row_mode (type_ i) = true) →
  0 ≤ read → read + Z.of_nat (length w) < 2 ^ 32 →
  ∃ xs rest, notify_scan c s read 0 w = Some (xs, rest) ∧
    map xid_ w = xs ++ map xid_ rest ∧
    (wakes_readers s xs ∨ (read = 0 ∧ wakes_writer s xs)) ∧
    head_blocked s read xs rest.
Proof.
  revert read. induction w as [|h w IH]; intros read Hw H0 Hlen; simpl.
  { exists [], []. split_and!; try done. left. split; [done|set_solver]. }
  destruct (Hw (xid_ h)) as (i & Hi & Hrow); [simpl; set_solver|].
  rewrite Hi. destruct (row_mode_cases _ Hrow) as [Ht|Ht]; rewrite Ht; simpl.
  - destruct (write_count_ s =? 0) eqn:E.
    + apply Z.eqb_eq in E. simpl in Hlen.
      rewrite wrap_small by (split; lia).
      destruct (IH (read + 1)) as (xs & rest & -> & Hmap & Hwk & Hb);
        [intros; apply Hw; simpl; set_solver|lia..|].
      destruct Hwk as [[_ Hwk]|[? _]]; [|lia].
      exists (xid_ h :: xs), rest. split_and!; [done|simpl; by rewrite Hmap| |].
      * left. split; [done|]. intros x [->|Hx]%elem_of_cons; [|by apply Hwk].
        exists i. by rewrite Ht.
      * destruct rest as [|g rest]; [done|]. intros j Hj.
        destruct (Hb j Hj) as [?|[(_ & _ & x & k & -> & Hk & Htk)|[? _]]]; [done| |].
        -- destruct (Hwk x) as (k' & Hk' & Hm); [set_solver|].
           assert (k' = k) as -> by congruence. by rewrite Htk in Hm.
        -- right; right. split; [done|]. right; left. done.
    + apply Z.eqb_neq in E. exists [], (h :: w). split_and!; try done.
      * left. split; [done|set_solver].
      * intros j _. by left.
  - destruct ((read =? 0) && true && ((read_count_ s =? 0) && (write_count_ s =? 0))) eqn:E.
    + rewrite !andb_true_iff, !Z.eqb_eq in E. destruct E as [[-> _] [E1 E2]].
      assert (wakes_writer s [xid_ h]) as Hww by (split_and!; eauto 6).
      exists [xid_ h], w. split_and!; auto.
      destruct w; [done|]. intros j _. by right; left.
    + exists [], (h :: w). split_and!; try done.
      * left. split; [done|set_solver].
      * intros j Hj. assert (j = i) as -> by congruence. rewrite Ht.
        rewrite andb_true_r, !andb_false_iff, !Z.eqb_neq in E. naive_solver.
Qed.

Lemma notify_readers xs s :
  core xs s → write_ s = ∅ →
  (∀ x, x ∈ xs → ∃ i, info_ s !! x = Some i ∧ is_read_mode (type_ i) = true) →
  core [] (notify_all xs s).1 ∧ write_ (notify_all xs s).1 = ∅ ∧
  read_ (notify_all xs s).1 = list_to_set xs ∪ read_ s ∧
  wait_ (notify_all xs s).1 = wait_ s ∧
  (∀ h, type_ <$> info_ (notify_all xs s).1 !! h = type_ <$> info_ s !! h).
Proof.
  revert s. induction xs as [|x xs IH]; intros s H Hw Hxs; simpl; [split_and!; set_solver|].
  destruct (Hxs x) as (i & Hi & Hm); [set_solver|].
  unfold notify_grant. rewrite Hi, Hm.
  destruct (core_grant_read x xs s i H Hi Hm Hw) as (Hc & Hr & Hw').
  destruct (add_read_frame x s) as [Hwt Hin].
  destruct (IH (add_read x s)) as (IH1 & IH2 & IH3 & IH4 & IH5); try done.
  { intros y Hy. rewrite Hin. destruct (Hxs y) as (j & Hj & Hmj); [set_solver|].
    destruct (decide (x = y)) as [->|].
    - exists (j <| acquired_ := true |>). rewrite lookup_mark, decide_True, Hj by done. done.
    - exists j. by rewrite lookup_mark, decide_False. }
  destruct (notify_all xs (add_read x s)) as [s' ev']; simpl in *.
  split_and!; try done.
  - rewrite IH3, Hr. set_solver.
  - by rewrite IH4.
  - intros h. rewrite IH5, Hin. apply type_mark.
Qed.

Lemma core_take_waiting xs rest s :
  core [] s → map xid_ (wait_ s) = xs ++ map xid_ rest → core xs (s <| wait_ := rest |>).
Proof.
  intros [H1 H2 H3 H4 H5 H6 H7 H8 H9] E. simpl in H6, H7. rewrite E in H6, H7.
  by split.
Qed.

(** The queue has at most one entry per record. *)
Lemma core_wait_length s : core [] s → Z.of_nat (length (wait_ s)) < 2 ^ 32.
Proof.
  intros H. pose proof (core_nodup _ _ H) as Hnd. simpl in Hnd.
  rewrite <- (length_map xid_ (wait_ s)), <- (size_list_to_set (C := gset Z)) by done.
  assert (size (list_to_set (C := gset Z) (map xid_ (wait_ s))) ≤ size (dom (info_ s)))%nat as Hle.
  { apply subseteq_size. intros x. rewrite elem_of_list_to_set. intros Hx.
    apply (core_wait _ _ H) in Hx as (i & Hi & _). apply elem_of_dom. by exists i. }
  rewrite size_dom in Hle. pose proof (core_cap _ _ H). lia.
Qed.

(** Nobody is woken: the head stays blocked. *)
Lemma wake_none_wf rest s :
  core [] s → core [] (s <| wait_ := rest |>) → head_blocked s 0 [] rest → wf (s <| wait_ := rest |>).
Proof.
  intros H Hc Hb. split; [done|]. unfold queue_blocked. simpl. destruct rest as [|h rest]; [done|].
  intros i Hi. destruct (Hb i Hi) as [Hw|[(_ & _ & ? & ? & ? & _)|[Hm Hr]]]; [left|done|right; split; [done|]]; rewrite <- size_zero_iff.
  - by rewrite <- (core_wc _ _ H).
  - rewrite <- (core_rc _ _ H). naive_solver.
Qed.

(** The readers in front are woken: what is behind them is a writer. *)
Lemma wake_readers_wf xs rest s :
  xs ≠ [] → core xs (s <| wait_ := rest |>) → wakes_readers s xs → head_blocked s 0 xs rest →
  wf (notify_all xs (s <| wait_ := rest |>)).1 ∧ wait_ (notify_all xs (s <| wait_ := rest |>)).1 = rest.
Proof.
  intros Hne Hc [Hfree Hrd] Hb. set (s0 := s <| wait_ := rest |>) in *.
  assert (write_ s0 = ∅) as Hw0 by (apply (core_write_free xs); [done|]; apply Z.eqb_eq; by apply Hfree).
  destruct (notify_readers xs s0 Hc Hw0 Hrd) as (N1 & N2 & N3 & N4 & N5). split; [split|]; [done| |done].
  unfold queue_blocked. rewrite N4. change (wait_ s0) with rest. destruct rest as [|h rest]; [done|]. intros i Hi.
  assert (read_ (notify_all xs s0).1 ≠ ∅) as Hrne by (rewrite N3; destruct xs; [done|set_solver]).
  specialize (N5 (xid_ h)). rewrite Hi in N5. change (info_ s0) with (info_ s) in N5.
  destruct (info_ s !! xid_ h) as [j|] eqn:Hj; [|done]. injection N5 as ->.
  destruct (Hb j Hj) as [Hw|[(_ & _ & y & k & -> & Hk & Hkt)|[Hm _]]]; [by specialize (Hfree Hne)|exfalso|by right].
  destruct (Hrd y) as (k' & Hk' & Hm'); [set_solver|]. simplify_eq. by rewrite Hkt in Hm'.
Qed.

(** The writer in front is woken and blocks the rest. *)
Lemma wake_writer_wf xs rest s :
  core xs (s <| wait_ := rest |>) → wakes_writer s xs →
  wf (notify_all xs (s <| wait_ := rest |>)).1 ∧ wait_ (notify_all xs (s <| wait_ := rest |>)).1 = rest.
Proof.
  intros Hc (Hr0 & Hw0 & x & i & -> & Hi & Ht). set (s0 := s <| wait_ := rest |>) in *.
  assert (write_ s0 = ∅) as Hw by (by apply (core_write_free [x] s0 Hc), Z.eqb_eq).
  assert (read_ s0 = ∅) as Hr by (by apply (core_read_free [x] s0 Hc), Z.eqb_eq).
  destruct (core_grant_write x [] s0 i Hc Hi Ht Hw Hr) as (N1 & N2 & N3).
  assert ((notify_all [x] s0).1 = add_write x s0) as ->.
  { simpl. unfold notify_grant. change (info_ s0) with (info_ s). by rewrite Hi, Ht. }
  split; [split; [done|]|by destruct (add_write_frame x s0)].
  unfold queue_blocked. destruct (wait_ (add_write x s0)); [done|]. intros j _. left. rewrite N2. set_solver.
Qed.

(** A notification always terminates; it wakes a prefix [xs] of the queue and
    leaves a well-formed slot. *)
Lemma notify_lock_acquire_wf c s :
  core [] s → ∃ xs rest s' ev,
    notify_lock_acquire c s = Some (s', ev) ∧ wf s' ∧
    map xid_ (wait_ s) = xs ++ map xid_ rest ∧ wait_ s' = rest ∧
    notify_all xs (s <| wait_ := rest |>) = (s', ev).
Proof.
  intros H. unfold notify_lock_acquire.
  destruct (notify_scan_spec c s 0 (wait_ s)) as (xs & rest & -> & Hmap & Hwk & Hb); [|lia| |].
  { intros x Hx. apply (core_wait _ _ H) in Hx as (i & Hi & _). exists i. split; [done|].
    by apply (core_ctx _ _ H) in Hi as [_ ?]. }
  { pose proof (core_wait_length _ H). lia. }
  cbn [mbind option_bind]. pose proof (core_take_waiting _ _ _ H Hmap) as Hc.
  assert (wf (notify_all xs (s <| wait_ := rest |>)).1 ∧ wait_ (notify_all xs (s <| wait_ := rest |>)).1 = rest) as [Hwf Hrest].
  { destruct Hwk as [Hwk|[_ Hwk]]; [|by apply wake_writer_wf].
    destruct (decide (xs = [])) as [->|Hne]; [split; [by apply wake_none_wf|done]|by apply wake_readers_wf]. }
  destruct (notify_all xs (s <| wait_ := rest |>)) as [s' ev] eqn:E. by exists xs, rest, s', ev.
Qed.

(** ** Events of a notification *)

Lemma oid_mark x I h : oid_ <$> mark_acquired x I !! h = oid_ <$> I !! h.
Proof. rewrite lookup_mark. case_decide; [subst|done]. by destruct (I !! h). Qed.

Lemma notify_grant_info x s :
  info_ (notify_grant x s).1 =
  match info_ s !! x with Some _ => mark_acquired x (info_ s) | None => info_ s end.
Proof.
  unfold notify_grant. destruct (info_ s !! x) as [i|] eqn:Hi; simpl; [|done].
  destruct (is_read_mode _); [apply add_read_frame|].
  destruct (type_ i); try done. apply add_write_frame.
Qed.

Lemma notify_grant_oid x s h :
  oid_ <$> info_ (notify_grant x s).1 !! h = oid_ <$> info_ s !! h.
Proof. rewrite notify_grant_info. destruct (info_ s !! x); [apply oid_mark|done]. Qed.

Lemma notify_grant_ctx x s :
  (∀ y i, info_ s !! y = Some i → ctx_ i = y) →
  ∀ y i, info_ (notify_grant x s).1 !! y = Some i → ctx_ i = y.
Proof.
  intros H y i. rewrite notify_grant_info. destruct (info_ s !! x) as [k|] eqn:Hx; [|apply H].
  rewrite lookup_mark. case_decide; [subst|apply H].
  intros (j & Hj & ->)%fmap_Some. simpl. by apply H.
Qed.

Lemma on_lock_acquired_acquire s ec m t o ec' x o' :
  LockAcquire ec' x o' ∈ on_lock_acquired s ec m t o ↔ ec' = ec ∧ x = t ∧ o' = o.
Proof.
  unfold on_lock_acquired. destruct (fn_after_ s); simpl;
    rewrite ?elem_of_cons, ?elem_of_nil; naive_solver.
Qed.

(** A grant tells every pending operation of that transaction, and nobody else. *)
Lemma notify_grant_events x s ec y o :
  (∀ y i, info_ s !! y = Some i → ctx_ i = y) →
  LockAcquire ec y o ∈ (notify_grant x s).2 ↔
    ec = EC_OK ∧ y = x ∧ ∃ l, oid_ <$> info_ s !! x = Some l ∧ o ∈ l.
Proof.
  intros Hctx. unfold notify_grant. destruct (info_ s !! x) as [i|] eqn:Hi; simpl.
  - rewrite list_elem_of_In, in_concat. setoid_rewrite in_map_iff. split.
    + intros (l & (o' & <- & Ho') & Hin). apply list_elem_of_In in Hin.
      apply on_lock_acquired_acquire in Hin as (-> & -> & ->). split_and!; [done|by apply Hctx|].
      eexists. split; [done|]. by apply list_elem_of_In.
    + intros (-> & -> & l & [= <-] & Ho). eexists. split.
      * exists o. split; [reflexivity|]. by apply list_elem_of_In.
      * apply list_elem_of_In, on_lock_acquired_acquire. by rewrite (Hctx _ _ Hi).
  - split; [by intros ?%elem_of_nil|]. naive_solver.
Qed.

Lemma notify_all_events xs s ec y o :
  (∀ y i, info_ s !! y = Some i → ctx_ i = y) →
  LockAcquire ec y o ∈ (notify_all xs s).2 ↔
    ec = EC_OK ∧ y ∈ xs ∧ ∃ l, oid_ <$> info_ s !! y = Some l ∧ o ∈ l.
Proof.
  revert s. induction xs as [|x xs IH]; intros s Hctx; simpl.
  { rewrite !elem_of_nil. naive_solver. }
  pose proof (notify_grant_events x s ec y o Hctx) as Hg.
  pose proof (notify_grant_oid x s y) as Ho.
  pose proof (IH (notify_grant x s).1 (notify_grant_ctx x s Hctx)) as IH'.
  destruct (notify_grant x s) as [s1 ev1]. simpl in *.
  destruct (notify_all xs s1) as [s2 ev2]. simpl in *.
  rewrite elem_of_app, Hg, IH', elem_of_cons, Ho. naive_solver.
Qed.

(** ** Reachable slots

    The lock manager forwards row modes only ([lock_mgr::lock_gut]), and a
    transaction has at most one request outstanding: it issues the next
    operation after [async_lock_acquire] ([tx_context::handle_next_operation]).
    The records of a slot are bounded by the 32-bit holder counters. *)

Section reachable.
Context (nd : bool) (c : option (Z → Z → bool)).

Inductive slot_step : lock_slot → list slot_event → lock_slot → Prop :=
| slot_step_lock mode x oid s b s' ev :
    row_mode mode = true → may_lock x s → Z.of_nat (size (info_ s)) + 1 < 2 ^ 32 →
    lock nd mode x oid s = (b, s', ev) → slot_step s ev s'
| slot_step_unlock x s s' ev :
    unlock c x s = Some (s', ev) → slot_step s ev s'.

Inductive reachable : lock_slot → Prop :=
| reachable_new t sh tu b a : reachable (new_slot t sh tu b a)
| reachable_step s ev s' : reachable s → slot_step s ev s' → reachable s'.

Lemma new_slot_wf t sh tu b a : wf (new_slot t sh tu b a).
Proof.
  split; [|done]. split; simpl; try done.
  1-3: intros x; split; [set_solver|intros (i & Hi & _); done].
  - constructor.
  - by left.
Qed.

Lemma slot_step_wf s ev s' : wf s → slot_step s ev s' → wf s'.
Proof.
  intros Hwf. inversion 1 as [mode x oid ? b ? ? Hm Hmay Hcap E|x ? ? ? E]; subst.
  - by eapply lock_wf.
  - unfold unlock, unlock_gut in E.
    destruct (notify_lock_acquire_wf c (remove_lock x s).2) as (xs & rest & s1 & ev1 & E1 & H1 & _).
    { apply core_remove_lock, Hwf. }
    congruence.
Qed.

Lemma reachable_wf s : reachable s → wf s.
Proof. induction 1; eauto using new_slot_wf, slot_step_wf. Qed.
End reachable.

#[export] Hint Resolve reachable_wf new_slot_wf slot_step_wf : tddb.

Lemma wf_assert_check s : wf s → assert_check s = true.
Proof.
  intros [H _]. unfold assert_check. rewrite (core_wc _ _ H), (core_rc _ _ H).
  by rewrite !Z.eqb_refl.
Qed.

Lemma wf_mutex s x y : wf s → x ∈ write_ s → y ∈ read_ s ∪ write_ s → y = x.
Proof.
  intros [H _] Hx Hy. destruct (core_excl _ _ H) as [Hw|[[z Hw] Hr]]; rewrite Hw in *.
  - by apply elem_of_empty in Hx.
  - rewrite Hr, union_empty_l_L, elem_of_singleton in Hy. apply elem_of_singleton in Hx. congruence.
Qed.

Lemma wf_busy s : wf s → wait_ s ≠ [] → read_ s ∪ write_ s ≠ ∅.
Proof.
  intros [H Hq] Hw. unfold queue_blocked in Hq. destruct (wait_ s) as [|h l] eqn:E; [done|].
  destruct (proj1 (core_wait _ _ H (xid_ h))) as (i & Hi & _); [rewrite E; simpl; set_solver|].
  destruct (Hq i Hi) as [|[_ ?]]; set_solver.
Qed.


(** The loop over the queue ends. *)
Lemma unlock_returns nd c x s : reachable nd c s → ∃ s' ev, unlock c x s = Some (s', ev).
Proof.
  intros [H _]%reachable_wf. destruct (notify_lock_acquire_wf c (remove_lock x s).2) as (xs & rest & s' & ev & E & _).
  { by apply core_remove_lock. }
  by exists s', ev.
Qed.

(** The records after a removal. *)
Lemma info_remove_lock x s : core [] s → info_ (remove_lock x s).2 = delete x (info_ s).
Proof.
  intros H. unfold remove_lock. destruct (info_ s !! x) as [i|] eqn:Hi.
  - destruct (core_ctx _ _ H x i Hi) as [_ Hrow].
    destruct (acquired_ i); [|done].
    destruct (row_mode_cases _ Hrow) as [->| ->]; by case_bool_decide.
  - by rewrite delete_id.
Qed.

Lemma wait_remove_lock x s :
  core [] s → map xid_ (wait_ (remove_lock x s).2) = filter (.≠ x) (map xid_ (wait_ s)).
Proof.
  intros H.
  assert (∀ w : list xid_oid_t, x ∉ map xid_ w → filter (.≠ x) (map xid_ w) = map xid_ w) as Hnot.
  { induction w as [|h w IH]; [done|]. simpl. intros Hx. rewrite filter_cons.
    rewrite decide_True by set_solver. f_equal. apply IH. set_solver. }
  assert (∀ w : list xid_oid_t,
    map xid_ (filter (fun w => xid_ w ≠ x) w) = filter (.≠ x) (map xid_ w)) as Hfil.
  { induction w as [|h w IH]; [done|]. simpl. rewrite !filter_cons. by repeat case_decide; simpl; rewrite ?IH. }
  unfold remove_lock. destruct (info_ s !! x) as [i|] eqn:Hi; simpl.
  - destruct (acquired_ i) eqn:Ha; [|apply Hfil].
    rewrite Hnot by by eapply core_not_waiting. by destruct (type_ i); try case_bool_decide.
  - rewrite Hnot; [done|]. intros Hx. apply (core_wait _ _ H) in Hx as (j & Hj & _). congruence.
Qed.

Lemma notify_all_info xs s y :
  is_Some (info_ (notify_all xs s).1 !! y) ↔ is_Some (info_ s !! y).
Proof.
  revert s. induction xs as [|x xs IH]; intros s; simpl; [done|].
  pose proof (notify_grant_info x s) as Hg. destruct (notify_grant x s) as [s1 ev1]. simpl in Hg.
  specialize (IH s1). destruct (notify_all xs s1) as [s2 ev2]. simpl in *. rewrite IH, Hg.
  destruct (info_ s !! x) as [i|]; [|done]. rewrite lookup_mark. case_decide; [subst|done].
  by rewrite fmap_is_Some.
Qed.

(** C13: Releasing a lock.  [unlock] returns in every reachable state (its loop
    over the queue ends) and forgets the transaction entirely.  It wakes a
    prefix [xs] of the remaining queue, so waiters are served first come first
    served; every woken transaction holds the slot afterwards, and exactly its
    pending operations are told, with [EC_OK]. *)
Theorem unlock_serves_queue nd c s x :
  reachable nd c s →
  ∃ s' ev xs, unlock c x s = Some (s', ev) ∧
    info_ s' !! x = None ∧ x ∉ read_ s' ∪ write_ s' ∧
    filter (.≠ x) (map xid_ (wait_ s)) = xs ++ map xid_ (wait_ s') ∧
    (∀ y, y ∈ xs → y ∈ read_ s' ∪ write_ s') ∧
    (∀ ec y o, LockAcquire ec y o ∈ ev ↔
       ec = EC_OK ∧ y ∈ xs ∧ ∃ l, oid_ <$> info_ s !! y = Some l ∧ o ∈ l).
Proof.
  intros Hr. pose proof (reachable_wf _ _ _ Hr) as [H _].
  pose proof (core_remove_lock x s H) as H1. pose proof (info_remove_lock x s H) as Hinfo.
  pose proof (wait_remove_lock x s H) as Hwait. unfold unlock, unlock_gut.
  set (s1 := (remove_lock x s).2) in *.
  destruct (notify_lock_acquire_wf c s1 H1) as (xs & rest & s' & ev & -> & [H' _] & Hmap & Hrest & Hall).
  pose proof (notify_all_info xs (s1 <| wait_ := rest |>)) as Hdom.
  pose proof (notify_all_events xs (s1 <| wait_ := rest |>)) as Hev.
  rewrite Hall in Hdom, Hev. simpl in Hdom, Hev. rewrite Hinfo in Hdom, Hev.
  assert (info_ s' !! x = None) as Hx.
  { apply eq_None_not_Some. rewrite Hdom, lookup_delete_eq. by intros []. }
  exists s', ev, xs. split_and!; try done.
  - intros [(j & Hj & _)%(core_read _ _ H')|(j & Hj & _)%(core_write _ _ H')]%elem_of_union; congruence.
  - by rewrite <- Hwait, Hmap, Hrest.
  - intros y Hy. pose proof (core_nodup _ _ H1) as Hnd. simpl in Hnd. rewrite Hmap in Hnd.
    apply NoDup_app in Hnd as (_ & Hdisj & _).
    destruct (proj1 (core_wait _ _ H1 y)) as (i & Hi & _); [simpl; rewrite Hmap; set_solver|].
    rewrite Hinfo in Hi. destruct (proj2 (Hdom y)) as [j Hj]; [by exists i|].
    apply elem_of_union. rewrite (core_read _ _ H'), (core_write _ _ H').
    destruct (acquired_ j) eqn:Ha.
    + destruct (core_ctx _ _ H' y j Hj) as [_ Hrow].
      destruct (row_mode_cases _ Hrow) as [Ht|Ht]; [left|right]; exists j; by rewrite Ht.
    + exfalso. apply (Hdisj y Hy). rewrite <- Hrest. apply (core_wait _ _ H' y). by exists j.
  - intros ec y o. rewrite Hev.
    2: { intros z j. rewrite lookup_delete_Some. intros [_ Hj]. by apply (core_ctx _ _ H) in Hj as [? _]. }
    assert (x ∉ xs) as Hnx.
    { intros Hin. assert (x ∈ filter (.≠ x) (map xid_ (wait_ s))) as Hf by (rewrite <- Hwait, Hmap; set_solver).
      apply list_elem_of_filter in Hf as [? _]. done. }
    destruct (decide (y = x)) as [->|]; [naive_solver|]. by rewrite lookup_delete_ne by done.
Qed.

(** Requesting a lock.  The answer of [lock] is whether the transaction
    holds the slot afterwards; a granted request is told at once, a refused
    one is told nothing yet and joins the back of the queue; nobody else's
    hold or place changes. *)
Theorem lock_answers nd c s mode x oid b s' ev :
  reachable nd c s → may_lock x s → row_mode mode = true →
  Z.of_nat (size (info_ s)) + 1 < 2 ^ 32 →
  lock nd mode x oid s = (b, s', ev) →
  (b = true ↔ x ∈ read_ s' ∪ write_ s') ∧
  (∀ ec y o, LockAcquire ec y o ∈ ev ↔ b = true ∧ ec = EC_OK ∧ y = x ∧ o = oid) ∧
  wait_ s' = wait_ s ++ (if b then [] else [mk_xid_oid x oid]) ∧
  (∀ y, y ≠ x → y ∈ read_ s' ↔ y ∈ read_ s) ∧ (∀ y, y ≠ x → y ∈ write_ s' ↔ y ∈ write_ s).
Proof.
  intros Hr Hmay Hm Hcap E. pose proof (reachable_wf _ _ _ Hr) as [H _].
  pose proof (lock_wf _ _ _ _ _ _ _ _ (reachable_wf _ _ _ Hr) Hmay Hm Hcap E) as [H' _].
  revert E. unfold lock, add_lock_info. destruct (info_ s !! x) as [i|] eqn:Hi; simpl.
  - rewrite (Hmay i Hi). intros [= <- <- <-]. simpl. rewrite app_nil_r. split_and!; try done.
    + split; [|done]. intros _. apply elem_of_union. rewrite (core_read _ _ H), (core_write _ _ H).
      destruct (core_ctx _ _ H x i Hi) as [_ Hrow]. pose proof (Hmay i Hi).
      destruct (row_mode_cases _ Hrow) as [Ht|Ht]; [left|right]; exists i; by rewrite Ht.
    + intros. rewrite on_lock_acquired_acquire. naive_solver.
  - assert (x ∉ read_ s ∪ write_ s) as Hfresh.
    { rewrite elem_of_union, (core_read _ _ H), (core_write _ _ H).
      intros [(j & Hj & _)|(j & Hj & _)]; congruence. }
    apply not_elem_of_union in Hfresh as [Hnr Hnw].
    assert (∀ ec y o (e : list slot_event) P,
      (LockAcquire ec y o ∈ e ↔ P) →
      ∀ f cmd, LockAcquire ec y o ∈ before_event f cmd x oid ++ e ↔ P) as Hbef.
    { intros ec y o e P He f cmd. unfold before_event. destruct (fn_before_ f); simpl;
        rewrite ?elem_of_cons, He; naive_solver. }
    destruct (row_mode_cases _ Hm) as [->| ->]; simpl.
    + unfold read_lock, acquire_read_lock; simpl.
      destruct (write_count_ s =? 0); intros [= <- <- <-]; simpl.
      * unfold add_read; simpl. rewrite bool_decide_eq_false_2 by done; simpl.
        rewrite app_nil_r. split_and!; try done; try set_solver.
        intros. apply Hbef. rewrite on_lock_acquired_acquire. naive_solver.
      * split_and!; try done; [set_solver|]. intros. destruct nd; simpl;
          rewrite ?elem_of_cons, Hbef by (rewrite elem_of_nil; reflexivity); naive_solver.
    + unfold write_lock; simpl.
      destruct ((write_count_ s =? 0) && (read_count_ s =? 0)); intros [= <- <- <-]; simpl.
      * unfold add_write; simpl. rewrite bool_decide_eq_false_2 by done; simpl.
        rewrite app_nil_r. split_and!; try done; try set_solver.
        intros. apply Hbef. rewrite on_lock_acquired_acquire. naive_solver.
      * split_and!; try done; [set_solver|]. intros. destruct nd; simpl;
          rewrite ?elem_of_cons, Hbef by (rewrite elem_of_nil; reflexivity); naive_solver.
Qed.

(** ** Executable histories *)

Inductive slot_op := OpLock (mode : lock_mode) (x oid : Z) | OpUnlock (x : Z).

Definition may_lockb (x : Z) (s : lock_slot) : bool :=
  match info_ s !! x with Some i => acquired_ i | None => true end.

Definition exec nd c (op : slot_op) (s : lock_slot) : option lock_slot :=
  match op with
  | OpLock mode x oid =>
      if row_mode mode && may_lockb x s && (Z.of_nat (size (info_ s)) + 1 <? 2 ^ 32)
      then Some (lock nd mode x oid s).1.2 else None
  | OpUnlock x => fst <$> unlock c x s
  end.

Fixpoint run nd c (ops : list slot_op) (s : lock_slot) : option lock_slot :=
  match ops with
  | [] => Some s
  | op :: ops => s' ← exec nd c op s; run nd c ops s'
  end.

Lemma run_reachable nd c ops s s' :
  reachable nd c s → run nd c ops s = Some s' → reachable nd c s'.
Proof.
  revert s. induction ops as [|op ops IH]; intros s Hs; simpl; [by intros [= <-]|].
  destruct (exec nd c op s) as [s1|] eqn:E; [|done]. simpl. apply IH.
  destruct op as [mode x oid|x]; simpl in E.
  - destruct (row_mode mode && may_lockb x s && _) eqn:G; [|done]. injection E as <-.
    apply andb_true_iff in G as [[G1 G2]%andb_true_iff G3%Z.ltb_lt].
    destruct (lock nd mode x oid s) as [[b s1] ev] eqn:E1.
    apply (reachable_step _ _ s ev); [done|]. eapply slot_step_lock; try done.
    intros i Hi. unfold may_lockb in G2. by rewrite Hi in G2.
  - destruct (unlock c x s) as [[s2 ev]|] eqn:E1; [|done]. injection E as <-.
    eapply reachable_step; [done|]. by eapply slot_step_unlock.
Qed.

(** A writer 1, then a reader 2, a writer 3 and a reader 4 behind it. *)
Definition demo_ops : list slot_op :=
  [OpLock LOCK_WRITE_ROW 1 10; OpLock LOCK_READ_ROW 2 20; OpLock LOCK_WRITE_ROW 3 30;
   OpLock LOCK_READ_ROW 4 40].

Definition demo_slot : lock_slot :=
  default (new_slot 1 1 7 false false) (run true None demo_ops (new_slot 1 1 7 false false)).

Lemma demo_reachable : reachable true None demo_slot.
Proof.
  apply (run_reachable _ _ demo_ops (new_slot 1 1 7 false false)); [constructor|].
  unfold demo_slot. destruct (run true None demo_ops _) eqn:E; [done|].
  vm_compute in E. discriminate.
Qed.


Lemma unlock_serves_queue_witness : ∃ s' ev, unlock None 1 demo_slot = Some (s', ev).
Proof.
  destruct (unlock_serves_queue true None demo_slot 1 demo_reachable) as (s' & ev & xs & E & _).
  exists s', ev. exact E.
Defined.

Lemma lock_answers_witness : 5 ∉ read_ (lock true LOCK_READ_ROW 5 50 demo_slot).1.2.
Proof.
  destruct (lock true LOCK_READ_ROW 5 50 demo_slot) as [[b s'] ev] eqn:E.
  destruct (lock_answers true None demo_slot LOCK_READ_ROW 5 50 b s' ev demo_reachable) as [H _];
    [|reflexivity|reflexivity|exact E|].
  - intros i Hi. vm_compute in Hi. discriminate.
  - intros H5. assert (b = true) as Hb by (apply H, elem_of_union; left; exact H5).
    vm_compute in E. rewrite Hb in E. discriminate E.
Defined.

(** ** What the waiters report to the deadlock detector *)

(** The transaction at the head of the queue always reports its blockers:
    the poll succeeds, the reported set is non-empty, it only names current
    holders, and it never names the waiter itself (so a reported edge is a real
    wait). *)
Theorem head_waiter_reports nd c s h l :
  reachable nd c s → wait_ s = h :: l →
  ∃ ds, tx_wait_for (xid_ h) s = inl ds ∧ ds ≠ ∅ ∧ ds ⊆ read_ s ∪ write_ s ∧ xid_ h ∉ ds.
Proof.
  intros Hr Hw. pose proof (reachable_wf _ _ _ Hr) as [H Hq].
  destruct (proj1 (core_wait _ _ H (xid_ h))) as (i & Hi & Ha); [rewrite Hw; simpl; set_solver|].
  assert (xid_ h ∉ read_ s ∪ write_ s) as Hnot.
  { rewrite elem_of_union, (core_read _ _ H), (core_write _ _ H).
    intros [(j & Hj & ? & _)|(j & Hj & ? & _)]; congruence. }
  unfold queue_blocked in Hq. rewrite Hw in Hq.
  unfold tx_wait_for, tx_build_dependency. rewrite Hi, Ha.
  destruct (core_ctx _ _ H _ _ Hi) as [_ Hrow].
  destruct (row_mode_cases _ Hrow) as [Ht|Ht]; rewrite Ht in *; eexists; split_and!; try done;
    try set_solver; destruct (Hq i Hi) as [?|[? ?]]; rewrite ?Ht in *; set_solver.
Qed.

Lemma head_waiter_reports_witness : tx_wait_for 2 demo_slot ≠ inr EC_NOT_FOUND_ERROR.
Proof.
  destruct (wait_ demo_slot) as [|h l] eqn:E; [vm_compute in E; discriminate|].
  assert (xid_ h = 2) as Hh by (vm_compute in E; by injection E as <- _).
  destruct (head_waiter_reports true None demo_slot h l demo_reachable E) as (ds & Hds & _).
  rewrite Hh in Hds. rewrite Hds. discriminate.
Defined.

(** A waiter behind the head may report nothing.  After the writer of
    [demo_ops] releases the slot, reader 2 holds it, writer 3 waits at the head
    and reader 4 waits behind 3; [tx_build_dependency] looks at the write
    holders only, so 4 reports an empty set although it is blocked: the wait
    of 4 on 3 never reaches the deadlock detector. *)
Theorem queued_reader_reports_nothing nd c :
  ∃ s, reachable nd c s ∧ read_ s = {[2]} ∧ write_ s = ∅ ∧
       map xid_ (wait_ s) = [3; 4] ∧ tx_wait_for 4 s = inl ∅.
Proof.
  destruct (run nd c (demo_ops ++ [OpUnlock 1]) (new_slot 1 1 7 false false)) as [s|] eqn:E.
  - exists s. split; [by eapply run_reachable; [constructor|]|].
    revert E. destruct nd, c; vm_compute; intros [= <-]; split_and!; reflexivity.
  - exfalso. revert E. destruct nd, c; vm_compute; discriminate.
Qed.

(** C40: A reader's request for the write lock is answered with success and
    [EC_OK] although the slot is not locked in write mode and every other
    reader keeps its lock: [add_lock_info] returns early for any transaction
    that already holds the slot, in whichever mode. *)
Theorem upgrade_keeps_other_readers nd c s x oid :
  reachable nd c s → x ∈ read_ s →
  ∃ s' ev, lock nd LOCK_WRITE_ROW x oid s = (true, s', ev) ∧
    LockAcquire EC_OK x oid ∈ ev ∧ write_ s' = ∅ ∧ read_ s' = read_ s.
Proof.
  intros Hr Hx. pose proof (reachable_wf _ _ _ Hr) as [H _].
  assert (write_ s = ∅) as Hw.
  { destruct (core_excl _ _ H) as [|[_ Hr0]]; [done|]. rewrite Hr0 in Hx. by apply elem_of_empty in Hx. }
  apply (core_read _ _ H) in Hx as (i & Hi & Ha & _).
  unfold lock, add_lock_info. rewrite Hi, Ha. eexists _, _. split; [done|].
  split_and!; try done. by apply on_lock_acquired_acquire.
Qed.

Lemma upgrade_keeps_other_readers_witness :
  ∃ s s' ev, 2 ∈ read_ s ∧ lock false LOCK_WRITE_ROW 1 11 s = (true, s', ev) ∧ 2 ∈ read_ s'.
Proof.
  destruct (run false None [OpLock LOCK_READ_ROW 1 10; OpLock LOCK_READ_ROW 2 20]
              (new_slot 1 1 7 false false)) as [s|] eqn:E; [|vm_compute in E; discriminate].
  assert (reachable false None s) as Hs by (eapply run_reachable; [constructor|exact E]).
  assert (1 ∈ read_ s ∧ 2 ∈ read_ s) as [H1 H2].
  { vm_compute in E. injection E as <-. split; apply (bool_decide_unpack _); vm_compute; exact Logic.I. }
  destruct (upgrade_keeps_other_readers false None s 1 11 Hs H1) as (s' & ev & El & _ & _ & Hr).
  exists s, s', ev. rewrite Hr. auto.
Defined.

End LockSlot.
