(* ===== verification/TxContext.v ===== *)
(** * The resource manager: one transaction on one concurrency block

    [src/concurrency/tx_context.cpp] with [include/concurrency/tx_context.h]
    and [tx.h], in the shared-nothing build.  A [tx_context] runs the
    operations of a transaction one after the other: each takes its row lock,
    reads the tuple from the block's cache or from the storage block, and
    posts its completion to the transaction's strand.  When the operations are
    done it commits or aborts, alone or under a coordinator (two-phase
    commit).  A handler is an [act]: the calls it makes are events.

    Callbacks the C++ code stores as closures are data here: [lock_acquire_]
    holds the operation whose lock is pending, [ds_read_handler_] the operation
    that waits for the storage block, and [strand_] the closures posted to the
    strand and not yet run.  Latency statistics, traces and the [TX_TRACE]
    timer are left out: no decision reads them. *)

From S2P Require Import Prelude Common.
From S2P Require Import LockSlot.
#[local] Open Scope Z_scope.

Module TxContext.

(* @src include/concurrency/tx_context.h 27 34 rm_state *)
Inductive rm_state :=
| RM_IDLE | RM_COMMITTING | RM_ABORTING | RM_PREPARE_COMMITTING | RM_PREPARE_ABORTING | RM_ENDED.

#[export] Instance rm_state_eq_dec : EqDecision rm_state.
Proof. solve_decision. Defined.

(* @src include/concurrency/lock.h 36 66 lock_item *)
Record lock_item := mk_lock_item {
  li_xid : Z;
  li_oid : Z;
  li_type : lock_mode;
  li_table_id : Z;
  li_shard_id : Z;
  li_key : Z;
}.

(** The continuation of an operation once its lock is granted: which kind of
    access it is, on which tuple, under which operation id. *)
Inductive access_kind :=
| KRead | KUpdate (op : tx_operation) | KInsert (op : tx_operation) | KRemove.

Record access := mk_access {
  k_kind : access_kind;
  k_table_id : Z;
  k_shard_id : Z;
  k_key : Z;
  k_oid : Z;
}.

(** Closures on the transaction's strand. *)
Inductive strand_task :=
| TaskLockAcquire (ec : EC)
| TaskOpDone (ec : EC).

(** [end_] is the flag of [tx_base]; [has_dl_] tells whether [dl_] is set. *)
(* @src include/concurrency/tx_context.h 52 112 tx_context *)
Record tx_context := mk_ctx {
  cno_ : Z;
  node_id_ : Z;
  ctx_opt_dsb_node_id_ : option Z;
  shard_id_2_node_id_ : gmap Z Z;
  xid_ : Z;
  distributed_ : bool;
  coord_node_id_ : Z;
  oid_ : Z;
  max_ops_ : Z;
  ops_ : list tx_operation;
  response_ : list string;
  error_code_ : EC;
  state_ : rm_state;
  ds_read_handler_ : gmap Z access;
  lock_acquire_ : option access;
  locks_ : gmap Z lock_item;
  log_entry_ : list tx_log;
  has_respond_ : bool;
  prepare_commit_log_synced_ : bool;
  commit_log_synced_ : bool;
  has_dl_ : bool;
  victim_ : bool;
  num_lock_ : Z;
  read_only_ : bool;
  end_ : bool;
  strand_ : list strand_task;
}.
#[export] Instance eta_ctx : Eta tx_context := fun c =>
  mk_ctx (cno_ c) (node_id_ c) (ctx_opt_dsb_node_id_ c) (shard_id_2_node_id_ c) (xid_ c)
    (distributed_ c) (coord_node_id_ c) (oid_ c) (max_ops_ c) (ops_ c) (response_ c)
    (error_code_ c) (state_ c) (ds_read_handler_ c) (lock_acquire_ c) (locks_ c) (log_entry_ c)
    (has_respond_ c) (prepare_commit_log_synced_ c) (commit_log_synced_ c) (has_dl_ c)
    (victim_ c) (num_lock_ c) (read_only_ c) (end_ c) (strand_ c).

(** Calls to the lock manager, the storage block, the write-ahead log, the
    client, the coordinator, the detector and the owning block.  An assertion
    of the source that is false, or a [PANIC], is the event [AssertFailed]. *)
Inductive ctx_event :=
| LockRow (xid oid : Z) (mode : lock_mode) (table_id shard_id key : Z)
| UnlockRow (l : lock_item)
| ReadDsb (dest xid oid shard_id table_id cno key : Z)
| CachePut (table_id shard_id key : Z) (tuple : string)
| WalAppend (logs : list tx_log)
| ClientResponse (ec : EC)
| SendPrepare (coord : Z) (commit : bool)
| SendAck (coord : Z) (commit : bool)
| SendVictim (coord : Z)
| DlFinish (xid : Z)
| TxState (xid : Z) (st : rm_state)
| RemoveDone (ec : EC) (tuple : string)
| AssertFailed.

#[local] Open Scope act_scope.
Abbreviation handler := (act tx_context ctx_event).

(* @src src/concurrency/tx_context.cpp 21 48 tx_context::tx_context *)
Definition new_ctx (xid node_id : Z) (dsb : option Z) (shard2node : gmap Z Z) (cno : Z)
    (distributed has_dl : bool) : tx_context :=
  mk_ctx cno node_id dsb shard2node xid distributed 0 1 0 [] [] EC_OK RM_IDLE ∅ None ∅ []
    false false false has_dl false 0 false false [].

(** ** Locks and operations *)

(** [notify_lock_acquire] posts the pending closure to the strand. *)
(* @src src/concurrency/tx_context.cpp 88 109 tx_context::async_lock_acquire *)
Definition async_lock_acquire (ec : EC) : handler :=
  modify (fun s => s <| strand_ := strand_ s ++ [TaskLockAcquire ec] |>).

(* @src src/concurrency/tx_context.cpp 526 534 tx_context::invoke_done *)
Definition invoke_done (ec : EC) : handler :=
  modify (fun s => s <| strand_ := strand_ s ++ [TaskOpDone ec] |>).

(** [std::map::insert] keeps an existing entry. *)
Definition add_lock (l : lock_item) : handler :=
  modify (fun s =>
    match locks_ s !! li_oid l with
    | Some _ => s
    | None => s <| locks_ := <[li_oid l := l]> (locks_ s) |> <| num_lock_ := u32 (num_lock_ s + 1) |>
    end).

(** Both writers of [log_entry_] create the first entry if there is none and
    change the last one ([log_entry_.rbegin()]). *)
Definition last_entry (f : tx_log → tx_log) (entries : list tx_log) : list tx_log :=
  match rev (match entries with [] => [new_log] | l => l end) with
  | last :: before => rev before ++ [f last]
  | [] => []
  end.

(* @src src/concurrency/tx_context.cpp 720 733 tx_context::append_operation *)
Definition append_operation (op : tx_operation) : handler := fun s =>
  let bad := bool_decide (op_type op = TX_OP_INSERT ∨ op_type op = TX_OP_UPDATE)
             && is_tuple_nil (op_tuple op) in
  let op' := op <| op_xid := xid_ s |> <| op_sd_id := NodeId.TO_RG_ID (node_id_ s) |> in
  (s <| log_entry_ := last_entry (fun l => l <| log_operations := log_operations l ++ [op'] |>)
                        (log_entry_ s) |>,
   if bad then [AssertFailed] else []).

(* @src src/concurrency/tx_context.cpp 293 321 tx_context::read_data_from_dsb *)
Definition read_data_from_dsb (k : access) : handler := fun s =>
  match node_id_of_shard (k_shard_id k) (ctx_opt_dsb_node_id_ s) (shard_id_2_node_id_ s) with
  | Some dest =>
      (s <| ds_read_handler_ := <[k_oid k := k]> (ds_read_handler_ s) |>,
       [ReadDsb dest (xid_ s) (k_oid k) (k_shard_id k) (k_table_id k) (cno_ s) (k_key k)])
  | None => (s, [AssertFailed])
  end.

(** [read_done], [update_done] and [insert_done] of [handle_operation]: record
    the effect of the operation and post its completion. *)
(* @src src/concurrency/tx_context.cpp 462 474 tx_context::handle_operation *)
Definition read_done (ec : EC) (tuple : string) : handler :=
  when (EC_eqb ec EC_OK && is_tuple_nil tuple) (emit AssertFailed) ;;
  modify (fun s => s <| response_ := response_ s ++ [tuple] |>) ;;
  invoke_done ec.

(* @src src/concurrency/tx_context.cpp 485 494 tx_context::handle_operation *)
Definition update_done (op : tx_operation) (ec : EC) : handler :=
  append_operation op ;; invoke_done ec.

(* @src src/concurrency/tx_context.cpp 507 516 tx_context::handle_operation *)
Definition insert_done (op : tx_operation) (ec : EC) : handler :=
  append_operation op ;; invoke_done ec.

(** The storage block's answer to the pending access of an operation: the
    closures [fn_read_from_dsb] and [fn_read_done]. *)
(* @src src/concurrency/tx_context.cpp 225 235 tx_context::async_insert *)
Definition insert_read_done (op : tx_operation) (ec : EC) : handler :=
  match ec with
  | EC_OK => insert_done op EC_DUPLICATION_ERROR
  | EC_NOT_FOUND_ERROR => insert_done op EC_OK
  | _ => insert_done op ec
  end.

Definition dsb_done (k : access) (ec : EC) (tuple : string) : handler :=
  match k_kind k with
  | KRead => read_done ec tuple
  | KUpdate op => update_done op ec
  | KInsert op => insert_read_done op ec
  | KRemove => emit (RemoveDone ec tuple)
  end.

Section with_cache.
(** The block's tuple cache, [access_->get]. *)
Context (get : Z → Z → Z → option string).

(** The closure stored in [lock_acquire_], per kind of access. *)
(* @src src/concurrency/tx_context.cpp 125 147 tx_context::async_read *)
Definition read_locked (k : access) (ec : EC) : handler :=
  match ec with
  | EC_OK =>
      match get (k_table_id k) (k_shard_id k) (k_key k) with
      | Some t => read_done EC_OK t
      | None => read_data_from_dsb k
      end
  | _ => read_done ec ""
  end.

(* @src src/concurrency/tx_context.cpp 174 194 tx_context::async_update *)
Definition update_locked (k : access) (op : tx_operation) (ec : EC) : handler :=
  match ec with
  | EC_OK =>
      match get (k_table_id k) (k_shard_id k) (k_key k) with
      | Some _ => update_done op EC_OK
      | None => read_data_from_dsb k
      end
  | _ => update_done op ec
  end.

(* @src src/concurrency/tx_context.cpp 216 245 tx_context::async_insert *)
Definition insert_locked (k : access) (op : tx_operation) (ec : EC) : handler :=
  match ec with
  | EC_OK =>
      match get (k_table_id k) (k_shard_id k) (k_key k) with
      | Some _ => insert_done op EC_DUPLICATION_ERROR
      | None => read_data_from_dsb k
      end
  | _ => insert_done op ec
  end.

(* @src src/concurrency/tx_context.cpp 270 279 tx_context::async_remove *)
Definition remove_locked (k : access) (ec : EC) : handler :=
  match get (k_table_id k) (k_shard_id k) (k_key k) with
  | Some t => emit (RemoveDone ec t)
  | None => emit (RemoveDone EC_NOT_FOUND_ERROR "")
  end.

Definition locked (k : access) (ec : EC) : handler :=
  match k_kind k with
  | KRead => read_locked k ec
  | KUpdate op => update_locked k op ec
  | KInsert op => insert_locked k op ec
  | KRemove => remove_locked k ec
  end.

(** The closure [notify_lock_acquire] posted. *)
(* @src src/concurrency/tx_context.cpp 91 103 tx_context::notify_lock_acquire *)
Definition run_lock_acquire (ec : EC) : handler := fun s =>
  match lock_acquire_ s with
  | Some k => locked k ec (s <| lock_acquire_ := None |>)
  | None => (s, [AssertFailed])
  end.

(** The common prefix of the four accesses: take the next operation id,
    remember the lock, store the continuation. *)
Definition begin_access (kind : access_kind) (mode : lock_mode) (table_id shard_id key : Z)
    (oid : Z) : handler :=
  modify (fun s => s <| oid_ := u32 (oid_ s + 1) |>) ;;
  (fun s => when (bool_decide (lock_acquire_ s ≠ None)) (emit AssertFailed) s) ;;
  (fun s => add_lock (mk_lock_item (xid_ s) oid mode table_id shard_id key) s) ;;
  modify (fun s => s <| lock_acquire_ := Some (mk_access kind table_id shard_id key oid) |>).

(* @src src/concurrency/tx_context.cpp 111 161 tx_context::async_read *)
Definition async_read (table_id shard_id key : Z) (read_for_write : bool) : handler := fun s =>
  let oid := oid_ s in
  let lt := if read_for_write then LOCK_WRITE_ROW else LOCK_READ_ROW in
  (begin_access KRead lt table_id shard_id key oid ;;
   if read_only_ s then
     locked (mk_access KRead table_id shard_id key oid) EC_OK ;;
     modify (fun s => s <| lock_acquire_ := None |>)
   else emit (LockRow (xid_ s) oid lt table_id shard_id key)) s.

(* @src src/concurrency/tx_context.cpp 163 203 tx_context::async_update *)
Definition async_update (op : tx_operation) (table_id shard_id key : Z) : handler := fun s =>
  let oid := oid_ s in
  (begin_access (KUpdate op) LOCK_WRITE_ROW table_id shard_id key oid ;;
   emit (LockRow (xid_ s) oid LOCK_WRITE_ROW table_id shard_id key)) s.

(* @src src/concurrency/tx_context.cpp 205 257 tx_context::async_insert *)
Definition async_insert (op : tx_operation) (table_id shard_id key : Z) : handler := fun s =>
  let oid := oid_ s in
  (begin_access (KInsert op) LOCK_WRITE_ROW table_id shard_id key oid ;;
   emit (LockRow (xid_ s) oid LOCK_WRITE_ROW table_id shard_id key)) s.

(* @src src/concurrency/tx_context.cpp 259 291 tx_context::async_remove *)
Definition async_remove (table_id shard_id key : Z) : handler := fun s =>
  let oid := oid_ s in
  (begin_access KRemove LOCK_WRITE_ROW table_id shard_id key oid ;;
   emit (LockRow (xid_ s) oid LOCK_WRITE_ROW table_id shard_id key)) s.

(** The closures capture [op] before its tuple is swapped out, so they log the
    whole operation. *)
(* @src src/concurrency/tx_context.cpp 450 524 tx_context::handle_operation *)
Definition handle_operation (op : tx_operation) : handler :=
  match op_type op with
  | TX_OP_READ => async_read (op_table_id op) (op_shard_id op) (op_tuple_id op) false
  | TX_OP_READ_FOR_WRITE => async_read (op_table_id op) (op_shard_id op) (op_tuple_id op) true
  | TX_OP_UPDATE => async_update op (op_table_id op) (op_shard_id op) (op_tuple_id op)
  | TX_OP_INSERT => async_insert op (op_table_id op) (op_shard_id op) (op_tuple_id op)
  | _ => emit AssertFailed
  end.

(** ** Ending a transaction *)

(* @src src/concurrency/tx_context.cpp 536 567 tx_context::send_tx_response *)
Definition send_tx_response : handler := fun s =>
  if has_respond_ s then (s, [])
  else (s <| has_respond_ := true |>, [ClientResponse (error_code_ s)]).

(* @src src/concurrency/tx_context.cpp 678 684 tx_context::tx_ended *)
Definition tx_ended : handler := fun s =>
  (s <| state_ := RM_ENDED |>, [TxState (xid_ s) RM_ENDED]).

(* @src src/concurrency/tx_context.cpp 686 703 tx_context::release_lock *)
Definition release_lock : handler := fun s =>
  (modify (fun s => s <| end_ := true |>) ;;
   when (negb (read_only_ s)) (each (fun kv => emit (UnlockRow kv.2)) (map_to_list (locks_ s))) ;;
   when (has_dl_ s) (emit (DlFinish (xid_ s))) ;;
   tx_ended ;;
   modify (fun s => s <| locks_ := ∅ |>)) s.

(* @src src/concurrency/tx_context.cpp 705 718 tx_context::async_force_log *)
Definition async_force_log : handler := fun s =>
  (s <| log_entry_ := [] |>, [WalAppend (log_entry_ s)]).

(* @src src/concurrency/tx_context.cpp 735 743 tx_context::set_tx_cmd_type *)
Definition set_tx_cmd_type (type : tx_cmd_type) : handler :=
  modify (fun s => s <| log_entry_ := last_entry (fun l => l <| log_xid := xid_ s |> <| log_type := type |>)
                                        (log_entry_ s) |>).

(* @src src/concurrency/tx_context.cpp 879 903 tx_context::send_prepare_message *)
Definition send_prepare_message (commit : bool) : handler := fun s =>
  (s, [SendPrepare (coord_node_id_ s) commit]).

(* @src src/concurrency/tx_context.cpp 905 917 tx_context::send_ack_message *)
Definition send_ack_message (commit : bool) : handler := fun s =>
  (s, [SendAck (coord_node_id_ s) commit]).

(** [is_shared_nothing()] of the running database. *)
Context (db : db_type).

(* @src src/concurrency/tx_context.cpp 627 649 tx_context::tx_committed *)
Definition tx_committed : handler := fun s =>
  (if negb (distributed_ s) then send_tx_response ;; release_lock
   else when (is_shared_nothing db) (send_ack_message true ;; release_lock)) s.

(* @src src/concurrency/tx_context.cpp 651 674 tx_context::tx_aborted *)
Definition tx_aborted : handler := fun s =>
  (if negb (distributed_ s) then
     modify (fun s => if EC_eqb (error_code_ s) EC_OK then s <| error_code_ := EC_TX_ABORT |> else s) ;;
     send_tx_response ;; release_lock
   else when (is_shared_nothing db) (send_ack_message false ;; release_lock)) s.

(* @src src/concurrency/tx_context.cpp 585 591 tx_context::on_committed_log_commit *)
Definition on_committed_log_commit : handler :=
  modify (fun s => s <| commit_log_synced_ := true |>) ;; tx_committed.

(* @src src/concurrency/tx_context.cpp 625 625 tx_context::on_aborted_log_commit *)
Definition on_aborted_log_commit : handler := tx_aborted.

(* @src src/concurrency/tx_context.cpp 797 814 tx_context::on_prepare_committed_log_commit *)
Definition on_prepare_committed_log_commit : handler :=
  modify (fun s => s <| prepare_commit_log_synced_ := true |>) ;; send_prepare_message true.

(* @src src/concurrency/tx_context.cpp 816 822 tx_context::tx_prepare_aborted *)
Definition on_prepare_aborted_log_commit : handler := send_prepare_message false.

(* @src src/concurrency/tx_context.cpp 593 623 tx_context::on_log_entry_commit *)
Definition on_log_entry_commit (type : tx_cmd_type) : handler :=
  modify (fun s => s <| log_entry_ := [] |>) ;;
  match type with
  | TX_CMD_RM_COMMIT => on_committed_log_commit
  | TX_CMD_RM_ABORT => on_aborted_log_commit
  | TX_CMD_RM_PREPARE_ABORT => on_prepare_aborted_log_commit
  | TX_CMD_RM_PREPARE_COMMIT => on_prepare_committed_log_commit
  | _ => skip
  end.

(* @src src/concurrency/tx_context.cpp 745 765 tx_context::handle_finish_tx_phase1_commit *)
Definition handle_finish_tx_phase1_commit : handler := fun s =>
  match state_ s with
  | RM_IDLE | RM_PREPARE_COMMITTING =>
      (modify (fun s => s <| state_ := RM_COMMITTING |>) ;;
       set_tx_cmd_type TX_CMD_RM_COMMIT ;;
       if read_only_ s then on_committed_log_commit else async_force_log) s
  | RM_COMMITTING => send_tx_response s
  | _ => (s, [AssertFailed])
  end.

(* @src src/concurrency/tx_context.cpp 569 583 tx_context::abort_tx_1p *)
Definition abort_tx_1p : handler := fun s =>
  match state_ s with
  | RM_IDLE =>
      (modify (fun s => s <| state_ := RM_ABORTING |>) ;;
       set_tx_cmd_type TX_CMD_RM_ABORT ;; async_force_log) s
  | RM_ABORTING => send_tx_response s
  | _ => (s, [AssertFailed])
  end.

(* @src src/concurrency/tx_context.cpp 767 767 tx_context::handle_finish_tx_phase1_abort *)
Definition handle_finish_tx_phase1_abort : handler := abort_tx_1p.

(* @src src/concurrency/tx_context.cpp 859 868 tx_context::prepare_commit_tx *)
Definition prepare_commit_tx : handler := fun s =>
  match state_ s with
  | RM_IDLE => (modify (fun s => s <| state_ := RM_PREPARE_COMMITTING |>) ;;
                set_tx_cmd_type TX_CMD_RM_PREPARE_COMMIT) s
  | _ => (s, [])
  end.

(* @src src/concurrency/tx_context.cpp 870 877 tx_context::prepare_abort_tx *)
Definition prepare_abort_tx : handler :=
  modify (fun s => s <| state_ := RM_PREPARE_ABORTING |>) ;;
  set_tx_cmd_type TX_CMD_RM_PREPARE_ABORT.

(* @src src/concurrency/tx_context.cpp 842 849 tx_context::handle_finish_tx_phase1_prepare_commit *)
Definition handle_finish_tx_phase1_prepare_commit : handler := prepare_commit_tx ;; async_force_log.

(* @src src/concurrency/tx_context.cpp 851 857 tx_context::handle_finish_tx_phase1_prepare_abort *)
Definition handle_finish_tx_phase1_prepare_abort : handler := prepare_abort_tx ;; async_force_log.

(* @src src/concurrency/tx_context.cpp 402 448 tx_context::handle_next_operation *)
Definition handle_next_operation : handler := fun s =>
  match state_ s with
  | RM_IDLE =>
      if EC_eqb (error_code_ s) EC_OK then
        match ops_ s with
        | op :: _ => handle_operation op s
        | [] =>
            (when (negb (oid_ s =? max_ops_ s + 1)) (emit AssertFailed) ;;
             if distributed_ s
             then when (is_shared_nothing db) handle_finish_tx_phase1_prepare_commit
             else handle_finish_tx_phase1_commit) s
        end
      else
        (if distributed_ s
         then when (is_shared_nothing db) handle_finish_tx_phase1_prepare_abort
         else handle_finish_tx_phase1_abort) s
  | _ => (s, [])
  end.

(* @src src/concurrency/tx_context.cpp 411 419 tx_context::handle_next_operation *)
Definition op_done (ec : EC) : handler :=
  modify (fun s => s <| ops_ := tail (ops_ s) |>) ;;
  modify (fun s => s <| error_code_ :=
                       if read_only_ s && EC_eqb ec EC_NOT_FOUND_ERROR then EC_OK else ec |>) ;;
  handle_next_operation.

(** Run the oldest closure of the strand. *)
Definition run_strand : handler := fun s =>
  match strand_ s with
  | [] => (s, [])
  | t :: ts =>
      let s := s <| strand_ := ts |> in
      match t with
      | TaskLockAcquire ec => run_lock_acquire ec s
      | TaskOpDone ec => op_done ec s
      end
  end.

(* @src src/concurrency/tx_context.cpp 379 400 tx_context::process_tx_request *)
Definition process_tx_request (req : tx_request) : handler :=
  modify (fun s => s <| read_only_ := req_read_only req |>) ;;
  modify (fun s => if req_distributed req then s <| coord_node_id_ := req_source req |> else s) ;;
  modify (fun s => s <| max_ops_ := Z.of_nat (length (req_operations req)) |>) ;;
  when (req_oneshot req)
    (modify (fun s => s <| ops_ := ops_ s ++ req_operations req |>) ;; handle_next_operation).

(** [row] is the tuple of the response, if it carries a non-empty one. *)
(* @src src/concurrency/tx_context.cpp 323 377 tx_context::read_data_from_dsb_response *)
Definition read_data_from_dsb_response (oid : Z) (ec : EC) (table_id shard_id key : Z)
    (row : option string) : handler :=
  (fun s => match ds_read_handler_ s !! oid with
            | Some k => (dsb_done k ec (default "" row) ;;
                         modify (fun s => s <| ds_read_handler_ := delete oid (ds_read_handler_ s) |>)) s
            | None => (s, [AssertFailed])
            end) ;;
  match ec, row with
  | EC_OK, Some t => emit (CachePut table_id shard_id key t)
  | _, _ => skip
  end.

(* @src src/concurrency/tx_context.cpp 769 793 tx_context::abort *)
Definition abort (ec : EC) : handler := fun s =>
  let s := match ec with
           | EC_VICTIM => if negb (victim_ s) && negb (distributed_ s)
                          then s <| victim_ := true |> else s
           | _ => s
           end in
  if negb (distributed_ s) then
    match state_ s with
    | RM_IDLE => abort_tx_1p (s <| error_code_ := ec |>)
    | _ => (s, [])
    end
  else (s, [SendVictim (coord_node_id_ s)]).

(* @src src/concurrency/tx_context.cpp 824 840 tx_context::abort_tx_2p *)
Definition abort_tx_2p : handler := fun s =>
  match state_ s with
  | RM_IDLE | RM_PREPARE_ABORTING | RM_PREPARE_COMMITTING =>
      (modify (fun s => s <| state_ := RM_ABORTING |>) ;;
       set_tx_cmd_type TX_CMD_RM_ABORT ;; async_force_log) s
  | RM_ABORTING | RM_ENDED => send_ack_message false s
  | RM_COMMITTING => (s, [AssertFailed])
  end.

(* @src src/concurrency/tx_context.cpp 934 949 tx_context::handle_finish_tx_phase2_commit *)
Definition handle_finish_tx_phase2_commit : handler := fun s =>
  match state_ s with
  | RM_PREPARE_COMMITTING =>
      (modify (fun s => s <| state_ := RM_COMMITTING |>) ;;
       set_tx_cmd_type TX_CMD_RM_COMMIT ;; async_force_log) s
  | RM_COMMITTING => send_ack_message true s
  | _ => (s, [AssertFailed])
  end.

(** The messages carry the xid of the transaction. *)
(* @src src/concurrency/tx_context.cpp 919 925 tx_context::handle_tx_tm_commit *)
Definition handle_tx_tm_commit (xid : Z) : handler := fun s =>
  if xid =? xid_ s then handle_finish_tx_phase2_commit s else (s, [AssertFailed]).

(* @src src/concurrency/tx_context.cpp 926 932 tx_context::handle_tx_tm_abort *)
Definition handle_tx_tm_abort (xid : Z) : handler := fun s =>
  if xid =? xid_ s then abort_tx_2p s else (s, [AssertFailed]).

(** [ms] and [start] are the clock now and at construction.  Nothing in the
    repository calls this method. *)
(* @src src/concurrency/tx_context.cpp 1095 1119 tx_context::timeout_clean_up *)
Definition timeout_clean_up (ms start : Z) : handler := fun s =>
  if u64 (ms + 1000) <? start then (s, [])
  else match state_ s with
       | RM_PREPARE_COMMITTING | RM_COMMITTING => (s, [])
       | _ => (if negb (distributed_ s) then abort_tx_1p ;; send_tx_response
               else when (is_shared_nothing db) abort_tx_2p) s
       end.
End with_cache.

(** ** Handlers that do not touch the commit protocol

    [quiet h]: the handler [h] leaves the protocol state and the identity of
    the transaction alone and neither logs nor votes. *)

Definition frame (s s' : tx_context) : Prop :=
  state_ s' = state_ s ∧ distributed_ s' = distributed_ s ∧ node_id_ s' = node_id_ s ∧
  xid_ s' = xid_ s ∧ ((length (log_entry_ s) ≤ 1)%nat → (length (log_entry_ s') ≤ 1)%nat).

Definition is_quiet (e : ctx_event) : bool :=
  match e with
  | WalAppend _ | SendPrepare _ _ | SendAck _ _ | TxState _ _ | ClientResponse _ | UnlockRow _ => false
  | _ => true
  end.

Abbreviation quiet := (respects frame (fun e => is_quiet e = true)).

#[export] Instance frame_refl : Reflexive frame.
Proof. by intros s. Qed.
#[export] Instance frame_trans : Transitive frame.
Proof. intros a b c (?&?&?&?&?) (?&?&?&?&?). split_and!; try congruence; auto. Qed.

Lemma quiet_invoke_done ec : quiet (invoke_done ec).
Proof. unfold invoke_done. auto with respects. Qed.

Lemma quiet_async_lock_acquire ec : quiet (async_lock_acquire ec).
Proof. unfold async_lock_acquire. auto with respects. Qed.

Lemma last_entry_le f l : (length l ≤ 1 → length (last_entry f l) ≤ 1)%nat.
Proof. destruct l as [|a [|b l]]; simpl; lia. Qed.

Lemma quiet_append_operation op : quiet (append_operation op).
Proof.
  intros s. unfold append_operation. split.
  - split_and!; try done. simpl. apply last_entry_le.
  - simpl. case_match; by repeat constructor.
Qed.

Lemma quiet_read_data k : quiet (read_data_from_dsb k).
Proof.
  intros s. unfold read_data_from_dsb. case_match; (split; [done|by repeat constructor]).
Qed.
#[export] Hint Resolve quiet_invoke_done quiet_async_lock_acquire quiet_append_operation
  quiet_read_data : respects.

Lemma quiet_read_done ec t : quiet (read_done ec t).
Proof. unfold read_done. auto with respects. Qed.

Lemma quiet_update_done op ec : quiet (update_done op ec).
Proof. unfold update_done. auto with respects. Qed.

Lemma quiet_insert_done op ec : quiet (insert_done op ec).
Proof. unfold insert_done. auto with respects. Qed.
#[export] Hint Resolve quiet_read_done quiet_update_done quiet_insert_done : respects.

Lemma quiet_dsb_done k ec t : quiet (dsb_done k ec t).
Proof. unfold dsb_done, insert_read_done. repeat case_match; auto with respects. Qed.

Lemma quiet_locked get k ec : quiet (locked get k ec).
Proof.
  unfold locked, read_locked, update_locked, insert_locked, remove_locked.
  repeat case_match; auto with respects.
Qed.
#[export] Hint Resolve quiet_dsb_done quiet_locked : respects.

Lemma quiet_begin_access k m t sh key o : quiet (begin_access k m t sh key o).
Proof.
  unfold begin_access, add_lock. repeat (refine (respects_then _ _ _ _ _ _)); auto with respects.
  - apply (respects_read _ _ (fun s => when (bool_decide (lock_acquire_ s ≠ None)) (emit AssertFailed))).
    auto with respects.
  - intros s. split; [simpl; by repeat case_match|constructor].
Qed.
#[export] Hint Resolve quiet_begin_access : respects.

Lemma quiet_handle_operation get op : quiet (handle_operation get op).
Proof.
  unfold handle_operation, async_read, async_update, async_insert.
  case_match; try (apply respects_emit; done);
    intros s; refine (respects_then _ _ _ _ _ _ s); auto with respects; case_match; auto with respects.
Qed.

Lemma quiet_run_lock_acquire get ec : quiet (run_lock_acquire get ec).
Proof.
  intros s. unfold run_lock_acquire. destruct (lock_acquire_ s) as [k|]; [|split; [done|by repeat constructor]].
  destruct (quiet_locked get k ec (s <| lock_acquire_ := None |>)) as [F E]. split; [|done].
  by etrans; [|exact F].
Qed.

Lemma quiet_dsb_response oid ec t sh key row :
  quiet (read_data_from_dsb_response oid ec t sh key row).
Proof.
  unfold read_data_from_dsb_response. refine (respects_then _ _ _ _ _ _).
  - intros s. case_match; [|split; [done|by repeat constructor]].
    refine (respects_then _ _ _ _ _ _ s); auto with respects.
  - repeat case_match; auto with respects.
Qed.

(** ** The commit protocol of a distributed transaction

    Every handler moves the protocol state along one of the edges below, with
    the log entries, votes and acknowledgements of that edge. *)

Definition logged (ev : list ctx_event) : list tx_cmd_type :=
  ev ≫= fun e => match e with WalAppend l => map log_type l | _ => [] end.
Definition voted (ev : list ctx_event) : list bool :=
  omap (fun e => match e with SendPrepare _ b => Some b | _ => None end) ev.
Definition acked (ev : list ctx_event) : list bool :=
  omap (fun e => match e with SendAck _ b => Some b | _ => None end) ev.

Inductive work_move : rm_state → rm_state → list tx_cmd_type → Prop :=
| mv_stay st : work_move st st []
| mv_prepare : work_move RM_IDLE RM_PREPARE_COMMITTING [TX_CMD_RM_PREPARE_COMMIT]
| mv_refuse : work_move RM_IDLE RM_PREPARE_ABORTING [TX_CMD_RM_PREPARE_ABORT].

Inductive commit_move : rm_state → rm_state → list tx_cmd_type → list bool → Prop :=
| mv_ignore_commit st : commit_move st st [] []
| mv_commit : commit_move RM_PREPARE_COMMITTING RM_COMMITTING [TX_CMD_RM_COMMIT] []
| mv_recommit : commit_move RM_COMMITTING RM_COMMITTING [] [true].

Inductive abort_move : rm_state → rm_state → list tx_cmd_type → list bool → Prop :=
| mv_ignore_abort st : abort_move st st [] []
| mv_abort st : st = RM_IDLE ∨ st = RM_PREPARE_ABORTING ∨ st = RM_PREPARE_COMMITTING →
    abort_move st RM_ABORTING [TX_CMD_RM_ABORT] []
| mv_reabort st : st = RM_ABORTING ∨ st = RM_ENDED → abort_move st st [] [false].

(** What a context of a distributed transaction keeps. *)
Definition running (n : Z) (c : tx_context) : Prop :=
  node_id_ c = n ∧ distributed_ c = true ∧ (length (log_entry_ c) ≤ 1)%nat.

Definition outcome (R : rm_state → rm_state → list tx_cmd_type → list bool → list bool → Prop)
    (n : Z) (c : tx_context) (r : tx_context * list ctx_event) : Prop :=
  running n r.1 ∧ R (state_ c) (state_ r.1) (logged r.2) (voted r.2) (acked r.2).

Lemma quiet_traces ev :
  Forall (fun e => is_quiet e = true) ev → logged ev = [] ∧ voted ev = [] ∧ acked ev = [].
Proof. induction 1 as [|e ev He _ (IH1&IH2&IH3)]; [done|]. destruct e; try done. Qed.

Lemma running_frame n s s' : running n s → frame s s' → running n s'.
Proof. intros (?&?&?) (?&?&?&?&?). split_and!; try congruence. auto. Qed.

Definition worked (st st' : rm_state) (ws : list tx_cmd_type) (vs acks : list bool) : Prop :=
  work_move st st' ws ∧ vs = [] ∧ acks = [].
Definition committing (st st' : rm_state) (ws : list tx_cmd_type) (vs acks : list bool) : Prop :=
  commit_move st st' ws acks ∧ vs = [].
Definition aborting (st st' : rm_state) (ws : list tx_cmd_type) (vs acks : list bool) : Prop :=
  abort_move st st' ws acks ∧ vs = [].
(** A durable log entry: the vote after a prepare record, the end of the
    transaction after an outcome. *)
Definition flushed (t : tx_cmd_type) (st st' : rm_state) (ws : list tx_cmd_type)
    (vs acks : list bool) : Prop :=
  ws = [] ∧
  match t with
  | TX_CMD_RM_PREPARE_COMMIT => st' = st ∧ vs = [true] ∧ acks = []
  | TX_CMD_RM_PREPARE_ABORT => st' = st ∧ vs = [false] ∧ acks = []
  | TX_CMD_RM_COMMIT => st' = RM_ENDED ∧ vs = [] ∧ acks = [true]
  | TX_CMD_RM_ABORT => st' = RM_ENDED ∧ vs = [] ∧ acks = [false]
  | _ => st' = st ∧ vs = [] ∧ acks = []
  end.

Lemma quiet_outcome h n c : quiet h → running n c → outcome worked n c (h c).
Proof.
  intros Hq Hr. destruct (Hq c) as [F E]. split; [by eapply running_frame|].
  destruct (quiet_traces _ E) as (->&->&->). destruct F as (->&_). split_and!; [constructor|done|done].
Qed.

(** Replace the entry's type, then hand it to the log. *)
Lemma force_log t n c r :
  running n c → r = (set_tx_cmd_type t ;; async_force_log) c →
  running n r.1 ∧ state_ r.1 = state_ c ∧ logged r.2 = [t] ∧ voted r.2 = [] ∧ acked r.2 = [].
Proof.
  intros (?&?&?) ->. unfold running. simpl. split_and!; try done; [simpl; lia|].
  unfold last_entry. destruct (log_entry_ c) as [|a [|b l]]; try done. simpl in *. lia.
Qed.

(** A handler that sets the state and logs [t]. *)
Lemma enter_outcome (R : rm_state → rm_state → list tx_cmd_type → list bool → list bool → Prop)
    t st n c ev :
  running n c → Forall (fun e => is_quiet e = true) ev → R (state_ c) st [t] [] [] →
  let r := (set_tx_cmd_type t ;; async_force_log) (c <| state_ := st |>) in
  outcome R n c (r.1, ev ++ r.2).
Proof.
  intros Hr Hq HR r.
  assert (running n (c <| state_ := st |>)) as Hr1 by exact Hr.
  destruct (force_log t n _ r Hr1 eq_refl) as (H1&H2&H3&H4&H5).
  clearbody r. destruct (quiet_traces _ Hq) as (Q1&Q2&Q3).
  split; [done|]. simpl in H2. simpl.
  unfold logged, voted, acked in *. rewrite bind_app, !omap_app, Q1, Q2, Q3, H2, H3, H4, H5. done.
Qed.

Section moves.
Context (get : Z → Z → Z → option string).

Lemma prepare_commit_eq c :
  state_ c = RM_IDLE →
  handle_finish_tx_phase1_prepare_commit c =
  (set_tx_cmd_type TX_CMD_RM_PREPARE_COMMIT ;; async_force_log) (c <| state_ := RM_PREPARE_COMMITTING |>).
Proof.
  intros Es. unfold handle_finish_tx_phase1_prepare_commit, prepare_commit_tx, and_then.
  by rewrite Es.
Qed.

Lemma next_operation_outcome n c :
  running n c → outcome worked n c (handle_next_operation get DB_SN c).
Proof.
  intros Hr. destruct (Hr) as (?&Hd&?). unfold handle_next_operation.
  destruct (state_ c) eqn:Es; try by (apply (quiet_outcome skip); auto with respects).
  rewrite Hd. destruct (EC_eqb (error_code_ c) EC_OK); [destruct (ops_ c) as [|op ops]|].
  - rewrite and_then_eq.
    assert ((when (negb (oid_ c =? max_ops_ c + 1)) (emit AssertFailed) c).1 = c) as ->
      by by destruct (negb _).
    unfold when at 2. simpl (is_shared_nothing DB_SN). cbv iota. rewrite prepare_commit_eq by done.
    apply (enter_outcome worked); [done| |rewrite Es; by repeat constructor].
    destruct (oid_ c =? max_ops_ c + 1); by repeat constructor.
  - apply quiet_outcome; [apply quiet_handle_operation|done].
  - apply (enter_outcome worked TX_CMD_RM_PREPARE_ABORT RM_PREPARE_ABORTING n c []); try done.
    rewrite Es. by repeat constructor.
Qed.

(** Leading quiet work does not change what follows. *)
Lemma after_quiet h h' n c :
  quiet h → running n c → (running n (h c).1 → outcome worked n (h c).1 (h' (h c).1)) →
  outcome worked n c ((h ;; h') c).
Proof.
  intros Hq Hr Hh'. rewrite and_then_eq. destruct (Hq c) as [F E].
  destruct (Hh' (running_frame _ _ _ Hr F)) as [H1 (H2&H3&H4)]. split; [done|].
  destruct (quiet_traces _ E) as (Q1&Q2&Q3). destruct F as (F1&_). simpl in *.
  unfold worked, logged, voted, acked in *. rewrite bind_app, !omap_app, Q1, Q2, Q3.
  simpl. rewrite <- F1. done.
Qed.

Lemma run_strand_outcome n c : running n c → outcome worked n c (run_strand get DB_SN c).
Proof.
  intros Hr. unfold run_strand. destruct (strand_ c) as [|t ts];
    [by apply (quiet_outcome skip); auto with respects|].
  destruct t as [ec|ec].
  - change (outcome worked n (c <| strand_ := ts |>) (run_lock_acquire get ec (c <| strand_ := ts |>))).
    apply quiet_outcome; [apply quiet_run_lock_acquire|done].
  - change (outcome worked n (c <| strand_ := ts |>) (op_done get DB_SN ec (c <| strand_ := ts |>))).
    apply after_quiet; [auto with respects|done|].
    intros Hr1. apply after_quiet; [auto with respects|done|]. apply next_operation_outcome.
Qed.

Lemma abort_outcome ec n c : running n c → outcome worked n c (abort ec c).
Proof.
  intros Hr. destruct (Hr) as (?&Hd&?). unfold abort. rewrite Hd. rewrite andb_false_r.
  assert (match ec with EC_VICTIM => c | _ => c end = c) as -> by by destruct ec.
  rewrite Hd. simpl. apply (quiet_outcome (emit (SendVictim (coord_node_id_ c)))); auto with respects.
Qed.

Lemma process_outcome req n c : running n c → outcome worked n c (process_tx_request get DB_SN req c).
Proof.
  intros Hr. unfold process_tx_request.
  do 3 (apply after_quiet; [auto with respects|done|]; clear Hr; intros Hr).
  destruct (req_oneshot req); [|by apply quiet_outcome; auto with respects].
  apply after_quiet; [auto with respects|done|]. apply next_operation_outcome.
Qed.
End moves.

(** Ending a transaction releases exactly the locks it holds, once. *)
Lemma release_lock_eq c :
  release_lock c =
  (c <| end_ := true |> <| state_ := RM_ENDED |> <| locks_ := ∅ |>,
   (if read_only_ c then [] else map (fun kv => UnlockRow kv.2) (map_to_list (locks_ c))) ++
   (if has_dl_ c then [DlFinish (xid_ c)] else []) ++ [TxState (xid_ c) RM_ENDED]).
Proof.
  unfold release_lock. rewrite !and_then_eq. simpl. unfold when.
  destruct (read_only_ c); simpl; [|rewrite each_emit; simpl]; destruct (has_dl_ c); done.
Qed.

Lemma unlock_traces (l : list (Z * lock_item)) :
  let ev := map (fun kv => UnlockRow kv.2) l in logged ev = [] ∧ voted ev = [] ∧ acked ev = [].
Proof. induction l; [done|]. simpl in *. done. Qed.

Definition ended (b : bool) (_ st' : rm_state) (ws : list tx_cmd_type) (vs acks : list bool) : Prop :=
  ws = [] ∧ st' = RM_ENDED ∧ vs = [] ∧ acks = [b].

Lemma release_outcome n c c0 b :
  running n c → outcome (ended b) n c0 ((send_ack_message b ;; release_lock) c).
Proof.
  intros (?&?&?). rewrite and_then_eq. simpl. rewrite release_lock_eq. split; [by split_and!|].
  destruct (unlock_traces (map_to_list (locks_ c))) as (U1&U2&U3). simpl in *.
  unfold logged, voted, acked in *. unfold ended. simpl. rewrite !bind_app, !omap_app.
  destruct (read_only_ c), (has_dl_ c); simpl; rewrite ?U1, ?U2, ?U3; done.
Qed.

Lemma committed_eq c :
  distributed_ c = true →
  on_committed_log_commit DB_SN c =
  (send_ack_message true ;; release_lock) (c <| commit_log_synced_ := true |>).
Proof.
  intros Hd. unfold on_committed_log_commit. rewrite modify_then. unfold tx_committed.
  change (distributed_ (c <| commit_log_synced_ := true |>)) with (distributed_ c). by rewrite Hd.
Qed.

Lemma aborted_eq c :
  distributed_ c = true →
  on_aborted_log_commit DB_SN c = (send_ack_message false ;; release_lock) c.
Proof. intros Hd. unfold on_aborted_log_commit, tx_aborted. by rewrite Hd. Qed.

Lemma log_commit_outcome t n c : running n c → outcome (flushed t) n c (on_log_entry_commit DB_SN t c).
Proof.
  intros Hr. destruct (Hr) as (Hn&Hd&Hl). unfold on_log_entry_commit. rewrite modify_then.
  set (c1 := c <| log_entry_ := [] |>).
  assert (running n c1) as Hr1 by (split_and!; [done..|simpl; lia]).
  destruct t; try by (split; [done|split; [done|by split_and!]]).
  - rewrite committed_eq by apply Hr1. by apply (release_outcome n _ c true).
  - rewrite aborted_eq by apply Hr1. by apply (release_outcome n _ c false).
Qed.

Lemma tm_commit_outcome x n c : running n c → outcome committing n c (handle_tx_tm_commit x c).
Proof.
  intros Hr. unfold handle_tx_tm_commit, handle_finish_tx_phase2_commit.
  destruct (x =? xid_ c); [|by split; [done|split; [constructor|]]].
  destruct (state_ c) eqn:Es;
    try by (split; [done|split; [simpl; rewrite Es; constructor|]]).
  apply (enter_outcome committing TX_CMD_RM_COMMIT RM_COMMITTING n c []); try done.
  rewrite Es. by repeat constructor.
Qed.

Lemma tm_abort_outcome x n c : running n c → outcome aborting n c (handle_tx_tm_abort x c).
Proof.
  intros Hr. unfold handle_tx_tm_abort, abort_tx_2p.
  destruct (x =? xid_ c); [|by split; [done|split; [constructor|]]].
  destruct (state_ c) eqn:Es; 
    try by (split; [done|split; [simpl; rewrite Es; constructor; auto|]]).
  all: apply (enter_outcome aborting TX_CMD_RM_ABORT RM_ABORTING n c []); try done.
  all: rewrite Es; split; [constructor; auto|done].
Qed.

End TxContext.
