(* ===== verification/TxCoordinator.v ===== *)
(** * The transaction coordinator of two-phase commit

    [src/concurrency/tx_coordinator.cpp] with
    [include/concurrency/tx_coordinator.h] (shared-nothing build, without the
    geo-replication option).  A coordinator splits a distributed request by
    shard, logs [TM_BEGIN], sends each shard its part, collects the prepare
    votes, logs the decision, and announces it once the log entry is
    committed.  Handlers are [act]s; the latency and lock statistics that only
    feed the client's response are kept in one record.

    [rm_tracer_] is an [unordered_map]: the source leaves the order in which it
    is iterated unspecified, and the model uses the order of [map_to_list]. *)

From S2P Require Import Prelude Common.
#[local] Open Scope Z_scope.

Module TxCoordinator.

(* @src include/concurrency/tx_coordinator.h 19 24 tm_state *)
Inductive tm_state := TM_IDLE | TM_COMMITTED | TM_ABORTED | TM_DONE.

#[export] Instance tm_state_eq_dec : EqDecision tm_state.
Proof. solve_decision. Defined.

(* @src include/concurrency/tx_coordinator.h 43 49 tx_rm_state *)
Inductive tx_rm_state :=
| RM_IDLE | RM_PREPARE_COMMIT | RM_PREPARE_ABORT | RM_COMMITTED | RM_ABORTED.

#[export] Instance tx_rm_state_eq_dec : EqDecision tx_rm_state.
Proof. solve_decision. Defined.

(* @src include/concurrency/tx_coordinator.h 51 63 tx_rm_tracer *)
Record tx_rm_tracer := mk_tracer {
  lead_ : Z;
  rm_state_ : tx_rm_state;
  message_ : tx_request;
}.
#[export] Instance eta_tracer : Eta tx_rm_tracer := fun t =>
  mk_tracer (lead_ t) (rm_state_ t) (message_ t).

Definition new_tracer : tx_rm_tracer := mk_tracer 0 RM_IDLE new_request.

(** The counters of a response; 64-bit latencies and 32-bit counts. *)
Record stats := mk_stats {
  latency_read_ : Z;
  latency_read_dsb_ : Z;
  latency_replicate_ : Z;
  latency_append_ : Z;
  latency_lock_wait_ : Z;
  latency_part_ : Z;
  num_lock_ : Z;
  num_read_violate_ : Z;
  num_write_violate_ : Z;
}.
Definition stats_zero : stats := mk_stats 0 0 0 0 0 0 0 0 0.

Definition stats_add (a b : stats) : stats :=
  mk_stats (u64 (latency_read_ a + latency_read_ b))
    (u64 (latency_read_dsb_ a + latency_read_dsb_ b))
    (u64 (latency_replicate_ a + latency_replicate_ b))
    (u64 (latency_append_ a + latency_append_ b))
    (u64 (latency_lock_wait_ a + latency_lock_wait_ b))
    (u64 (latency_part_ a + latency_part_ b))
    (u32 (num_lock_ a + num_lock_ b))
    (u32 (num_read_violate_ a + num_read_violate_ b))
    (u32 (num_write_violate_ a + num_write_violate_ b)).

(* @src include/concurrency/tx_coordinator.h 65 95 tx_coordinator *)
Record tx_coordinator := mk_tm {
  xid_ : Z;
  node_id_ : Z;
  lead_node_ : gmap Z Z;
  rm_tracer_ : gmap Z tx_rm_tracer;
  tm_state_ : tm_state;
  write_begin_log_ : bool;
  write_commit_log_ : bool;
  write_abort_log_ : bool;
  write_end_done_ : bool;
  error_code_ : EC;
  victim_ : bool;
  responsed_ : bool;
  stats_ : stats;
}.
#[export] Instance eta_tm : Eta tx_coordinator := fun c =>
  mk_tm (xid_ c) (node_id_ c) (lead_node_ c) (rm_tracer_ c) (tm_state_ c) (write_begin_log_ c)
    (write_commit_log_ c) (write_abort_log_ c) (write_end_done_ c) (error_code_ c) (victim_ c)
    (responsed_ c) (stats_ c).

(** Calls to the network, the write-ahead log, the client and the block. *)
Inductive tm_event :=
| SendRequest (lead : Z) (req : tx_request)
| SendCommit (lead : Z)
| SendAbort (lead : Z)
| SendEnd (lead : Z)
| WalAppend (type : tx_cmd_type)
| ClientResponse (ec : EC) (access_part : Z) (st : stats)
| TmState (xid : Z) (st : tm_state)
| AssertFailed.

#[local] Open Scope act_scope.
Abbreviation handler := (act tx_coordinator tm_event).

(* @src src/concurrency/tx_coordinator.cpp 24 39 tx_coordinator::tx_coordinator *)
Definition new_tm (xid node_id : Z) (lead_node : gmap Z Z) : tx_coordinator :=
  mk_tm xid node_id lead_node ∅ TM_IDLE false false false false EC_OK false false stats_zero.

(** ** Logging *)

(* @src src/concurrency/tx_coordinator.cpp 331 345 tx_coordinator::write_begin_log *)
Definition write_begin_log : handler := fun s =>
  if bool_decide (tm_state_ s = TM_IDLE) && negb (write_begin_log_ s)
  then (s <| write_begin_log_ := true |>, [WalAppend TX_CMD_TM_BEGIN]) else (s, []).

(* @src src/concurrency/tx_coordinator.cpp 347 362 tx_coordinator::write_commit_log *)
Definition write_commit_log : handler := fun s =>
  if bool_decide (tm_state_ s = TM_IDLE) && negb (victim_ s) && negb (write_commit_log_ s)
  then (s <| write_commit_log_ := true |>, [WalAppend TX_CMD_TM_COMMIT]) else (s, []).

(* @src src/concurrency/tx_coordinator.cpp 363 376 tx_coordinator::write_abort_log *)
Definition write_abort_log : handler := fun s =>
  if bool_decide (tm_state_ s = TM_IDLE) && negb (write_abort_log_ s) && negb (write_commit_log_ s)
  then (s <| write_abort_log_ := true |>, [WalAppend TX_CMD_TM_ABORT]) else (s, []).

(* @src src/concurrency/tx_coordinator.cpp 377 391 tx_coordinator::write_end_log *)
Definition write_end_log : handler := fun s =>
  if negb (write_end_done_ s) && (bool_decide (tm_state_ s = TM_COMMITTED ∨ tm_state_ s = TM_ABORTED))
  then (s <| write_end_done_ := true |>, [WalAppend TX_CMD_TM_END]) else (s, []).

(** ** Messages *)

(* @src src/concurrency/tx_coordinator.cpp 393 414 tx_coordinator::send_tx_response *)
Definition send_tx_response : handler := fun s =>
  if responsed_ s then (s, [])
  else (s <| responsed_ := true |>,
        [ClientResponse (error_code_ s) (Z.of_nat (size (rm_tracer_ s))) (stats_ s)]).

Definition tracers (s : tx_coordinator) : list (Z * tx_rm_tracer) := map_to_list (rm_tracer_ s).

(* @src src/concurrency/tx_coordinator.cpp 155 178 tx_coordinator::send_commit *)
Definition send_commit : handler := fun s =>
  (s, map (fun kv => SendCommit (lead_ kv.2)) (tracers s)).

(* @src src/concurrency/tx_coordinator.cpp 179 194 tx_coordinator::send_abort *)
Definition send_abort : handler := fun s =>
  (s, map (fun kv => SendAbort (lead_ kv.2)) (tracers s)).

(* @src src/concurrency/tx_coordinator.cpp 196 209 tx_coordinator::send_end *)
Definition send_end : handler := fun s =>
  (s, map (fun kv => SendEnd (lead_ kv.2)) (tracers s)).

(** The loop of [send_rm_request] over the shards [ks]: stamp the message, send
    it, and stop at the first send that fails; [send_ok] is the network's answer
    for a destination. *)
(* @src src/concurrency/tx_coordinator.cpp 141 151 tx_coordinator::send_rm_request *)
Fixpoint send_requests (send_ok : Z → bool) (ks : list Z) (s : tx_coordinator)
    : bool * tx_coordinator * list tm_event :=
  match ks with
  | [] => (true, s, [])
  | k :: ks =>
      match rm_tracer_ s !! k with
      | None => send_requests send_ok ks s
      | Some t =>
          let m := (message_ t) <| req_xid := xid_ s |> <| req_client_request := false |> in
          let s := s <| rm_tracer_ := <[k := t <| message_ := m |>]> (rm_tracer_ s) |> in
          if send_ok (lead_ t)
          then let '(ok, s, ev) := send_requests send_ok ks s in (ok, s, SendRequest (lead_ t) m :: ev)
          else (false, s, [])
      end
  end.

(* @src src/concurrency/tx_coordinator.cpp 140 153 tx_coordinator::send_rm_request *)
Definition send_rm_request (send_ok : Z → bool) (s : tx_coordinator)
    : bool * tx_coordinator * list tm_event :=
  send_requests send_ok (map fst (tracers s)) s.

(** ** Log callbacks *)

(* @src src/concurrency/tx_coordinator.cpp 63 72 tx_coordinator::on_begin *)
Definition on_begin (send_ok : Z → bool) : handler := fun s =>
  let '(ok, s, ev) := send_rm_request send_ok s in
  if ok then (s, ev)
  else let '(s, ev') := send_tx_response (s <| error_code_ := EC_TX_ABORT |>) in (s, ev ++ ev').

(* @src src/concurrency/tx_coordinator.cpp 74 80 tx_coordinator::on_committed *)
Definition on_committed : handler :=
  modify (fun s => s <| tm_state_ := TM_COMMITTED |>) ;; send_commit.

(* @src src/concurrency/tx_coordinator.cpp 82 90 tx_coordinator::on_aborted *)
Definition on_aborted : handler :=
  modify (fun s => s <| tm_state_ := TM_ABORTED |> <| error_code_ := EC_TX_ABORT |>) ;;
  send_abort ;; send_tx_response.

(* @src src/concurrency/tx_coordinator.cpp 92 101 tx_coordinator::on_ended *)
Definition on_ended : handler := fun s =>
  (s <| tm_state_ := TM_DONE |>, [TmState (xid_ s) TM_DONE]).

(* @src src/concurrency/tx_coordinator.cpp 41 61 tx_coordinator::on_log_entry_commit *)
Definition on_log_entry_commit (send_ok : Z → bool) (type : tx_cmd_type) : handler :=
  match type with
  | TX_CMD_TM_COMMIT => on_committed
  | TX_CMD_TM_ABORT => on_aborted
  | TX_CMD_TM_END => on_ended
  | TX_CMD_TM_BEGIN => on_begin send_ok
  | _ => skip
  end.

(** ** Requests and votes *)

(** One turn of the loop over the operations; [inr] is the early return. *)
(* @src src/concurrency/tx_coordinator.cpp 108 134 tx_coordinator::handle_tx_request *)
Definition add_operation (oneshot : bool) (op : tx_operation) (s : tx_coordinator)
    : tx_coordinator * bool :=
  let sd_id := op_sd_id op in
  let t := default new_tracer (rm_tracer_ s !! sd_id) in
  let m := (message_ t) <| req_operations := req_operations (message_ t) ++ [op] |>
             <| req_distributed := true |> <| req_source := node_id_ s |>
             <| req_oneshot := oneshot |> in
  let t := mk_tracer 0 RM_IDLE m in
  match lead_node_ s !! sd_id with
  | Some lead =>
      (s <| rm_tracer_ := <[sd_id := t <| lead_ := lead |> <| message_ := m <| req_dest := lead |> |>]>
                            (rm_tracer_ s) |>, true)
  | None =>
      (s <| rm_tracer_ := <[sd_id := t]> (rm_tracer_ s) |> <| error_code_ := EC_INVALID_ARGUMENT |>,
       false)
  end.

Fixpoint add_operations (oneshot : bool) (ops : list tx_operation) (s : tx_coordinator)
    : tx_coordinator * bool :=
  match ops with
  | [] => (s, true)
  | op :: ops =>
      let '(s, ok) := add_operation oneshot op s in
      if ok then add_operations oneshot ops s else (s, false)
  end.

(* @src src/concurrency/tx_coordinator.cpp 103 138 tx_coordinator::handle_tx_request *)
Definition handle_tx_request (req : tx_request) (s : tx_coordinator)
    : result unit * tx_coordinator * list tm_event :=
  let '(s, ok) := add_operations (req_oneshot req) (req_operations req) s in
  if ok then let '(s, ev) := write_begin_log s in (inl (), s, ev)
  else (inr EC_INVALID_ARGUMENT, s, []).

Definition count_state (st : tx_rm_state) (s : tx_coordinator) : Z :=
  Z.of_nat (length (filter (fun kv : Z * tx_rm_tracer => rm_state_ kv.2 = st) (tracers s))).

(* @src src/concurrency/tx_coordinator.cpp 285 329 tx_coordinator::step_tm_state_advance *)
Definition step_tm_state_advance : handler := fun s =>
  let prepare_commit := count_state RM_PREPARE_COMMIT s in
  let prepare_abort := count_state RM_PREPARE_ABORT s in
  let aborted := count_state RM_ABORTED s in
  let committed := count_state RM_COMMITTED s in
  let idle := count_state RM_IDLE s in
  let total := Z.of_nat (length (tracers s)) in
  if idle =? 0 then
    if (committed =? total) || (aborted =? total) then (send_tx_response ;; write_end_log) s
    else if prepare_commit + prepare_abort =? total then
      if prepare_abort =? 0 then write_commit_log s else write_abort_log s
    else (s, [])
  else (s, []).

(* @src src/concurrency/tx_coordinator.cpp 211 245 tx_coordinator::handle_tx_rm_prepare *)
Definition handle_tx_rm_prepare (source_rg : Z) (commit : bool) (st : stats) : handler := fun s =>
  match rm_tracer_ s !! source_rg with
  | None => (s, [AssertFailed])
  | Some t =>
      match rm_state_ t with
      | RM_IDLE =>
          let t := t <| rm_state_ := if commit then RM_PREPARE_COMMIT else RM_PREPARE_ABORT |> in
          let s := s <| rm_tracer_ := <[source_rg := t]> (rm_tracer_ s) |> in
          let s := if commit then s <| stats_ := stats_add (stats_ s) st |> else s in
          step_tm_state_advance s
      | RM_PREPARE_ABORT | RM_ABORTED => (s, if victim_ s then [] else [AssertFailed])
      | _ => (s, [])
      end
  end.

(* @src src/concurrency/tx_coordinator.cpp 247 283 tx_coordinator::handle_tx_rm_ack *)
Definition handle_tx_rm_ack (source_rg : Z) (commit : bool) : handler := fun s =>
  match rm_tracer_ s !! source_rg with
  | None => (s, [AssertFailed])
  | Some t =>
      let set st := s <| rm_tracer_ := <[source_rg := t <| rm_state_ := st |>]> (rm_tracer_ s) |> in
      if commit then
        match rm_state_ t with
        | RM_PREPARE_COMMIT => step_tm_state_advance (set RM_COMMITTED)
        | RM_COMMITTED => (s, [])
        | _ => (s, [AssertFailed])
        end
      else
        match rm_state_ t with
        | RM_PREPARE_COMMIT | RM_PREPARE_ABORT | RM_IDLE => step_tm_state_advance (set RM_ABORTED)
        | RM_COMMITTED => (emit AssertFailed ;; step_tm_state_advance) s
        | RM_ABORTED => step_tm_state_advance s
        end
  end.

(* @src src/concurrency/tx_coordinator.cpp 416 447 tx_coordinator::abort *)
Definition abort (ec : EC) : handler := fun s =>
  let s := if EC_eqb ec EC_VICTIM && bool_decide (tm_state_ s = TM_IDLE) && negb (victim_ s)
           then s <| victim_ := true |> else s in
  if write_commit_log_ s then (s, [])
  else match tm_state_ s with
       | TM_IDLE => (modify (fun s => s <| error_code_ := ec |> <| tm_state_ := TM_ABORTED |>) ;;
                     send_tx_response ;; send_abort) s
       | TM_ABORTED => (modify (fun s => s <| error_code_ := ec |>) ;;
                        send_tx_response ;; send_abort) s
       | _ => (s, [])
       end.

(** [elapsed] tells whether a second has passed.  Nothing in the repository
    calls this method. *)
(* @src src/concurrency/tx_coordinator.cpp 449 478 tx_coordinator::timeout_clean_up *)
Definition timeout_clean_up (elapsed : bool) : handler := fun s =>
  if negb elapsed then (s, [])
  else match tm_state_ s with
       | TM_IDLE => (modify (fun s => s <| tm_state_ := TM_ABORTED |>) ;;
                     send_tx_response ;; send_abort) s
       | TM_COMMITTED => (send_tx_response ;; send_commit) s
       | TM_ABORTED => (send_tx_response ;; send_abort) s
       | TM_DONE => send_tx_response s
       end.

(** ** Participants and their recorded votes *)

(** The leader the coordinator addresses for each shard, and the vote it has
    recorded for a shard. *)
Definition leads (s : tx_coordinator) : gmap Z Z := lead_ <$> rm_tracer_ s.
Definition vote (s : tx_coordinator) (k : Z) : option tx_rm_state := rm_state_ <$> rm_tracer_ s !! k.

(** Every shard's recorded vote satisfies [P]. *)
Definition all_votes (P : tx_rm_state → Prop) (s : tx_coordinator) : Prop :=
  ∀ k v, vote s k = Some v → P v.

Lemma length_filter_full {A} (P : A → Prop) `{∀ x, Decision (P x)} (l : list A) :
  length (filter P l) = length l → Forall P l.
Proof.
  induction l as [|x l IH]; [by constructor|]. rewrite filter_cons.
  destruct (decide (P x)); simpl; intros Hl.
  - constructor; [done|apply IH; lia].
  - pose proof (length_filter P l). lia.
Qed.

Lemma length_filter_some {A} (P : A → Prop) `{∀ x, Decision (P x)} (l : list A) :
  length (filter P l) ≠ 0%nat → ∃ x, x ∈ l ∧ P x.
Proof.
  destruct (filter P l) as [|x l'] eqn:E; [done|]. intros _. exists x.
  assert (x ∈ filter P l) as Hx by (rewrite E; by left).
  apply list_elem_of_filter in Hx as [? ?]. done.
Qed.

Lemma vote_tracers s k v : vote s k = Some v ↔ ∃ t, (k, t) ∈ tracers s ∧ rm_state_ t = v.
Proof.
  unfold vote, tracers. setoid_rewrite elem_of_map_to_list. destruct (rm_tracer_ s !! k); naive_solver.
Qed.

Lemma count_full st s :
  count_state st s = Z.of_nat (length (tracers s)) → all_votes (fun v => v = st) s.
Proof.
  unfold count_state. intros Hc k v (t & Ht & <-)%vote_tracers.
  assert (length (filter (fun kv : Z * tx_rm_tracer => rm_state_ kv.2 = st) (tracers s)) =
          length (tracers s)) as Hl by lia.
  apply length_filter_full in Hl. rewrite Forall_forall in Hl. exact (Hl _ Ht).
Qed.

Lemma count_some st s : count_state st s ≠ 0 → ∃ k, vote s k = Some st.
Proof.
  unfold count_state. intros Hc.
  destruct (length_filter_some (fun kv : Z * tx_rm_tracer => rm_state_ kv.2 = st) (tracers s))
    as ([k t] & Hin & Ht); [lia|].
  exists k. apply vote_tracers. eauto.
Qed.

(** What [step_tm_state_advance] does: it answers when every participant has
    acknowledged the same outcome, decides when every participant has voted,
    and waits otherwise. *)
Inductive advance_case (s : tx_coordinator) : tx_coordinator * list tm_event → Prop :=
| adv_wait : advance_case s (s, [])
| adv_committed : all_votes (fun v => v = RM_COMMITTED) s →
    advance_case s ((send_tx_response ;; write_end_log) s)
| adv_aborted : all_votes (fun v => v = RM_ABORTED) s →
    advance_case s ((send_tx_response ;; write_end_log) s)
| adv_decide_commit : all_votes (fun v => v = RM_PREPARE_COMMIT) s →
    advance_case s (write_commit_log s)
| adv_decide_abort k : vote s k = Some RM_PREPARE_ABORT → advance_case s (write_abort_log s).

Lemma advance_cases s : advance_case s (step_tm_state_advance s).
Proof.
  unfold step_tm_state_advance. repeat case_match; try by constructor.
  - match goal with H : _ || _ = true |- _ => apply orb_true_iff in H as [H|H] end.
    + apply adv_committed, count_full. lia.
    + apply adv_aborted, count_full. lia.
  - apply adv_decide_commit, count_full. lia.
  - destruct (count_some RM_PREPARE_ABORT s) as [k Hk]; [lia|]. by apply (adv_decide_abort _ k).
Qed.

(** The requests [send_rm_request] manages to send go to participants, are
    marked as distributed, and none goes to the participant it fails at. *)
Lemma send_requests_spec send_ok ks s b s' ev :
  (∀ k t, rm_tracer_ s !! k = Some t → req_distributed (message_ t) = true) →
  NoDup ks → send_requests send_ok ks s = (b, s', ev) →
  s' = s <| rm_tracer_ := rm_tracer_ s' |> ∧ leads s' = leads s ∧ (∀ k, vote s' k = vote s k) ∧
  (∀ k t, rm_tracer_ s' !! k = Some t → req_distributed (message_ t) = true) ∧
  (∀ e, e ∈ ev → ∃ k n m, k ∈ ks ∧ leads s !! k = Some n ∧ e = SendRequest n m ∧
                          req_distributed m = true) ∧
  (b = false → ∃ k n, k ∈ ks ∧ leads s !! k = Some n ∧
     ∀ n' m, SendRequest n' m ∈ ev → ∃ k', k' ≠ k ∧ leads s !! k' = Some n').
Proof.
  revert s b s' ev. induction ks as [|k ks IH]; intros s b s' ev Hd Hnd Hs; cbn [send_requests] in Hs.
  { simplify_eq. split_and!; try done; [by destruct s'|]. by intros e ?%elem_of_nil. }
  apply NoDup_cons in Hnd as [Hk Hnd].
  destruct (rm_tracer_ s !! k) as [t|] eqn:Ek; last first.
  { destruct (IH _ _ _ _ Hd Hnd Hs) as (?&?&?&?&He&Hf). split_and!; try done.
    - intros e Hin. destruct (He e Hin) as (k'&n&m&?&?). exists k', n, m. set_solver.
    - intros Hb. destruct (Hf Hb) as (k'&n&?&?). exists k', n. set_solver. }
  set (m := (message_ t) <| req_xid := xid_ s |> <| req_client_request := false |>) in *.
  set (s1 := s <| rm_tracer_ := <[k := t <| message_ := m |>]> (rm_tracer_ s) |>) in *.
  assert (leads s1 = leads s) as Hl1.
  { unfold leads, s1. simpl. rewrite fmap_insert. simpl. apply insert_id. by rewrite lookup_fmap, Ek. }
  assert (∀ j, vote s1 j = vote s j) as Hv1.
  { intros j. unfold vote, s1. simpl. destruct (decide (j = k)) as [->|?];
      [by rewrite lookup_insert_eq, Ek|by rewrite lookup_insert_ne]. }
  assert (∀ j u, rm_tracer_ s1 !! j = Some u → req_distributed (message_ u) = true) as Hd1.
  { intros j u. unfold s1. simpl. destruct (decide (j = k)) as [->|?].
    - rewrite lookup_insert_eq. intros [= <-]. simpl. eauto.
    - rewrite lookup_insert_ne by done. eauto. }
  assert (leads s !! k = Some (lead_ t)) as Hlk by (unfold leads; by rewrite lookup_fmap, Ek).
  destruct (send_ok (lead_ t)).
  - destruct (send_requests send_ok ks s1) as [[b1 s2] ev1] eqn:E1. injection Hs as <- <- <-.
    destruct (IH _ _ _ _ Hd1 Hnd E1) as (Hs2&Hl2&Hv2&Hd2&He2&Hb2).
    split_and!.
    + etrans; [exact Hs2|done].
    + congruence.
    + intros j. by rewrite Hv2.
    + done.
    + intros e [->|Hin]%elem_of_cons.
      * exists k, (lead_ t), m. split_and!; [by left|done|done|]. simpl. eauto.
      * destruct (He2 e Hin) as (k'&n&m'&?&?&?). rewrite Hl1 in *. exists k', n, m'. set_solver.
    + intros ->. destruct (Hb2 eq_refl) as (k0&n0&Hin0&Hk0&Hn0). rewrite Hl1 in *.
      exists k0, n0. split_and!; [by right|done|]. intros n' m' [Heq|Hin]%elem_of_cons; [|eauto].
      simplify_eq. exists k. split; [set_solver|done].
  - simplify_eq. split_and!; try done.
    + intros e He. by apply elem_of_nil in He.
    + intros _. exists k, (lead_ t). split_and!; [by left|done|]. intros n' m' He. by apply elem_of_nil in He.
Qed.

(** An accepted request: every participant is untouched, knows it takes part in
    a distributed transaction, and is addressed through its leader. *)
Definition fresh (s : tx_coordinator) : Prop :=
  ∀ k t, rm_tracer_ s !! k = Some t →
    rm_state_ t = RM_IDLE ∧ req_distributed (message_ t) = true ∧ lead_node_ s !! k = Some (lead_ t).

Lemma add_operation_fresh oneshot op s s' :
  fresh s → add_operation oneshot op s = (s', true) →
  fresh s' ∧ s' = s <| rm_tracer_ := rm_tracer_ s' |> ∧ rm_tracer_ s' ≠ ∅.
Proof.
  intros Hf. unfold add_operation. destruct (lead_node_ s !! op_sd_id op) as [lead|] eqn:El; [|done].
  intros [= <-]. split_and!; [|done|apply insert_non_empty].
  intros k t. simpl. destruct (decide (k = op_sd_id op)) as [->|?].
  - rewrite lookup_insert_eq. intros [= <-]. by rewrite El.
  - rewrite lookup_insert_ne by done. apply Hf.
Qed.

Lemma add_operations_fresh oneshot ops s s' :
  fresh s → add_operations oneshot ops s = (s', true) →
  fresh s' ∧ s' = s <| rm_tracer_ := rm_tracer_ s' |> ∧ (ops ≠ [] ∨ rm_tracer_ s ≠ ∅ → rm_tracer_ s' ≠ ∅).
Proof.
  revert s. induction ops as [|op ops IH]; intros s Hf; simpl.
  { intros [= <-]. split_and!; [done|by destruct s|naive_solver]. }
  destruct (add_operation oneshot op s) as [s1 [|]] eqn:E1; [|done]. intros E2.
  destruct (add_operation_fresh _ _ _ _ Hf E1) as (F1&Q1&N1).
  destruct (IH s1 F1 E2) as (F2&Q2&N2). split_and!; [done| |auto].
  rewrite Q2, Q1. done.
Qed.

End TxCoordinator.
