(* ===== verification/TwoPhase.v ===== *)
(** * Two-phase commit

    The protocol the coordinator ([TxCoordinator]) and the resource managers
    ([TxContext]) run together for one distributed transaction, the way
    [src/concurrency/cc_block.cpp] connects them: it hands each message and
    each committed log entry to the handler of the transaction it names.

    A system state holds the coordinator, the contexts created so far, the
    write-ahead log of each, the messages sent so far, and the answers given to
    the client.  Messages are never removed: the network may lose, delay,
    reorder and duplicate them.  A log entry becomes durable at any time after
    it was appended, and its callback runs then, once.  Locks, the storage
    block, the strand of each context and the deadlock detector act at any
    time.

    This file has the system and its invariant; [AtomicCommit] states what
    follows from it. *)

From S2P Require Import Prelude Common.
From S2P Require Import TxContext TxCoordinator.
#[local] Open Scope Z_scope.

#[export] Instance tx_operation_eq_dec : EqDecision tx_operation.
Proof. solve_decision. Defined.
#[export] Instance tx_request_eq_dec : EqDecision tx_request.
Proof. solve_decision. Defined.

Module TwoPhase.
Import (hints) TxContext.TxContext TxCoordinator.TxCoordinator.

Inductive msg :=
| MRequest (dest : Z) (req : tx_request)
| MCommit (dest : Z)
| MAbort (dest : Z)
| MEnd (dest : Z)
| MPrepare (dest rg : Z) (commit : bool)
| MAck (dest rg : Z) (commit : bool)
| MVictim (dest : Z).

#[export] Instance msg_eq_dec : EqDecision msg.
Proof. solve_decision. Defined.

(** The entries a block appended for the transaction, and those of them the
    replicated log has committed. *)
Record wal := mk_wal { appended : list tx_cmd_type; durable : list tx_cmd_type }.
#[export] Instance eta_wal : Eta wal := fun w => mk_wal (appended w) (durable w).

Record rm := mk_rm { rm_ctx : TxContext.tx_context; rm_wal : wal }.
#[export] Instance eta_rm : Eta rm := fun r => mk_rm (rm_ctx r) (rm_wal r).

Record sys := mk_sys {
  tm : TxCoordinator.tx_coordinator;
  tm_wal : wal;
  rms : gmap Z rm;
  net : list msg;
  resp : list EC;
}.
#[export] Instance eta_sys : Eta sys := fun s => mk_sys (tm s) (tm_wal s) (rms s) (net s) (resp s).

Definition append (l : list tx_cmd_type) (w : wal) : wal := w <| appended := appended w ++ l |>.
Definition flush (t : tx_cmd_type) (w : wal) : wal := w <| durable := durable w ++ [t] |>.

(** ** Routing the calls of a handler *)

Definition tm_msg (e : TxCoordinator.tm_event) : option msg :=
  match e with
  | TxCoordinator.SendRequest n r => Some (MRequest n r)
  | TxCoordinator.SendCommit n => Some (MCommit n)
  | TxCoordinator.SendAbort n => Some (MAbort n)
  | TxCoordinator.SendEnd n => Some (MEnd n)
  | _ => None
  end.

Definition tm_entry (e : TxCoordinator.tm_event) : option tx_cmd_type :=
  match e with TxCoordinator.WalAppend t => Some t | _ => None end.

Definition tm_answer (e : TxCoordinator.tm_event) : option EC :=
  match e with TxCoordinator.ClientResponse ec _ _ => Some ec | _ => None end.

Definition tm_exec (h : TxCoordinator.handler) (s : sys) : sys :=
  let '(c, ev) := h (tm s) in
  s <| tm := c |> <| tm_wal ::= append (omap tm_entry ev) |>
    <| net := net s ++ omap tm_msg ev |> <| resp := resp s ++ omap tm_answer ev |>.

Definition rm_msg (rg : Z) (e : TxContext.ctx_event) : option msg :=
  match e with
  | TxContext.SendPrepare dest b => Some (MPrepare dest rg b)
  | TxContext.SendAck dest b => Some (MAck dest rg b)
  | TxContext.SendVictim dest => Some (MVictim dest)
  | _ => None
  end.

Definition rm_exec (n : Z) (h : TxContext.handler) (s : sys) : sys :=
  match rms s !! n with
  | None => s
  | Some r =>
      let '(c, ev) := h (rm_ctx r) in
      s <| rms := <[n := mk_rm c (append (TxContext.logged ev) (rm_wal r))]> (rms s) |>
        <| net := net s ++ omap (rm_msg (NodeId.TO_RG_ID (TxContext.node_id_ (rm_ctx r)))) ev |>
  end.

(** ** Steps *)

(** What happens to a context besides the messages of the protocol: the lock
    manager grants or refuses a lock, the strand runs its next closure, the
    storage block answers, the block aborts the transaction.  [get] is the
    content of the block's tuple cache at that time. *)
Inductive local_event :=
| LLock (ec : EC)
| LRun (get : Z → Z → Z → option string)
| LDsb (oid : Z) (ec : EC) (table_id shard_id key : Z) (row : option string)
| LAbort (ec : EC).

Definition local_handler (e : local_event) : TxContext.handler :=
  match e with
  | LLock ec => TxContext.async_lock_acquire ec
  | LRun get => TxContext.run_strand get DB_SN
  | LDsb oid ec t sh key row => TxContext.read_data_from_dsb_response oid ec t sh key row
  | LAbort ec => TxContext.abort ec
  end.

(** The parameters [create_tx_context_gut] takes from the block. *)
Record block_env := mk_env {
  env_dsb : option Z;
  env_shard2node : gmap Z Z;
  env_cno : Z;
  env_dl : bool;
  env_get : Z → Z → Z → option string;
}.

Inductive label :=
| TmLog (t : tx_cmd_type) (send_ok : Z → bool)
| TmPrepare (rg : Z) (commit : bool) (st : TxCoordinator.stats)
| TmAck (rg : Z) (commit : bool)
| TmAbort (ec : EC)
| RmRequest (n : Z) (req : tx_request) (env : block_env)
| RmLocal (n : Z) (e : local_event)
| RmLog (n : Z) (t : tx_cmd_type)
| RmCommit (n : Z)
| RmAbort (n : Z).

Definition guard {A} (P : Prop) `{Decision P} (x : A) : option A := if decide P then Some x else None.

(** The handler of a coordinator's log entry, of a vote, of an ack. *)
(* @src src/concurrency/cc_block.cpp 659 687 cc_block::handle_append_log_response *)
Definition exec_tm_log (t : tx_cmd_type) (send_ok : Z → bool) (s : sys) : option sys :=
  guard (t ∈ appended (tm_wal s) ∧ t ∉ durable (tm_wal s))
    (tm_exec (TxCoordinator.on_log_entry_commit send_ok t) (s <| tm_wal ::= flush t |>)).

(* @src src/concurrency/cc_block.cpp 803 822 cc_block::handle_tx_rm_prepare *)
Definition exec_tm_prepare (rg : Z) (commit : bool) (st : TxCoordinator.stats) (s : sys) : option sys :=
  guard (MPrepare (TxCoordinator.node_id_ (tm s)) rg commit ∈ net s)
    (tm_exec (TxCoordinator.handle_tx_rm_prepare rg commit st) s).

(* @src src/concurrency/cc_block.cpp 824 842 cc_block::handle_tx_rm_ack *)
Definition exec_tm_ack (rg : Z) (commit : bool) (s : sys) : option sys :=
  guard (MAck (TxCoordinator.node_id_ (tm s)) rg commit ∈ net s)
    (tm_exec (TxCoordinator.handle_tx_rm_ack rg commit) s).

(** Every caller of [abort] passes an error. *)
Definition exec_tm_abort (ec : EC) (s : sys) : option sys :=
  guard (ec ≠ EC_OK) (tm_exec (TxCoordinator.abort ec) s).

(** A block that knows the transaction already ignores the request. *)
(* @src src/concurrency/cc_block.cpp 575 620 cc_block::create_tx_context *)
Definition exec_rm_request (n : Z) (req : tx_request) (env : block_env) (s : sys) : option sys :=
  guard (MRequest n req ∈ net s)
    match rms s !! n with
    | Some _ => s
    | None =>
        let ctx := TxContext.new_ctx (req_xid req) n (env_dsb env) (env_shard2node env) (env_cno env)
                     (req_distributed req) (env_dl env) in
        rm_exec n (TxContext.process_tx_request (env_get env) DB_SN req)
          (s <| rms := <[n := mk_rm ctx (mk_wal [] [])]> (rms s) |>)
    end.

Definition exec_rm_local (n : Z) (e : local_event) (s : sys) : option sys :=
  Some (rm_exec n (local_handler e) s).

(* @src src/concurrency/cc_block.cpp 688 708 cc_block::handle_append_log_response *)
Definition exec_rm_log (n : Z) (t : tx_cmd_type) (s : sys) : option sys :=
  match rms s !! n with
  | None => None
  | Some r =>
      guard (t ∈ appended (rm_wal r) ∧ t ∉ durable (rm_wal r))
        (rm_exec n (TxContext.on_log_entry_commit DB_SN t)
           (s <| rms := <[n := r <| rm_wal ::= flush t |>]> (rms s) |>))
  end.

(* @src src/concurrency/cc_block.cpp 844 857 cc_block::handle_tx_tm_commit *)
Definition exec_rm_commit (n : Z) (s : sys) : option sys :=
  guard (MCommit n ∈ net s)
    (rm_exec n (TxContext.handle_tx_tm_commit (TxCoordinator.xid_ (tm s))) s).

(* @src src/concurrency/cc_block.cpp 859 872 cc_block::handle_tx_tm_abort *)
Definition exec_rm_abort (n : Z) (s : sys) : option sys :=
  guard (MAbort n ∈ net s)
    (rm_exec n (TxContext.handle_tx_tm_abort (TxCoordinator.xid_ (tm s))) s).

Definition exec (l : label) (s : sys) : option sys :=
  match l with
  | TmLog t send_ok => exec_tm_log t send_ok s
  | TmPrepare rg b st => exec_tm_prepare rg b st s
  | TmAck rg b => exec_tm_ack rg b s
  | TmAbort ec => exec_tm_abort ec s
  | RmRequest n req env => exec_rm_request n req env s
  | RmLocal n e => exec_rm_local n e s
  | RmLog n t => exec_rm_log n t s
  | RmCommit n => exec_rm_commit n s
  | RmAbort n => exec_rm_abort n s
  end.

Definition step (s s' : sys) : Prop := ∃ l, exec l s = Some s'.

(** The state once the coordinator of request [req] was created and accepted
    it; [lead_node] gives the leader of each shard. *)
(* @src src/concurrency/cc_block.cpp 766 801 cc_block::create_tx_coordinator *)
Definition start (xid node_id : Z) (lead_node : gmap Z Z) (req : tx_request) : option sys :=
  match TxCoordinator.handle_tx_request req (TxCoordinator.new_tm xid node_id lead_node) with
  | (inl _, c, ev) => Some (mk_sys c (mk_wal (omap tm_entry ev) []) ∅ (omap tm_msg ev) (omap tm_answer ev))
  | (inr _, _, _) => None
  end.

(** What the block's configuration guarantees about the request: it is not
    empty, and the leader of a shard is a node of that shard's replica group. *)
Definition good_config (lead_node : gmap Z Z) (req : tx_request) : Prop :=
  req_operations req ≠ [] ∧ ∀ sd n, lead_node !! sd = Some n → NodeId.TO_RG_ID n = sd.

Definition reachable (s : sys) : Prop :=
  ∃ xid node_id lead_node req s0,
    good_config lead_node req ∧ start xid node_id lead_node req = Some s0 ∧ rtc step s0 s.

(** ** The invariant *)

(** The leader of shard [k] among the participants. *)
Abbreviation parts s := (TxCoordinator.leads (tm s)).
Abbreviation vote s := (TxCoordinator.vote (tm s)).

(** What a context has logged determines its protocol state. *)
Definition aborted_log (l : list tx_cmd_type) : Prop :=
  l = [TX_CMD_RM_ABORT] ∨ l = [TX_CMD_RM_PREPARE_COMMIT; TX_CMD_RM_ABORT] ∨
  l = [TX_CMD_RM_PREPARE_ABORT; TX_CMD_RM_ABORT].
Definition committed_log (l : list tx_cmd_type) : Prop :=
  l = [TX_CMD_RM_PREPARE_COMMIT; TX_CMD_RM_COMMIT].

Definition log_shape (st : TxContext.rm_state) (l : list tx_cmd_type) : Prop :=
  match st with
  | TxContext.RM_IDLE => l = []
  | TxContext.RM_PREPARE_COMMITTING => l = [TX_CMD_RM_PREPARE_COMMIT]
  | TxContext.RM_PREPARE_ABORTING => l = [TX_CMD_RM_PREPARE_ABORT]
  | TxContext.RM_COMMITTING => committed_log l
  | TxContext.RM_ABORTING => aborted_log l
  | TxContext.RM_ENDED => committed_log l ∨ aborted_log l
  end.

Record rm_ok (s : sys) (n : Z) (r : rm) : Prop := mk_rm_ok {
  rm_requested : ∃ q, MRequest n q ∈ net s;
  rm_running : TxContext.running n (rm_ctx r);
  rm_shape : log_shape (TxContext.state_ (rm_ctx r)) (appended (rm_wal r));
  rm_durable : durable (rm_wal r) ⊆ appended (rm_wal r);
  rm_commit : TX_CMD_RM_COMMIT ∈ appended (rm_wal r) → MCommit n ∈ net s;
  rm_abort : TX_CMD_RM_ABORT ∈ appended (rm_wal r) → MAbort n ∈ net s;
}.

(** Some participant was not sent its part of the transaction, and never will be. *)
Definition starved (s : sys) : Prop :=
  TX_CMD_TM_BEGIN ∈ durable (tm_wal s) ∧ ∃ k n, parts s !! k = Some n ∧ ∀ q, MRequest n q ∉ net s.

Record inv (s : sys) : Prop := mk_inv {
  i_rg : ∀ k n, parts s !! k = Some n → NodeId.TO_RG_ID n = k;
  i_some : parts s ≠ ∅;
  i_dist : ∀ k t, TxCoordinator.rm_tracer_ (tm s) !! k = Some t →
             req_distributed (TxCoordinator.message_ t) = true;
  i_req : ∀ n q, MRequest n q ∈ net s → (∃ k, parts s !! k = Some n) ∧ req_distributed q = true ∧
            TX_CMD_TM_BEGIN ∈ durable (tm_wal s);
  i_rm : ∀ n r, rms s !! n = Some r → rm_ok s n r;
  i_vote : ∀ d k b, MPrepare d k b ∈ net s → ∃ n r, rms s !! n = Some r ∧ NodeId.TO_RG_ID n = k ∧
             (if b then TX_CMD_RM_PREPARE_COMMIT else TX_CMD_RM_PREPARE_ABORT) ∈ durable (rm_wal r);
  i_ack : ∀ d k b, MAck d k b ∈ net s → ∃ n r, rms s !! n = Some r ∧ NodeId.TO_RG_ID n = k ∧
            (if b then TX_CMD_RM_COMMIT else TX_CMD_RM_ABORT) ∈ appended (rm_wal r);
  i_commit_msg : ∀ n, MCommit n ∈ net s → TX_CMD_TM_COMMIT ∈ durable (tm_wal s);
  i_abort_msg : ∀ n, MAbort n ∈ net s → TxCoordinator.tm_state_ (tm s) ≠ TxCoordinator.TM_IDLE ∧
                  TxCoordinator.error_code_ (tm s) ≠ EC_OK;
  i_durable : durable (tm_wal s) ⊆ appended (tm_wal s);
  i_log_commit : TX_CMD_TM_COMMIT ∈ appended (tm_wal s) → TxCoordinator.write_commit_log_ (tm s) = true;
  i_log_abort : TX_CMD_TM_ABORT ∈ appended (tm_wal s) → TxCoordinator.write_abort_log_ (tm s) = true;
  i_yes : ∀ k v, vote s k = Some v → v = TxCoordinator.RM_PREPARE_COMMIT ∨ v = TxCoordinator.RM_COMMITTED →
            ∃ d, MPrepare d k true ∈ net s;
  i_committed : ∀ k, vote s k = Some TxCoordinator.RM_COMMITTED → ∃ d, MAck d k true ∈ net s;
  i_aborted : ∀ k, vote s k = Some TxCoordinator.RM_ABORTED → ∃ d, MAck d k false ∈ net s;
  i_decided : TxCoordinator.write_commit_log_ (tm s) = true →
    TxCoordinator.write_abort_log_ (tm s) = false ∧
    TxCoordinator.tm_state_ (tm s) ≠ TxCoordinator.TM_ABORTED ∧
    TxCoordinator.error_code_ (tm s) = EC_OK ∧
    ∀ k v, vote s k = Some v → v = TxCoordinator.RM_PREPARE_COMMIT ∨ v = TxCoordinator.RM_COMMITTED;
  i_refused : TxCoordinator.write_abort_log_ (tm s) = true →
    ∃ k v, vote s k = Some v ∧ (v = TxCoordinator.RM_PREPARE_ABORT ∨ v = TxCoordinator.RM_ABORTED);
  i_error : TxCoordinator.error_code_ (tm s) ≠ EC_OK →
    TxCoordinator.tm_state_ (tm s) ≠ TxCoordinator.TM_IDLE ∨ starved s;
  i_resp_ok : EC_OK ∈ resp s → ∀ k n, parts s !! k = Some n → ∃ d, MAck d k true ∈ net s;
  i_resp_err : ∀ ec, ec ∈ resp s → ec ≠ EC_OK → TxCoordinator.error_code_ (tm s) ≠ EC_OK;
  i_resp_once : length (resp s) = if TxCoordinator.responsed_ (tm s) then 1%nat else 0%nat;
}.

(** ** Steps of the resource managers *)

(** The log entry a vote or an acknowledgement stands for. *)
Definition vote_entry (b : bool) : tx_cmd_type :=
  if b then TX_CMD_RM_PREPARE_COMMIT else TX_CMD_RM_PREPARE_ABORT.
Definition ack_entry (b : bool) : tx_cmd_type := if b then TX_CMD_RM_COMMIT else TX_CMD_RM_ABORT.

Definition rm_message (n : Z) (r : rm) (m : msg) : Prop :=
  match m with
  | MPrepare _ k b => k = NodeId.TO_RG_ID n ∧ vote_entry b ∈ durable (rm_wal r)
  | MAck _ k b => k = NodeId.TO_RG_ID n ∧ ack_entry b ∈ appended (rm_wal r)
  | MVictim _ => True
  | _ => False
  end.

Lemma rm_ok_net s s' n r : net s ⊆ net s' → rm_ok s n r → rm_ok s' n r.
Proof. intros Hn [[q Hq] ? ? ? ? ?]. split; eauto. Qed.

(** Change one participant and add its messages. *)
Lemma rm_update_inv s n r' ms :
  inv s →
  (∀ r, rms s !! n = Some r → appended (rm_wal r) ⊆ appended (rm_wal r') ∧
                              durable (rm_wal r) ⊆ durable (rm_wal r')) →
  rm_ok s n r' → Forall (rm_message n r') ms →
  inv (s <| rms := <[n := r']> (rms s) |> <| net := net s ++ ms |>).
Proof.
  intros [] Hgrow Hok Hms. rewrite Forall_forall in Hms.
  assert (∀ j r, rms s !! j = Some r → ∃ r1, <[n := r']> (rms s) !! j = Some r1 ∧
    appended (rm_wal r) ⊆ appended (rm_wal r1) ∧ durable (rm_wal r) ⊆ durable (rm_wal r1)) as Hrms.
  { intros j r Hj. destruct (decide (j = n)) as [->|?].
    - rewrite lookup_insert_eq. eauto.
    - rewrite lookup_insert_ne by done. eauto. }
  assert (∀ m, m ∈ net s ++ ms → m ∈ net s ∨ rm_message n r' m) as Hm.
  { intros m [?|?]%elem_of_app; eauto. }
  constructor; simpl; try done.
  - intros j q [?|[]]%Hm. eauto.
  - intros j r. destruct (decide (j = n)) as [->|?].
    + rewrite lookup_insert_eq. intros [= <-]. eapply rm_ok_net; [|done]. simpl. set_solver.
    + rewrite lookup_insert_ne by done. intros ?. eapply rm_ok_net; [|by apply i_rm0]. simpl. set_solver.
  - intros d k b [Hin|[-> Hin]]%Hm.
    + destruct (i_vote0 _ _ _ Hin) as (j&r&Hj&?&?). destruct (Hrms _ _ Hj) as (r1&?&?&?).
      exists j, r1. set_solver.
    + exists n, r'. by rewrite lookup_insert_eq.
  - intros d k b [Hin|[-> Hin]]%Hm.
    + destruct (i_ack0 _ _ _ Hin) as (j&r&Hj&?&?). destruct (Hrms _ _ Hj) as (r1&?&?&?).
      exists j, r1. set_solver.
    + exists n, r'. by rewrite lookup_insert_eq.
  - intros j [?|[]]%Hm. eauto.
  - intros j [?|[]]%Hm. eauto.
  - intros k v Hv Hyes. destruct (i_yes0 _ _ Hv Hyes) as [d ?]. exists d. set_solver.
  - intros k Hv. destruct (i_committed0 _ Hv) as [d ?]. exists d. set_solver.
  - intros k Hv. destruct (i_aborted0 _ Hv) as [d ?]. exists d. set_solver.
  - intros He. destruct (i_error0 He) as [?|(Hb&k&j&Hk&Hj)]; [by left|right].
    split; [done|]. exists k, j. split; [done|]. simpl. intros q [?|[]]%Hm. by eapply Hj.
  - intros Hr k j Hk. destruct (i_resp_ok0 Hr _ _ Hk) as [d ?]. exists d. set_solver.
Qed.

Lemma rm_messages n r' rg ev :
  rg = NodeId.TO_RG_ID n →
  Forall (fun b => vote_entry b ∈ durable (rm_wal r')) (TxContext.voted ev) →
  Forall (fun b => ack_entry b ∈ appended (rm_wal r')) (TxContext.acked ev) →
  Forall (rm_message n r') (omap (rm_msg rg) ev).
Proof.
  intros ->. induction ev as [|e ev IH]; [done|]. unfold TxContext.voted, TxContext.acked in *. simpl.
  destruct e; simpl; try exact IH; rewrite ?Forall_cons; naive_solver.
Qed.

(** Run a handler of a participant. *)
Lemma rm_exec_inv s n h r c ev :
  inv s → rms s !! n = Some r → h (rm_ctx r) = (c, ev) →
  TxContext.running n c →
  log_shape (TxContext.state_ c) (appended (rm_wal r) ++ TxContext.logged ev) →
  (TX_CMD_RM_COMMIT ∈ TxContext.logged ev → MCommit n ∈ net s) →
  (TX_CMD_RM_ABORT ∈ TxContext.logged ev → MAbort n ∈ net s) →
  Forall (fun b => vote_entry b ∈ durable (rm_wal r)) (TxContext.voted ev) →
  Forall (fun b => ack_entry b ∈ appended (rm_wal r) ++ TxContext.logged ev) (TxContext.acked ev) →
  inv (rm_exec n h s).
Proof.
  intros Hi Hr Hh Hrun Hshape Hc Ha Hv Hk. unfold rm_exec. rewrite Hr, Hh.
  destruct (i_rm _ Hi _ _ Hr) as [? [Hn _] ? Hd Hco Hab]. apply rm_update_inv; [done| | |].
  - intros r0 Hr0. rewrite Hr in Hr0. simplify_eq. simpl. set_solver.
  - constructor; simpl; [done..| | |].
    + set_solver.
    + intros [?|?]%elem_of_app; auto.
    + intros [?|?]%elem_of_app; auto.
  - apply rm_messages; [by rewrite Hn|done|done].
Qed.

(** Membership in a log whose content is known. *)
Ltac solve_log :=
  intros; destruct_or?; subst;
  repeat match goal with H : _ ∈ _ |- _ => rewrite ?elem_of_app, ?elem_of_cons, ?elem_of_nil in H end;
  rewrite ?elem_of_app, ?elem_of_cons, ?elem_of_nil; naive_solver.

(** The states an outcome record is compatible with. *)
Lemma shape_commit st l : log_shape st l → TX_CMD_RM_COMMIT ∈ l → committed_log l.
Proof. destruct st; simpl; unfold committed_log, aborted_log; solve_log. Qed.

Lemma shape_abort st l : log_shape st l → TX_CMD_RM_ABORT ∈ l → aborted_log l.
Proof. destruct st; simpl; unfold committed_log, aborted_log; solve_log. Qed.

Lemma work_shape st st' l ws :
  log_shape st l → TxContext.work_move st st' ws → log_shape st' (l ++ ws).
Proof.
  intros Hl Hm. destruct Hm; simpl in *; subst; [by rewrite app_nil_r|done|done].
Qed.

Lemma commit_shape st st' l ws acks :
  log_shape st l → TxContext.commit_move st st' ws acks →
  log_shape st' (l ++ ws) ∧ TX_CMD_RM_ABORT ∉ ws ∧
  Forall (fun b => ack_entry b ∈ l ++ ws) acks.
Proof.
  intros Hl Hm. destruct Hm; simpl in *; rewrite ?app_nil_r; (split_and!; [|solve_log|]);
    subst; try done. repeat constructor. rewrite Hl. simpl. set_solver.
Qed.

Lemma abort_shape s n st st' l ws acks :
  inv s → MAbort n ∈ net s → (TX_CMD_RM_COMMIT ∈ l → MCommit n ∈ net s) →
  log_shape st l → TxContext.abort_move st st' ws acks →
  log_shape st' (l ++ ws) ∧ TX_CMD_RM_COMMIT ∉ ws ∧
  Forall (fun b => ack_entry b ∈ l ++ ws) acks.
Proof.
  intros Hi Hab Hco Hl Hm.
  assert (TX_CMD_RM_COMMIT ∉ l) as Hno.
  { intros Hc%Hco. apply (i_commit_msg _ Hi) in Hc. apply (i_durable _ Hi) in Hc.
    apply (i_log_commit _ Hi) in Hc. apply (i_decided _ Hi) in Hc as (_&_&He&_).
    by destruct (i_abort_msg _ Hi _ Hab). }
  destruct Hm as [st|st Hst|st Hst]; rewrite ?app_nil_r.
  - split_and!; [done|set_solver|done].
  - destruct Hst as [-> | [-> | ->]]; simpl in *; subst; (split_and!; [|solve_log|done]);
      unfold aborted_log; auto.
  - assert (aborted_log l) as Hl'.
    { destruct Hst as [->| ->]; simpl in Hl; [done|]. destruct Hl as [Hl|?]; [|done].
      rewrite Hl in Hno. set_solver. }
    split_and!; [done|solve_log|]. repeat constructor. simpl.
    destruct Hl' as [-> | [-> | ->]]; set_solver.
Qed.

Lemma rm_local_inv n e s : inv s → inv (rm_exec n (local_handler e) s).
Proof.
  intros Hi. destruct (rms s !! n) as [r|] eqn:Hr; [|unfold rm_exec; by rewrite Hr].
  destruct (i_rm _ Hi _ _ Hr) as [_ Hrun Hshape _ _ _].
  assert (TxContext.outcome TxContext.worked n (rm_ctx r) (local_handler e (rm_ctx r))) as Ho.
  { destruct e; simpl.
    - apply TxContext.quiet_outcome; [apply TxContext.quiet_async_lock_acquire|done].
    - by apply TxContext.run_strand_outcome.
    - apply TxContext.quiet_outcome; [apply TxContext.quiet_dsb_response|done].
    - by apply TxContext.abort_outcome. }
  destruct (local_handler e (rm_ctx r)) as [c ev] eqn:Eh. destruct Ho as [Hc (Hm&Hv&Ha)]. simpl in *.
  eapply rm_exec_inv; [done..| | | | |].
  - by eapply work_shape.
  - destruct Hm; solve_log.
  - destruct Hm; solve_log.
  - by rewrite Hv.
  - by rewrite Ha.
Qed.

Lemma rm_request_inv n q env s s' : inv s → exec_rm_request n q env s = Some s' → inv s'.
Proof.
  intros Hi. unfold exec_rm_request, guard. case_decide as Hq; [|done]. intros [= <-].
  destruct (rms s !! n) as [r|] eqn:Hr; [done|].
  set (c0 := TxContext.new_ctx _ _ _ _ _ _ _). destruct (i_req _ Hi _ _ Hq) as (_&Hd&_).
  assert (TxContext.running n c0) as Hrun by (split_and!; [done|exact Hd|simpl; lia]).
  set (s1 := s <| rms := <[n := mk_rm c0 (mk_wal [] [])]> (rms s) |>).
  assert (inv s1) as Hi1.
  { pose proof (rm_update_inv s n (mk_rm c0 (mk_wal [] [])) [] Hi) as Hu.
    rewrite app_nil_r in Hu. apply Hu; [by rewrite Hr| |done].
    constructor; simpl; try done; [eauto|set_solver|set_solver]. }
  destruct (TxContext.process_outcome (env_get env) q n c0 Hrun) as [Hc (Hm&Hv&Ha)].
  destruct (TxContext.process_tx_request (env_get env) DB_SN q c0) as [c ev] eqn:Eh.
  assert (rms s1 !! n = Some (mk_rm c0 (mk_wal [] []))) as Hr1 by (simpl; by rewrite lookup_insert_eq).
  eapply rm_exec_inv; [done|exact Hr1|exact Eh|done|..]; simpl in *.
  - by apply (work_shape TxContext.RM_IDLE _ []).
  - destruct Hm; solve_log.
  - destruct Hm; solve_log.
  - by rewrite Hv.
  - by rewrite Ha.
Qed.

Lemma rm_commit_inv n s s' : inv s → exec_rm_commit n s = Some s' → inv s'.
Proof.
  intros Hi. unfold exec_rm_commit, guard. case_decide as Hq; [|done]. intros [= <-].
  destruct (rms s !! n) as [r|] eqn:Hr; [|unfold rm_exec; by rewrite Hr].
  destruct (i_rm _ Hi _ _ Hr) as [_ Hrun Hshape _ _ _].
  destruct (TxContext.tm_commit_outcome (TxCoordinator.xid_ (tm s)) n _ Hrun) as [Hc (Hm&Hv)].
  destruct (TxContext.handle_tx_tm_commit _ (rm_ctx r)) as [c ev] eqn:Eh. simpl in *.
  destruct (commit_shape _ _ _ _ _ Hshape Hm) as (?&?&?).
  eapply rm_exec_inv; [done|done|exact Eh|done..| |done]. by rewrite Hv.
Qed.

Lemma rm_abort_inv n s s' : inv s → exec_rm_abort n s = Some s' → inv s'.
Proof.
  intros Hi. unfold exec_rm_abort, guard. case_decide as Hq; [|done]. intros [= <-].
  destruct (rms s !! n) as [r|] eqn:Hr; [|unfold rm_exec; by rewrite Hr].
  destruct (i_rm _ Hi _ _ Hr) as [_ Hrun Hshape _ Hco _].
  destruct (TxContext.tm_abort_outcome (TxCoordinator.xid_ (tm s)) n _ Hrun) as [Hc (Hm&Hv)].
  destruct (TxContext.handle_tx_tm_abort _ (rm_ctx r)) as [c ev] eqn:Eh. simpl in *.
  destruct (abort_shape _ _ _ _ _ _ _ Hi Hq Hco Hshape Hm) as (?&?&?).
  eapply rm_exec_inv; [done|done|exact Eh|done..| |done]. by rewrite Hv.
Qed.

Lemma rm_log_inv n t s s' : inv s → exec_rm_log n t s = Some s' → inv s'.
Proof.
  intros Hi. unfold exec_rm_log, guard. destruct (rms s !! n) as [r|] eqn:Hr; [|done].
  case_decide as Hq; [|done]. intros [= <-]. destruct Hq as [Hin Hnew].
  destruct (i_rm _ Hi _ _ Hr) as [Hreq Hrun Hshape Hdur Hco Hab].
  set (r1 := r <| rm_wal ::= flush t |>). set (s1 := s <| rms := <[n := r1]> (rms s) |>).
  assert (inv s1) as Hi1.
  { pose proof (rm_update_inv s n r1 [] Hi) as Hu. rewrite app_nil_r in Hu. apply Hu; [| |done].
    - rewrite Hr. intros ? [= <-]. simpl. set_solver.
    - constructor; simpl; try done. set_solver. }
  assert (rms s1 !! n = Some r1) as Hr1 by (simpl; by rewrite lookup_insert_eq).
  destruct (TxContext.log_commit_outcome t n _ Hrun) as [Hc (Hw&Hm)].
  destruct (TxContext.on_log_entry_commit DB_SN t (rm_ctx r)) as [c ev] eqn:Eh. simpl in *.
  eapply rm_exec_inv; [done|exact Hr1|exact Eh|done|..]; simpl; rewrite ?Hw, ?app_nil_r.
  - destruct t; destruct Hm as (->&_); try done; simpl.
    + left. by eapply shape_commit.
    + right. by eapply shape_abort.
  - set_solver.
  - set_solver.
  - destruct t; destruct Hm as (_&->&_); try done; repeat constructor; simpl; set_solver.
  - destruct t; destruct Hm as (_&_&->); try done; repeat constructor; simpl; set_solver.
Qed.

(** ** Steps of the coordinator *)

Lemma tm_exec_then a b s : tm_exec (and_then a b) s = tm_exec b (tm_exec a s).
Proof.
  unfold tm_exec. rewrite and_then_eq. destruct (a (tm s)) as [c1 e1]. simpl.
  destruct (b c1) as [c2 e2]. unfold append. simpl. by rewrite !omap_app, !app_assoc.
Qed.

Lemma tm_exec_ext a b s : a (tm s) = b (tm s) → tm_exec a s = tm_exec b s.
Proof. intros E. unfold tm_exec. by rewrite E. Qed.

Lemma tm_exec_skip h s : h (tm s) = (tm s, []) → tm_exec h s = s.
Proof.
  intros E. unfold tm_exec, append. rewrite E. destruct s as [? [] ? ? ?]. simpl. by rewrite !app_nil_r.
Qed.

(** Open the invariant: close the clauses the step does not touch. *)
Ltac inv_fields :=
  constructor; simpl; try done;
  try (intros ? ? ?; eapply rm_ok_net; [|by eauto]; simpl; set_solver).

Lemma part_vote s k n : parts s !! k = Some n → ∃ v, vote s k = Some v.
Proof.
  unfold TxCoordinator.leads, TxCoordinator.vote. rewrite lookup_fmap.
  destruct (TxCoordinator.rm_tracer_ (tm s) !! k); [eauto|done].
Qed.

Lemma vote_part s k v : vote s k = Some v → ∃ n, parts s !! k = Some n.
Proof.
  unfold TxCoordinator.leads, TxCoordinator.vote. rewrite lookup_fmap.
  destruct (TxCoordinator.rm_tracer_ (tm s) !! k); [eauto|done].
Qed.

Lemma some_part s : inv s → ∃ k v, vote s k = Some v.
Proof.
  intros Hi. destruct (map_choose _ (i_some _ Hi)) as (k&n&Hk). exists k. by eapply part_vote.
Qed.

(** The answer: an error, or success once every participant acknowledged. *)
Lemma send_response_inv s :
  inv s →
  TxCoordinator.error_code_ (tm s) ≠ EC_OK ∨
    TxCoordinator.all_votes (fun v => v = TxCoordinator.RM_COMMITTED) (tm s) →
  inv (tm_exec TxCoordinator.send_tx_response s).
Proof.
  intros Hi Hpre. unfold tm_exec, TxCoordinator.send_tx_response.
  destruct (TxCoordinator.responsed_ (tm s)) eqn:Er.
  { destruct s as [? [] ? ? ?]. unfold append. simpl. by rewrite !app_nil_r. }
  unfold append. simpl. rewrite !app_nil_r. destruct Hi. rewrite Er in *. inv_fields.
  - intros [?|Heq%list_elem_of_singleton]%elem_of_app k n Hk; [eauto|].
    destruct Hpre as [?|Hall]; [congruence|].
    destruct (part_vote _ _ _ Hk) as [v Hv]. rewrite (Hall _ _ Hv) in Hv. eauto.
  - intros ec [?|Heq%list_elem_of_singleton]%elem_of_app Hec; [eauto|]. congruence.
  - rewrite length_app, i_resp_once0. done.
Qed.

Lemma write_end_inv s : inv s → inv (tm_exec TxCoordinator.write_end_log s).
Proof.
  intros Hi. unfold tm_exec, TxCoordinator.write_end_log. case_test; last first.
  { destruct s as [? [] ? ? ?]. unfold append. simpl. by rewrite !app_nil_r. }
  unfold append. simpl. rewrite !app_nil_r. destruct Hi. inv_fields.
  - set_solver.
  - solve_log.
  - solve_log.
Qed.

(** All votes are yes: no participant was starved and no error occurred. *)
Lemma write_commit_inv s :
  inv s → TxCoordinator.all_votes (fun v => v = TxCoordinator.RM_PREPARE_COMMIT) (tm s) →
  inv (tm_exec TxCoordinator.write_commit_log s).
Proof.
  intros Hi Hall. unfold tm_exec, TxCoordinator.write_commit_log. case_test; last first.
  { destruct s as [? [] ? ? ?]. unfold append. simpl. by rewrite !app_nil_r. }
  apply andb_true_iff in E as [[Hst%bool_decide_eq_true_1 _]%andb_true_iff Hw].
  assert (TxCoordinator.error_code_ (tm s) = EC_OK) as Hok.
  { destruct (decide (TxCoordinator.error_code_ (tm s) = EC_OK)) as [|He]; [done|].
    destruct (i_error _ Hi He) as [?|(_&k&n&Hk&Hn)]; [done|].
    destruct (part_vote _ _ _ Hk) as [v Hv]. pose proof (Hall _ _ Hv) as ->.
    destruct (i_yes _ Hi _ _ Hv) as [d Hd]; [by left|].
    destruct (i_vote _ Hi _ _ _ Hd) as (n'&r&Hr&Hrg&_).
    destruct (i_rm _ Hi _ _ Hr) as [[q Hq] _ _ _ _ _]. destruct (i_req _ Hi _ _ Hq) as ([k' Hk']&_).
    pose proof (i_rg _ Hi _ _ Hk'). assert (k' = k) as -> by congruence.
    assert (n' = n) as -> by congruence. by destruct (Hn q). }
  unfold append. simpl. rewrite !app_nil_r. destruct Hi. inv_fields.
  - set_solver.
  - solve_log.
  - intros _. split_and!; [|by rewrite Hst|done|].
    + destruct (TxCoordinator.write_abort_log_ (tm s)) eqn:Ea; [|done].
      destruct (i_refused0 eq_refl) as (k&v&Hv&Hv'). rewrite (Hall _ _ Hv) in Hv'. by destruct Hv'.
    + intros k v Hv. left. eauto.
Qed.

Lemma write_abort_inv s k :
  inv s → vote s k = Some TxCoordinator.RM_PREPARE_ABORT → inv (tm_exec TxCoordinator.write_abort_log s).
Proof.
  intros Hi Hk. unfold tm_exec, TxCoordinator.write_abort_log. case_test; last first.
  { destruct s as [? [] ? ? ?]. unfold append. simpl. by rewrite !app_nil_r. }
  apply andb_true_iff in E as [_ Hw%negb_true_iff].
  unfold append. simpl. rewrite !app_nil_r. destruct Hi. inv_fields.
  - set_solver.
  - intros [?|Hx]%elem_of_app; [|solve_log]. rewrite i_log_commit0 in Hw; done.
  - intros Hc. congruence.
  - intros _. exists k, TxCoordinator.RM_PREPARE_ABORT. auto.
Qed.

Lemma advance_inv s : inv s → inv (tm_exec TxCoordinator.step_tm_state_advance s).
Proof.
  intros Hi. pose proof (TxCoordinator.advance_cases (tm s)) as Hc.
  inversion Hc as [Heq|Hall Heq|Hall Heq|Hall Heq|k Hk Heq]; symmetry in Heq.
  - by rewrite tm_exec_skip.
  - rewrite (tm_exec_ext _ _ _ Heq), tm_exec_then. apply write_end_inv, send_response_inv; auto.
  - rewrite (tm_exec_ext _ _ _ Heq), tm_exec_then. apply write_end_inv, send_response_inv; [done|left].
    destruct (some_part _ Hi) as (k&v&Hv). rewrite (Hall _ _ Hv) in Hv.
    destruct (i_aborted _ Hi _ Hv) as [d Hd]. destruct (i_ack _ Hi _ _ _ Hd) as (n&r&Hr&_&Ha).
    destruct (i_rm _ Hi _ _ Hr) as [_ _ _ _ _ Hab]. by destruct (i_abort_msg _ Hi n (Hab Ha)).
  - rewrite (tm_exec_ext _ _ _ Heq). by apply write_commit_inv.
  - rewrite (tm_exec_ext _ _ _ Heq). by eapply write_abort_inv.
Qed.

(** Record the vote or acknowledgement [v] of shard [k], together with changes
    the invariant does not depend on. *)
Lemma record_inv s k t v st :
  inv s → TxCoordinator.rm_tracer_ (tm s) !! k = Some t →
  (v = TxCoordinator.RM_PREPARE_COMMIT → ∃ d, MPrepare d k true ∈ net s) →
  (v = TxCoordinator.RM_COMMITTED → (∃ d, MAck d k true ∈ net s) ∧
     TxCoordinator.rm_state_ t = TxCoordinator.RM_PREPARE_COMMIT) →
  (v = TxCoordinator.RM_ABORTED → ∃ d, MAck d k false ∈ net s) →
  (TxCoordinator.rm_state_ t = TxCoordinator.RM_IDLE ∨ v = TxCoordinator.RM_COMMITTED ∨
   v = TxCoordinator.RM_ABORTED) →
  inv (s <| tm := (tm s) <| TxCoordinator.rm_tracer_ :=
        <[k := t <| TxCoordinator.rm_state_ := v |>]> (TxCoordinator.rm_tracer_ (tm s)) |>
        <| TxCoordinator.stats_ := st |> |>).
Proof.
  intros Hi Ht Hpc Hco Hab Hfrom.
  set (c := (tm s) <| TxCoordinator.rm_tracer_ := _ |> <| TxCoordinator.stats_ := _ |>).
  assert (TxCoordinator.leads c = parts s) as Hl.
  { unfold TxCoordinator.leads, c. simpl. rewrite fmap_insert. apply insert_id.
    by rewrite lookup_fmap, Ht. }
  assert (TxCoordinator.vote c k = Some v) as Hvk.
  { unfold TxCoordinator.vote, c. simpl. by rewrite lookup_insert_eq. }
  assert (∀ j, j ≠ k → TxCoordinator.vote c j = vote s j) as Hvj.
  { intros j Hj. unfold TxCoordinator.vote, c. simpl. by rewrite lookup_insert_ne. }
  assert (vote s k = Some (TxCoordinator.rm_state_ t)) as Hvt.
  { unfold TxCoordinator.vote. by rewrite Ht. }
  assert (TxCoordinator.write_commit_log_ c = TxCoordinator.write_commit_log_ (tm s)) as Hwc by done.
  destruct Hi. constructor; simpl; unfold starved; simpl; rewrite ?Hl; try done.
  - intros j u. destruct (decide (j = k)) as [->|?];
      [rewrite lookup_insert_eq; intros [= <-]; simpl; eauto|rewrite lookup_insert_ne by done; eauto].
  - intros n r Hn. eapply rm_ok_net; [|by eauto]. done.
  - intros j u. destruct (decide (j = k)) as [->|?]; [|rewrite Hvj by done; eauto].
    rewrite Hvk. intros [= <-] [->| ->]; [auto|]. destruct (Hco eq_refl) as [_ Hpt]. eauto.
  - intros j. destruct (decide (j = k)) as [->|?]; [|rewrite Hvj by done; eauto].
    rewrite Hvk. intros [= ->]. by destruct Hco.
  - intros j. destruct (decide (j = k)) as [->|?]; [|rewrite Hvj by done; eauto].
    rewrite Hvk. intros [= ->]. auto.
  - intros Hw. destruct (i_decided0 Hw) as (?&?&Hok&Hall). split_and!; try done.
    intros j u. destruct (decide (j = k)) as [->|?]; [|rewrite Hvj by done; eauto].
    rewrite Hvk. intros [= <-]. destruct Hfrom as [Hid|[->| ->]]; [|by right|].
    + destruct (Hall _ _ Hvt); congruence.
    + destruct (Hab eq_refl) as [d Hd]. destruct (i_ack0 _ _ _ Hd) as (n&r&Hr&_&Ha).
      destruct (i_rm0 _ _ Hr) as [_ _ _ _ _ Hma]. destruct (i_abort_msg0 _ (Hma Ha)). congruence.
  - intros Hw. destruct (i_refused0 Hw) as (j&u&Hj&Hu). destruct (decide (j = k)) as [->|?].
    + exists k, v. split; [done|]. rewrite Hvt in Hj. simplify_eq.
      destruct Hfrom as [Hid|[->| ->]]; [rewrite Hid in Hu; naive_solver| |by right].
      destruct (Hco eq_refl) as [_ Hpt]. rewrite Hpt in Hu. naive_solver.
    + exists j, u. by rewrite Hvj.
Qed.

Lemma set_aborted_inv s ec :
  inv s → ec ≠ EC_OK → TxCoordinator.write_commit_log_ (tm s) = false →
  inv (s <| tm := (tm s) <| TxCoordinator.error_code_ := ec |>
                         <| TxCoordinator.tm_state_ := TxCoordinator.TM_ABORTED |> |>).
Proof.
  intros Hi Hec Hw. destruct Hi. inv_fields.
  - intros ?. congruence.
  - by left.
Qed.

(** Messages the coordinator may add. *)
Definition tm_message (s : sys) (m : msg) : Prop :=
  match m with
  | MRequest n q => (∃ k, parts s !! k = Some n) ∧ req_distributed q = true ∧
      TX_CMD_TM_BEGIN ∈ durable (tm_wal s) ∧
      (TxCoordinator.error_code_ (tm s) ≠ EC_OK → TxCoordinator.tm_state_ (tm s) ≠ TxCoordinator.TM_IDLE)
  | MCommit _ => TX_CMD_TM_COMMIT ∈ durable (tm_wal s)
  | MAbort _ => TxCoordinator.tm_state_ (tm s) ≠ TxCoordinator.TM_IDLE ∧
      TxCoordinator.error_code_ (tm s) ≠ EC_OK
  | MEnd _ => True
  | _ => False
  end.

Lemma tm_send_inv s ms : inv s → Forall (tm_message s) ms → inv (s <| net := net s ++ ms |>).
Proof.
  intros [] Hms. rewrite Forall_forall in Hms.
  assert (∀ m, m ∈ net s ++ ms → m ∈ net s ∨ tm_message s m) as Hm.
  { intros m [?|?]%elem_of_app; eauto. }
  constructor; simpl; try done.
  - intros n q [?|(?&?&?&?)]%Hm; eauto.
  - intros n r Hn. eapply rm_ok_net; [|by eauto]. simpl. set_solver.
  - intros d k b [?|[]]%Hm. eauto.
  - intros d k b [?|[]]%Hm. eauto.
  - intros n [?|?]%Hm; eauto.
  - intros n [?|?]%Hm; eauto.
  - intros k v Hv Hyes. destruct (i_yes0 _ _ Hv Hyes) as [d ?]. exists d. set_solver.
  - intros k Hv. destruct (i_committed0 _ Hv) as [d ?]. exists d. set_solver.
  - intros k Hv. destruct (i_aborted0 _ Hv) as [d ?]. exists d. set_solver.
  - intros He. destruct (i_error0 He) as [?|(Hb&k&j&Hk&Hj)]; [by left|].
    destruct (decide (TxCoordinator.tm_state_ (tm s) = TxCoordinator.TM_IDLE)) as [Hid|?]; [right|by left].
    split; [done|]. exists k, j. split; [done|]. simpl. intros q [?|(_&_&_&Hx)]%Hm.
    + by eapply Hj.
    + by apply Hx.
  - intros Hr k j Hk. destruct (i_resp_ok0 Hr _ _ Hk) as [d ?]. exists d. set_solver.
Qed.

Lemma tm_exec_send (mk : Z → TxCoordinator.tm_event) (m : Z → msg) s :
  (∀ n, tm_msg (mk n) = Some (m n)) → (∀ n, tm_entry (mk n) = None) → (∀ n, tm_answer (mk n) = None) →
  tm_exec (fun c => (c, map (fun kv => mk (TxCoordinator.lead_ kv.2)) (TxCoordinator.tracers c))) s =
  s <| net := net s ++ map (fun kv => m (TxCoordinator.lead_ kv.2)) (TxCoordinator.tracers (tm s)) |>.
Proof.
  intros H1 H2 H3. unfold tm_exec, append.
  assert (∀ l : list (Z * TxCoordinator.tx_rm_tracer),
    let ev := map (fun kv => mk (TxCoordinator.lead_ kv.2)) l in
    omap tm_entry ev = [] ∧ omap tm_answer ev = [] ∧
    omap tm_msg ev = map (fun kv => m (TxCoordinator.lead_ kv.2)) l) as Hev.
  { induction l as [|x l (I1&I2&I3)]; [done|]. simpl. rewrite H1, H2, H3. simpl in *.
    split_and!; [exact I1|exact I2|f_equal; exact I3]. }
  destruct (Hev (TxCoordinator.tracers (tm s))) as (E1&E2&E3).
  rewrite E1, E2, E3. destruct s as [? [] ? ? ?]. simpl. by rewrite !app_nil_r.
Qed.

Lemma send_abort_inv s :
  inv s → TxCoordinator.tm_state_ (tm s) ≠ TxCoordinator.TM_IDLE →
  TxCoordinator.error_code_ (tm s) ≠ EC_OK → inv (tm_exec TxCoordinator.send_abort s).
Proof.
  intros Hi Hst He. unfold TxCoordinator.send_abort.
  rewrite (tm_exec_send TxCoordinator.SendAbort MAbort) by done.
  apply tm_send_inv; [done|]. apply Forall_forall. by intros m ([k t]&->&_)%list_elem_of_fmap.
Qed.

Lemma send_commit_inv s :
  inv s → TX_CMD_TM_COMMIT ∈ durable (tm_wal s) → inv (tm_exec TxCoordinator.send_commit s).
Proof.
  intros Hi Hd. unfold TxCoordinator.send_commit.
  rewrite (tm_exec_send TxCoordinator.SendCommit MCommit) by done.
  apply tm_send_inv; [done|]. apply Forall_forall. by intros m ([k t]&->&_)%list_elem_of_fmap.
Qed.

Lemma set_state_inv s st :
  inv s → st = TxCoordinator.TM_COMMITTED ∨ st = TxCoordinator.TM_DONE →
  inv (s <| tm := (tm s) <| TxCoordinator.tm_state_ := st |> |>).
Proof.
  intros [] Hst. inv_fields.
  - intros n Hn. destruct (i_abort_msg0 _ Hn). by destruct Hst; subst.
  - intros Hw. destruct (i_decided0 Hw) as (?&?&?&?). split_and!; try done. by destruct Hst; subst.
  - intros _. left. by destruct Hst; subst.
Qed.

Lemma flush_inv s t :
  inv s → t ∈ appended (tm_wal s) → inv (s <| tm_wal ::= flush t |>).
Proof.
  intros [] Ht. inv_fields.
  - intros n q Hq. destruct (i_req0 _ _ Hq) as (?&?&?). split_and!; [done|done|set_solver].
  - intros n Hn. apply elem_of_app. left. eauto.
  - clear -i_durable0 Ht. set_solver.
  - intros He. destruct (i_error0 He) as [?|(?&?)]; [by left|]. right. split; [simpl; set_solver|done].
Qed.

(** A change of the coordinator that keeps leaders, votes and the protocol's
    flags. *)
Lemma tracer_inv s tr :
  inv s → TxCoordinator.leads ((tm s) <| TxCoordinator.rm_tracer_ := tr |>) = parts s →
  (∀ k, TxCoordinator.vote ((tm s) <| TxCoordinator.rm_tracer_ := tr |>) k = vote s k) →
  (∀ k t, tr !! k = Some t → req_distributed (TxCoordinator.message_ t) = true) →
  inv (s <| tm := (tm s) <| TxCoordinator.rm_tracer_ := tr |> |>).
Proof.
  intros [] Hl Hv Hd. set (c := (tm s) <| TxCoordinator.rm_tracer_ := tr |>) in *.
  constructor; simpl; unfold starved; simpl; rewrite ?Hl; try setoid_rewrite Hv; try done.
  intros ? ? ?; eapply rm_ok_net; [|by eauto]; simpl; set_solver.
Qed.

(** No vote can be recorded before the requests went out. *)
Lemma undecided_before_begin s :
  inv s → TX_CMD_TM_BEGIN ∉ durable (tm_wal s) → TxCoordinator.write_commit_log_ (tm s) = false.
Proof.
  intros Hi Hb. destruct (TxCoordinator.write_commit_log_ (tm s)) eqn:Hw; [|done].
  destruct (i_decided _ Hi Hw) as (_&_&_&Hall). destruct (some_part _ Hi) as (k&v&Hv).
  destruct (i_yes _ Hi _ _ Hv (Hall _ _ Hv)) as [d Hd].
  destruct (i_vote _ Hi _ _ _ Hd) as (n&r&Hr&_). destruct (i_rm _ Hi _ _ Hr) as [[q Hq] _ _ _ _ _].
  by destruct (i_req _ Hi _ _ Hq) as (_&_&?).
Qed.

Lemma starve_inv s :
  inv s → starved s → TxCoordinator.write_commit_log_ (tm s) = false →
  inv (s <| tm := (tm s) <| TxCoordinator.error_code_ := EC_TX_ABORT |> |>).
Proof.
  intros Hi Hst Hw. destruct Hi. inv_fields.
  - intros n Hn. split; [by eapply i_abort_msg0|done].
  - intros ?. congruence.
  - by right.
Qed.

Lemma request_events (ev : list TxCoordinator.tm_event) :
  (∀ e, e ∈ ev → ∃ n m, e = TxCoordinator.SendRequest n m) →
  omap tm_entry ev = [] ∧ omap tm_answer ev = [].
Proof.
  induction ev as [|e ev IH]; [done|]. intros He. destruct (He e) as (n&m&->); [by left|].
  apply IH. intros e' ?. apply He. by right.
Qed.

Lemma request_msgs (ev : list TxCoordinator.tm_event) n q : MRequest n q ∈ omap tm_msg ev → TxCoordinator.SendRequest n q ∈ ev.
Proof.
  rewrite list_elem_of_omap. intros (e&He&Hm). destruct e; simplify_eq/=. done.
Qed.

Lemma on_begin_inv send_ok s :
  inv s → TX_CMD_TM_BEGIN ∈ appended (tm_wal s) → TX_CMD_TM_BEGIN ∉ durable (tm_wal s) →
  inv (tm_exec (TxCoordinator.on_begin send_ok) (s <| tm_wal ::= flush TX_CMD_TM_BEGIN |>)).
Proof.
  intros Hi Ha Hb. pose proof (undecided_before_begin _ Hi Hb) as Hw.
  set (s1 := s <| tm_wal ::= flush TX_CMD_TM_BEGIN |>).
  assert (inv s1) as Hi1 by by apply flush_inv.
  destruct (TxCoordinator.send_rm_request send_ok (tm s)) as [[ok c] ev] eqn:Es.
  destruct (TxCoordinator.send_requests_spec send_ok _ (tm s) ok c ev (i_dist _ Hi)
    (NoDup_fst_map_to_list _) Es) as (Hc&Hl&Hv&Hd&He&Hf).
  destruct (request_events ev) as [E1 E2]. { intros e Hin. destruct (He e Hin) as (?&n&m&_&_&->&_). eauto. }
  set (s2 := s1 <| tm := c |>).
  assert (inv s2) as Hi2.
  { unfold s2. rewrite Hc. apply (tracer_inv s1); [done|..]; [| |done]; change (tm s1) with (tm s);
      by rewrite <- Hc. }
  assert (TxCoordinator.error_code_ c = TxCoordinator.error_code_ (tm s) ∧
          TxCoordinator.tm_state_ c = TxCoordinator.tm_state_ (tm s) ∧
          TxCoordinator.write_commit_log_ c = TxCoordinator.write_commit_log_ (tm s)) as (Hce&Hcs&Hcw)
    by by rewrite Hc.
  assert (TxCoordinator.error_code_ (tm s) ≠ EC_OK →
          TxCoordinator.tm_state_ (tm s) ≠ TxCoordinator.TM_IDLE) as Herr.
  { intros Hx. destruct (i_error _ Hi Hx) as [?|[? _]]; done. }
  set (s3 := s2 <| net := net s2 ++ omap tm_msg ev |>).
  assert (inv s3) as Hi3.
  { apply tm_send_inv; [done|]. apply Forall_forall. intros m (e&Hin&Hm)%list_elem_of_omap.
    destruct (He e Hin) as (k&n&q&_&Hk&->&Hq). simplify_eq/=. split_and!; try done.
    - exists k. unfold s2. simpl. by rewrite Hl.
    - simpl. set_solver.
    - simpl. by rewrite Hce, Hcs. }
  assert (tm_exec (TxCoordinator.on_begin send_ok) s1 =
          if ok then s3 else tm_exec TxCoordinator.send_tx_response
            (s3 <| tm := (tm s3) <| TxCoordinator.error_code_ := EC_TX_ABORT |> |>)) as ->.
  { unfold tm_exec, TxCoordinator.on_begin, append. change (tm s1) with (tm s). rewrite Es.
    destruct ok; [by rewrite E1, E2; unfold s3; simpl; rewrite !app_nil_r|].
    unfold TxCoordinator.send_tx_response. simpl. destruct (TxCoordinator.responsed_ c); simpl;
      rewrite !omap_app, E1, E2; simpl; rewrite ?app_nil_r; done. }
  destruct ok; [done|]. apply send_response_inv; [|by left].
  apply starve_inv; [done| |by simpl; rewrite Hcw]. destruct (Hf eq_refl) as (k&n&_&Hk&Hn).
  split; [simpl; set_solver|]. exists k, n. split; [simpl; by rewrite Hl|].
  simpl. intros q [Hq|Hq]%elem_of_app.
  - by destruct (i_req _ Hi _ _ Hq) as (_&_&?).
  - apply request_msgs, Hn in Hq as (k'&Hne&Hk').
    pose proof (i_rg _ Hi _ _ Hk). pose proof (i_rg _ Hi _ _ Hk'). congruence.
Qed.

Lemma tm_exec_modify f h s :
  tm_exec (and_then (modify f) h) s = tm_exec h (s <| tm := f (tm s) |>).
Proof.
  rewrite tm_exec_then. f_equal. unfold tm_exec, modify, append. destruct s as [? [] ? ? ?]. simpl.
  by rewrite !app_nil_r.
Qed.

(** A handler that at most fails an assertion. *)
Lemma tm_exec_assert h s :
  h (tm s) = (tm s, []) ∨ h (tm s) = (tm s, [TxCoordinator.AssertFailed]) → tm_exec h s = s.
Proof.
  intros [E|E]; unfold tm_exec, append; rewrite E; destruct s as [? [] ? ? ?]; simpl;
    by rewrite !app_nil_r.
Qed.

(** Record [v] for the shard, then advance. *)
Lemma tm_record_inv h rg t v st s :
  inv s → TxCoordinator.rm_tracer_ (tm s) !! rg = Some t →
  h (tm s) = TxCoordinator.step_tm_state_advance
    ((tm s) <| TxCoordinator.rm_tracer_ :=
        <[rg := t <| TxCoordinator.rm_state_ := v |>]> (TxCoordinator.rm_tracer_ (tm s)) |>
        <| TxCoordinator.stats_ := st |>) →
  (v = TxCoordinator.RM_PREPARE_COMMIT → ∃ d, MPrepare d rg true ∈ net s) →
  (v = TxCoordinator.RM_COMMITTED → (∃ d, MAck d rg true ∈ net s) ∧
     TxCoordinator.rm_state_ t = TxCoordinator.RM_PREPARE_COMMIT) →
  (v = TxCoordinator.RM_ABORTED → ∃ d, MAck d rg false ∈ net s) →
  (TxCoordinator.rm_state_ t = TxCoordinator.RM_IDLE ∨ v = TxCoordinator.RM_COMMITTED ∨
   v = TxCoordinator.RM_ABORTED) →
  inv (tm_exec h s).
Proof.
  intros Hi Ht Hh ? ? ? ?.
  rewrite (tm_exec_ext h (and_then (modify (fun c => c <| TxCoordinator.rm_tracer_ :=
        <[rg := t <| TxCoordinator.rm_state_ := v |>]> (TxCoordinator.rm_tracer_ c) |>
        <| TxCoordinator.stats_ := st |>)) TxCoordinator.step_tm_state_advance))
    by by rewrite modify_then.
  rewrite tm_exec_modify. by apply advance_inv, record_inv.
Qed.

Lemma tm_prepare_inv rg b st s s' : inv s → exec_tm_prepare rg b st s = Some s' → inv s'.
Proof.
  intros Hi. unfold exec_tm_prepare, guard. case_decide as Hq; [|done]. intros [= <-].
  set (h := TxCoordinator.handle_tx_rm_prepare rg b st).
  destruct (TxCoordinator.rm_tracer_ (tm s) !! rg) as [t|] eqn:Et; last first.
  { rewrite tm_exec_assert; [done|]. unfold h, TxCoordinator.handle_tx_rm_prepare. rewrite Et. auto. }
  destruct (TxCoordinator.rm_state_ t) eqn:Est.
  2-5: rewrite tm_exec_assert; [done|]; unfold h, TxCoordinator.handle_tx_rm_prepare; rewrite Et, Est;
       try destruct (TxCoordinator.victim_ (tm s)); auto.
  destruct b.
  - eapply (tm_record_inv h rg t TxCoordinator.RM_PREPARE_COMMIT); try done; [|eauto|by left].
    unfold h, TxCoordinator.handle_tx_rm_prepare. rewrite Et, Est. done.
  - eapply (tm_record_inv h rg t TxCoordinator.RM_PREPARE_ABORT _ s); try done; [|by left].
    unfold h, TxCoordinator.handle_tx_rm_prepare. rewrite Et, Est.
    instantiate (1 := TxCoordinator.stats_ (tm s)). by destruct (tm s).
Qed.

Lemma tm_ack_inv rg b s s' : inv s → exec_tm_ack rg b s = Some s' → inv s'.
Proof.
  intros Hi. unfold exec_tm_ack, guard. case_decide as Hq; [|done]. intros [= <-].
  set (h := TxCoordinator.handle_tx_rm_ack rg b).
  destruct (TxCoordinator.rm_tracer_ (tm s) !! rg) as [t|] eqn:Et; last first.
  { rewrite tm_exec_assert; [done|]. unfold h, TxCoordinator.handle_tx_rm_ack. rewrite Et. auto. }
  assert (h (tm s) = TxCoordinator.handle_tx_rm_ack rg b (tm s)) as Hh by done.
  unfold TxCoordinator.handle_tx_rm_ack in Hh. rewrite Et in Hh.
  destruct b, (TxCoordinator.rm_state_ t) eqn:Est; try (rewrite tm_exec_assert; [done|solve [auto]]).
  - apply (tm_record_inv _ rg t TxCoordinator.RM_COMMITTED (TxCoordinator.stats_ (tm s))); try done; eauto.
  - apply (tm_record_inv _ rg t TxCoordinator.RM_ABORTED (TxCoordinator.stats_ (tm s))); try done; eauto.
  - apply (tm_record_inv _ rg t TxCoordinator.RM_ABORTED (TxCoordinator.stats_ (tm s))); try done; eauto.
  - apply (tm_record_inv _ rg t TxCoordinator.RM_ABORTED (TxCoordinator.stats_ (tm s))); try done; eauto.
  - rewrite (tm_exec_ext _ _ _ Hh), tm_exec_then, (tm_exec_assert (emit _)) by auto. by apply advance_inv.
  - rewrite (tm_exec_ext _ _ _ Hh). by apply advance_inv.
Qed.

(** The three calls of an abort: fix the outcome, answer, tell the participants. *)
Lemma abort_calls_inv ec s :
  inv s → ec ≠ EC_OK → TxCoordinator.write_commit_log_ (tm s) = false →
  inv (tm_exec TxCoordinator.send_abort (tm_exec TxCoordinator.send_tx_response
         (s <| tm := (tm s) <| TxCoordinator.error_code_ := ec |>
                            <| TxCoordinator.tm_state_ := TxCoordinator.TM_ABORTED |> |>))).
Proof.
  intros Hi Hec Hw. pose proof (set_aborted_inv s ec Hi Hec Hw) as Hi1. set (s1 := s <| tm := _ |>) in *.
  assert (inv (tm_exec TxCoordinator.send_tx_response s1)) as Hi2 by (apply send_response_inv; auto).
  apply send_abort_inv; [done|..];
    unfold tm_exec, TxCoordinator.send_tx_response; by destruct (TxCoordinator.responsed_ (tm s1)).
Qed.

Lemma tm_abort_inv ec s s' : inv s → exec_tm_abort ec s = Some s' → inv s'.
Proof.
  intros Hi. unfold exec_tm_abort, guard. case_decide as Hec; [|done]. intros [= <-].
  set (vic := EC_eqb ec EC_VICTIM && bool_decide (TxCoordinator.tm_state_ (tm s) = TxCoordinator.TM_IDLE)
              && negb (TxCoordinator.victim_ (tm s))).
  set (c1 := if vic then (tm s) <| TxCoordinator.victim_ := true |> else tm s).
  set (s1 := s <| tm := c1 |>).
  assert (inv s1) as Hi1 by (unfold s1, c1; destruct vic; [destruct Hi; inv_fields|by destruct s]).
  rewrite (tm_exec_ext _ (and_then (modify (fun _ => c1)) (fun c =>
    if TxCoordinator.write_commit_log_ c then (c, [])
    else match TxCoordinator.tm_state_ c with
         | TxCoordinator.TM_IDLE | TxCoordinator.TM_ABORTED =>
             (and_then (modify (fun c => c <| TxCoordinator.error_code_ := ec |>
                                            <| TxCoordinator.tm_state_ := TxCoordinator.TM_ABORTED |>))
               (and_then TxCoordinator.send_tx_response TxCoordinator.send_abort)) c
         | _ => (c, [])
         end))); last first.
  { rewrite modify_then. unfold TxCoordinator.abort. fold vic c1.
    destruct (TxCoordinator.write_commit_log_ c1); [done|].
    destruct (TxCoordinator.tm_state_ c1) eqn:E; try done.
    rewrite !modify_then. f_equal. destruct c1. simpl in *. by subst. }
  rewrite tm_exec_modify. fold s1. change c1 with (tm s1).
  destruct (TxCoordinator.write_commit_log_ (tm s1)) eqn:Hw; [by rewrite tm_exec_assert; rewrite ?Hw; auto|].
  pose proof (abort_calls_inv ec s1 Hi1 Hec Hw) as Hab.
  destruct (TxCoordinator.tm_state_ (tm s1)) eqn:E.
  2, 4: by rewrite tm_exec_assert; rewrite ?Hw, ?E; auto.
  all: rewrite (tm_exec_ext _ (and_then (modify (fun c => c <| TxCoordinator.error_code_ := ec |>
                                            <| TxCoordinator.tm_state_ := TxCoordinator.TM_ABORTED |>))
               (and_then TxCoordinator.send_tx_response TxCoordinator.send_abort))) by by rewrite Hw, E.
  all: by rewrite tm_exec_modify, tm_exec_then.
Qed.

Lemma tm_log_inv t ok s s' : inv s → exec_tm_log t ok s = Some s' → inv s'.
Proof.
  intros Hi. unfold exec_tm_log, guard. case_decide as Ht; [|done]. intros [= <-]. destruct Ht as [Ha Hd].
  pose proof (flush_inv _ _ Hi Ha) as Hi1.
  destruct t; try (by rewrite tm_exec_assert; auto); simpl.
  - by apply on_begin_inv.
  - unfold TxCoordinator.on_committed. rewrite tm_exec_modify. apply send_commit_inv.
    + apply set_state_inv; auto.
    + simpl. set_solver.
  - assert (TxCoordinator.write_commit_log_ (tm s) = false) as Hw.
    { pose proof (i_log_abort _ Hi Ha). destruct (TxCoordinator.write_commit_log_ (tm s)) eqn:Hw; [|done].
      destruct (i_decided _ Hi Hw) as (?&_). congruence. }
    unfold TxCoordinator.on_aborted. rewrite tm_exec_modify, tm_exec_then.
    pose proof (set_aborted_inv _ EC_TX_ABORT Hi1 ltac:(done) Hw) as Hi2.
    apply send_response_inv; [by apply send_abort_inv|by left].
  - unfold TxCoordinator.on_ended.
    rewrite (tm_exec_ext _ (and_then (modify (fun c => c <| TxCoordinator.tm_state_ := TxCoordinator.TM_DONE |>))
      (fun c => (c, [TxCoordinator.TmState (TxCoordinator.xid_ c) TxCoordinator.TM_DONE])))) by done.
    rewrite tm_exec_modify. unfold tm_exec, append. simpl. rewrite !app_nil_r.
    apply (set_state_inv _ TxCoordinator.TM_DONE) in Hi1; [|auto]. by destruct s as [? [] ? ? ?].
Qed.

(** ** Every reachable state satisfies the invariant *)

Lemma step_inv s s' : inv s → step s s' → inv s'.
Proof.
  intros Hi [l Hl]. destruct l; simpl in Hl.
  - by eapply tm_log_inv.
  - by eapply tm_prepare_inv.
  - by eapply tm_ack_inv.
  - by eapply tm_abort_inv.
  - by eapply rm_request_inv.
  - injection Hl as <-. by apply rm_local_inv.
  - by eapply rm_log_inv.
  - by eapply rm_commit_inv.
  - by eapply rm_abort_inv.
Qed.

Lemma steps_inv s s' : inv s → rtc step s s' → inv s'.
Proof. intros Hi Hs. induction Hs; eauto using step_inv. Qed.

Lemma start_inv xid node_id lead_node req s :
  good_config lead_node req → start xid node_id lead_node req = Some s → inv s.
Proof.
  intros [Hne Hrg]. unfold start, TxCoordinator.handle_tx_request.
  set (c0 := TxCoordinator.new_tm xid node_id lead_node).
  destruct (TxCoordinator.add_operations (req_oneshot req) (req_operations req) c0) as [c [|]] eqn:Ea;
    [|done].
  assert (TxCoordinator.fresh c0) as Hf0 by (intros k t Hk; simpl in Hk; by rewrite lookup_empty in Hk).
  destruct (TxCoordinator.add_operations_fresh _ _ _ _ Hf0 Ea) as (Hf&Hc&Hsome).
  specialize (Hsome (or_introl Hne)).
  assert (TxCoordinator.write_begin_log c =
    (c <| TxCoordinator.write_begin_log_ := true |>, [TxCoordinator.WalAppend TX_CMD_TM_BEGIN])) as ->
    by by rewrite Hc.
  intros [= <-]. set (c1 := c <| TxCoordinator.write_begin_log_ := true |>).
  assert (∀ k v, TxCoordinator.vote c1 k = Some v → v = TxCoordinator.RM_IDLE) as Hv.
  { intros k v. unfold TxCoordinator.vote, c1. simpl.
    destruct (TxCoordinator.rm_tracer_ c !! k) as [t|] eqn:Et; [|done]. intros [= <-]. by apply (Hf k). }
  assert (∀ k n, TxCoordinator.leads c1 !! k = Some n → NodeId.TO_RG_ID n = k) as Hlead.
  { intros k n. unfold TxCoordinator.leads, c1. rewrite lookup_fmap. simpl.
    destruct (TxCoordinator.rm_tracer_ c !! k) as [t|] eqn:Et; [|done]. intros [= <-].
    apply Hrg. destruct (Hf _ _ Et) as (_&_&Hl). by rewrite Hc in Hl. }
  assert (TxCoordinator.write_commit_log_ c1 = false ∧ TxCoordinator.write_abort_log_ c1 = false ∧
          TxCoordinator.error_code_ c1 = EC_OK ∧ TxCoordinator.responsed_ c1 = false) as (Hw&Hwa&He&Hr)
    by by unfold c1; rewrite Hc.
  constructor; simpl; rewrite ?Hw, ?Hwa, ?He, ?Hr; try done.
  all: try (intros; exfalso; by eapply not_elem_of_nil).
  - unfold TxCoordinator.leads. by rewrite fmap_empty_iff.
  - intros k t Ht. by apply (Hf k).
  - apply list_subseteq_nil.
  - solve_log.
  - solve_log.
  - intros k v Hk Hyes. rewrite (Hv _ _ Hk) in Hyes. by destruct Hyes.
  - intros k Hk. by apply Hv in Hk.
  - intros k Hk. by apply Hv in Hk.
  - intros Hx. simpl in Hw. congruence.
  - intros Hx. simpl in Hwa. congruence.
  - simpl in Hr. by rewrite Hr.
Qed.

Lemma reachable_inv s : reachable s → inv s.
Proof. intros (?&?&?&?&s0&Hg&Hs&Hsteps). eapply steps_inv; [by eapply start_inv|done]. Qed.

End TwoPhase.
