(* ===== verification/AtomicCommit.v ===== *)
(** * What two-phase commit guarantees

    The theorems about the reachable states of [TwoPhase]: agreement on the
    outcome, the votes and the decision a commit rests on, what the client's
    answer means, and the refinement of the abstract atomic-commit
    specification. *)

From S2P Require Import Prelude Common.
From S2P Require Import TxContext TxCoordinator TwoPhase.
#[local] Open Scope Z_scope.

Module AtomicCommit.
Import TwoPhase.TwoPhase.
Import (hints) TxContext.TxContext TxCoordinator.TxCoordinator.

(** Node [n] has appended (flushed) the record [t] of this transaction. *)
Definition has_logged (s : sys) (n : Z) (t : tx_cmd_type) : Prop :=
  ∃ r, rms s !! n = Some r ∧ t ∈ appended (rm_wal r).
Definition has_durable (s : sys) (n : Z) (t : tx_cmd_type) : Prop :=
  ∃ r, rms s !! n = Some r ∧ t ∈ durable (rm_wal r).
Definition participant (s : sys) (n : Z) : Prop :=
  ∃ k, TxCoordinator.leads (tm s) !! k = Some n.

Definition answers (s : sys) : nat := length (resp s).

(** ** Consequences of the invariant *)

Lemma logged_commit s n :
  inv s → has_logged s n TX_CMD_RM_COMMIT → TX_CMD_TM_COMMIT ∈ durable (tm_wal s).
Proof.
  intros Hi (r&Hr&Hc). destruct (i_rm _ Hi _ _ Hr) as [_ _ _ _ Hm _].
  by eapply (i_commit_msg _ Hi), Hm.
Qed.

Lemma logged_abort s n :
  inv s → has_logged s n TX_CMD_RM_ABORT → TxCoordinator.error_code_ (tm s) ≠ EC_OK.
Proof.
  intros Hi (r&Hr&Ha). destruct (i_rm _ Hi _ _ Hr) as [_ _ _ _ _ Hm].
  by destruct (i_abort_msg _ Hi _ (Hm Ha)).
Qed.

Lemma decided s :
  inv s → TX_CMD_TM_COMMIT ∈ appended (tm_wal s) →
  TxCoordinator.error_code_ (tm s) = EC_OK ∧ ∀ k v, TxCoordinator.vote (tm s) k = Some v →
    v = TxCoordinator.RM_PREPARE_COMMIT ∨ v = TxCoordinator.RM_COMMITTED.
Proof. intros Hi Hc%(i_log_commit _ Hi). by destruct (i_decided _ Hi Hc) as (_&_&?&?). Qed.

(** The only context of a shard is its leader's. *)
Lemma rm_of_shard s k n m r :
  inv s → TxCoordinator.leads (tm s) !! k = Some n → rms s !! m = Some r → NodeId.TO_RG_ID m = k → m = n.
Proof.
  intros Hi Hk Hr Hm. destruct (i_rm _ Hi _ _ Hr) as [[q Hq] _ _ _ _ _].
  destruct (i_req _ Hi _ _ Hq) as ([k' Hk']&_). pose proof (i_rg _ Hi _ _ Hk'). congruence.
Qed.

Lemma decided_prepared s n :
  inv s → TX_CMD_TM_COMMIT ∈ appended (tm_wal s) → participant s n →
  has_durable s n TX_CMD_RM_PREPARE_COMMIT.
Proof.
  intros Hi Hc [k Hk]. destruct (decided _ Hi Hc) as [_ Hall].
  destruct (part_vote _ _ _ Hk) as [v Hv]. destruct (i_yes _ Hi _ _ Hv (Hall _ _ Hv)) as [d Hd].
  destruct (i_vote _ Hi _ _ _ Hd) as (m&r&Hr&Hm&Hp).
  rewrite (rm_of_shard _ _ _ _ _ Hi Hk Hr Hm) in Hr. by exists r.
Qed.

Lemma agreement_inv s n m :
  inv s → has_logged s n TX_CMD_RM_COMMIT → has_logged s m TX_CMD_RM_ABORT → False.
Proof.
  intros Hi Hc%logged_commit Ha%logged_abort; [|done..]. apply (i_durable _ Hi) in Hc.
  by destruct (decided _ Hi Hc).
Qed.

Lemma success_inv s n :
  inv s → EC_OK ∈ resp s → participant s n → has_logged s n TX_CMD_RM_COMMIT.
Proof.
  intros Hs Hok [k Hk]. destruct (i_resp_ok _ Hs Hok _ _ Hk) as [d Hd].
  destruct (i_ack _ Hs _ _ _ Hd) as (m&r&Hr&Hm&Hc).
  rewrite (rm_of_shard _ _ _ _ _ Hs Hk Hr Hm) in Hr. by exists r.
Qed.

Lemma error_inv s ec :
  inv s → ec ∈ resp s → ec ≠ EC_OK →
  TX_CMD_TM_COMMIT ∉ appended (tm_wal s) ∧ ∀ n, ¬ has_logged s n TX_CMD_RM_COMMIT.
Proof.
  intros Hs Hin Hec. pose proof (i_resp_err _ Hs _ Hin Hec) as He.
  assert (TX_CMD_TM_COMMIT ∉ appended (tm_wal s)) as Hno.
  { intros Hc. by destruct (decided _ Hs Hc). }
  split; [done|]. intros n Hc%logged_commit; [|done]. by apply Hno, (i_durable _ Hs).
Qed.

(** ** Theorems *)

(** In every reachable state of a distributed transaction, whatever the
    network loses, repeats or reorders, no participant has logged a commit
    while another has logged an abort. *)
Theorem agreement s n m :
  reachable s → ¬ (has_logged s n TX_CMD_RM_COMMIT ∧ has_logged s m TX_CMD_RM_ABORT).
Proof. intros Hs%reachable_inv [Hc Ha]. by eapply agreement_inv. Qed.

(** C4: a participant logs a commit only after the coordinator's commit record
    is durable and after every participant's prepare record is durable. *)
Theorem commit_validity s n :
  reachable s → has_logged s n TX_CMD_RM_COMMIT →
  TX_CMD_TM_COMMIT ∈ durable (tm_wal s) ∧
  ∀ m, participant s m → has_durable s m TX_CMD_RM_PREPARE_COMMIT.
Proof.
  intros Hs%reachable_inv Hc. pose proof (logged_commit _ _ Hs Hc) as Hd. split; [done|].
  intros m Hm. apply decided_prepared; [done| |done]. by apply (i_durable _ Hs).
Qed.

(** If the client was told success, every participant has logged the
    commit. *)
Theorem client_success s n :
  reachable s → EC_OK ∈ resp s → participant s n → has_logged s n TX_CMD_RM_COMMIT.
Proof. intros Hs%reachable_inv. by apply success_inv. Qed.

(** If the client was told an error, the coordinator has not logged a commit
    and no participant has. *)
Theorem client_error s ec :
  reachable s → ec ∈ resp s → ec ≠ EC_OK →
  TX_CMD_TM_COMMIT ∉ appended (tm_wal s) ∧ ∀ n, ¬ has_logged s n TX_CMD_RM_COMMIT.
Proof. intros Hs%reachable_inv. by apply error_inv. Qed.

(** The coordinator answers the client at most once. *)
Theorem answered_once s : reachable s → (answers s ≤ 1)%nat.
Proof.
  intros Hs%reachable_inv. unfold answers. rewrite (i_resp_once _ Hs). by destruct (TxCoordinator.responsed_ (tm s)); lia.
Qed.

(** ** The abstract specification

    Atomic commitment: each participant is working, prepared, committed or
    aborted.  One participant moves at a time; it may commit when all are
    prepared or committed, and abort when none has committed. *)

Inductive ac_state := Working | Prepared | Committed | Aborted.

Inductive ac_step : gmap Z ac_state → gmap Z ac_state → Prop :=
| ac_prepare k a : a !! k = Some Working → ac_step a (<[k := Prepared]> a)
| ac_commit k a : a !! k = Some Prepared →
    (∀ j x, a !! j = Some x → x = Prepared ∨ x = Committed) → ac_step a (<[k := Committed]> a)
| ac_abort k a x : a !! k = Some x → x = Working ∨ x = Prepared →
    (∀ j, a !! j ≠ Some Committed) → ac_step a (<[k := Aborted]> a).

(** A participant as the specification sees it: by its log. *)
Definition abs_rm (o : option rm) : ac_state :=
  match o with
  | None => Working
  | Some r =>
      if decide (TX_CMD_RM_COMMIT ∈ appended (rm_wal r)) then Committed
      else if decide (TX_CMD_RM_ABORT ∈ appended (rm_wal r)) then Aborted
      else if decide (TX_CMD_RM_PREPARE_COMMIT ∈ durable (rm_wal r)) then Prepared
      else Working
  end.

Definition abs (s : sys) : gmap Z ac_state := (fun n => abs_rm (rms s !! n)) <$> TxCoordinator.leads (tm s).

(** ** One step changes the log of at most one participant *)

Definition wal_of (s : sys) (n : Z) : wal := from_option rm_wal (mk_wal [] []) (rms s !! n).

(** Either the node appends, or one of its records becomes durable. *)
Definition wal_step (w w' : wal) : Prop :=
  (durable w' = durable w ∧ appended w ⊆ appended w') ∨
  (appended w' = appended w ∧ durable w ⊆ durable w').

Definition local_change (s s' : sys) : Prop :=
  TxCoordinator.leads (tm s') = TxCoordinator.leads (tm s) ∧
  (rms s' = rms s ∨ ∃ n r, rms s' = <[n := r]> (rms s) ∧ wal_step (wal_of s n) (rm_wal r)).

Lemma rm_exec_change n h s : local_change s (rm_exec n h s).
Proof.
  unfold rm_exec. destruct (rms s !! n) as [r|] eqn:Hr; [|split; [done|by left]].
  destruct (h (rm_ctx r)) as [c ev]. split; [done|]. right. exists n, (mk_rm c (append (TxContext.logged ev) (rm_wal r))).
  split; [done|]. left. unfold wal_of. rewrite Hr. simpl. split; [done|set_solver].
Qed.

Lemma rm_request_change n q env s s' : exec_rm_request n q env s = Some s' → local_change s s'.
Proof.
  unfold exec_rm_request, guard. case_decide; [|done]. intros [= <-].
  destruct (rms s !! n) as [r|] eqn:Hr; [split; [done|by left]|].
  unfold rm_exec. simpl. rewrite lookup_insert_eq. simpl.
  destruct (TxContext.process_tx_request _ _ _ _) as [c ev]. split; [done|]. right.
  eexists n, _. rewrite insert_insert_eq. split; [done|]. left. unfold wal_of. rewrite Hr. split; [done|apply list_subseteq_nil].
Qed.

Lemma rm_log_change n t s s' : inv s → exec_rm_log n t s = Some s' → local_change s s'.
Proof.
  intros Hi. unfold exec_rm_log, guard. destruct (rms s !! n) as [r|] eqn:Hr; [|done].
  case_decide; [|done]. intros [= <-]. destruct (i_rm _ Hi _ _ Hr) as [_ Hrun _ _ _ _].
  unfold rm_exec. simpl. rewrite lookup_insert_eq. simpl.
  destruct (TxContext.log_commit_outcome t n _ Hrun) as [_ (Hw&_)].
  destruct (TxContext.on_log_entry_commit DB_SN t (rm_ctx r)) as [c ev]. split; [done|]. right.
  eexists n, _. rewrite insert_insert_eq. split; [done|]. right. unfold wal_of. rewrite Hr. simpl in *.
  rewrite Hw, app_nil_r. split; [done|set_solver].
Qed.

(** The coordinator's handlers never change whom they address. *)
Definition keeps_leads (h : TxCoordinator.handler) : Prop :=
  ∀ c, TxCoordinator.leads (h c).1 = TxCoordinator.leads c.

Lemma tm_exec_change h s : TxCoordinator.leads (h (tm s)).1 = TxCoordinator.leads (tm s) →
  local_change s (tm_exec h s).
Proof. intros Hh. unfold tm_exec. destruct (h (tm s)) as [c ev]. split; [done|by left]. Qed.

Lemma advance_leads c : TxCoordinator.leads (TxCoordinator.step_tm_state_advance c).1 = TxCoordinator.leads c.
Proof.
  destruct (TxCoordinator.advance_cases c); try done;
    unfold TxCoordinator.write_commit_log, TxCoordinator.write_abort_log; try by case_test.
  all: unfold TxCoordinator.send_tx_response, TxCoordinator.write_end_log; rewrite and_then_eq; simpl.
  all: repeat case_test; done.
Qed.

Lemma record_leads c k t v :
  TxCoordinator.rm_tracer_ c !! k = Some t →
  TxCoordinator.lead_ <$> <[k := t <| TxCoordinator.rm_state_ := v |>]> (TxCoordinator.rm_tracer_ c) =
  TxCoordinator.leads c.
Proof.
  intros Ht. rewrite fmap_insert. apply insert_id. unfold TxCoordinator.leads. by rewrite lookup_fmap, Ht.
Qed.

Lemma prepare_leads rg b st : keeps_leads (TxCoordinator.handle_tx_rm_prepare rg b st).
Proof.
  intros c. unfold TxCoordinator.handle_tx_rm_prepare. destruct (_ !! rg) as [t|] eqn:Et; [|done].
  destruct (TxCoordinator.rm_state_ t); try done. rewrite advance_leads.
  destruct b; by apply (record_leads c rg t).
Qed.

Lemma ack_leads rg b : keeps_leads (TxCoordinator.handle_tx_rm_ack rg b).
Proof.
  intros c. unfold TxCoordinator.handle_tx_rm_ack. destruct (_ !! rg) as [t|] eqn:Et; [|done].
  destruct b, (TxCoordinator.rm_state_ t); try done; rewrite ?and_then_eq; simpl fst; rewrite advance_leads;
    try done; by apply (record_leads c rg t).
Qed.

Lemma abort_leads ec : keeps_leads (TxCoordinator.abort ec).
Proof.
  intros c. unfold TxCoordinator.abort. set (c1 := if EC_eqb ec EC_VICTIM && _ && _ then _ else c).
  assert (TxCoordinator.leads c1 = TxCoordinator.leads c) as <- by (unfold c1; by case_test).
  case_test; [done|]. destruct (TxCoordinator.tm_state_ c1); try done;
    rewrite modify_then, and_then_eq; unfold TxCoordinator.send_tx_response; case_test; done.
Qed.

Lemma log_leads ok t c :
  (∀ k u, TxCoordinator.rm_tracer_ c !! k = Some u → req_distributed (TxCoordinator.message_ u) = true) →
  TxCoordinator.leads (TxCoordinator.on_log_entry_commit ok t c).1 = TxCoordinator.leads c.
Proof.
  intros Hd. destruct t; try done; simpl.
  - unfold TxCoordinator.on_begin. destruct (TxCoordinator.send_rm_request ok c) as [[b c1] ev] eqn:Es.
    destruct (TxCoordinator.send_requests_spec ok _ c b c1 ev Hd (NoDup_fst_map_to_list _) Es)
      as (_&Hl&_). destruct b; [done|]. unfold TxCoordinator.send_tx_response. by case_test.
  - unfold TxCoordinator.on_aborted. rewrite modify_then, and_then_eq.
    unfold TxCoordinator.send_tx_response, TxCoordinator.send_abort. by case_test.
Qed.

Lemma step_change s s' : inv s → step s s' → local_change s s'.
Proof.
  intros Hi [l Hl]. destruct l; simpl in Hl.
  - unfold exec_tm_log, guard in Hl. case_decide; [|done]. injection Hl as <-.
    pose proof (tm_exec_change (TxCoordinator.on_log_entry_commit send_ok t) (s <| tm_wal ::= flush t |>)) as Hc.
    apply Hc, log_leads, (i_dist _ Hi).
  - unfold exec_tm_prepare, guard in Hl. case_decide; [|done]. injection Hl as <-.
    apply tm_exec_change, prepare_leads.
  - unfold exec_tm_ack, guard in Hl. case_decide; [|done]. injection Hl as <-.
    apply tm_exec_change, ack_leads.
  - unfold exec_tm_abort, guard in Hl. case_decide; [|done]. injection Hl as <-.
    apply tm_exec_change, abort_leads.
  - by eapply rm_request_change.
  - injection Hl as <-. apply rm_exec_change.
  - by eapply rm_log_change.
  - unfold exec_rm_commit, guard in Hl. case_decide; [|done]. injection Hl as <-. apply rm_exec_change.
  - unfold exec_rm_abort, guard in Hl. case_decide; [|done]. injection Hl as <-. apply rm_exec_change.
Qed.

(** Logs only grow. *)
Lemma logged_mono s s' m t : local_change s s' → has_logged s m t → has_logged s' m t.
Proof.
  intros [_ [Hsame|(n&r&Hr&Hw)]] (r0&Hr0&Ht); unfold has_logged; [rewrite Hsame; eauto|].
  rewrite Hr. destruct (decide (m = n)) as [->|?]; [|rewrite lookup_insert_ne by done; eauto].
  rewrite lookup_insert_eq. exists r. split; [done|]. unfold wal_of in Hw. rewrite Hr0 in Hw. simpl in Hw.
  destruct Hw as [[_ Hsub]|[-> _]]; [by apply Hsub|done].
Qed.

(** ** Refinement *)

Lemma abs_lookup s k n : TxCoordinator.leads (tm s) !! k = Some n → abs s !! k = Some (abs_rm (rms s !! n)).
Proof. intros Hk. unfold abs. by rewrite lookup_fmap, Hk. Qed.

Lemma abs_committed s n : abs_rm (rms s !! n) = Committed → has_logged s n TX_CMD_RM_COMMIT.
Proof.
  unfold abs_rm, has_logged. destruct (rms s !! n) as [r|]; [|done]. repeat case_decide; try done. eauto.
Qed.

Lemma abs_prepared_or_committed s n :
  has_durable s n TX_CMD_RM_PREPARE_COMMIT → ¬ has_logged s n TX_CMD_RM_ABORT →
  abs_rm (rms s !! n) = Prepared ∨ abs_rm (rms s !! n) = Committed.
Proof.
  intros (r&Hr&Hp) Ha. unfold abs_rm. rewrite Hr. repeat case_decide; auto; [|done].
  destruct Ha. by exists r.
Qed.

(** The log of one node in the old state, by its new log. *)
Lemma abs_changed s s' n r :
  inv s → inv s' → rms s' = <[n := r]> (rms s) → wal_step (wal_of s n) (rm_wal r) →
  let a := abs_rm (rms s !! n) in let a' := abs_rm (Some r) in
  a' = a ∨ (a = Working ∧ a' = Prepared) ∨
  (a' = Committed ∧ durable (rm_wal r) = durable (wal_of s n) ∧ a ≠ Committed ∧ a ≠ Aborted) ∨
  (a' = Aborted ∧ (a = Working ∨ a = Prepared)).
Proof.
  intros Hi Hi' Hrms Hw. assert (rms s' !! n = Some r) as Hr' by by rewrite Hrms, lookup_insert_eq.
  destruct (i_rm _ Hi' _ _ Hr') as [_ _ Hshape _ _ _].
  assert (TX_CMD_RM_COMMIT ∈ appended (rm_wal r) → TX_CMD_RM_ABORT ∉ appended (rm_wal r)) as Hx.
  { intros Hc Ha. pose proof (shape_commit _ _ Hshape Hc) as Hl. rewrite Hl in Ha. clear -Ha. solve_log. }
  unfold wal_of in Hw. unfold abs_rm, wal_of in *.
  destruct (rms s !! n) as [r0|] eqn:Hr0; simpl in *.
  - destruct Hw as [[Hd Ha]|[Ha Hd]].
    + rewrite Hd. repeat case_decide; naive_solver.
    + rewrite Ha. repeat case_decide; naive_solver.
  - destruct Hw as [[Hd _]|[Ha _]].
    + rewrite Hd. repeat case_decide; try naive_solver; by exfalso; eapply not_elem_of_nil.
    + rewrite Ha. repeat case_decide; try naive_solver; by exfalso; eapply not_elem_of_nil.
Qed.

Lemma abs_insert s s' n k r :
  inv s → TxCoordinator.leads (tm s') = TxCoordinator.leads (tm s) → rms s' = <[n := r]> (rms s) →
  TxCoordinator.leads (tm s) !! k = Some n → abs s' = <[k := abs_rm (Some r)]> (abs s).
Proof.
  intros Hi Hl Hr Hk. apply map_eq. intros j. unfold abs. rewrite Hl, Hr, lookup_fmap.
  destruct (decide (j = k)) as [->|Hj].
  - by rewrite lookup_insert_eq, Hk; simpl; rewrite lookup_insert_eq.
  - rewrite lookup_insert_ne, lookup_fmap by done.
    destruct (TxCoordinator.leads (tm s) !! j) as [m|] eqn:Em; [|done]. simpl.
    rewrite lookup_insert_ne; [done|]. intros ->.
    pose proof (i_rg _ Hi _ _ Em). pose proof (i_rg _ Hi _ _ Hk). congruence.
Qed.

Lemma refine_step s s' : inv s → step s s' → abs s' = abs s ∨ ac_step (abs s) (abs s').
Proof.
  intros Hi Hs. pose proof (step_inv _ _ Hi Hs) as Hi'.
  pose proof (step_change _ _ Hi Hs) as Hch. destruct (Hch) as [Hl [Hsame|(n&r&Hr&Hw)]].
  { left. unfold abs. by rewrite Hl, Hsame. }
  assert (rms s' !! n = Some r) as Hr' by by rewrite Hr, lookup_insert_eq.
  assert (∃ k, TxCoordinator.leads (tm s) !! k = Some n) as [k Hk].
  { destruct (i_rm _ Hi' _ _ Hr') as [[q Hq] _ _ _ _ _]. rewrite <- Hl. by destruct (i_req _ Hi' _ _ Hq). }
  pose proof (abs_insert _ _ _ _ _ Hi Hl Hr Hk) as Habs. pose proof (abs_lookup _ _ _ Hk) as Ha.
  assert (∀ j x, abs s !! j = Some x → ∃ m, TxCoordinator.leads (tm s) !! j = Some m ∧
            x = abs_rm (rms s !! m)) as Hinv.
  { intros j x. unfold abs. rewrite lookup_fmap.
    destruct (TxCoordinator.leads (tm s) !! j); naive_solver. }
  destruct (abs_changed _ _ _ _ Hi Hi' Hr Hw) as [He|[[He1 He2]|[(He&Hd&Hn1&Hn2)|(He&He2)]]].
  - left. rewrite Habs, He. by apply insert_id.
  - right. rewrite Habs, He2. apply ac_prepare. congruence.
  - right. rewrite Habs, He.
    assert (has_logged s' n TX_CMD_RM_COMMIT) as Hc by (apply abs_committed; congruence).
    pose proof (logged_commit _ _ Hi' Hc) as Htm%(i_durable _ Hi').
    assert (∀ j x, abs s !! j = Some x → x = Prepared ∨ x = Committed) as Hall.
    { intros j x (m&Hm&->)%Hinv. assert (participant s' m) as Hp by (exists j; by rewrite Hl).
      destruct (decided_prepared _ _ Hi' Htm Hp) as (r2&Hr2&Hd2). apply abs_prepared_or_committed.
      - rewrite Hr in Hr2. destruct (decide (m = n)) as [->|?].
        + rewrite lookup_insert_eq in Hr2. simplify_eq. rewrite Hd in Hd2. unfold wal_of in Hd2.
          destruct (rms s !! n) as [r0|] eqn:Hr0; [by exists r0|]. by apply not_elem_of_nil in Hd2.
        + rewrite lookup_insert_ne in Hr2 by done. by exists r2.
      - intros Hab%(logged_mono _ s'); [|done]. by eapply agreement_inv. }
    apply ac_commit; [|done]. rewrite Ha. f_equal. destruct (Hall _ _ Ha); [done|congruence].
  - right. rewrite Habs, He. eapply ac_abort; [done|done|].
    intros j (m&Hm&Hx)%Hinv. symmetry in Hx. apply abs_committed, (logged_mono _ s') in Hx; [|done].
    eapply agreement_inv; [done..|]. exists r. split; [done|].
    unfold abs_rm in He. by repeat case_decide.
Qed.

(** C3: every step of the protocol is a step of the atomic-commit specification
    on the participants' logs, or leaves them as they are to the specification;
    and it starts with every participant working. *)
Theorem refinement s s' :
  (∀ xid node lead_node req, good_config lead_node req → start xid node lead_node req = Some s →
     ∀ k x, abs s !! k = Some x → x = Working) ∧
  (reachable s → step s s' → abs s' = abs s ∨ ac_step (abs s) (abs s')).
Proof.
  split; [|by intros ?%reachable_inv; apply refine_step].
  intros xid node lead_node req Hg Hs k x. unfold abs. rewrite lookup_fmap.
  assert (rms s = ∅) as Hr.
  { unfold start in Hs. destruct (TxCoordinator.handle_tx_request _ _) as [[[]] ev]; [|done].
    by injection Hs as <-. }
  rewrite Hr. destruct (TxCoordinator.leads (tm s) !! k); [|done]. simpl. by intros [= <-].
Qed.

(** ** Runs

    A schedule chooses each step from the current state; [run] executes it. *)

Fixpoint run (ls : list (sys → label)) (s : sys) : option sys :=
  match ls with
  | [] => Some s
  | l :: ls => exec (l s) s ≫= run ls
  end.

Lemma run_steps ls s s' : run ls s = Some s' → rtc step s s'.
Proof.
  revert s. induction ls as [|l ls IH]; intros s; simpl; [by intros [= ->]|].
  destruct (exec (l s) s) as [s1|] eqn:E; [|done]. simpl. intros Hr.
  eapply rtc_l; [by exists (l s)|by apply IH].
Qed.

(** Two shards led by nodes 65537 and 131073, one update on each. *)
Definition demo_op (sd : Z) : tx_operation := mk_op TX_OP_UPDATE 0 sd 1 sd 7 "row" 0.
Definition demo_leads : gmap Z Z := {[1 := 65537; 2 := 131073]}.
Definition demo_request : tx_request :=
  mk_request 42 0 0 false true true true [demo_op 1; demo_op 2] 0.
Definition demo_start : option sys := start 42 65537 demo_leads demo_request.

Definition demo_env : block_env := mk_env (Some 9) ∅ 1 false (fun _ _ _ => Some "old"%string).

(** The request for node [n] in the network. *)
Definition request_of (n : Z) (s : sys) : tx_request :=
  default new_request (head (omap (fun m => match m with
    | MRequest d q => if bool_decide (d = n) then Some q else None | _ => None end) (net s))).

Definition demo_work (n : Z) : list (sys → label) :=
  [fun s => RmRequest n (request_of n s) demo_env;
   fun _ => RmLocal n (LLock EC_OK);
   fun _ => RmLocal n (LRun (env_get demo_env));
   fun _ => RmLocal n (LRun (env_get demo_env))].

Definition all_ok : Z → bool := fun _ => true.

Definition demo_commit_run : list (sys → label) :=
  (fun _ => TmLog TX_CMD_TM_BEGIN all_ok) :: demo_work 65537 ++ demo_work 131073 ++
  [fun _ => RmLog 65537 TX_CMD_RM_PREPARE_COMMIT;
   fun _ => RmLog 131073 TX_CMD_RM_PREPARE_COMMIT;
   fun _ => TmPrepare 1 true TxCoordinator.stats_zero;
   fun _ => TmPrepare 2 true TxCoordinator.stats_zero;
   fun _ => TmLog TX_CMD_TM_COMMIT all_ok;
   fun _ => RmCommit 131073; fun _ => RmLog 131073 TX_CMD_RM_COMMIT;
   fun _ => RmCommit 65537; fun _ => RmLog 65537 TX_CMD_RM_COMMIT;
   fun _ => TmAck 2 true; fun _ => TmAck 1 true].

(** The first participant voted when the transaction is chosen as a victim. *)
Definition demo_abort_run : list (sys → label) :=
  (fun _ => TmLog TX_CMD_TM_BEGIN all_ok) :: demo_work 65537 ++
  [fun _ => RmLog 65537 TX_CMD_RM_PREPARE_COMMIT;
   fun _ => TmPrepare 1 true TxCoordinator.stats_zero;
   fun _ => TmAbort EC_VICTIM;
   fun _ => RmAbort 65537; fun _ => RmLog 65537 TX_CMD_RM_ABORT].

Definition demo (ls : list (sys → label)) : sys :=
  default (mk_sys (TxCoordinator.new_tm 0 0 ∅) (mk_wal [] []) ∅ [] []) (demo_start ≫= run ls).

Lemma demo_run_reachable ls : is_Some (demo_start ≫= run ls) → reachable (demo ls).
Proof.
  unfold demo. destruct demo_start as [s0|] eqn:Es; [|by intros []]. simpl.
  intros [s1 Hr]. rewrite Hr. simpl. exists 42, 65537, demo_leads, demo_request, s0.
  split_and!; [|done|by eapply run_steps]. split; [done|].
  intros sd n Hn. unfold demo_leads in Hn.
  apply lookup_insert_Some in Hn as [[<- <-]|[_ [<- <-]%lookup_singleton_Some]]; done.
Qed.

Lemma commit_run_reachable : reachable (demo demo_commit_run).
Proof. apply demo_run_reachable. vm_compute. by eexists. Qed.

Lemma abort_run_reachable : reachable (demo demo_abort_run).
Proof. apply demo_run_reachable. vm_compute. by eexists. Qed.

#[local] Instance has_logged_dec s n t : Decision (has_logged s n t).
Proof.
  unfold has_logged. destruct (rms s !! n) as [r|]; [|right; naive_solver].
  destruct (decide (t ∈ appended (rm_wal r))); [left; eauto|right; naive_solver].
Defined.

Lemma agreement_witness :
  has_logged (demo demo_commit_run) 65537 TX_CMD_RM_COMMIT ∧
  ¬ (has_logged (demo demo_commit_run) 65537 TX_CMD_RM_COMMIT ∧
     has_logged (demo demo_commit_run) 131073 TX_CMD_RM_ABORT).
Proof.
  split; [apply (bool_decide_unpack _); vm_compute; exact Logic.I|].
  apply agreement, commit_run_reachable.
Defined.

Lemma commit_validity_witness :
  TX_CMD_TM_COMMIT ∈ durable (tm_wal (demo demo_commit_run)) ∧
  ∀ m, participant (demo demo_commit_run) m → has_durable (demo demo_commit_run) m TX_CMD_RM_PREPARE_COMMIT.
Proof.
  apply (commit_validity _ 65537); [apply commit_run_reachable|].
  apply (bool_decide_unpack _). vm_compute. exact Logic.I.
Defined.

Lemma client_success_witness :
  resp (demo demo_commit_run) = [EC_OK] ∧ has_logged (demo demo_commit_run) 131073 TX_CMD_RM_COMMIT.
Proof.
  split; [vm_compute; reflexivity|].
  apply client_success; [apply commit_run_reachable| |].
  - apply (bool_decide_unpack _). vm_compute. exact Logic.I.
  - exists 2. vm_compute. reflexivity.
Defined.

Lemma client_error_witness :
  resp (demo demo_abort_run) = [EC_VICTIM] ∧
  TX_CMD_TM_COMMIT ∉ appended (tm_wal (demo demo_abort_run)) ∧
  ∀ n, ¬ has_logged (demo demo_abort_run) n TX_CMD_RM_COMMIT.
Proof.
  split; [vm_compute; reflexivity|].
  apply (client_error _ EC_VICTIM); [apply abort_run_reachable| |discriminate].
  apply (bool_decide_unpack _). vm_compute. exact Logic.I.
Defined.

Lemma answered_once_witness : (answers (demo demo_abort_run) ≤ 1)%nat.
Proof. apply answered_once, abort_run_reachable. Defined.

Lemma refinement_witness :
  let s := demo demo_abort_run in
  let s' := tm_exec (TxCoordinator.abort EC_VICTIM) s in
  (abs s !! 1 = Some Aborted ∧ abs s !! 2 = Some Working) ∧ (abs s' = abs s ∨ ac_step (abs s) (abs s')).
Proof.
  intros s s'. split; [split; vm_compute; reflexivity|].
  apply (refinement s s'); [apply abort_run_reachable|]. by exists (TmAbort EC_VICTIM).
Defined.

End AtomicCommit.
