(* ===== verification/Raft.v ===== *)
(** * The replication state machine

    [src/raft/state_machine.cpp] with [include/raft/state_machine.h]: the Raft
    replica inside a replicated-log block.  A handler is an [act] on the
    replica's state; the messages it sends, the writes it posts to the log
    strand and the callbacks of the block above are events.  A closure the
    source passes to [write_log] or [write_state] is a value of [callback], run
    later by [run_callback].

    Terms and log indices are 64-bit counters that move by one; they are
    integers here, and the one subtraction that may wrap around
    ([log_index_to_offset]) is reduced modulo 2^64 when it is negative.
    Timers are an event; the wall clock and traces are left out. *)

From S2P Require Import Prelude Common.
#[local] Open Scope Z_scope.

Module Raft.

(* @src include/raft/state_machine.h 38 42 raft_state *)
Inductive raft_state := RAFT_STATE_LEADER | RAFT_STATE_FOLLOWER | RAFT_STATE_CANDIDATE.

#[export] Instance raft_state_eq_dec : EqDecision raft_state.
Proof. solve_decision. Defined.

(* @src src/proto/raft_log_entry.proto 5 9 raft_log_entry *)
Record raft_log_entry := mk_entry { e_index : Z; e_term : Z; e_logs : string }.

#[export] Instance raft_log_entry_eq_dec : EqDecision raft_log_entry.
Proof. solve_decision. Defined.

(* @src src/proto/raft_log_entry.proto 11 16 raft_log_state *)
Record raft_log_state := mk_log_state {
  ls_term : Z; ls_vote : Z; ls_commit_index : Z; ls_consistency_index : Z;
}.
#[export] Instance eta_log_state : Eta raft_log_state := fun l =>
  mk_log_state (ls_term l) (ls_vote l) (ls_commit_index l) (ls_consistency_index l).

#[export] Instance raft_log_state_eq_dec : EqDecision raft_log_state.
Proof. solve_decision. Defined.

(* @src include/raft/state_machine.h 61 75 state_machine::progress *)
Record progress := mk_progress {
  p_node_id : Z;
  match_index_ : Z;
  next_index_ : Z;
  append_log_num_ : Z;
  send_next_index_ : Z;
  last_reject_ : bool;
}.
#[export] Instance eta_progress : Eta progress := fun p =>
  mk_progress (p_node_id p) (match_index_ p) (next_index_ p) (append_log_num_ p)
    (send_next_index_ p) (last_reject_ p).

(* @src include/raft/state_machine.h 64 66 progress::progress *)
Definition new_progress (max : Z) : progress := mk_progress 0 0 1 max 1 false.

(** The messages replicas exchange. *)
Inductive raft_msg :=
| RequestVote (source dest term last_log_index last_log_term : Z)
| RequestVoteResp (source dest term : Z) (vote_granted : bool)
| AppendEntries (source dest term prev_log_index prev_log_term commit_index consistency_index : Z)
    (heart_beat : bool) (entries : list raft_log_entry)
| AppendEntriesResp (source dest term : Z) (success : bool) (match_index : Z)
    (heart_beat : bool) (lead last_log_index : Z) (write_log : bool)
| TransferLeader (dest leader_transferee : Z)
| TransferNotify (dest leader_transferee : Z)
| PreVote (source dest : Z)
| PreVoteResp (source dest term : Z) (state : raft_state) (granted : bool).

#[export] Instance raft_msg_eq_dec : EqDecision raft_msg.
Proof. solve_decision. Defined.

(** Closures run when a write to the log has finished. *)
Inductive callback :=
| CbRequestVote
| CbLeaderAppended (index : Z)
| CbFollowerAppended (to_node : Z) (match_index : Z) (heart_beat write_log : bool)
    (commit_index consistency_index : Z).

#[export] Instance callback_eq_dec : EqDecision callback.
Proof. solve_decision. Defined.

(* @src include/raft/state_machine.h 82 137 state_machine *)
Record node := mk_node {
  node_id_ : Z;
  tick_count_ : Z;
  progress_ : gmap Z progress;
  commit_index_ : Z;
  current_term_ : Z;
  state_ : raft_state;
  pre_vote_responded_ : gmap Z (Z * raft_state * bool);
  votes_responded_ : gset Z;
  votes_granted_ : gset Z;
  has_voted_for_ : bool;
  voted_for_ : Z;
  leader_id_ : Z;
  nodes_ids_ : list Z;
  priority_replica_node_ : Z;
  log_ : list raft_log_entry;
  log_state_ : raft_log_state;
  consistent_log_index_ : Z;
  follower_tick_max_ : Z;
  append_log_entries_batch_max_ : Z;
  append_log_entries_batch_min_ : Z;
  stopped_ : bool;
  tx_logs_ : list string;
}.
#[export] Instance eta_node : Eta node := fun n =>
  mk_node (node_id_ n) (tick_count_ n) (progress_ n) (commit_index_ n) (current_term_ n) (state_ n)
    (pre_vote_responded_ n) (votes_responded_ n) (votes_granted_ n) (has_voted_for_ n)
    (voted_for_ n) (leader_id_ n) (nodes_ids_ n) (priority_replica_node_ n) (log_ n) (log_state_ n)
    (consistent_log_index_ n) (follower_tick_max_ n) (append_log_entries_batch_max_ n)
    (append_log_entries_batch_min_ n) (stopped_ n) (tx_logs_ n).

Inductive raft_event :=
| Send (m : raft_msg)
| WriteLog (entries : list raft_log_entry) (cb : callback)
| WriteState (st : raft_log_state) (cb : option callback)
| Committed (ec : EC) (is_leader : bool) (entries : list raft_log_entry)
| BecameLeader (term : Z)
| BecameFollower (term : Z)
| ArmTimer
| AssertFailed.

#[local] Open Scope act_scope.
Abbreviation handler := (act node raft_event).

(** ** The log *)

Abbreviation log_size n := (Z.of_nat (length (log_ n))).

(* @src src/raft/state_machine.cpp 1189 1192 state_machine::offset_to_log_index *)
Definition offset_to_log_index (n : node) (offset : Z) : Z := consistent_log_index_ n + offset + 1.
(* @src src/raft/state_machine.cpp 1194 1197 state_machine::log_index_to_offset *)
Definition log_index_to_offset (n : node) (index : Z) : Z :=
  let d := index - consistent_log_index_ n - 1 in if d <? 0 then u64 d else d.

(** [log_index_to_offset(index) + 1] on 64 bits. *)
Definition offset_after (n : node) (index : Z) : Z :=
  let d := index - consistent_log_index_ n in if d <? 0 then u64 d else d.

(** [log_[offset]], with [None] out of range. *)
Definition log_at (n : node) (offset : Z) : option raft_log_entry :=
  if (0 <=? offset) && (offset <? log_size n) then log_ n !! Z.to_nat offset else None.

(* @src src/raft/state_machine.cpp 67 73 state_machine::last_log_index *)
Definition last_log_index (n : node) : Z :=
  match log_ n with
  | [] => consistent_log_index_ n
  | _ => offset_to_log_index n (log_size n - 1)
  end.

(* @src src/raft/state_machine.cpp 75 81 state_machine::last_log_term *)
Definition last_log_term (n : node) : Z :=
  match last (log_ n) with
  | None => 0
  | Some e => e_term e
  end.

(** The last two entries have consecutive indices. *)
(* @src src/raft/state_machine.cpp 1327 1330 state_machine::check_log_index *)
Definition check_log_index : handler := fun n =>
  match rev (log_ n) with
  | b :: a :: _ => (n, if e_index a + 1 =? e_index b then [] else [AssertFailed])
  | _ => (n, [])
  end.

Definition push_log (e : raft_log_entry) : handler :=
  modify (fun n => n <| log_ := log_ n ++ [e] |>) ;; check_log_index.

(** The message's destination must be one of the peers. *)
(* @src include/raft/state_machine.h 252 285 state_machine::async_send *)
Definition async_send (dest : Z) (m : raft_msg) : handler := fun n =>
  when (bool_decide (dest ∈ nodes_ids_ n)) (emit (Send m)) n.

(* @src src/raft/state_machine.cpp 1199 1217 state_machine::update_consistency_index *)
Definition update_consistency_index (index : Z) : handler := fun n =>
  let bad := negb (match log_ n with [] => true | _ => index <=? offset_to_log_index n (log_size n - 1) end) in
  (when bad (emit AssertFailed) ;;
   if index <? consistent_log_index_ n + 10 then skip
   else
     let index := index - 10 in
     let removed := index - consistent_log_index_ n in
     when (log_size n <? removed) (emit AssertFailed) ;;
     modify (fun n => n <| log_ := drop (Z.to_nat removed) (log_ n) |>
                        <| consistent_log_index_ := index |>
                        <| log_state_ ::= fun l => l <| ls_consistency_index := index |> |>) ;;
     (fun n => emit (WriteState (log_state_ n) None) n)) n.

(** Hand the entries after the old commit index to the block above. *)
(* @src src/raft/state_machine.cpp 1219 1281 state_machine::update_commit_index *)
Definition update_commit_index (index : Z) : handler := fun n =>
  if index <=? commit_index_ n then (n, [])
  else match log_ n with
       | [] => (n, [])
       | _ =>
           let commit_index := Z.min (offset_to_log_index n (log_size n - 1)) index in
           let prev_commit_index := commit_index_ n in
           if prev_commit_index =? commit_index then (n, [])
           else
             let off_begin := if prev_commit_index =? 0 then 0
                              else offset_after n prev_commit_index in
             let off_end := if commit_index =? 0 then 0
                            else offset_after n commit_index in
             if off_end <=? off_begin then (n, [])
             else
               let vec := take (Z.to_nat (off_end - off_begin)) (drop (Z.to_nat off_begin) (log_ n)) in
               (modify (fun n => n <| log_state_ ::= fun l => l <| ls_commit_index := commit_index |> |>) ;;
                (fun n => emit (WriteState (log_state_ n) None) n) ;;
                emit (Committed EC_OK (bool_decide (state_ n = RAFT_STATE_LEADER)) vec) ;;
                modify (fun n => n <| commit_index_ := commit_index |>)) n
       end.
(** ** Replication *)

(** One peer; [k] is its key in [progress_]. *)
(* @src src/raft/state_machine.cpp 540 620 state_machine::append_entries *)
Definition append_entries (k : Z) : handler := fun n =>
  match progress_ n !! k with
  | None => (n, [])
  | Some tracer =>
      let id := p_node_id tracer in
      let zero := next_index_ tracer =? 0 in
      let next_index :=
        if zero then 0
        else if negb (last_reject_ tracer) && (next_index_ tracer <? send_next_index_ tracer)
             then send_next_index_ tracer else next_index_ tracer in
      let tracer := if zero then tracer else tracer <| send_next_index_ := next_index |> in
      let prev_log_index := if zero then 0 else next_index - 1 in
      let start_offset := if zero then 0 else log_index_to_offset n next_index in
      let prev_entry := log_at n (log_index_to_offset n prev_log_index) in
      let beyond := consistent_log_index_ n <? prev_log_index in
      let prev_log_term := if beyond then match prev_entry with Some e => e_term e | None => 0 end else 0 in
      let bad := beyond && match prev_entry with Some _ => false | None => true end in
      let entries := take (Z.to_nat (append_log_num_ tracer))
                       (drop (Z.to_nat (Z.min start_offset (log_size n))) (log_ n)) in
      let tracer := match last entries with
                    | Some e => if 0 <? e_index e then tracer <| send_next_index_ := e_index e + 1 |> else tracer
                    | None => tracer
                    end in
      let bad_index := existsb (fun ke => negb (e_index ke.2 =? prev_log_index + 1 + Z.of_nat ke.1))
                         (imap pair entries) in
      let m := AppendEntries (node_id_ n) id (current_term_ n) prev_log_index prev_log_term
                 (commit_index_ n) (consistent_log_index_ n)
                 (match entries with [] => true | _ => false end) entries in
      (when (bad || bad_index) (emit AssertFailed) ;;
       modify (fun n => n <| progress_ := <[k := tracer]> (progress_ n) |>) ;;
       async_send id m) n
  end.

(* @src src/raft/state_machine.cpp 490 497 state_machine::leader_send_append_entries *)
Definition leader_send_append_entries : handler := fun n =>
  each append_entries (filter (fun k => k ≠ node_id_ n) (map fst (map_to_list (progress_ n)))) n.

(** [None] is the heart beat's null entry; [false] is [EC_NOT_LEADER]. *)
(* @src src/raft/state_machine.cpp 434 488 state_machine::leader_append_entry *)
Definition leader_append_entry (entry : option raft_log_entry) (n : node)
    : bool * node * list raft_event :=
  if bool_decide (state_ n = RAFT_STATE_LEADER) then
    match entry with
    | Some e =>
        let index := offset_to_log_index n (log_size n) in
        let e := mk_entry index (current_term_ n) (e_logs e) in
        let '(n, ev) := (push_log e ;; emit (WriteLog [e] (CbLeaderAppended index))) n in (true, n, ev)
    | None => let '(n, ev) := leader_send_append_entries n in (true, n, ev)
    end
  else (false, n, []).

(** The closure of [leader_append_entry]. *)
(* @src src/raft/state_machine.cpp 465 481 state_machine::leader_append_entry *)
Definition on_leader_appended (index : Z) : handler :=
  modify (fun n => n <| log_state_ := mk_log_state (current_term_ n) (voted_for_ n) (commit_index_ n)
                                        (consistent_log_index_ n) |>) ;;
  modify (fun n => match progress_ n !! node_id_ n with
                   | Some p => n <| progress_ := <[node_id_ n := p <| match_index_ := index |>
                                                                   <| next_index_ := index + 1 |>]> (progress_ n) |>
                   | None => n
                   end) ;;
  leader_send_append_entries.

(* @src src/raft/state_machine.cpp 284 292 state_machine::heart_beat *)
Definition heart_beat : handler := fun n =>
  let '(_, n, ev) := leader_append_entry None n in (n, ev).

(** The queued logs go into one entry; the loop takes one more than the
    configured maximum. *)
(* @src src/raft/state_machine.cpp 392 432 state_machine::send_append_log *)
Definition send_append_log (is_heart_beat : bool) (n : node) : bool * node * list raft_event :=
  match tx_logs_ n with
  | [] => if is_heart_beat then let '(n, ev) := heart_beat n in (true, n, ev) else (true, n, [])
  | _ =>
      let count := Z.to_nat (Z.min (Z.of_nat (length (tx_logs_ n))) (append_log_entries_batch_max_ n + 1)) in
      let entry := mk_entry 0 0 (String.concat "" (take count (tx_logs_ n))) in
      let n := n <| tx_logs_ := drop count (tx_logs_ n) |> in
      let '(ok, n, ev) := leader_append_entry (Some entry) n in
      if ok then (true, n, ev)
      else (false, n, ev ++ [Committed EC_NOT_LEADER (bool_decide (state_ n = RAFT_STATE_LEADER)) [entry]])
  end.

(* @src src/raft/state_machine.cpp 364 390 state_machine::ccb_append_log *)
Definition ccb_append_log (logs : string) (n : node) : bool * node * list raft_event :=
  let n := n <| tx_logs_ := tx_logs_ n ++ [logs] |> in
  if append_log_entries_batch_min_ n <=? Z.of_nat (length (tx_logs_ n))
  then send_append_log false n else (true, n, []).

(** The number of peers whose recorded match index reaches [index]. *)
Definition count_peers (P : progress → bool) (n : node) : Z :=
  Z.of_nat (length (filter (fun id => from_option P false (progress_ n !! id) = true) (nodes_ids_ n))).

(** The loops from the last entry downwards: the highest offset below [i] whose
    index satisfies [f]. *)
Fixpoint highest (f : Z → bool) (i : nat) : option Z :=
  match i with
  | O => None
  | S i => if f (Z.of_nat i) then Some (Z.of_nat i) else highest f i
  end.

(* @src src/raft/state_machine.cpp 676 701 state_machine::leader_advance_commit_index *)
Definition leader_advance_commit_index : handler := fun n =>
  match state_ n with
  | RAFT_STATE_LEADER =>
      let majority i := Z.of_nat (length (nodes_ids_ n)) <?
        2 * count_peers (fun p => offset_to_log_index n i <=? match_index_ p) n in
      match highest majority (length (log_ n)) with
      | Some i =>
          match log_at n i with
          | Some e => if e_term e <=? current_term_ n
                      then update_commit_index (offset_to_log_index n i) n else (n, [])
          | None => (n, [])
          end
      | None => (n, [])
      end
  | _ => (n, [])
  end.

(* @src src/raft/state_machine.cpp 703 731 state_machine::leader_advance_consistency_index *)
Definition leader_advance_consistency_index : handler := fun n =>
  match state_ n with
  | RAFT_STATE_LEADER =>
      let all i := Z.of_nat (length (nodes_ids_ n)) =?
        count_peers (fun p => (offset_to_log_index n i <=? match_index_ p) &&
                              (offset_to_log_index n i <=? next_index_ p)) n in
      match highest all (length (log_ n)) with
      | Some i =>
          let log_index := offset_to_log_index n i in
          if (1 <? log_size n) && (log_index <=? commit_index_ n) &&
             (log_index <=? offset_to_log_index n (log_size n - 1))
          then match log_at n i with
               | Some e => if e_term e =? current_term_ n then update_consistency_index log_index n else (n, [])
               | None => (n, [])
               end
          else (n, [])
      | None => (n, [])
      end
  | _ => (n, [])
  end.

(** ** Elections *)

(* @src src/raft/state_machine.cpp 664 674 state_machine::become_follower *)
Definition become_follower : handler := fun n =>
  (n <| state_ := RAFT_STATE_FOLLOWER |>, [BecameFollower (current_term_ n)]).

(* @src src/raft/state_machine.cpp 1063 1073 state_machine::update_term *)
Definition update_term (term : Z) : handler := fun n =>
  if term <=? current_term_ n then (n, [])
  else become_follower (n <| current_term_ := term |> <| has_voted_for_ := false |> <| voted_for_ := 0 |>).

(* @src src/raft/state_machine.cpp 635 651 state_machine::become_leader *)
Definition reset_progress (last_index : Z) (n : node) : gmap Z progress :=
  foldl (fun m id =>
           let p := default (new_progress (append_log_entries_batch_max_ n)) (m !! id) in
           <[id := mk_progress id last_index (last_index + 1) (append_log_entries_batch_max_ n) 0
                     (last_reject_ p)]> m) (progress_ n) (nodes_ids_ n).

(* @src src/raft/state_machine.cpp 622 662 state_machine::become_leader *)
Definition become_leader : handler := fun n =>
  match state_ n with
  | RAFT_STATE_CANDIDATE =>
      if 2 * Z.of_nat (size (votes_granted_ n)) <? Z.of_nat (length (nodes_ids_ n)) then (n, [])
      else
        (modify (fun n => n <| state_ := RAFT_STATE_LEADER |> <| leader_id_ := node_id_ n |>) ;;
         modify (fun n => n <| progress_ := reset_progress (last_log_index n) n |>) ;;
         emit (BecameLeader (current_term_ n)) ;;
         heart_beat) n
  | _ => (n, [])
  end.

(* @src src/raft/state_machine.cpp 294 320 state_machine::timeout_request_vote *)
Definition timeout_request_vote : handler := fun n =>
  if negb (priority_replica_node_ n =? node_id_ n) && negb (priority_replica_node_ n =? 0) then (n, [])
  else match state_ n with
  | RAFT_STATE_LEADER => (n, [])
  | _ =>
      (modify (fun n => n <| tick_count_ := 0 |> <| state_ := RAFT_STATE_CANDIDATE |>
                          <| current_term_ := current_term_ n + 1 |> <| has_voted_for_ := false |>
                          <| voted_for_ := 0 |> <| leader_id_ := 0 |>
                          <| votes_responded_ := ∅ |> <| votes_granted_ := ∅ |>) ;;
       modify (fun n => n <| log_state_ := mk_log_state (current_term_ n) (voted_for_ n) (commit_index_ n)
                                             (consistent_log_index_ n) |>) ;;
       (fun n => emit (WriteState (log_state_ n) (Some CbRequestVote)) n)) n
  end.

(* @src src/raft/state_machine.cpp 339 362 state_machine::request_vote *)
Definition request_vote : handler := fun n =>
  match state_ n with
  | RAFT_STATE_CANDIDATE =>
      each (fun id => when (bool_decide (id ∉ votes_responded_ n))
              (async_send id (RequestVote (node_id_ n) id (current_term_ n) (last_log_index n)
                                (last_log_term n)))) (nodes_ids_ n) n
  | _ => (n, [])
  end.

(* @src src/raft/state_machine.cpp 322 337 state_machine::pre_vote *)
Definition pre_vote : handler := fun n =>
  each (fun id => async_send id (PreVote (node_id_ n) id)) (nodes_ids_ n) n.

(* @src src/raft/state_machine.cpp 521 533 state_machine::handle_pre_vote_request *)
Definition handle_pre_vote_request (source : Z) : handler := fun n =>
  async_send source (PreVoteResp (node_id_ n) source (current_term_ n) (state_ n)
                       (negb (priority_replica_node_ n =? node_id_ n))) n.

(* @src src/raft/state_machine.cpp 535 539 state_machine::handle_pre_vote_response *)
Definition handle_pre_vote_response (source term : Z) (st : raft_state) (granted : bool) : handler :=
  modify (fun n => match pre_vote_responded_ n !! source with
                   | Some _ => n
                   | None => n <| pre_vote_responded_ := <[source := (term, st, granted)]> (pre_vote_responded_ n) |>
                   end).

(* @src src/raft/state_machine.cpp 733 770 state_machine::handle_request_vote_request *)
Definition handle_request_vote_request (source term r_last_log_index r_last_log_term : Z) : handler :=
  update_term term ;;
  (fun n =>
     let last_term := last_log_term n in
     let last_index := last_log_index n in
     let log_ok := (last_term <? r_last_log_term) ||
                   ((r_last_log_term =? last_term) && (last_index <=? r_last_log_index)) in
     let granted := (term =? current_term_ n) && log_ok &&
                    ((has_voted_for_ n && (voted_for_ n =? source)) || negb (has_voted_for_ n)) in
     (when granted (modify (fun n => n <| has_voted_for_ := true |> <| voted_for_ := source |>)) ;;
      async_send source (RequestVoteResp (node_id_ n) source (current_term_ n) granted)) n).

(* @src src/raft/state_machine.cpp 772 795 state_machine::handle_request_vote_response *)
Definition handle_request_vote_response (source term : Z) (vote_granted : bool) : handler :=
  update_term term ;;
  (fun n =>
     if negb (term =? current_term_ n) then (n, [])
     else
       (modify (fun n => n <| votes_responded_ := {[source]} ∪ votes_responded_ n |>) ;;
        when vote_granted (modify (fun n => n <| votes_granted_ := {[source]} ∪ votes_granted_ n |>)) ;;
        (fun n => when (bool_decide (state_ n = RAFT_STATE_CANDIDATE) &&
                        (Z.of_nat (length (nodes_ids_ n)) <? 2 * Z.of_nat (size (votes_granted_ n))))
                    become_leader n)) n).
(** ** Appending on a follower *)

(* @src src/raft/state_machine.cpp 797 825 state_machine::response_append_entries_response *)
Definition response_append_entries_response (to_node_id : Z) (success : bool) (match_index : Z)
    (heart_beat write_log : bool) : handler := fun n =>
  async_send to_node_id (AppendEntriesResp (node_id_ n) to_node_id (current_term_ n) success match_index
                           heart_beat (leader_id_ n) (last_log_index n) write_log) n.

(** The closures of [handle_append_entries_request]. *)
(* @src src/raft/state_machine.cpp 962 968 state_machine::handle_append_entries_request *)
Definition on_follower_appended (to_node match_index : Z) (heart_beat write_log : bool)
    (commit_index consistency_index : Z) : handler :=
  response_append_entries_response to_node true match_index heart_beat write_log ;;
  update_commit_index commit_index ;;
  update_consistency_index consistency_index.

(** The loop that compares the stored entries with the received ones: [Some k]
    when the first [k] agree and one side is exhausted, [None] at a conflict. *)
(* @src src/raft/state_machine.cpp 910 925 state_machine::handle_append_entries_request *)
Fixpoint compare_entries (stored received : list raft_log_entry) : option nat :=
  match stored, received with
  | a :: stored, b :: received => if e_term b =? e_term a then S <$> compare_entries stored received else None
  | _, _ => Some 0%nat
  end.

(** Entries are present and the previous entry agrees; [next_offset] is where
    the entry after it is stored, [skip_n] the number of received entries that
    are already consistent. *)
(* @src src/raft/state_machine.cpp 905 1014 state_machine::handle_append_entries_request *)
Definition store_entries (source prev_log_index commit consistency : Z) (hb : bool)
    (entries : list raft_log_entry) (next_offset skip_n : Z) : handler := fun n =>
  let entries_size := Z.of_nat (length entries) in
  if next_offset <? log_size n then
    match compare_entries (drop (Z.to_nat next_offset) (log_ n)) (drop (Z.to_nat skip_n) entries) with
    | None => (n <| log_ := take (Z.to_nat next_offset) (log_ n) |>, [])
    | Some k =>
        let req_i := skip_n + Z.of_nat k in
        if req_i <? entries_size then
          let more := drop (Z.to_nat req_i) entries in
          (* the entries written are those from where the comparison stopped *)
          let write_begin := (Z.to_nat next_offset + k)%nat in
          (each push_log more ;;
           (fun n => emit (WriteLog (drop write_begin (log_ n))
              (CbFollowerAppended source (prev_log_index + entries_size) hb true commit consistency)) n)) n
        else
          (response_append_entries_response source true (prev_log_index + req_i) true false ;;
           update_commit_index commit ;; update_consistency_index consistency) n
    end
  else if log_size n =? next_offset then
    let more := drop (Z.to_nat skip_n) entries in
    (each push_log more ;;
     emit (WriteLog more (CbFollowerAppended source
             (prev_log_index + skip_n + Z.of_nat (length more)) hb
             (match more with [] => false | _ => true end) commit consistency))) n
  else (n, []).

(* @src src/raft/state_machine.cpp 827 905 state_machine::handle_append_entries_request *)
Definition handle_append_entries_request (source term prev_log_index prev_log_term commit consistency : Z)
    (hb : bool) (entries : list raft_log_entry) : handler := fun n =>
  if term <? current_term_ n then
    response_append_entries_response source false 0 hb false n
  else if current_term_ n <? term then
    become_follower (n <| tick_count_ := 0 |> <| current_term_ := term |>)
  else
    let n := n <| leader_id_ := source |> <| tick_count_ := 0 |> in
    match state_ n with
    | RAFT_STATE_LEADER => (n, [])
    | RAFT_STATE_CANDIDATE => become_follower n
    | RAFT_STATE_FOLLOWER =>
        let consistent := consistent_log_index_ n in
        let '(log_ok, next_index, next_offset, skip_n) :=
          if prev_log_index <=? consistent
          then (true, consistent + 1, log_index_to_offset n (consistent + 1), consistent - prev_log_index)
          else
            let prev_log_offset := log_index_to_offset n prev_log_index in
            ((prev_log_index =? 0) ||
             ((0 <? prev_log_index) && (prev_log_index <=? last_log_index n) &&
              ((log_size n =? 0) ||
               match log_at n prev_log_offset with
               | Some e => prev_log_term =? e_term e
               | None => false
               end)),
             prev_log_index + 1, prev_log_offset + 1, 0) in
        if negb log_ok then response_append_entries_response source false 0 hb false n
        else match entries with
             | [] => (response_append_entries_response source true (next_index - 1) true false ;;
                      update_commit_index commit ;; update_consistency_index consistency) n
             | _ => store_entries source prev_log_index commit consistency hb entries next_offset skip_n n
             end
    end.

(** A peer without progress record would be constructed, which panics. *)
(* @src src/raft/state_machine.cpp 1018 1061 state_machine::handle_append_entries_response *)
Definition handle_append_entries_response (source term : Z) (success : bool) (match_index : Z)
    (hb : bool) : handler :=
  update_term term ;;
  (fun n =>
     match progress_ n !! source with
     | None => (n, [AssertFailed])
     | Some p =>
         if negb (term =? current_term_ n) then (n, [])
         else
           let p := p <| last_reject_ := negb success |> in
           if success then
             let p := if match_index_ p <? match_index then p <| match_index_ := match_index |> else p in
             let p := if next_index_ p <? match_index + 1 then p <| next_index_ := match_index + 1 |> else p in
             (modify (fun n => n <| progress_ := <[source := p]> (progress_ n) |>) ;;
              when (negb hb) leader_advance_commit_index) n
           else
             let p := if (1 <? next_index_ p) && (consistent_log_index_ n <? next_index_ p - 1)
                      then p <| next_index_ := next_index_ p - 1 |> else p in
             (n <| progress_ := <[source := p]> (progress_ n) |>, [])
     end).

(** ** Leadership transfer, time, start *)

(* @src src/raft/state_machine.cpp 1283 1313 state_machine::handle_transfer_leader *)
Definition handle_transfer_leader (id : Z) : handler := fun n =>
  match state_ n with
  | RAFT_STATE_FOLLOWER =>
      when (negb (leader_id_ n =? 0)) (async_send (leader_id_ n) (TransferLeader (leader_id_ n) id)) n
  | _ =>
      if id =? node_id_ n then (n, [])
      else match progress_ n !! id with
           | None => (n, [])
           | Some t => if match_index_ t =? last_log_index n
                       then async_send id (TransferNotify id id) n
                       else append_entries id n
           end
  end.

(* @src src/raft/state_machine.cpp 1320 1325 state_machine::node_transfer_leader *)
Definition node_transfer_leader (id : Z) : handler := handle_transfer_leader id.

(* @src src/raft/state_machine.cpp 1315 1318 state_machine::handle_transfer_notify *)
Definition handle_transfer_notify : handler := timeout_request_vote.

(* @src src/raft/state_machine.cpp 83 119 state_machine::tick *)
Definition tick : handler := fun n =>
  if stopped_ n then (n, [])
  else
    (when (negb (bool_decide (state_ n = RAFT_STATE_LEADER)) && negb (priority_replica_node_ n =? 0) &&
           (priority_replica_node_ n =? node_id_ n))
       (node_transfer_leader (priority_replica_node_ n)) ;;
     emit ArmTimer) n.

(* @src src/raft/state_machine.cpp 257 282 state_machine::on_tick_timeout *)
Definition on_tick_timeout : handler :=
  modify (fun n => n <| tick_count_ := u32 (tick_count_ n + 1) |>) ;;
  (fun n =>
     match state_ n with
     | RAFT_STATE_LEADER =>
         ((fun n => let '(_, n, ev) := send_append_log true n in (n, ev)) ;;
          when (10 <? tick_count_ n)
            (leader_advance_consistency_index ;; modify (fun n => n <| tick_count_ := 0 |>))) n
     | _ => when (follower_tick_max_ n <=? tick_count_ n)
              (modify (fun n => n <| tick_count_ := 0 |>) ;; timeout_request_vote) n
     end) ;;
  tick.

(* @src src/raft/state_machine.cpp 59 65 state_machine::on_stop *)
Definition on_stop : handler := modify (fun n => n <| stopped_ := true |>).

(* @src src/raft/state_machine.cpp 1173 1187 state_machine::status *)
Definition status (n : node) : raft_state * Z * Z :=
  (state_ n, current_term_ n,
   match state_ n with RAFT_STATE_CANDIDATE => 0 | _ => voted_for_ n end).

(* @src src/raft/state_machine.cpp 1332 1361 state_machine::write_log *)
Definition run_callback (cb : callback) : handler :=
  match cb with
  | CbRequestVote => request_vote
  | CbLeaderAppended index => on_leader_appended index
  | CbFollowerAppended to_node m hb w c k => on_follower_appended to_node m hb w c k
  end.

(* @src src/raft/state_machine.cpp 1114 1171 state_machine::on_recv_message *)
Definition on_recv_message (m : raft_msg) : handler :=
  match m with
  | AppendEntries source _ term prev prev_term commit consistency hb entries =>
      handle_append_entries_request source term prev prev_term commit consistency hb entries
  | AppendEntriesResp source _ term success m hb _ _ _ => handle_append_entries_response source term success m hb
  | RequestVote source _ term i t => handle_request_vote_request source term i t
  | RequestVoteResp source _ term g => handle_request_vote_response source term g
  | TransferLeader _ id => handle_transfer_leader id
  | TransferNotify _ _ => handle_transfer_notify
  | PreVote source _ => handle_pre_vote_request source
  | PreVoteResp source _ term st g => handle_pre_vote_response source term st g
  end.

(** The values the configuration gives a replica. *)
Record raft_config := mk_config {
  cfg_priority_replica : Z;
  cfg_follower_tick_max : Z;
  cfg_batch_max : Z;
  cfg_batch_min : Z;
}.

(** A replica as [pre_start] leaves it: [stored] is the state record in the log
    service, if any, and [entries] its log entries in index order. *)
(* @src src/raft/state_machine.cpp 121 256 state_machine::pre_start *)
Definition pre_start (cfg : raft_config) (node_id : Z) (nodes : list Z)
    (stored : option raft_log_state) (entries : list raft_log_entry) : node :=
  let st := default (mk_log_state 0 0 0 0) stored in
  let log := filter (fun e => ls_consistency_index st < e_index e) entries in
  let next_index := u32 (ls_consistency_index st + Z.of_nat (length log) + 1) in
  let progress0 := list_to_map (map (fun id => (id, new_progress (cfg_batch_max cfg))) nodes) : gmap Z progress in
  mk_node node_id 0
    (match progress0 !! node_id with
     | Some p => <[node_id := p <| match_index_ := next_index - 1 |> <| next_index_ := next_index |>
                               <| send_next_index_ := 0 |>]> progress0
     | None => progress0
     end)
    (ls_commit_index st) (ls_term st) RAFT_STATE_FOLLOWER ∅ ∅ ∅
    (negb (ls_vote st =? 0)) (ls_vote st) 0 nodes (cfg_priority_replica cfg) log st
    (ls_consistency_index st) (cfg_follower_tick_max cfg) (cfg_batch_max cfg) (cfg_batch_min cfg)
    false [].
End Raft.
