(* ===== verification/RaftElection.v ===== *)
(** * Leader election

    The replicas of [Raft] and the network between them.  Messages are never
    removed, so they may be lost, repeated and reordered; a callback runs at
    any time after the write it waits for was posted; replicas may be stopped.
    Without restarts there is at most one leader per term, ever
    ([election_safety]).  With a restart there may be two
    ([restart_two_leaders]): a granted vote is not written to the log. *)

From S2P Require Import Prelude Common.
From S2P Require Import Raft.
#[local] Open Scope Z_scope.

Module RaftElection.
Import Raft.Raft.

(** ** The cluster *)

(** What a replica has written: its state record and its log. *)
Record disk := mk_disk { d_state : option raft_log_state; d_log : list raft_log_entry }.
#[export] Instance eta_disk : Eta disk := fun d => mk_disk (d_state d) (d_log d).

(** [elected] records which replica became leader of which term, [handed] the
    entries each replica gave to the block above as committed, and [failed]
    whether an assertion of the source was ever false. *)
Record cluster := mk_cluster {
  nodes : gmap Z node;
  net : list raft_msg;
  cbs : list (Z * callback);
  disks : gmap Z disk;
  elected : list (Z * Z);
  handed : gmap Z (list raft_log_entry);
  failed : bool;
}.
#[export] Instance eta_cluster : Eta cluster := fun s =>
  mk_cluster (nodes s) (net s) (cbs s) (disks s) (elected s) (handed s) (failed s).

Definition sent (e : raft_event) : option raft_msg := match e with Send m => Some m | _ => None end.
Definition posted (i : Z) (e : raft_event) : option (Z * callback) :=
  match e with
  | WriteLog _ cb => Some (i, cb)
  | WriteState _ (Some cb) => Some (i, cb)
  | _ => None
  end.
Definition won (i : Z) (e : raft_event) : option (Z * Z) :=
  match e with BecameLeader term => Some (term, i) | _ => None end.

Definition committed_of (e : raft_event) : list raft_log_entry :=
  match e with Committed EC_OK _ entries => entries | _ => [] end.
Definition handed_of (ev : list raft_event) : list raft_log_entry := ev ≫= committed_of.
Definition asserts (e : raft_event) : bool := match e with AssertFailed => true | _ => false end.

(** An entry replaces the stored one of its index. *)
Definition write_disk (d : disk) (e : raft_event) : disk :=
  match e with
  | WriteState st _ => d <| d_state := Some st |>
  | WriteLog entries _ =>
      d <| d_log := filter (fun x => Forall (fun y => e_index x < e_index y) entries) (d_log d) ++ entries |>
  | _ => d
  end.

Definition run_node (i : Z) (h : handler) (s : cluster) : cluster :=
  match nodes s !! i with
  | None => s
  | Some n =>
      let '(n', ev) := h n in
      mk_cluster (<[i := n']> (nodes s)) (net s ++ omap sent ev) (cbs s ++ omap (posted i) ev)
        (alter (fun d => foldl write_disk d ev) i (disks s)) (elected s ++ omap (won i) ev)
        (<[i := default [] (handed s !! i) ++ handed_of ev]> (handed s))
        (failed s || existsb asserts ev)
  end.

Definition dest_of (m : raft_msg) : Z :=
  match m with
  | RequestVote _ d _ _ _ | RequestVoteResp _ d _ _ | AppendEntries _ d _ _ _ _ _ _ _
  | AppendEntriesResp _ d _ _ _ _ _ _ _ | TransferLeader d _ | TransferNotify d _
  | PreVote _ d | PreVoteResp _ d _ _ _ => d
  end.

Inductive label :=
| Deliver (i : Z) (m : raft_msg)
| Timeout (i : Z)
| Callback (i : Z) (cb : callback)
| ClientAppend (i : Z) (logs : string)
| Transfer (i id : Z)
| StopNode (i : Z)
| Restart (i : Z).

Definition ignore_result (f : node → bool * node * list raft_event) : handler :=
  fun n => let '(_, n, ev) := f n in (n, ev).

Section with_config.
Context (cfg : raft_config) (ids : list Z).

Definition restart (i : Z) (s : cluster) : cluster :=
  match disks s !! i with
  | None => s
  | Some d => s <| nodes := <[i := pre_start cfg i ids (d_state d) (d_log d)]> (nodes s) |>
  end.

Definition exec (l : label) (s : cluster) : option cluster :=
  match l with
  | Deliver i m => if decide (m ∈ net s ∧ dest_of m = i) then Some (run_node i (on_recv_message m) s) else None
  | Timeout i => Some (run_node i on_tick_timeout s)
  | Callback i cb => if decide ((i, cb) ∈ cbs s) then Some (run_node i (run_callback cb) s) else None
  | ClientAppend i logs => Some (run_node i (ignore_result (ccb_append_log logs)) s)
  | Transfer i id => Some (run_node i (node_transfer_leader id) s)
  | StopNode i => Some (run_node i on_stop s)
  | Restart i => Some (restart i s)
  end.

(** Fresh replicas with empty logs. *)
Definition boot : cluster :=
  mk_cluster (list_to_map (map (fun i => (i, pre_start cfg i ids None [])) ids)) [] []
    (list_to_map (map (fun i => (i, mk_disk None [])) ids)) [] ∅ false.

Definition calm (l : label) : Prop := match l with Restart _ => False | _ => True end.

Definition step (s s' : cluster) : Prop := ∃ l, calm l ∧ exec l s = Some s'.
Definition reachable (s : cluster) : Prop := rtc step boot s.
End with_config.

(** ** Handlers that do not take part in elections *)

(** What an election depends on. *)
Definition same_view (a b : node) : Prop :=
  node_id_ b = node_id_ a ∧ nodes_ids_ b = nodes_ids_ a ∧ current_term_ b = current_term_ a ∧
  state_ b = state_ a ∧ votes_granted_ b = votes_granted_ a ∧ has_voted_for_ b = has_voted_for_ a ∧
  voted_for_ b = voted_for_ a.

#[export] Instance same_view_refl : Reflexive same_view.
Proof. by intros n. Qed.
#[export] Instance same_view_trans : Transitive same_view.
Proof. intros a b c (?&?&?&?&?&?&?) (?&?&?&?&?&?&?). split_and!; congruence. Qed.

Definition no_vote (e : raft_event) : Prop :=
  match e with
  | Send (RequestVoteResp _ _ _ true) | BecameLeader _ => False
  | _ => True
  end.

Abbreviation neutral := (respects same_view no_vote).

(** Reduce to the handler's branches; close those that change nothing, and
    continue with the composed ones. *)
Ltac neutral_step :=
  match goal with
  | |- same_view ?n (?h ?m).1 ∧ Forall _ (?h ?m).2 =>
      refine (respects_at same_view no_vote h n m _ _); [done|auto with respects]
  | |- _ => split; [done|by repeat constructor]
  end.
Ltac neutral_cases := intros ?; cbv beta zeta; repeat case_match; neutral_step.

Lemma neutral_send d m : no_vote (Send m) → neutral (async_send d m).
Proof. intros Hm. unfold async_send, when. neutral_cases. Qed.
#[export] Hint Extern 2 (neutral (async_send _ _)) => apply neutral_send; done : respects.

Lemma neutral_check : neutral check_log_index.
Proof. unfold check_log_index. neutral_cases. Qed.
#[export] Hint Resolve neutral_check : respects.

Lemma neutral_push e : neutral (push_log e).
Proof. unfold push_log. auto with respects. Qed.

Lemma neutral_consistency i : neutral (update_consistency_index i).
Proof. unfold update_consistency_index. neutral_cases. Qed.

Lemma neutral_commit i : neutral (update_commit_index i).
Proof. unfold update_commit_index. neutral_cases. Qed.
#[export] Hint Resolve neutral_push neutral_consistency neutral_commit : respects.

Lemma neutral_append_entries k : neutral (append_entries k).
Proof.
  intros n. unfold append_entries. destruct (progress_ n !! k); [|neutral_step].
  cbv zeta. neutral_step.
Qed.
#[export] Hint Resolve neutral_append_entries : respects.

Lemma neutral_send_all : neutral leader_send_append_entries.
Proof. unfold leader_send_append_entries. neutral_cases. Qed.
#[export] Hint Resolve neutral_send_all : respects.

Lemma leader_append_eq e n :
  ignore_result (leader_append_entry e) n =
  if bool_decide (state_ n = RAFT_STATE_LEADER) then
    match e with
    | Some e =>
        let index := offset_to_log_index n (Z.of_nat (length (log_ n))) in
        let e := mk_entry index (current_term_ n) (e_logs e) in
        and_then (push_log e) (emit (WriteLog [e] (CbLeaderAppended index))) n
    | None => leader_send_append_entries n
    end
  else (n, []).
Proof.
  unfold ignore_result, leader_append_entry. destruct (bool_decide _); [|done]. cbv zeta.
  destruct e; match goal with |- context [let (_, _) := ?x in _] => by destruct x end.
Qed.

Lemma neutral_leader_append e : neutral (ignore_result (leader_append_entry e)).
Proof.
  intros n. rewrite leader_append_eq. destruct (bool_decide _); [|neutral_step].
  cbv zeta. destruct e; neutral_step.
Qed.

Lemma heart_beat_eq n : heart_beat n = ignore_result (leader_append_entry None) n.
Proof. done. Qed.

Lemma neutral_heart_beat : neutral heart_beat.
Proof. intros n. rewrite heart_beat_eq. apply neutral_leader_append. Qed.
#[export] Hint Resolve neutral_leader_append neutral_heart_beat : respects.

Lemma neutral_send_log b : neutral (ignore_result (send_append_log b)).
Proof.
  intros n. unfold ignore_result, send_append_log. destruct (tx_logs_ n) as [|x l].
  - destruct b; [|neutral_step]. pose proof (neutral_heart_beat n) as H. by destruct (heart_beat n).
  - set (n1 := n <| tx_logs_ := _ |>). set (e := mk_entry _ _ _).
    pose proof (neutral_leader_append (Some e) n1) as [H1 H2]. unfold ignore_result in H1, H2.
    destruct (leader_append_entry (Some e) n1) as [[ok n2] ev]. simpl in H1, H2.
    destruct ok; (split; [by etrans; [|exact H1]|]); [done|]. apply Forall_app. split; [done|by repeat constructor].
Qed.
#[export] Hint Resolve neutral_send_log : respects.

Lemma neutral_ccb_append logs : neutral (ignore_result (ccb_append_log logs)).
Proof.
  intros n. unfold ignore_result, ccb_append_log. cbv zeta.
  set (n1 := n <| tx_logs_ := _ |>). destruct (_ <=? _); [|neutral_step].
  destruct (neutral_send_log false n1) as [H1 H2]. unfold ignore_result in H1, H2.
  destruct (send_append_log false n1) as [[ok n2] ev]. split; [by etrans; [|exact H1]|done].
Qed.

Lemma neutral_advance_commit : neutral leader_advance_commit_index.
Proof. unfold leader_advance_commit_index. neutral_cases. Qed.

Lemma neutral_advance_consistency : neutral leader_advance_consistency_index.
Proof. unfold leader_advance_consistency_index. neutral_cases. Qed.
#[export] Hint Resolve neutral_advance_commit neutral_advance_consistency : respects.

Lemma neutral_leader_appended i : neutral (on_leader_appended i).
Proof. unfold on_leader_appended. auto with respects. Qed.

Lemma neutral_response d ok m hb w : neutral (response_append_entries_response d ok m hb w).
Proof. unfold response_append_entries_response. neutral_cases. Qed.
#[export] Hint Resolve neutral_leader_appended neutral_response : respects.

Lemma neutral_follower_appended d m hb w c k : neutral (on_follower_appended d m hb w c k).
Proof. unfold on_follower_appended. auto with respects. Qed.

Lemma neutral_store src p c k hb es off sk : neutral (store_entries src p c k hb es off sk).
Proof. unfold store_entries. neutral_cases. Qed.
#[export] Hint Resolve neutral_follower_appended neutral_store : respects.

Lemma neutral_transfer id : neutral (handle_transfer_leader id).
Proof. unfold handle_transfer_leader. neutral_cases. Qed.

Lemma neutral_request_vote : neutral request_vote.
Proof. unfold request_vote. neutral_cases. Qed.
#[export] Hint Resolve neutral_transfer neutral_request_vote : respects.

Lemma neutral_tick : neutral tick.
Proof. unfold tick, node_transfer_leader. neutral_cases. Qed.

Lemma neutral_pre_vote_request src : neutral (handle_pre_vote_request src).
Proof. unfold handle_pre_vote_request. neutral_cases. Qed.

Lemma neutral_pre_vote_response src t st g : neutral (handle_pre_vote_response src t st g).
Proof. unfold handle_pre_vote_response. auto with respects. Qed.
#[export] Hint Resolve neutral_tick neutral_pre_vote_request neutral_pre_vote_response : respects.

Lemma neutral_callback cb : neutral (run_callback cb).
Proof. destruct cb; simpl; auto with respects. Qed.

(** ** The invariant *)

Abbreviation granted v c T := (RequestVoteResp v c T true).

(** Replica [i] has the votes of a majority for term [T]. *)
Definition has_majority (ids : list Z) (ms : list raft_msg) (T i : Z) : Prop :=
  ∃ Q : gset Z, Z.of_nat (length ids) < 2 * Z.of_nat (size Q) ∧ ∀ v, v ∈ Q → granted v i T ∈ ms.

Record einv (ids : list Z) (s : cluster) : Prop := mk_einv {
  e_node : ∀ i n, nodes s !! i = Some n → i ∈ ids ∧ node_id_ n = i ∧ nodes_ids_ n = ids;
  e_grant : ∀ v c T, granted v c T ∈ net s → ∃ n, nodes s !! v = Some n ∧
    (T < current_term_ n ∨ (T = current_term_ n ∧ has_voted_for_ n = true ∧ voted_for_ n = c));
  e_once : ∀ v c c' T, granted v c T ∈ net s → granted v c' T ∈ net s → c = c';
  e_candidate : ∀ i n, nodes s !! i = Some n → state_ n = RAFT_STATE_CANDIDATE →
    ∀ v, v ∈ votes_granted_ n → granted v i (current_term_ n) ∈ net s;
  e_leader : ∀ i n, nodes s !! i = Some n → state_ n = RAFT_STATE_LEADER → (current_term_ n, i) ∈ elected s;
  e_elected : ∀ T i, (T, i) ∈ elected s → has_majority ids (net s) T i;
}.

Lemma majority_more ids ms ms' T i : has_majority ids ms T i → has_majority ids (ms ++ ms') T i.
Proof. intros (Q&Hs&Hq). exists Q. split; [done|]. intros v Hv. apply elem_of_app. left. auto. Qed.

(** One replica moves; what it may send and become. *)
Lemma update_einv ids s i n n' ms cb dk el hd fl :
  einv ids s → nodes s !! i = Some n →
  node_id_ n' = node_id_ n → nodes_ids_ n' = nodes_ids_ n → current_term_ n ≤ current_term_ n' →
  (current_term_ n' = current_term_ n → has_voted_for_ n = true →
     has_voted_for_ n' = true ∧ voted_for_ n' = voted_for_ n) →
  (∀ v c T, granted v c T ∈ ms → v = i ∧ T = current_term_ n' ∧ has_voted_for_ n' = true ∧ voted_for_ n' = c) →
  (state_ n' = RAFT_STATE_CANDIDATE → ∀ v, v ∈ votes_granted_ n' → granted v i (current_term_ n') ∈ net s) →
  (state_ n' = RAFT_STATE_LEADER → (current_term_ n', i) ∈ elected s ++ el) →
  (∀ T j, (T, j) ∈ el → has_majority ids (net s) T j) →
  einv ids (mk_cluster (<[i := n']> (nodes s)) (net s ++ ms) cb dk (elected s ++ el) hd fl).
Proof.
  intros Hi Hn Hid Hids Hterm Hvoted Hms Hcand Hlead Hel.
  constructor; simpl.
  - intros j m. destruct (decide (j = i)) as [->|?].
    + rewrite lookup_insert_eq. intros [= <-]. destruct (e_node _ _ Hi _ _ Hn) as (?&?&?).
      split_and!; congruence.
    + rewrite lookup_insert_ne by done. apply Hi.
  - intros v c T [Hin|Hin]%elem_of_app.
    + destruct (e_grant _ _ Hi _ _ _ Hin) as (m&Hm&Hcase). destruct (decide (v = i)) as [->|?].
      * rewrite lookup_insert_eq. exists n'. split; [done|].
        assert (m = n) as -> by congruence. destruct Hcase as [?|(->&Hv&Hc)]; [left; lia|].
        destruct (decide (current_term_ n' = current_term_ n)) as [He|?]; [right|left; lia].
        destruct (Hvoted He Hv). split_and!; congruence.
      * rewrite lookup_insert_ne by done. eauto.
    + destruct (Hms _ _ _ Hin) as (->&->&?&?). rewrite lookup_insert_eq. exists n'. auto.
  - assert (∀ v c c' T, granted v c T ∈ net s → granted v c' T ∈ ms → c = c') as Hx.
    { intros v c c' T Hold Hnew. destruct (Hms _ _ _ Hnew) as (->&->&Hv&Hc).
      destruct (e_grant _ _ Hi _ _ _ Hold) as (m&Hm&Hcase).
      assert (m = n) as -> by congruence. destruct Hcase as [?|(He&Hv0&Hc0)]; [lia|]. destruct (Hvoted He Hv0). congruence. }
    intros v c c' T [H1|H1]%elem_of_app [H2|H2]%elem_of_app; [by eapply e_once|eauto|symmetry; eauto|].
    destruct (Hms _ _ _ H1) as (_&_&_&<-). by destruct (Hms _ _ _ H2) as (_&_&_&<-).
  - intros j m. destruct (decide (j = i)) as [->|?].
    + rewrite lookup_insert_eq. intros [= <-] Hc v Hv. apply elem_of_app. left. auto.
    + rewrite lookup_insert_ne by done. intros Hm Hc v Hv. apply elem_of_app. left. by eapply e_candidate.
  - intros j m. destruct (decide (j = i)) as [->|?].
    + rewrite lookup_insert_eq. intros [= <-] Hc. auto.
    + rewrite lookup_insert_ne by done. intros Hm Hc. apply elem_of_app. left. by eapply e_leader.
  - intros T j [Hin|Hin]%elem_of_app; apply majority_more; [by eapply e_elected|eauto].
Qed.

Lemma no_vote_msgs ev v c T : Forall no_vote ev → granted v c T ∉ omap sent ev.
Proof.
  intros Hev (e&He&Hs)%list_elem_of_omap. rewrite Forall_forall in Hev. pose proof (Hev e He).
  destruct e; simplify_eq/=. done.
Qed.

Lemma no_vote_won ev i x : Forall no_vote ev → x ∉ omap (won i) ev.
Proof.
  intros Hev (e&He&Hs)%list_elem_of_omap. rewrite Forall_forall in Hev. pose proof (Hev e He).
  destruct e; simplify_eq/=; done.
Qed.

(** A replica that votes for nobody and wins nothing. *)
Lemma run_node_einv ids s i h :
  einv ids s →
  (∀ n, nodes s !! i = Some n → let r := h n in
     Forall no_vote r.2 ∧ node_id_ r.1 = node_id_ n ∧ nodes_ids_ r.1 = nodes_ids_ n ∧
     current_term_ n ≤ current_term_ r.1 ∧
     (current_term_ r.1 = current_term_ n → has_voted_for_ n = true →
        has_voted_for_ r.1 = true ∧ voted_for_ r.1 = voted_for_ n) ∧
     (state_ r.1 = RAFT_STATE_CANDIDATE → ∀ v, v ∈ votes_granted_ r.1 → granted v i (current_term_ r.1) ∈ net s) ∧
     (state_ r.1 = RAFT_STATE_LEADER → state_ n = RAFT_STATE_LEADER ∧ current_term_ r.1 = current_term_ n)) →
  einv ids (run_node i h s).
Proof.
  intros Hi Hh. unfold run_node. destruct (nodes s !! i) as [n|] eqn:Hn; [|done].
  specialize (Hh n eq_refl). destruct (h n) as [n' ev]. simpl in Hh.
  destruct Hh as (Hev&?&?&?&?&?&Hl). eapply update_einv; try done.
  - intros v c T Hin. by apply no_vote_msgs in Hin.
  - intros Hs. apply elem_of_app. left. destruct (Hl Hs) as [? ->]. by eapply e_leader.
  - intros T j Hin. by apply no_vote_won in Hin.
Qed.

Lemma neutral_einv ids s i h : einv ids s → neutral h → einv ids (run_node i h s).
Proof.
  intros Hi Hh. apply run_node_einv; [done|]. intros n Hn. cbv zeta.
  destruct (Hh n) as [(Hid&Hids&Ht&Hs&Hg&Hv&Hf) Hev]. rewrite Hid, Hids, Ht, Hs, Hg, Hv, Hf.
  split_and!; try done; try lia. all: by apply (e_candidate _ _ Hi).
Qed.

(** ** Elections *)

Lemma run_node_then i a b s : run_node i (and_then a b) s = run_node i b (run_node i a s).
Proof.
  unfold run_node. destruct (nodes s !! i) as [n|] eqn:Hn; [|by rewrite Hn].
  rewrite and_then_eq. destruct (a n) as [n1 e1]. simpl. rewrite lookup_insert_eq.
  destruct (b n1) as [n2 e2]. simpl. unfold handed_of.
  rewrite !insert_insert_eq, lookup_insert_eq, !omap_app, bind_app, existsb_app, orb_assoc, !app_assoc. f_equal.
  apply map_eq. intros j. destruct (decide (j = i)) as [->|?]; [|by rewrite !lookup_alter_ne].
  rewrite !lookup_alter_eq. destruct (disks s !! i); [|done]. simpl. by rewrite foldl_app.
Qed.

Lemma run_node_ext i a b s : (∀ n, nodes s !! i = Some n → a n = b n) → run_node i a s = run_node i b s.
Proof. intros E. unfold run_node. destruct (nodes s !! i) as [n|]; [by rewrite (E n)|done]. Qed.

(** Messages stay. *)
Lemma run_node_net i h s m : m ∈ net s → m ∈ net (run_node i h s).
Proof.
  intros Hm. unfold run_node. destruct (nodes s !! i); [|done]. destruct (h _). simpl. set_solver.
Qed.

Lemma update_term_einv ids s i T : einv ids s → einv ids (run_node i (update_term T) s).
Proof.
  intros Hi. apply run_node_einv; [done|]. intros n Hn. cbv zeta. unfold update_term.
  destruct (Z.leb_spec T (current_term_ n)); simpl.
  - split_and!; try done; try lia. all: by apply (e_candidate _ _ Hi).
  - split_and!; try done; try lia; by repeat constructor.
Qed.

Lemma vote_request_einv ids s i src T li lt :
  einv ids s → einv ids (run_node i (handle_request_vote_request src T li lt) s).
Proof.
  intros Hi. unfold handle_request_vote_request. rewrite run_node_then.
  pose proof (update_term_einv _ s i T Hi) as Hi1. set (s1 := run_node i (update_term T) s) in *. clearbody s1.
  unfold run_node. destruct (nodes s1 !! i) as [n|] eqn:Hn; [|done]. cbv zeta.
  set (g := _ && _ && _). rewrite and_then_eq.
  destruct (e_node _ _ Hi1 _ _ Hn) as (_&Hid&_).
  destruct g eqn:Hg.
  - apply andb_true_iff in Hg as [Hg Hvote]. simpl.
    destruct (async_send src _ _) as [n' ev] eqn:Ea. unfold async_send, when in Ea. simpl in Ea.
    assert (n' = n <| has_voted_for_ := true |> <| voted_for_ := src |> ∧
            (∀ m, m ∈ omap sent ev → m = granted i src (current_term_ n)) ∧ omap (won i) ev = []) as (->&Hms&Hw).
    { destruct (bool_decide (src ∈ nodes_ids_ n)); injection Ea as <- <-; simpl; split_and!; try done.
      - rewrite Hid. by intros m ?%list_elem_of_singleton.
      - by intros m ?%elem_of_nil. }
    simpl. rewrite Hw. eapply update_einv; [done|done|..]; simpl; try done.
    + intros _ Hv. split; [done|]. rewrite Hv in Hvote. simpl in Hvote. rewrite orb_false_r in Hvote. lia.
    + intros v c T' Hin. apply Hms in Hin. by simplify_eq.
    + by apply (e_candidate _ _ Hi1).
    + intros Hs. rewrite app_nil_r. by apply (e_leader _ _ Hi1).
    + intros T' j Hin. by apply elem_of_nil in Hin.
  - pose proof (neutral_einv _ s1 i (async_send src (RequestVoteResp (node_id_ n) src (current_term_ n) false)) Hi1)
      as Hf. unfold run_node in Hf. rewrite Hn in Hf. simpl.
    destruct (async_send src _ n) as [n' ev]. apply Hf. auto with respects.
Qed.

Lemma become_leader_einv ids s i n :
  einv ids s → nodes s !! i = Some n → state_ n = RAFT_STATE_CANDIDATE →
  Z.of_nat (length ids) < 2 * Z.of_nat (size (votes_granted_ n)) →
  einv ids (run_node i become_leader s).
Proof.
  intros Hi Hn Hs Hsize. destruct (e_node _ _ Hi _ _ Hn) as (_&Hid&Hids).
  set (lead := fun n => n <| state_ := RAFT_STATE_LEADER |> <| leader_id_ := node_id_ n |>).
  set (reset := fun n => n <| progress_ := reset_progress (last_log_index n) n |>).
  rewrite (run_node_ext i become_leader (and_then (modify lead) (and_then (modify reset)
    (and_then (emit (BecameLeader (current_term_ n))) heart_beat)))); last first.
  { intros m Hm. assert (m = n) as -> by congruence. unfold become_leader. rewrite Hs, Hids.
    by destruct (Z.ltb_spec (2 * Z.of_nat (size (votes_granted_ n))) (Z.of_nat (length ids))); [lia|]. }
  rewrite (run_node_ext i _ (and_then (fun n => (reset (lead n), [BecameLeader (current_term_ n)])) heart_beat));
    last first.
  { intros m Hm. assert (m = n) as -> by congruence. by rewrite !modify_then, !and_then_eq. }
  rewrite run_node_then. apply neutral_einv; [|auto with respects].
  unfold run_node at 1. rewrite Hn. simpl.
  eapply update_einv; [done|done|..]; simpl; try done.
  - by intros v c T ?%elem_of_nil.
  - intros _. apply elem_of_app. right. by left.
  - intros T j [= -> ->]%list_elem_of_singleton. exists (votes_granted_ n). split; [done|].
    by apply (e_candidate _ _ Hi).
Qed.

Lemma vote_response_einv ids s i src T g :
  einv ids s → RequestVoteResp src i T g ∈ net s →
  einv ids (run_node i (handle_request_vote_response src T g) s).
Proof.
  intros Hi Hm. unfold handle_request_vote_response. rewrite run_node_then.
  pose proof (update_term_einv _ s i T Hi) as Hi1. apply (run_node_net i (update_term T)) in Hm.
  set (s1 := run_node i (update_term T) s) in *. clearbody s1.
  destruct (nodes s1 !! i) as [n|] eqn:Hn; [|unfold run_node; by rewrite Hn].
  destruct (Z.eqb_spec T (current_term_ n)) as [HT|HT]; last first.
  { rewrite (run_node_ext i _ skip).
    - apply neutral_einv; [done|auto with respects].
    - intros m Hm'. assert (m = n) as -> by congruence. by destruct (Z.eqb_spec T (current_term_ n)). }
  set (count := fun n => n <| votes_responded_ := {[src]} ∪ votes_responded_ n |>
                           <| votes_granted_ ::= fun v => if g then {[src]} ∪ v else v |>).
  rewrite (run_node_ext i _ (and_then (modify count) (fun n =>
    when (bool_decide (state_ n = RAFT_STATE_CANDIDATE) &&
          (Z.of_nat (length (nodes_ids_ n)) <? 2 * Z.of_nat (size (votes_granted_ n)))) become_leader n)));
    last first.
  { intros m Hm'. assert (m = n) as -> by congruence.
    destruct (Z.eqb_spec T (current_term_ n)); [|done]. simpl negb. cbv iota.
    unfold count. destruct g; rewrite !modify_then; unfold when at 1; [by rewrite modify_then|].
    rewrite and_then_eq. simpl app. symmetry. apply surjective_pairing. }
  rewrite run_node_then.
  assert (einv ids (run_node i (modify count) s1)) as Hi2.
  { apply run_node_einv; [done|]. intros m Hm'. assert (m = n) as -> by congruence. cbv zeta. simpl.
    split_and!; try done. intros Hs v. destruct g; [|by apply (e_candidate _ _ Hi1)].
    intros [->%elem_of_singleton|Hv]%elem_of_union; [by subst T|by eapply (e_candidate _ _ Hi1)]. }
  set (s2 := run_node i (modify count) s1) in *.
  assert (nodes s2 !! i = Some (count n)) as Hn2.
  { unfold s2, run_node. rewrite Hn. simpl. by rewrite lookup_insert_eq. }
  destruct (bool_decide (state_ (count n) = RAFT_STATE_CANDIDATE)) eqn:E1;
    [destruct (Z.ltb_spec (Z.of_nat (length (nodes_ids_ (count n)))) (2 * Z.of_nat (size (votes_granted_ (count n)))))
       as [E2|E2]|].
  - rewrite (run_node_ext i _ become_leader).
    + destruct (e_node _ _ Hi2 _ _ Hn2) as (_&_&Hids). rewrite Hids in E2.
      apply bool_decide_eq_true_1 in E1. by eapply become_leader_einv.
    + intros m Hm'. assert (m = count n) as -> by congruence. rewrite E1.
      by destruct (Z.ltb_spec (Z.of_nat (length (nodes_ids_ (count n)))) (2 * Z.of_nat (size (votes_granted_ (count n))))); [|lia].
  - rewrite (run_node_ext i _ skip); [apply neutral_einv; [done|auto with respects]|].
    intros m Hm'. assert (m = count n) as -> by congruence. rewrite E1.
    by destruct (Z.ltb_spec (Z.of_nat (length (nodes_ids_ (count n)))) (2 * Z.of_nat (size (votes_granted_ (count n))))); [lia|].
  - rewrite (run_node_ext i _ skip); [apply neutral_einv; [done|auto with respects]|].
    intros m Hm'. assert (m = count n) as -> by congruence. by rewrite E1.
Qed.

Lemma timeout_vote_einv ids s i : einv ids s → einv ids (run_node i timeout_request_vote s).
Proof.
  intros Hi. apply run_node_einv; [done|]. intros n Hn. cbv zeta. unfold timeout_request_vote.
  assert (let r : node * list raft_event := (n, []) in
    Forall no_vote r.2 ∧ node_id_ r.1 = node_id_ n ∧ nodes_ids_ r.1 = nodes_ids_ n ∧
     current_term_ n ≤ current_term_ r.1 ∧
     (current_term_ r.1 = current_term_ n → has_voted_for_ n = true →
        has_voted_for_ r.1 = true ∧ voted_for_ r.1 = voted_for_ n) ∧
     (state_ r.1 = RAFT_STATE_CANDIDATE → ∀ v, v ∈ votes_granted_ r.1 → granted v i (current_term_ r.1) ∈ net s) ∧
     (state_ r.1 = RAFT_STATE_LEADER → state_ n = RAFT_STATE_LEADER ∧ current_term_ r.1 = current_term_ n)) as Hsame.
  { cbv zeta. simpl. split_and!; try done; try lia. by apply (e_candidate _ _ Hi). }
  case_test; [done|]. destruct (state_ n); [done| |]; rewrite !modify_then; simpl;
    (split_and!; try done; try lia; by repeat constructor).
Qed.

Lemma append_request_einv ids s i src T p pt c k hb es :
  einv ids s → einv ids (run_node i (handle_append_entries_request src T p pt c k hb es) s).
Proof.
  intros Hi. apply run_node_einv; [done|]. intros n Hn. cbv zeta. unfold handle_append_entries_request.
  assert (∀ h m, same_view n m → neutral h →
    Forall no_vote (h m).2 ∧ node_id_ (h m).1 = node_id_ n ∧ nodes_ids_ (h m).1 = nodes_ids_ n ∧
     current_term_ n ≤ current_term_ (h m).1 ∧
     (current_term_ (h m).1 = current_term_ n → has_voted_for_ n = true →
        has_voted_for_ (h m).1 = true ∧ voted_for_ (h m).1 = voted_for_ n) ∧
     (state_ (h m).1 = RAFT_STATE_CANDIDATE → ∀ v, v ∈ votes_granted_ (h m).1 →
        granted v i (current_term_ (h m).1) ∈ net s) ∧
     (state_ (h m).1 = RAFT_STATE_LEADER → state_ n = RAFT_STATE_LEADER ∧
        current_term_ (h m).1 = current_term_ n)) as Hsame.
  { intros h m Hm Hh. destruct (respects_at _ _ h n m Hm Hh) as [(Hid&Hids&Ht&Hs&Hg&Hv&Hf) Hev].
    rewrite Hid, Hids, Ht, Hs, Hg, Hv, Hf. split_and!; try done; try lia. by apply (e_candidate _ _ Hi). }
  destruct (Z.ltb_spec T (current_term_ n)); [apply Hsame; [done|auto with respects]|].
  destruct (Z.ltb_spec (current_term_ n) T);
    [simpl; split_and!; try done; try lia; by repeat constructor|].
  set (m := n <| leader_id_ := src |> <| tick_count_ := 0 |>).
  destruct (state_ m) eqn:Es.
  - by apply (Hsame skip m).
  - destruct (if p <=? consistent_log_index_ m then _ else _) as [[[ok next] off] sk].
    destruct (negb ok); [apply Hsame; [done|auto with respects]|].
    destruct es; apply Hsame; try done; auto with respects.
  - simpl in *. split_and!; try done; try lia; try (by repeat constructor); naive_solver.
Qed.

Lemma append_response_einv ids s i src T ok m hb :
  einv ids s → einv ids (run_node i (handle_append_entries_response src T ok m hb) s).
Proof.
  intros Hi. unfold handle_append_entries_response. rewrite run_node_then.
  apply neutral_einv; [by apply update_term_einv|]. neutral_cases.
Qed.

Lemma tick_timeout_einv ids s i : einv ids s → einv ids (run_node i on_tick_timeout s).
Proof.
  intros Hi. unfold on_tick_timeout. rewrite !run_node_then.
  apply neutral_einv; [|auto with respects]. set (s1 := run_node i (modify _) s).
  assert (einv ids s1) as Hi1 by (apply neutral_einv; [done|auto with respects]). clearbody s1.
  destruct (nodes s1 !! i) as [n|] eqn:Hn; [|unfold run_node; by rewrite Hn].
  assert (einv ids (run_node i (when (follower_tick_max_ n <=? tick_count_ n)
    (and_then (modify (fun n => n <| tick_count_ := 0 |>)) timeout_request_vote)) s1)) as Hf.
  { unfold when. destruct (_ <=? _); [|apply neutral_einv; [done|auto with respects]].
    rewrite run_node_then. apply timeout_vote_einv, neutral_einv; [done|auto with respects]. }
  destruct (state_ n) eqn:Es.
  2-3: rewrite (run_node_ext i _ (when (follower_tick_max_ n <=? tick_count_ n)
         (and_then (modify (fun n => n <| tick_count_ := 0 |>)) timeout_request_vote))); [done|];
       intros m Hm; assert (m = n) as -> by congruence; by rewrite Es.
  rewrite (run_node_ext i _ (and_then (ignore_result (send_append_log true)) (when (10 <? tick_count_ n)
            (and_then leader_advance_consistency_index (modify (fun n => n <| tick_count_ := 0 |>)))))).
  - apply neutral_einv; [done|auto with respects].
  - intros m Hm. assert (m = n) as -> by congruence. by rewrite Es.
Qed.

(** ** Election safety *)

Lemma recv_einv ids s i m :
  einv ids s → m ∈ net s → dest_of m = i → einv ids (run_node i (on_recv_message m) s).
Proof.
  intros Hi Hm Hd. destruct m; simpl in *; subst.
  - by apply vote_request_einv.
  - by apply vote_response_einv.
  - by apply append_request_einv.
  - by apply append_response_einv.
  - apply neutral_einv; [done|auto with respects].
  - by apply timeout_vote_einv.
  - apply neutral_einv; [done|auto with respects].
  - apply neutral_einv; [done|auto with respects].
Qed.

Lemma step_einv cfg ids s s' : einv ids s → step cfg ids s s' → einv ids s'.
Proof.
  intros Hi (l&Hc&Hl). destruct l; simpl in Hl; try done.
  - case_decide as Hd; [|done]. injection Hl as <-. destruct Hd. by apply recv_einv.
  - injection Hl as <-. by apply tick_timeout_einv.
  - case_decide; [|done]. injection Hl as <-. apply neutral_einv; [done|apply neutral_callback].
  - injection Hl as <-. apply neutral_einv; [done|apply neutral_ccb_append].
  - injection Hl as <-. apply neutral_einv; [done|apply neutral_transfer].
  - injection Hl as <-. apply neutral_einv; [done|unfold on_stop; auto with respects].
Qed.

Lemma boot_einv cfg ids : NoDup ids → einv ids (boot cfg ids).
Proof.
  intros Hnd. assert (∀ i n, nodes (boot cfg ids) !! i = Some n → i ∈ ids ∧ n = pre_start cfg i ids None []) as Hb.
  { intros i n Hn. apply elem_of_list_to_map_2, list_elem_of_fmap in Hn as (j&[= -> ->]&Hj). done. }
  constructor; simpl; try (by intros; exfalso; eapply not_elem_of_nil).
  - intros i n [? ->]%Hb. unfold pre_start. by split_and!.
  - intros i n [? ->]%Hb. done.
  - intros i n [? ->]%Hb. done.
Qed.

Lemma reachable_einv cfg ids s : NoDup ids → reachable cfg ids s → einv ids s.
Proof.
  intros Hnd Hr. pose proof (boot_einv cfg ids Hnd) as Hi. unfold reachable in Hr.
  induction Hr; eauto using step_einv.
Qed.

(** Two majorities of the same replicas meet. *)
Lemma majorities_meet ids (P Q : gset Z) :
  NoDup ids → P ⊆ list_to_set ids → Q ⊆ list_to_set ids →
  Z.of_nat (length ids) < 2 * Z.of_nat (size P) → Z.of_nat (length ids) < 2 * Z.of_nat (size Q) →
  ∃ v, v ∈ P ∧ v ∈ Q.
Proof.
  intros Hnd HP HQ Hp Hq. destruct (decide (P ∩ Q = ∅)) as [He|Hne].
  - assert (size (P ∪ Q) ≤ length ids)%nat as Hle.
    { etrans; [apply subseteq_size; by apply union_least|]. by rewrite size_list_to_set. }
    rewrite size_union in Hle by set_solver. lia.
  - destruct (set_choose_L _ Hne) as [v Hv]. exists v. set_solver.
Qed.

(** C7: without restarts, at most one replica ever becomes leader of a term,
    whatever messages are lost, repeated, reordered or delayed. *)
Theorem election_safety cfg ids s T i j :
  NoDup ids → reachable cfg ids s → (T, i) ∈ elected s → (T, j) ∈ elected s → i = j.
Proof.
  intros Hnd Hr%reachable_einv Hi Hj; [|done].
  destruct (e_elected _ _ Hr _ _ Hi) as (P&Hp&HP). destruct (e_elected _ _ Hr _ _ Hj) as (Q&Hq&HQ).
  assert (∀ v c, granted v c T ∈ net s → v ∈ (list_to_set ids : gset Z)) as Hin.
  { intros v c Hv. destruct (e_grant _ _ Hr _ _ _ Hv) as (n&Hn&_).
    apply elem_of_list_to_set. by destruct (e_node _ _ Hr _ _ Hn). }
  destruct (majorities_meet ids P Q) as (v&Hv1&Hv2); [done|by intros v ?%HP%Hin|by intros v ?%HQ%Hin|done|done|].
  by eapply (e_once _ _ Hr v); [apply HP|apply HQ].
Qed.

End RaftElection.
