(* ===== verification/RaftLog.v ===== *)
(** * The log of a replica

    In every cluster run without restarts and without a failed assertion, a
    replica's log holds consecutive indices, and the entries it hands to the
    block above as committed are 1, 2, 3, ... up to its commit index: in order,
    without gaps and without repetition ([committed_in_order]). *)

From S2P Require Import Prelude Common.
From S2P Require Import Raft RaftElection.
#[local] Open Scope Z_scope.

Module RaftLog.
Import Raft.Raft RaftElection.RaftElection.

(** ** Consecutive entries *)

(** The entries have indices [from], [from + 1], ... *)
Definition consecutive (from : Z) (l : list raft_log_entry) : Prop :=
  ∀ k e, l !! k = Some e → e_index e = from + Z.of_nat k.

Lemma consecutive_app from l1 l2 :
  consecutive from l1 → consecutive (from + Z.of_nat (length l1)) l2 → consecutive from (l1 ++ l2).
Proof.
  intros H1 H2 k e [Hk|[Hlen Hk]]%lookup_app_Some; [by apply H1|]. rewrite (H2 _ _ Hk). lia.
Qed.

Lemma consecutive_drop from l k : consecutive from l → consecutive (from + Z.of_nat k) (drop k l).
Proof. intros H j e. rewrite lookup_drop. intros Hj. rewrite (H _ _ Hj). lia. Qed.

Lemma consecutive_take from l k : consecutive from l → consecutive from (take k l).
Proof. intros H j e [Hj _]%lookup_take_Some. by apply H. Qed.

Lemma consecutive_indices from l :
  consecutive from l → map e_index l = seqZ from (Z.of_nat (length l)).
Proof.
  revert from. induction l as [|x l IH]; intros from H; [done|].
  assert (Z.of_nat (length (x :: l)) = Z.of_nat (length l) + 1) as Hl by (simpl; lia).
  rewrite Hl, seqZ_cons by lia. simpl. f_equal; [rewrite (H 0%nat x eq_refl); lia|].
  replace (Z.pred (Z.of_nat (length l) + 1)) with (Z.of_nat (length l)) by lia. apply IH.
  intros k e Hk. rewrite (H (S k) e Hk). lia.
Qed.

Lemma compare_entries_length a b k : compare_entries a b = Some k → k = Nat.min (length a) (length b).
Proof.
  revert b k. induction a as [|x a IH]; intros [|y b] k; simpl; try (by intros [= <-]).
  destruct (_ =? _); [|done]. destruct (compare_entries a b) as [j|] eqn:E; [|done].
  intros [= <-]. by rewrite (IH _ _ E).
Qed.

(** ** Well-formed replicas, messages and callbacks *)

(** [d] lists the indices handed over so far. *)
Record good (n : node) (d : list Z) : Prop := mk_good {
  g_consistent : 0 ≤ consistent_log_index_ n ≤ commit_index_ n;
  g_log : consecutive (consistent_log_index_ n + 1) (log_ n);
  g_handed : d = seqZ 1 (commit_index_ n);
}.

Definition good_msg (m : raft_msg) : Prop :=
  match m with
  | AppendEntries _ _ _ prev _ commit consistency _ entries =>
      consecutive (prev + 1) entries ∧ 0 ≤ consistency ≤ commit
  | _ => True
  end.

Definition good_cb (cb : callback) : Prop :=
  match cb with CbFollowerAppended _ _ _ _ commit consistency => 0 ≤ consistency ≤ commit | _ => True end.

Definition good_event (e : raft_event) : Prop :=
  match e with
  | Send m => good_msg m
  | WriteLog _ cb => good_cb cb
  | WriteState _ (Some cb) => good_cb cb
  | _ => True
  end.

Definition indices (ev : list raft_event) : list Z := map e_index (handed_of ev).

Lemma indices_app e1 e2 : indices (e1 ++ e2) = indices e1 ++ indices e2.
Proof. unfold indices, handed_of. by rewrite bind_app, map_app. Qed.

(** [keeps h]: run on a good replica without failing an assertion, [h] leaves it
    good and sends only good messages. *)
Definition keeps_at (h : handler) (n : node) (d : list Z) : Prop :=
  existsb asserts (h n).2 = false →
  good (h n).1 (d ++ indices (h n).2) ∧ Forall good_event (h n).2.
Definition keeps (h : handler) : Prop := ∀ n d, good n d → keeps_at h n d.

Lemma keeps_then_at a b n d :
  keeps_at a n d → (good (a n).1 (d ++ indices (a n).2) → keeps_at b (a n).1 (d ++ indices (a n).2)) →
  keeps_at (and_then a b) n d.
Proof.
  intros Ha Hb. unfold keeps_at. rewrite and_then_eq. simpl.
  rewrite existsb_app, orb_false_iff, indices_app, app_assoc, Forall_app. intros [E1 E2].
  destruct (Ha E1) as [G1 F1]. by destruct (Hb G1 E2).
Qed.

Lemma keeps_then a b : keeps a → keeps b → keeps (and_then a b).
Proof. intros Ha Hb n d Hg. apply keeps_then_at; [by apply Ha|]. intros Hg1. by apply Hb. Qed.

Lemma keeps_skip : keeps skip.
Proof. intros n d Hg _. simpl. by rewrite app_nil_r. Qed.

Lemma keeps_emit e : good_event e → committed_of e = [] → keeps (emit e).
Proof.
  intros He Hc n d Hg _. unfold indices, handed_of. simpl. rewrite Hc. simpl. rewrite app_nil_r.
  split; [done|by repeat constructor].
Qed.

Lemma keeps_emit_read (f : node → raft_event) :
  (∀ n, good_event (f n) ∧ committed_of (f n) = []) → keeps (fun n => emit (f n) n).
Proof. intros Hf n d Hg. destruct (Hf n). by apply keeps_emit. Qed.

(** What a replica's log consists of. *)
Definition same_log (a b : node) : Prop :=
  log_ b = log_ a ∧ consistent_log_index_ b = consistent_log_index_ a ∧ commit_index_ b = commit_index_ a.

Lemma good_same a b d : same_log a b → good a d → good b d.
Proof. intros (El&Ec&Em) [? ? ?]. split; rewrite ?El, ?Ec, ?Em; done. Qed.

Lemma keeps_modify f : (∀ n, same_log n (f n)) → keeps (modify f).
Proof. intros Hf n d Hg _. simpl. rewrite app_nil_r. split; [by eapply good_same|done]. Qed.

Lemma keeps_when b a : keeps a → keeps (when b a).
Proof. intros Ha. destruct b; [done|apply keeps_skip]. Qed.

Lemma keeps_each {A} (f : A → handler) l : (∀ x, keeps (f x)) → keeps (each f l).
Proof. intros Hf. induction l; [apply keeps_skip|by apply keeps_then]. Qed.

(** A handler that starts from a state with the same log. *)
Lemma keeps_from h n m d : same_log n m → good n d → keeps h → keeps_at h m d.
Proof. intros Hs Hg Hh. apply Hh. by eapply good_same. Qed.

Create HintDb keeps.
#[export] Hint Resolve keeps_skip keeps_then keeps_when keeps_each : keeps.
#[export] Hint Extern 2 (keeps (emit _)) => apply keeps_emit; done : keeps.
#[export] Hint Extern 2 (keeps (fun _ => emit _ _)) => apply keeps_emit_read; done : keeps.
#[export] Hint Extern 2 (keeps (modify _)) => apply keeps_modify; intros; by repeat case_match : keeps.

Lemma keeps_send x m : good_msg m → keeps (async_send x m).
Proof. intros Hm n d Hg. apply keeps_when; [|done]. by apply keeps_emit. Qed.
#[export] Hint Extern 2 (keeps (async_send _ _)) => apply keeps_send; done : keeps.

(** ** Committing and trimming *)

Lemma last_index_eq n : log_ n ≠ [] → last_log_index n = consistent_log_index_ n + Z.of_nat (length (log_ n)).
Proof. unfold last_log_index, offset_to_log_index. destruct (log_ n); [done|]. intros _. simpl. lia. Qed.

Lemma offset_after_eq n i :
  0 ≤ consistent_log_index_ n ≤ i → (if i =? 0 then 0 else offset_after n i) = i - consistent_log_index_ n.
Proof.
  intros Hi. unfold offset_after. destruct (Z.eqb_spec i 0); [lia|]. cbv zeta.
  by destruct (Z.ltb_spec (i - consistent_log_index_ n) 0); [lia|].
Qed.

(** The commit index moves to [min last index], or stays when that is not
    ahead; the entries in between are handed over. *)
Lemma commit_keeps index : keeps (update_commit_index index).
Proof.
  intros n d Hg. destruct (Hg) as [Hc Hl Hd]. unfold keeps_at, update_commit_index.
  assert (existsb asserts (n, [] : list raft_event).2 = false →
    good (n, [] : list raft_event).1 (d ++ indices (n, [] : list raft_event).2) ∧
    Forall good_event (n, [] : list raft_event).2) as Hstay.
  { intros _. simpl. by rewrite app_nil_r. }
  destruct (Z.leb_spec index (commit_index_ n)); [done|].
  destruct (log_ n) as [|x l] eqn:Elog; [done|]. rewrite <- Elog in *.
  set (c := Z.min (offset_to_log_index n (Z.of_nat (length (log_ n)) - 1)) index).
  destruct (Z.eqb_spec (commit_index_ n) c); [done|].
  assert (c = Z.min (consistent_log_index_ n + Z.of_nat (length (log_ n))) index) as Hcv
    by (unfold c, offset_to_log_index; f_equal; lia).
  rewrite (offset_after_eq n (commit_index_ n)) by lia. rewrite (offset_after_eq n c) by lia.
  destruct (Z.leb_spec (c - consistent_log_index_ n) (commit_index_ n - consistent_log_index_ n)); [done|].
  set (vec := take _ _). rewrite !modify_then, !and_then_eq. intros _. simpl.
  assert (consecutive (commit_index_ n + 1) vec) as Hvec.
  { unfold vec. apply consecutive_take. 
    replace (commit_index_ n + 1) with (consistent_log_index_ n + 1 +
      Z.of_nat (Z.to_nat (commit_index_ n - consistent_log_index_ n))) by lia. by apply consecutive_drop. }
  assert (Z.of_nat (length vec) = c - commit_index_ n) as Hlen.
  { unfold vec. rewrite length_take, length_drop. lia. }
  split; [|by repeat constructor]. constructor; simpl; [lia|done|].
  unfold indices, handed_of. simpl. rewrite app_nil_r, (consecutive_indices _ _ Hvec), Hlen, Hd.
  rewrite (Z.add_comm (commit_index_ n) 1), <- seqZ_app by lia. f_equal. lia.
Qed.

(** A trim to at most the commit index. *)
Lemma trim_keeps k n d :
  good n d → (log_ n ≠ [] → k ≤ consistent_log_index_ n + Z.of_nat (length (log_ n)) → k ≤ commit_index_ n) →
  keeps_at (update_consistency_index k) n d.
Proof.
  intros Hg Hk. destruct (Hg) as [Hc Hl Hd]. unfold keeps_at, update_consistency_index.
  rewrite and_then_eq. set (bad := negb _).
  assert ((when bad (emit AssertFailed) n).1 = n) as -> by by destruct bad.
  destruct (Z.ltb_spec k (consistent_log_index_ n + 10)).
  { simpl. rewrite app_nil_r. destruct bad; [done|]. simpl. intros _. by rewrite app_nil_r. }
  cbv zeta. rewrite and_then_eq. set (over := Z.of_nat (length (log_ n)) <? _).
  assert ((when over (emit AssertFailed) n).1 = n) as -> by by destruct over.
  rewrite modify_then. destruct bad eqn:Eb; [done|]. destruct over eqn:Eo; [done|]. intros _. simpl.
  unfold indices. simpl. rewrite app_nil_r. apply Z.ltb_ge in Eo.
  assert (k - 10 ≤ commit_index_ n) as Hkc.
  { destruct (log_ n) as [|x l] eqn:El; [simpl in Eo; lia|]. unfold bad in Eb. rewrite <- El in *.
    unfold offset_to_log_index in Eb. apply negb_false_iff in Eb.
    assert (k ≤ consistent_log_index_ n + Z.of_nat (length (log_ n))); [|specialize (Hk ltac:(by rewrite El)); lia].
    rewrite El in Eb |- *. apply Z.leb_le in Eb. lia. }
  split; [|by repeat constructor]. constructor; simpl; [lia| |done].
  replace (k - 10 + 1) with (consistent_log_index_ n + 1 + Z.of_nat (Z.to_nat (k - 10 - consistent_log_index_ n)))
    by lia. by apply consecutive_drop.
Qed.

(** The commit index follows [c] as far as the log goes. *)
Lemma commit_follows c n d :
  good n d → let n1 := (update_commit_index c n).1 in
  log_ n1 = log_ n ∧ consistent_log_index_ n1 = consistent_log_index_ n ∧
  (log_ n ≠ [] → Z.min (consistent_log_index_ n + Z.of_nat (length (log_ n))) c ≤ commit_index_ n1).
Proof.
  intros [Hc _ _]. cbv zeta. unfold update_commit_index.
  destruct (Z.leb_spec c (commit_index_ n)); [simpl; split_and!; try done; try lia|].
  destruct (log_ n) as [|x l] eqn:Elog; [done|]. rewrite <- Elog.
  unfold offset_to_log_index. set (m := Z.min _ c).
  assert (m = Z.min (consistent_log_index_ n + Z.of_nat (length (log_ n))) c) as <- by (unfold m; f_equal; lia).
  destruct (Z.eqb_spec (commit_index_ n) m); [simpl; split_and!; try done; try lia|].
  assert (consistent_log_index_ n ≤ m) by (unfold m; lia).
  rewrite !offset_after_eq by lia. destruct (Z.leb_spec (m - consistent_log_index_ n) (commit_index_ n - consistent_log_index_ n)).
  - simpl. split_and!; try done; try lia.
  - rewrite !modify_then, !and_then_eq. simpl. split_and!; try done; try lia.
Qed.

(** After the commit index followed [c], a trim up to [k ≤ c] stays behind it. *)
Lemma follow_keeps c k : 0 ≤ k ≤ c → keeps (and_then (update_commit_index c) (update_consistency_index k)).
Proof.
  intros Hk n d Hg. apply keeps_then_at; [by apply commit_keeps|]. intros Hg1.
  apply trim_keeps; [done|]. destruct (commit_follows c n d Hg) as (->&->&Hf). intros Hne Hle.
  specialize (Hf Hne). lia.
Qed.

#[export] Hint Extern 2 (keeps (and_then (update_commit_index _) (update_consistency_index _))) =>
  apply follow_keeps; lia : keeps.

(** ** The leader *)

Lemma check_log_state n : (check_log_index n).1 = n ∧ indices (check_log_index n).2 = [] ∧
  Forall good_event (check_log_index n).2.
Proof. unfold check_log_index. repeat case_match; (split_and!; [done|done|by repeat constructor]). Qed.

Lemma push_state e n : (push_log e n).1 = n <| log_ := log_ n ++ [e] |>.
Proof. unfold push_log. rewrite modify_then. apply check_log_state. Qed.

Lemma push_all_state l n : (each push_log l n).1 = n <| log_ := log_ n ++ l |>.
Proof.
  revert n. induction l as [|e l IH]; intros n; simpl.
  - rewrite app_nil_r. by destruct n.
  - rewrite and_then_eq. simpl. rewrite IH, push_state. simpl. by rewrite <- app_assoc.
Qed.

Lemma push_keeps e n d :
  good n d → e_index e = consistent_log_index_ n + Z.of_nat (length (log_ n)) + 1 → keeps_at (push_log e) n d.
Proof.
  intros [Hc Hl Hd] He. unfold keeps_at. rewrite push_state. unfold push_log. rewrite modify_then.
  destruct (check_log_state (n <| log_ := log_ n ++ [e] |>)) as (_&->&?). intros _. split; [|done].
  rewrite app_nil_r. constructor; simpl; [done| |done].
  apply consecutive_app; [done|]. intros [|k] x Hx; [|done]. simplify_eq/=. lia.
Qed.

(** Appending consecutive entries at the end of the log. *)
Lemma push_all_keeps l n d :
  good n d → consecutive (consistent_log_index_ n + Z.of_nat (length (log_ n)) + 1) l →
  keeps_at (each push_log l) n d.
Proof.
  revert n d. induction l as [|e l IH]; intros n d Hg Hl; [by apply keeps_skip|].
  apply keeps_then_at.
  - apply push_keeps; [done|]. rewrite (Hl 0%nat e eq_refl). lia.
  - intros Hg'. apply IH; [done|]. rewrite push_state. simpl. rewrite length_app. simpl.
    intros k x Hx. rewrite (Hl (S k) x Hx). lia.
Qed.

Lemma append_entries_keeps k : keeps (append_entries k).
Proof.
  intros n d Hg. unfold append_entries, keeps_at. destruct (progress_ n !! k) as [tr|].
  2: { intros _. simpl. by rewrite app_nil_r. }
  cbv zeta. set (prev := if _ =? 0 then 0 else _). set (es := take _ (drop _ (log_ n))).
  set (bad_index := existsb _ (imap pair es)). set (bad := _ && _).
  set (m := AppendEntries _ _ _ _ _ _ _ _ _).
  destruct (bad || bad_index) eqn:Eb; [rewrite and_then_eq; done|].
  apply orb_false_iff in Eb as [_ Eb].
  assert (good_msg m) as Hm.
  { destruct Hg as [Hc Hl _]. split; [|lia]. intros j e Hj.
    destruct (Z.eqb_spec (e_index e) (prev + 1 + Z.of_nat j)) as [|Hne]; [done|exfalso].
    assert (bad_index = true); [|congruence]. apply existsb_exists. exists (j, e). split.
    - apply list_elem_of_In, elem_of_lookup_imap. eauto.
    - simpl. by apply negb_true_iff, Z.eqb_neq. }
  intros Hno. revert Hno. apply (keeps_then _ _ keeps_skip); [|done].
  auto with keeps.
Qed.
#[export] Hint Resolve append_entries_keeps : keeps.

Lemma send_all_keeps : keeps leader_send_append_entries.
Proof. intros n d Hg. unfold leader_send_append_entries. apply keeps_each; auto with keeps. Qed.
#[export] Hint Resolve send_all_keeps : keeps.

Lemma leader_append_keeps e : keeps (ignore_result (leader_append_entry e)).
Proof.
  intros n d Hg. unfold keeps_at. rewrite leader_append_eq. destruct (bool_decide _).
  2: { intros _. simpl. by rewrite app_nil_r. }
  cbv zeta. destruct e as [e|]; [|by apply send_all_keeps].
  apply keeps_then_at.
  - apply push_keeps; [done|]. simpl. unfold offset_to_log_index. lia.
  - intros Hg'. by apply keeps_emit.
Qed.
#[export] Hint Resolve leader_append_keeps : keeps.

(** A handler given by cases: nothing happens, or a kept handler runs from a
    state with the same log. *)
Ltac keeps_step :=
  first
    [ intros _; unfold indices, handed_of; simpl; rewrite app_nil_r; (split; [eapply good_same; [|eassumption]; done|by repeat constructor])
    | match goal with
      | |- existsb asserts (?h ?m).2 = false → _ => refine (keeps_from h _ m _ _ _ _); [|eassumption|]; [done|auto with keeps]
      end ].
Ltac keeps_cases := intros n d Hg; unfold keeps_at; cbv beta zeta; repeat case_match; keeps_step.

Lemma heart_beat_keeps : keeps heart_beat.
Proof. intros n d Hg. unfold keeps_at. rewrite heart_beat_eq. by apply leader_append_keeps. Qed.
#[export] Hint Resolve heart_beat_keeps : keeps.

Lemma send_log_keeps b : keeps (ignore_result (send_append_log b)).
Proof.
  intros n d Hg. unfold keeps_at, ignore_result, send_append_log. destruct (tx_logs_ n) as [|x l].
  - destruct b; [|keeps_step]. pose proof (heart_beat_keeps n d Hg) as H. unfold keeps_at in H.
    by destruct (heart_beat n).
  - cbv zeta. set (n1 := n <| tx_logs_ := _ |>). set (e := mk_entry _ _ _).
    assert (good n1 d) as Hg1 by by apply (good_same n).
    pose proof (leader_append_keeps (Some e) n1 d Hg1) as H. unfold keeps_at, ignore_result in H.
    destruct (leader_append_entry (Some e) n1) as [[ok n2] ev]. destruct ok; [done|]. simpl in *.
    rewrite existsb_app, orb_false_iff, indices_app. intros [E _]. destruct (H E) as [G F].
    unfold indices at 2. simpl. rewrite app_nil_r. split; [done|]. apply Forall_app. by repeat constructor.
Qed.
#[export] Hint Resolve send_log_keeps : keeps.

Lemma ccb_append_keeps logs : keeps (ignore_result (ccb_append_log logs)).
Proof.
  intros n d Hg. unfold keeps_at, ignore_result, ccb_append_log. cbv zeta.
  set (n1 := n <| tx_logs_ := _ |>). assert (good n1 d) as Hg1 by by apply (good_same n).
  destruct (_ <=? _); [|keeps_step].
  pose proof (send_log_keeps false n1 d Hg1) as H. unfold keeps_at, ignore_result in H.
  by destruct (send_append_log false n1) as [[ok n2] ev].
Qed.

Lemma advance_commit_keeps : keeps leader_advance_commit_index.
Proof.
  intros n d Hg. unfold keeps_at, leader_advance_commit_index.
  destruct (state_ n); try keeps_step. destruct (highest _ _) as [i|]; [|keeps_step].
  destruct (log_at n i); [|keeps_step]. destruct (_ <=? _); [|keeps_step]. by apply commit_keeps.
Qed.

Lemma advance_consistency_keeps : keeps leader_advance_consistency_index.
Proof.
  intros n d Hg. unfold keeps_at, leader_advance_consistency_index.
  destruct (state_ n); try keeps_step. destruct (highest _ _) as [i|]; [|keeps_step]. cbv zeta.
  destruct (_ && _ && _) eqn:E; [|keeps_step]. destruct (log_at n i); [|keeps_step].
  destruct (_ =? _); [|keeps_step]. apply trim_keeps; [done|]. intros _ _.
  apply andb_true_iff in E as [[_ E]%andb_true_iff _]. lia.
Qed.
#[export] Hint Resolve advance_commit_keeps advance_consistency_keeps : keeps.

Lemma leader_appended_keeps i : keeps (on_leader_appended i).
Proof. unfold on_leader_appended. auto with keeps. Qed.

(** ** Followers *)

Lemma response_keeps x ok m hb w : keeps (response_append_entries_response x ok m hb w).
Proof. intros n d Hg. unfold response_append_entries_response. by apply keeps_send. Qed.
#[export] Hint Resolve leader_appended_keeps response_keeps : keeps.

Lemma follower_appended_keeps x m hb w c k : 0 ≤ k ≤ c → keeps (on_follower_appended x m hb w c k).
Proof. intros Hk. unfold on_follower_appended. apply keeps_then; [auto with keeps|by apply follow_keeps]. Qed.

(** [next_offset] and [skip_n] name the same place: the received entry at
    [skip_n] has the index that belongs at [next_offset]. *)
Lemma store_keeps src p c k hb es off sk n d :
  0 ≤ k ≤ c → good n d → consecutive (p + 1) es → 0 ≤ off → 0 ≤ sk →
  p + sk = consistent_log_index_ n + off →
  keeps_at (store_entries src p c k hb es off sk) n d.
Proof.
  intros Hk Hg Hes Hoff Hsk Hp. unfold store_entries, keeps_at. cbv zeta.
  destruct (Z.ltb_spec off (Z.of_nat (length (log_ n)))) as [Hlt|Hge].
  - destruct (compare_entries _ _) as [j|] eqn:Ec.
    + apply compare_entries_length in Ec. rewrite !length_drop in Ec.
      destruct (Z.ltb_spec (sk + Z.of_nat j) (Z.of_nat (length es))).
      * apply keeps_then_at.
        { apply push_all_keeps; [done|]. intros q e Hq. rewrite lookup_drop in Hq. rewrite (Hes _ _ Hq). lia. }
        intros Hg'. unfold keeps_at. by apply keeps_emit.
      * apply (keeps_then _ _ (response_keeps _ _ _ _ _) (follow_keeps c k Hk)). done.
    + intros _. simpl. rewrite app_nil_r. destruct Hg as [Hc Hl Hd]. split; [|done].
      constructor; simpl; [done| |done]. by apply consecutive_take.
  - destruct (Z.eqb_spec (Z.of_nat (length (log_ n))) off) as [Heq|]; [|keeps_step].
    apply keeps_then_at.
    + apply push_all_keeps; [done|]. intros q e Hq. rewrite lookup_drop in Hq. rewrite (Hes _ _ Hq). lia.
    + intros Hg'. by apply keeps_emit.
Qed.

Lemma become_follower_keeps : keeps become_follower.
Proof. unfold become_follower. keeps_cases. Qed.

Lemma update_term_keeps T : keeps (update_term T).
Proof.
  intros n d Hg. unfold keeps_at, update_term. destruct (_ <=? _); [keeps_step|].
  apply (keeps_from become_follower n); [done|done|apply become_follower_keeps].
Qed.
#[export] Hint Resolve become_follower_keeps update_term_keeps : keeps.

Lemma append_request_keeps src T p pt c k hb es n d :
  good_msg (AppendEntries src (node_id_ n) T p pt c k hb es) → good n d →
  keeps_at (handle_append_entries_request src T p pt c k hb es) n d.
Proof.
  intros [Hes Hk] Hg. unfold keeps_at, handle_append_entries_request. cbv zeta.
  destruct (T <? current_term_ n); [by apply response_keeps|].
  destruct (current_term_ n <? T); [apply (keeps_from become_follower n); [done|done|apply become_follower_keeps]|].
  set (m := n <| leader_id_ := src |> <| tick_count_ := 0 |>).
  assert (good m d) as Hm by by apply (good_same n). clearbody m. clear Hg n.
  destruct (state_ m); [by apply keeps_skip| |by apply become_follower_keeps].
  destruct (Hm) as [Hc _ _].
  assert (∃ ok next off sk, (if p <=? consistent_log_index_ m
     then (true, consistent_log_index_ m + 1, log_index_to_offset m (consistent_log_index_ m + 1), consistent_log_index_ m - p)
     else ((p =? 0) || ((0 <? p) && (p <=? last_log_index m) && ((Z.of_nat (length (log_ m)) =? 0) ||
               match log_at m (log_index_to_offset m p) with Some e => pt =? e_term e | None => false end)),
             p + 1, log_index_to_offset m p + 1, 0)) = (ok, next, off, sk) ∧
     0 ≤ off ∧ 0 ≤ sk ∧ p + sk = consistent_log_index_ m + off) as (ok&next&off&sk&->&Ho&Hs&Hp).
  { unfold log_index_to_offset. destruct (Z.leb_spec p (consistent_log_index_ m)); eexists _, _, _, _;
      (split; [reflexivity|]); cbv zeta; (case_test; [lia|lia]). }
  destruct (negb ok); [by apply response_keeps|].
  destruct es as [|e es]; [|by apply store_keeps].
  apply (keeps_then _ _ (response_keeps _ _ _ _ _) (follow_keeps c k Hk)). done.
Qed.

Lemma append_response_keeps src T ok m hb : keeps (handle_append_entries_response src T ok m hb).
Proof.
  unfold handle_append_entries_response. apply keeps_then; [auto with keeps|].
  intros n d Hg. unfold keeps_at. destruct (progress_ n !! src) as [p|]; [|done].
  destruct (negb _); [keeps_step|]. cbv zeta. destruct ok; [|keeps_step].
  apply keeps_then; auto with keeps.
Qed.

(** ** Elections and time *)

Lemma become_leader_keeps : keeps become_leader.
Proof.
  intros n d Hg. unfold keeps_at, become_leader. destruct (state_ n); try keeps_step.
  destruct (_ <? _); [keeps_step|].
  apply (keeps_then (modify _) _); [auto with keeps| |done]. apply keeps_then; auto with keeps.
Qed.

Lemma timeout_keeps : keeps timeout_request_vote.
Proof.
  intros n d Hg. unfold keeps_at, timeout_request_vote. destruct (negb _ && negb _); [keeps_step|].
  destruct (state_ n); [keeps_step| |];
    (apply (keeps_then (modify _) _); [auto with keeps| |done]; apply keeps_then; auto with keeps).
Qed.

Lemma request_vote_keeps : keeps request_vote.
Proof.
  intros n d Hg. unfold keeps_at, request_vote. destruct (state_ n); keeps_step.
Qed.
#[export] Hint Resolve append_response_keeps become_leader_keeps timeout_keeps request_vote_keeps : keeps.

Lemma vote_request_keeps src T li lt : keeps (handle_request_vote_request src T li lt).
Proof.
  unfold handle_request_vote_request. apply keeps_then; [auto with keeps|].
  intros n d Hg. unfold keeps_at. cbv zeta. apply keeps_then; auto with keeps.
Qed.

Lemma vote_response_keeps src T g : keeps (handle_request_vote_response src T g).
Proof.
  unfold handle_request_vote_response. apply keeps_then; [auto with keeps|].
  intros n d Hg. unfold keeps_at. destruct (negb _); [keeps_step|].
  apply keeps_then; [auto with keeps| |done]. apply keeps_then; [auto with keeps|].
  intros n1 d1 Hg1. unfold keeps_at. apply keeps_when; auto with keeps.
Qed.

Lemma transfer_keeps id : keeps (handle_transfer_leader id).
Proof. unfold handle_transfer_leader. keeps_cases. Qed.
#[export] Hint Resolve vote_request_keeps vote_response_keeps transfer_keeps : keeps.

Lemma tick_keeps : keeps tick.
Proof. unfold tick, node_transfer_leader. keeps_cases. Qed.
#[export] Hint Resolve tick_keeps : keeps.

Lemma tick_timeout_keeps : keeps on_tick_timeout.
Proof.
  unfold on_tick_timeout. apply keeps_then; [auto with keeps|]. apply keeps_then; [|auto with keeps].
  intros n d Hg. unfold keeps_at. destruct (state_ n); try keeps_step.
  apply (keeps_then (ignore_result (send_append_log true))); auto with keeps.
Qed.

Lemma pre_vote_request_keeps src : keeps (handle_pre_vote_request src).
Proof. unfold handle_pre_vote_request. keeps_cases. Qed.

Lemma pre_vote_response_keeps src t st g : keeps (handle_pre_vote_response src t st g).
Proof. unfold handle_pre_vote_response. auto with keeps. Qed.

Lemma callback_keeps cb : good_cb cb → keeps (run_callback cb).
Proof. destruct cb; simpl; intros Hcb; auto with keeps. by apply follower_appended_keeps. Qed.

Lemma recv_keeps m n d : good_msg m → good n d → keeps_at (on_recv_message m) n d.
Proof.
  intros Hm Hg. destruct m; simpl.
  - by apply vote_request_keeps.
  - by apply vote_response_keeps.
  - by apply append_request_keeps.
  - by apply append_response_keeps.
  - by apply transfer_keeps.
  - by apply timeout_keeps.
  - by apply pre_vote_request_keeps.
  - by apply pre_vote_response_keeps.
Qed.

(** ** The cluster *)

Definition handed_indices (s : cluster) (i : Z) : list Z := map e_index (default [] (handed s !! i)).

(** Unless an assertion failed, every replica, message and callback is good. *)
Record linv (s : cluster) : Prop := mk_linv {
  l_node : ∀ i n, nodes s !! i = Some n → good n (handed_indices s i);
  l_net : Forall good_msg (net s);
  l_cbs : Forall (fun c => good_cb c.2) (cbs s);
}.

Lemma good_sent ev : Forall good_event ev → Forall good_msg (omap sent ev).
Proof.
  intros Hev. apply Forall_forall. intros m (e&He&Hs)%list_elem_of_omap.
  rewrite Forall_forall in Hev. specialize (Hev e He). by destruct e; simplify_eq/=.
Qed.

Lemma good_posted i ev : Forall good_event ev → Forall (fun c => good_cb c.2) (omap (posted i) ev).
Proof.
  intros Hev. apply Forall_forall. intros m (e&He&Hs)%list_elem_of_omap.
  rewrite Forall_forall in Hev. specialize (Hev e He). destruct e as [| |? [] | | | | |]; by simplify_eq/=.
Qed.

Lemma run_node_linv s i h :
  (failed s = false → linv s) → (∀ n, linv s → nodes s !! i = Some n → keeps_at h n (handed_indices s i)) →
  failed (run_node i h s) = false → linv (run_node i h s).
Proof.
  intros Hi Hh. unfold run_node. destruct (nodes s !! i) as [n|] eqn:Hn; [|done].
  specialize (Hh n). unfold keeps_at in Hh. destruct (h n) as [n' ev]. simpl. intros [Hf He]%orb_false_iff.
  specialize (Hi Hf). destruct (Hh Hi eq_refl He) as [Hg Hev]. destruct Hi as [Hnode Hnet Hcbs]. simpl in *.
  constructor; simpl.
  - intros j m. unfold handed_indices. simpl. destruct (decide (j = i)) as [->|?].
    + rewrite !lookup_insert_eq. intros [= <-]. simpl. rewrite map_app. exact Hg.
    + rewrite !lookup_insert_ne by done. apply Hnode.
  - apply Forall_app. split; [done|by apply good_sent].
  - apply Forall_app. split; [done|by apply good_posted].
Qed.

Lemma run_node_failed i h s : failed (run_node i h s) = false → failed s = false.
Proof.
  unfold run_node. destruct (nodes s !! i); [|done]. destruct (h _). simpl. by intros [? _]%orb_false_iff.
Qed.

Lemma step_linv cfg ids s s' :
  (failed s = false → linv s) → step cfg ids s s' → failed s' = false → linv s'.
Proof.
  intros Hi (l&Hc&Hl). destruct l; simpl in Hl; try done.
  - case_decide as Hd; [|done]. injection Hl as <-. apply run_node_linv; [done|].
    intros n [Hnode Hnet _] Hn. apply recv_keeps; [|by apply Hnode].
    rewrite Forall_forall in Hnet. by apply Hnet, Hd.
  - injection Hl as <-. apply run_node_linv; [done|]. intros n [Hnode _ _] Hn. by apply tick_timeout_keeps, Hnode.
  - case_decide as Hd; [|done]. injection Hl as <-. apply run_node_linv; [done|].
    intros n [Hnode _ Hcbs] Hn. apply callback_keeps; [|by apply Hnode].
    rewrite Forall_forall in Hcbs. exact (Hcbs _ Hd).
  - injection Hl as <-. apply run_node_linv; [done|]. intros n [Hnode _ _] Hn. by apply ccb_append_keeps, Hnode.
  - injection Hl as <-. apply run_node_linv; [done|]. intros n [Hnode _ _] Hn. by apply transfer_keeps, Hnode.
  - injection Hl as <-. apply run_node_linv; [done|]. intros n [Hnode _ _] Hn.
    apply (keeps_modify (fun n => n <| stopped_ := true |>)); [done|by apply Hnode].
Qed.

Lemma boot_linv cfg ids : linv (boot cfg ids).
Proof.
  constructor; simpl; [|constructor|constructor].
  intros i n Hn. apply elem_of_list_to_map_2, list_elem_of_fmap in Hn as (j&[= -> ->]&_).
  constructor; simpl; [lia|by intros k e ?|done].
Qed.

Lemma reachable_linv cfg ids s : reachable cfg ids s → failed s = false → linv s.
Proof.
  unfold reachable. intros Hr.
  assert (failed (boot cfg ids) = false → linv (boot cfg ids)) as H0 by (intros _; apply boot_linv).
  revert H0. induction Hr as [|s0 s1 s2 Hs _ IH]; [done|]. intros H0. apply IH. by eapply step_linv.
Qed.

(** C8: in every run without restarts and without a failed assertion, each
    replica hands over the entries 1, 2, ... up to its commit index, in order
    and each once, and its log holds consecutive indices after its trimmed
    prefix. *)
Theorem committed_in_order cfg ids s i n :
  reachable cfg ids s → failed s = false → nodes s !! i = Some n →
  handed_indices s i = seqZ 1 (commit_index_ n) ∧
  map e_index (log_ n) = seqZ (consistent_log_index_ n + 1) (Z.of_nat (length (log_ n))) ∧
  0 ≤ consistent_log_index_ n ≤ commit_index_ n.
Proof.
  intros Hr Hf Hn. destruct (l_node _ (reachable_linv _ _ _ Hr Hf) _ _ Hn) as [Hc Hl Hd].
  split_and!; try done; try lia. by apply consecutive_indices.
Qed.

End RaftLog.
