(* ===== verification/RaftRuns.v ===== *)
(** * Runs of the replication protocol

    Concrete schedules of [RaftElection]: an election, and three executions in
    which the code departs from Raft.  A restart lets two replicas lead the
    same term; a replica that lost its leadership sends log entries under the
    new term; and a new leader takes every replica to store its whole log, so
    that it commits entries a minority stores. *)

From S2P Require Import Prelude Common.
From S2P Require Import Raft RaftElection RaftLog.
#[local] Open Scope Z_scope.

Module RaftRuns.
Import Raft.Raft RaftElection.RaftElection RaftLog.RaftLog.

Fixpoint run (cfg : raft_config) (ids : list Z) (ls : list label) (s : cluster) : option cluster :=
  match ls with
  | [] => Some s
  | l :: ls => exec cfg ids l s ≫= run cfg ids ls
  end.

Definition is_calm (l : label) : bool := match l with Restart _ => false | _ => true end.

Lemma cluster_run_reachable cfg ids ls s :
  forallb is_calm ls = true → run cfg ids ls (boot cfg ids) = Some s → reachable cfg ids s.
Proof.
  unfold reachable. generalize (boot cfg ids). intros s0.
  revert s0. induction ls as [|l ls IH]; intros s0; simpl; [by intros _ [= ->]|].
  intros [Hc Hl]%andb_true_iff. destruct (exec cfg ids l s0) as [s1|] eqn:E; [|done]. simpl. intros Hr.
  eapply rtc_l; [|by apply IH]. exists l. split; [by destruct l|done].
Qed.

(** All replicas have the same priority; a follower times out at each tick. *)
Definition demo_cfg : raft_config := mk_config 0 1 10 1.

(** Replica [c] asks for the votes of term [T], with a log that ends at
    [(li, lt)]; the replicas of [voters] receive the request and their answers
    arrive. *)
Definition campaign (c T li lt : Z) : list label := [Timeout c; Callback c CbRequestVote].
Definition ballots (c T li lt : Z) (voters : list Z) : list label :=
  map (fun v => Deliver v (RequestVote c v T li lt)) voters ++
  map (fun v => Deliver c (RequestVoteResp v c T true)) voters.

Definition three : list Z := [1; 2; 3].
Definition first_election : list label := campaign 1 1 0 0 ++ ballots 1 1 0 0 [1; 2].

Definition demo (ids : list Z) (ls : list label) : cluster :=
  default (mk_cluster ∅ [] [] ∅ [] ∅ false) (run demo_cfg ids ls (boot demo_cfg ids)).

Lemma demo_is_reachable ids ls :
  forallb is_calm ls = true → is_Some (run demo_cfg ids ls (boot demo_cfg ids)) →
  reachable demo_cfg ids (demo ids ls).
Proof. intros Hc [s Hs]. unfold demo. rewrite Hs. simpl. by eapply cluster_run_reachable. Qed.

(** Replica [i] leads term [T] now. *)
Definition leads (s : cluster) (i T : Z) : Prop :=
  ∃ n, nodes s !! i = Some n ∧ state_ n = RAFT_STATE_LEADER ∧ current_term_ n = T.

Lemma election_safety_witness :
  let s := demo three first_election in
  elected s = [(1, 1)] ∧ ∀ j, (1, j) ∈ elected s → 1 = j.
Proof.
  cbv zeta. split; [vm_compute; reflexivity|]. intros j.
  apply (election_safety demo_cfg three _ 1).
  - apply (bool_decide_unpack _). vm_compute. exact Logic.I.
  - apply demo_is_reachable; [reflexivity|vm_compute; by eexists].
  - apply (bool_decide_unpack _). vm_compute. exact Logic.I.
Defined.

(** Replica 1 leads, appends an entry, replicates it to replica 2 and commits it. *)
Definition commit_run : list label :=
  first_election ++
  [ClientAppend 1 "a"; Callback 1 (CbLeaderAppended 1);
   Deliver 2 (AppendEntries 1 2 1 0 0 0 0 false [mk_entry 1 1 "a"]);
   Callback 2 (CbFollowerAppended 1 1 false true 0 0);
   Deliver 1 (AppendEntriesResp 2 1 1 true 1 false 1 1 true)].

Lemma committed_in_order_witness :
  let s := demo three commit_run in
  handed_indices s 1 = [1] ∧ ∀ n, nodes s !! 1 = Some n → handed_indices s 1 = seqZ 1 (commit_index_ n).
Proof.
  cbv zeta. split; [vm_compute; reflexivity|]. intros n Hn.
  apply (committed_in_order demo_cfg three _ 1 n); [|vm_compute; reflexivity|exact Hn].
  apply demo_is_reachable; [reflexivity|vm_compute; by eexists].
Defined.

(** ** A restart *)

Definition restart_run : list label :=
  first_election ++ [Restart 2] ++ campaign 3 1 0 0 ++ ballots 3 1 0 0 [3; 2].

(** C37: a vote is granted without being written to the log, so a replica that
    restarts votes again in the same term: two replicas lead term 1. *)
Theorem restart_two_leaders :
  ∃ s, run demo_cfg three restart_run (boot demo_cfg three) = Some s ∧ leads s 1 1 ∧ leads s 3 1.
Proof.
  eexists. split; [vm_compute; reflexivity|].
  split; eexists; (split; [vm_compute; reflexivity|split; reflexivity]).
Qed.

(** ** A leader that stepped down *)

(** Replica 1 leads term 1 and appends an entry; replica 3 wins term 2 before
    the write at replica 1 has finished. *)
Definition deposed_run : list label :=
  first_election ++ [ClientAppend 1 "entry"] ++ [Timeout 3] ++ campaign 3 2 0 0 ++
  ballots 3 2 0 0 [3; 2] ++
  [Deliver 1 (RequestVote 3 1 2 0 0); Callback 1 (CbLeaderAppended 1);
   Deliver 2 (AppendEntries 1 2 2 0 0 0 0 false [mk_entry 1 1 "entry"])].

(** The callback of a finished write does not check that the replica still
    leads: a follower of term 2 sends its entries as if it led term 2, and
    another replica, whose leader is replica 3, stores them. *)
Theorem deposed_leader_appends :
  ∃ s n1 n2, reachable demo_cfg three s ∧ leads s 3 2 ∧
    nodes s !! 1 = Some n1 ∧ state_ n1 = RAFT_STATE_FOLLOWER ∧ (2, 1) ∉ elected s ∧
    nodes s !! 2 = Some n2 ∧ current_term_ n2 = 2 ∧ log_ n2 = [mk_entry 1 1 "entry"] ∧ leader_id_ n2 = 1.
Proof.
  exists (demo three deposed_run). eexists _, _.
  split; [apply demo_is_reachable; [reflexivity|vm_compute; by eexists]|].
  split; [eexists; (split; [vm_compute; reflexivity|split; reflexivity])|].
  split; [vm_compute; reflexivity|]. split; [reflexivity|].
  split; [apply (bool_decide_unpack _); vm_compute; exact Logic.I|].
  split; [vm_compute; reflexivity|]. by split_and!.
Qed.

(** ** A new leader *)

Definition five : list Z := [1; 2; 3; 4; 5].

(** Replica 1 has one entry nobody else stores, loses term 2's election, wins
    term 3, appends a second entry and replicates both to replica 2 only. *)
Definition minority_run : list label :=
  let e1 := mk_entry 1 1 "a" in
  let e2 := mk_entry 2 3 "b" in
  campaign 1 1 0 0 ++ ballots 1 1 0 0 [1; 2; 3] ++
  [ClientAppend 1 "a"; Callback 1 (CbLeaderAppended 1)] ++
  [Timeout 4] ++ campaign 4 2 0 0 ++ [Deliver 1 (RequestVote 4 1 2 0 0)] ++
  campaign 1 3 1 1 ++ ballots 1 3 1 1 [1; 2; 3] ++
  [ClientAppend 1 "b"; Callback 1 (CbLeaderAppended 2);
   Deliver 2 (AppendEntries 1 2 3 1 1 0 0 false [e2]);
   Deliver 1 (AppendEntriesResp 2 1 3 false 0 false 1 0 false);
   Timeout 1;
   Deliver 2 (AppendEntries 1 2 3 0 0 0 0 false [e1; e2]);
   Callback 2 (CbFollowerAppended 1 2 false true 0 0);
   Deliver 1 (AppendEntriesResp 2 1 3 true 2 false 1 2 true)].

(** The replicas that store an entry of index [i]. *)
Definition stores (s : cluster) (i : Z) : list Z :=
  filter (fun id => from_option (fun n => existsb (fun e => e_index e =? i) (log_ n)) false (nodes s !! id) = true)
    five.

(** C36: a new leader sets every replica's match index to its own last entry, so
    it commits an entry that two of five replicas store. *)
Theorem minority_commit :
  ∃ s n, reachable demo_cfg five s ∧ leads s 1 3 ∧ nodes s !! 1 = Some n ∧
    commit_index_ n = 1 ∧ stores s 1 = [1; 2] ∧ failed s = false.
Proof.
  exists (demo five minority_run). eexists.
  split; [apply demo_is_reachable; [reflexivity|vm_compute; by eexists]|].
  split; [eexists; (split; [vm_compute; reflexivity|split; reflexivity])|].
  split; [vm_compute; reflexivity|]. split; [reflexivity|]. split; vm_compute; reflexivity.
Qed.

End RaftRuns.
