(* ===== verification/WaitPath.v ===== *)
(** * The wait-for graph and its cycles

    [include/common/tx_wait.h] and [src/common/wait_path.cpp].  A [tx_wait_set]
    maps a transaction to the set of transactions it waits for, with the
    bookkeeping of Tarjan's algorithm in each node; [find_scc] reports the
    strongly connected components of more than one transaction.

    The unordered containers are iterated in an order the standard leaves open;
    the model uses the order of [elements] and [map_to_list].  The recursion of
    [strong_connect] has fuel; [TarjanScc] shows that one unit per node is
    enough. *)

From S2P Require Import Prelude Common.
#[local] Open Scope Z_scope.

Module WaitPath.

(** [index_] is 0 while the node has not been visited. *)
(* @src include/common/tx_wait.h 14 37 tx_wait *)
Record tx_wait := mk_wait {
  index_ : Z;
  low_link_ : Z;
  on_stack_ : bool;
  in_set_ : gset Z;
}.
#[export] Instance eta_wait : Eta tx_wait := fun w =>
  mk_wait (index_ w) (low_link_ w) (on_stack_ w) (in_set_ w).

(* @src include/common/tx_wait.h 15 17 tx_wait::tx_wait *)
Definition new_wait (in_set : gset Z) : tx_wait := mk_wait 0 0 false in_set.

(* @src include/common/tx_wait.h 20 23 tx_wait::init *)
Definition init (w : tx_wait) : tx_wait :=
  w <| index_ := 0 |> <| low_link_ := 0 |> <| on_stack_ := false |>.

(* @src include/common/tx_wait.h 39 43 tx_wait_set *)
Record tx_wait_set := mk_wait_set {
  tx_wait_ : gmap Z tx_wait;
  victim_ : gset Z;
  finish_ : gset Z;
}.
#[export] Instance eta_wait_set : Eta tx_wait_set := fun s =>
  mk_wait_set (tx_wait_ s) (victim_ s) (finish_ s).

(** A message of the distributed detector; [dep] lists [(out, in)]. *)
(* @src src/proto/deadlock.proto 3 14 dependency_set *)
Record dependency_set := mk_dep {
  sequence : Z;
  dep : list (Z * list Z);
  ds_victim : list Z;
  ds_finish : list Z;
}.

(** ** Building the graph *)

(* @src include/common/tx_wait.h 45 55 tx_wait_set::add *)
Definition add_in (ins : gset Z) (out : Z) (s : tx_wait_set) : tx_wait_set :=
  s <| tx_wait_ := match tx_wait_ s !! out with
                   | Some w => <[out := w <| in_set_ := in_set_ w ∪ ins |>]> (tx_wait_ s)
                   | None => <[out := new_wait ins]> (tx_wait_ s)
                   end |>.

(* @src include/common/tx_wait.h 57 68 tx_wait_set::add *)
Definition add_edge (x out : Z) (s : tx_wait_set) : tx_wait_set := add_in {[x]} out s.

(* @src include/common/tx_wait.h 70 83 tx_wait_set::add *)
Definition add_out (x : Z) (outs : list Z) (s : tx_wait_set) : tx_wait_set :=
  foldl (fun s out => add_edge x out s) s outs.

(* @src include/common/tx_wait.h 85 92 tx_wait_set::add *)
Definition add_wait (xid : Z) (w : tx_wait) (s : tx_wait_set) : tx_wait_set :=
  s <| tx_wait_ := match tx_wait_ s !! xid with
                   | Some w' => <[xid := w' <| in_set_ := in_set_ w' ∪ in_set_ w |>]> (tx_wait_ s)
                   | None => <[xid := w]> (tx_wait_ s)
                   end |>.

(* @src src/common/wait_path.cpp 7 11 wait_path::tx_finish *)
Definition tx_finish (xid : Z) (s : tx_wait_set) : tx_wait_set :=
  mk_wait_set (delete xid (tx_wait_ s)) (victim_ s ∖ {[xid]}) ({[xid]} ∪ finish_ s).

(* @src src/common/wait_path.cpp 13 13 wait_path::tx_victim *)
Definition tx_victim (xid : Z) (s : tx_wait_set) : tx_wait_set := s <| victim_ := {[xid]} ∪ victim_ s |>.

(* @src include/common/tx_wait.h 102 115 tx_wait_set::add_dependency_set *)
Definition add_dependency_set (ds : dependency_set) (s : tx_wait_set) : tx_wait_set :=
  let s := foldl (fun s d => add_in (list_to_set d.2) d.1 s) s (dep ds) in
  let s := foldl (fun s x => tx_victim x s) s (ds_victim ds) in
  foldl (fun s x => tx_finish x s) s (ds_finish ds).

(* @src include/common/tx_wait.h 117 132 tx_wait_set::to_dependency_set *)
Definition to_dependency_set (seqno : Z) (s : tx_wait_set) : dependency_set :=
  mk_dep seqno (map (fun kv => (kv.1, elements (in_set_ kv.2))) (map_to_list (tx_wait_ s)))
    (elements (victim_ s)) (elements (finish_ s)).

(* @src include/common/tx_wait.h 134 138 tx_wait_set::clear *)
Definition clear (s : tx_wait_set) : tx_wait_set := mk_wait_set ∅ ∅ ∅.

(** ** Strongly connected components *)

(** The state of the search: the nodes, the next index, the stack with its top
    first, and the components found. *)
Record search := mk_search {
  nodes : gmap Z tx_wait;
  index : Z;
  stack : list Z;
  scc : list (list Z);
}.
#[export] Instance eta_search : Eta search := fun s => mk_search (nodes s) (index s) (stack s) (scc s).

(** [strong_connect] before its loop: number the node and push it. *)
(* @src src/common/wait_path.cpp 134 138 wait_path::strong_connect *)
Definition enter (v : Z) (s : search) : search :=
  mk_search (alter (fun w => w <| index_ := index s |> <| low_link_ := index s |> <| on_stack_ := true |>) v (nodes s))
    (index s + 1) (v :: stack s) (scc s).

Definition lower (v : Z) (x : Z) (s : search) : search :=
  s <| nodes := alter (fun w => w <| low_link_ := Z.min (low_link_ w) x |>) v (nodes s) |>.

(** The loop that pops the stack down to [v], with the component in the order
    it is popped. *)
(* @src src/common/wait_path.cpp 155 172 wait_path::strong_connect *)
Fixpoint pop_component (v : Z) (st : list Z) (ns : gmap Z tx_wait) (acc : list Z)
    : list Z * list Z * gmap Z tx_wait :=
  match st with
  | [] => (acc, [], ns)
  | x :: st' =>
      match ns !! x with
      | None => (acc, st, ns)
      | Some _ =>
          let ns := alter (fun w => w <| on_stack_ := false |>) x ns in
          if x =? v then (acc ++ [x], st', ns) else pop_component v st' ns (acc ++ [x])
      end
  end.

(** [strong_connect] after its loop: a root reports its component. *)
(* @src src/common/wait_path.cpp 152 178 wait_path::strong_connect *)
Definition finish_node (v : Z) (s : search) : search :=
  match nodes s !! v with
  | None => s
  | Some w =>
      if low_link_ w =? index_ w then
        let '(c, st, ns) := pop_component v (stack s) (nodes s) [] in
        mk_search ns (index s) st (if 1 <? Z.of_nat (length c) then scc s ++ [c] else scc s)
      else s
  end.

(** The loop over the successors; [connect] is the recursive call. *)
(* @src src/common/wait_path.cpp 139 149 wait_path::strong_connect *)
Fixpoint visit (connect : Z → search → option search) (v : Z) (xs : list Z) (s : search) : option search :=
  match xs with
  | [] => Some s
  | x :: xs =>
      match nodes s !! x with
      | None => visit connect v xs s
      | Some w =>
          if index_ w =? 0 then
            match connect x s with
            | None => None
            | Some s => visit connect v xs (lower v (from_option low_link_ 0 (nodes s !! x)) s)
            end
          else if on_stack_ w then visit connect v xs (lower v (index_ w) s)
          else visit connect v xs s
      end
  end.

(* @src src/common/wait_path.cpp 131 178 wait_path::strong_connect *)
Fixpoint strong_connect (fuel : nat) (v : Z) (s : search) : option search :=
  match fuel with
  | O => None
  | S fuel =>
      let s := enter v s in
      let succ := from_option (fun w => elements (in_set_ w)) [] (nodes s !! v) in
      match visit (strong_connect fuel) v succ s with
      | None => None
      | Some s => Some (finish_node v s)
      end
  end.

(* @src src/common/wait_path.cpp 114 116 wait_path::find_scc *)
Definition add_missing (m : gmap Z tx_wait) (x : Z) : gmap Z tx_wait :=
  match m !! x with Some _ => m | None => <[x := new_wait ∅]> m end.

(** The first loops of [find_scc]: reset every node, and give every transaction
    that is waited for a node. *)
(* @src src/common/wait_path.cpp 105 119 wait_path::find_scc *)
Definition prepare (ns : gmap Z tx_wait) : gmap Z tx_wait :=
  let ns0 := init <$> ns in
  foldl (fun m (kv : Z * tx_wait) => foldl add_missing m (elements (in_set_ kv.2))) ns0 (map_to_list ns0).

(** The loop over the nodes. *)
Fixpoint search_all (fuel : nat) (vs : list Z) (s : search) : option search :=
  match vs with
  | [] => Some s
  | v :: vs =>
      match nodes s !! v with
      | None => search_all fuel vs s
      | Some w =>
          if index_ w =? 0
          then match strong_connect fuel v s with None => None | Some s => search_all fuel vs s end
          else search_all fuel vs s
      end
  end.

(* @src src/common/wait_path.cpp 104 129 wait_path::find_scc *)
Definition find_scc (ns : gmap Z tx_wait) : option search :=
  let ns := prepare ns in
  search_all (S (size ns)) (map fst (map_to_list ns)) (mk_search ns 1 [] []).

(** The components, and the graph with the bookkeeping it leaves behind. *)
(* @src src/common/wait_path.cpp 31 55 wait_path::detect_circle *)
Definition detect_circle (s : tx_wait_set) : option (list (list Z) * tx_wait_set) :=
  match find_scc (tx_wait_ s) with
  | Some r => Some (scc r, s <| tx_wait_ := nodes r |>)
  | None => None
  end.

Example two_waiting_for_each_other :
  (detect_circle (add_edge 1 2 (add_edge 2 1 (add_edge 3 1 (mk_wait_set ∅ ∅ ∅))))) ≫= (fun r => Some r.1)
  = Some [[1; 2]].
Proof. vm_compute. reflexivity. Qed.

End WaitPath.
