(* ===== verification/TarjanScc.v ===== *)
(** * Correctness of the cycle search

    [strong_connect] of [WaitPath] is Tarjan's algorithm.  [find_scc] always
    returns, and the components it reports are exactly the strongly connected
    components of the wait-for graph with more than one transaction: every
    reported transaction is in a deadlock, and every deadlock of two or more
    transactions is reported ([find_scc_correct]).

    The invariant distinguishes, as usual, the nodes not yet numbered (white),
    those on the recursion stack (gray), those on the search stack, and those
    done. *)

From stdpp Require Import sorting.
From S2P Require Import Prelude Common.
From S2P Require Import WaitPath.
#[local] Open Scope Z_scope.

Module TarjanScc.
Import WaitPath.WaitPath.

(** ** Graphs *)

Definition edge (G : gmap Z (gset Z)) (v w : Z) : Prop := ∃ X, G !! v = Some X ∧ w ∈ X.
Definition reach (G : gmap Z (gset Z)) : relation Z := rtc (edge G).
Definition graph (ns : gmap Z tx_wait) : gmap Z (gset Z) := in_set_ <$> ns.

(** A reported component: more than one transaction, all reaching each other,
    and no other transaction in the same component. *)
Definition component (G : gmap Z (gset Z)) (c : list Z) : Prop :=
  (1 < length c)%nat ∧ NoDup c ∧ ∀ a, a ∈ c → ∀ b, b ∈ c ↔ reach G a b ∧ reach G b a.

Lemma reach_closed G (P : Z → Prop) a b :
  (∀ v w, P v → edge G v w → P w) → reach G a b → P a → P b.
Proof. intros HP Hr. induction Hr; eauto. Qed.

(** ** The state of the search *)

Definition num (s : search) (v : Z) : Z := from_option index_ 0 (nodes s !! v).
Definition low (s : search) (v : Z) : Z := from_option low_link_ 0 (nodes s !! v).
Definition on (s : search) (v : Z) : bool := from_option on_stack_ false (nodes s !! v).
Definition done_ (s : search) (v : Z) : Prop := num s v ≠ 0 ∧ v ∉ stack s.

Record inv (G : gmap Z (gset Z)) (gray : gset Z) (s : search) : Prop := mk_inv {
  i_graph : graph (nodes s) = G;
  i_index : ∀ v, 0 ≤ num s v < index s;
  i_stack : ∀ v, v ∈ stack s ↔ on s v = true;
  i_seen : ∀ v, v ∈ stack s → num s v ≠ 0;
  i_sorted : StronglySorted (fun x y => num s y < num s x) (stack s);
  i_gray : ∀ g, g ∈ gray → g ∈ stack s;
  i_done : ∀ v w, done_ s v → edge G v w → done_ s w;
  i_black : ∀ v w, num s v ≠ 0 → v ∉ gray → edge G v w → num s w ≠ 0;
  i_up : ∀ x y, x ∈ stack s → y ∈ stack s → num s x ≤ num s y → reach G x y;
  i_down : ∀ y, y ∈ stack s → ∃ g, g ∈ gray ∧ num s g ≤ num s y ∧ reach G y g;
  i_sound : ∀ c, c ∈ scc s → component G c;
  i_complete : ∀ a b, done_ s a → a ≠ b → reach G a b → reach G b a → ∃ c, c ∈ scc s ∧ a ∈ c;
  i_off : ∀ c x, c ∈ scc s → x ∈ c → done_ s x;
  i_once : NoDup (concat (scc s));
}.

Lemma sorted_mono {A} (R R' : relation A) l :
  (∀ x y, x ∈ l → y ∈ l → R x y → R' x y) → StronglySorted R l → StronglySorted R' l.
Proof.
  intros HR Hl. induction Hl as [|x l Hl IH Hx]; constructor.
  - apply IH. intros; apply HR; set_solver.
  - rewrite Forall_forall in *. intros y Hy. apply HR; set_solver.
Qed.

Lemma two_elements {A} (a b : A) l : a ∈ l → b ∈ l → a ≠ b → (1 < length l)%nat.
Proof. destruct l as [|x [|y l]]; simpl; [set_solver|set_solver|lia]. Qed.

(** A state that differs in [low_link_] only. *)
Lemma inv_low G gray s s' :
  inv G gray s → graph (nodes s') = graph (nodes s) → (∀ v, num s' v = num s v) → (∀ v, on s' v = on s v) →
  index s' = index s → stack s' = stack s → scc s' = scc s → inv G gray s'.
Proof.
  intros [] Hg Hn Ho Hi Hs Hc.
  assert (∀ v, done_ s' v ↔ done_ s v) as Hd by (intros v; unfold done_; by rewrite Hn, Hs).
  constructor; rewrite ?Hg, ?Hi, ?Hs, ?Hc; try done; try setoid_rewrite Hn; try setoid_rewrite Ho;
    try setoid_rewrite Hd; try done.
  eapply sorted_mono; [|done]. intros x y _ _. by rewrite !Hn.
Qed.

(** ** One node changes *)

Section alter.
Context (s : search) (v : Z).
Context (Hv : is_Some (nodes s !! v)).

Lemma num_alter f n st c x : let s' := mk_search (alter f v (nodes s)) n st c in
  num s' x = if decide (x = v) then from_option (index_ ∘ f) 0 (nodes s !! v) else num s x.
Proof.
  unfold num. cbn. destruct Hv as [w Hw]. destruct (decide (x = v)) as [->|Hne].
  - by rewrite lookup_alter_eq, Hw.
  - by rewrite lookup_alter_ne.
Qed.

Lemma low_alter f n st c x : let s' := mk_search (alter f v (nodes s)) n st c in
  low s' x = if decide (x = v) then from_option (low_link_ ∘ f) 0 (nodes s !! v) else low s x.
Proof.
  unfold low. cbn. destruct Hv as [w Hw]. destruct (decide (x = v)) as [->|Hne].
  - by rewrite lookup_alter_eq, Hw.
  - by rewrite lookup_alter_ne.
Qed.

Lemma on_alter f n st c x : let s' := mk_search (alter f v (nodes s)) n st c in
  on s' x = if decide (x = v) then from_option (on_stack_ ∘ f) false (nodes s !! v) else on s x.
Proof.
  unfold on. cbn. destruct Hv as [w Hw]. destruct (decide (x = v)) as [->|Hne].
  - by rewrite lookup_alter_eq, Hw.
  - by rewrite lookup_alter_ne.
Qed.

Lemma graph_alter f : (∀ w, in_set_ (f w) = in_set_ w) → graph (alter f v (nodes s)) = graph (nodes s).
Proof.
  intros Hf. apply map_eq. intros i. unfold graph. rewrite !lookup_fmap.
  destruct (decide (i = v)) as [->|Hne].
  - rewrite lookup_alter_eq. destruct (nodes s !! v); simpl; by rewrite ?Hf.
  - by rewrite lookup_alter_ne.
Qed.

Lemma num_enter x : num (enter v s) x = if decide (x = v) then index s else num s x.
Proof. unfold enter. rewrite num_alter. by destruct Hv as [w ->]. Qed.

Lemma low_enter x : low (enter v s) x = if decide (x = v) then index s else low s x.
Proof. unfold enter. rewrite low_alter. by destruct Hv as [w ->]. Qed.

Lemma on_enter x : on (enter v s) x = if decide (x = v) then true else on s x.
Proof. unfold enter. rewrite on_alter. by destruct Hv as [w ->]. Qed.

Lemma lower_eq n : lower v n s =
  mk_search (alter (fun w => w <| low_link_ := Z.min (low_link_ w) n |>) v (nodes s)) (index s) (stack s) (scc s).
Proof. reflexivity. Qed.

Lemma num_lower n x : num (lower v n s) x = num s x.
Proof.
  rewrite lower_eq, num_alter. destruct (decide (x = v)) as [->|]; [|done].
  unfold num. by destruct Hv as [w ->].
Qed.

Lemma on_lower n x : on (lower v n s) x = on s x.
Proof.
  rewrite lower_eq, on_alter. destruct (decide (x = v)) as [->|]; [|done].
  unfold on. by destruct Hv as [w ->].
Qed.

Lemma low_lower n x : low (lower v n s) x = if decide (x = v) then Z.min (low s v) n else low s x.
Proof. rewrite lower_eq, low_alter. unfold low at 2. by destruct Hv as [w ->]. Qed.

Lemma inv_lower G gray n : inv G gray s → inv G gray (lower v n s).
Proof.
  intros Hi. eapply inv_low; eauto using num_lower, on_lower. by apply graph_alter.
Qed.

End alter.

(** ** Entering a node *)

Definition has_node (G : gmap Z (gset Z)) (v : Z) : Prop := is_Some (G !! v).

Lemma has_node_nodes G gray s v : inv G gray s → has_node G v ↔ is_Some (nodes s !! v).
Proof. intros Hi. unfold has_node. rewrite <- (i_graph _ _ _ Hi). unfold graph. by rewrite lookup_fmap, fmap_is_Some. Qed.

Lemma white_off G gray s v : inv G gray s → num s v = 0 → v ∉ stack s.
Proof. intros Hi Hn Hin. by apply (i_seen _ _ _ Hi v Hin). Qed.

Lemma inv_enter G gray s v :
  inv G gray s → has_node G v → num s v = 0 → (∀ g, g ∈ gray → reach G g v) →
  inv G ({[v]} ∪ gray) (enter v s).
Proof.
  intros Hi Hn Hz Hg. pose proof (proj1 (has_node_nodes _ _ _ v Hi) Hn) as Hv.
  pose proof (white_off _ _ _ _ Hi Hz) as Hoff. pose proof (i_index _ _ _ Hi) as Hidx.
  pose proof (num_enter s v Hv) as En. pose proof (on_enter s v Hv) as Eo.
  assert (∀ x, x ∈ stack s → num (enter v s) x = num s x) as Est.
  { intros x Hx. rewrite En. by destruct (decide (x = v)) as [->|]. }
  assert (∀ x, done_ (enter v s) x ↔ done_ s x) as Hd.
  { intros x. unfold done_. rewrite En. cbn. destruct (decide (x = v)) as [->|]; set_solver. }
  destruct Hi. constructor; try setoid_rewrite Hd; try done.
  - cbn. by rewrite graph_alter.
  - intros x. rewrite En. cbn. pose proof (Hidx x). specialize (Hidx v). destruct (decide (x = v)); lia.
  - intros x. rewrite Eo. cbn. rewrite elem_of_cons, i_stack0. destruct (decide (x = v)); naive_solver.
  - intros x. rewrite En. cbn. rewrite elem_of_cons. specialize (Hidx v). destruct (decide (x = v)); [lia|naive_solver].
  - cbn. constructor.
    + eapply sorted_mono; [|done]. intros x y Hx Hy. by rewrite !Est.
    + apply Forall_forall. intros x Hx. rewrite Est, En, decide_True by done. apply Hidx.
  - cbn. set_solver.
  - intros x y. rewrite !En. specialize (Hidx v).
    destruct (decide (x = v)) as [->|], (decide (y = v)) as [->|]; try lia; set_solver.
  - cbn. intros x y Hx Hy. rewrite elem_of_cons in Hx, Hy. destruct Hy as [->|Hy].
    + intros _. destruct Hx as [->|Hx]; [apply rtc_refl|].
      destruct (i_down0 x Hx) as (g & Hgg & _ & Hr). etrans; [done|]. by apply Hg.
    + destruct Hx as [->|Hx]; rewrite (Est y Hy).
      * rewrite En, decide_True by done. specialize (Hidx y). lia.
      * rewrite (Est x Hx). by apply i_up0.
  - cbn. intros y Hy. rewrite elem_of_cons in Hy. destruct Hy as [->|Hy].
    + exists v. split_and!; [set_solver|lia|apply rtc_refl].
    + destruct (i_down0 y Hy) as (g & Hgg & Hle & Hr). exists g. rewrite !Est by auto. set_solver.
Qed.

(** ** The recursive call *)

(** Nodes numbered before a call keep their record. *)
Definition frame (s s' : search) : Prop := ∀ x, num s x ≠ 0 → nodes s' !! x = nodes s !! x.

Lemma frame_num s s' x : frame s s' → num s x ≠ 0 → num s' x = num s x ∧ low s' x = low s x.
Proof. intros Hf Hx. unfold num, low. by rewrite Hf. Qed.

Lemma frame_trans s s1 s2 : frame s s1 → frame s1 s2 → frame s s2.
Proof. intros H1 H2 x Hx. rewrite <- H1 by done. apply H2. by destruct (frame_num _ _ _ H1 Hx) as [-> _]. Qed.

(** What [strong_connect v] does from [s]: it leaves some nodes on top of the
    stack, none when [v] was the root of its component. *)
Record post (G : gmap Z (gset Z)) (v : Z) (s s' : search) : Prop := mk_post {
  p_frame : frame s s';
  p_num : num s' v ≠ 0;
  p_stack : ∃ new, stack s' = new ++ stack s ∧
    (∀ a b, a ∈ new → b ∈ stack s → edge G a b → low s' v ≤ num s b) ∧
    ((new = [] ∧ index s ≤ low s' v) ∨ ∃ y, y ∈ stack s ∧ num s y = low s' v ∧ reach G v y);
}.

(** The loop of [strong_connect v], entered from [s0], after the successors
    [seen]; [m] is [low_link_ v], or the value it is about to get. *)
Record loop (G : gmap Z (gset Z)) (gray : gset Z) (v : Z) (s0 : search) (seen : list Z) (m : Z) (s : search) : Prop :=
mk_loop {
  l_old : inv G gray s0;
  l_white : num s0 v = 0;
  l_gray : ∀ g, g ∈ gray → reach G g v;
  l_inv : inv G ({[v]} ∪ gray) s;
  l_frame : frame s0 s;
  l_num : num s v = index s0;
  l_low : low s v ≤ num s v;
  l_back : ∃ y, y ∈ v :: stack s0 ∧ num s y = low s v ∧ reach G v y;
  l_stack : ∃ new, stack s = new ++ v :: stack s0 ∧
    ∀ a b, a ∈ new → b ∈ stack s0 → edge G a b → m ≤ num s0 b;
  l_seen : ∀ x, x ∈ seen → num s x ≠ 0 ∧ (x ∈ stack s0 → m ≤ num s0 x);
}.

Lemma numbered_node s v : num s v ≠ 0 → is_Some (nodes s !! v).
Proof. unfold num. destruct (nodes s !! v); [by eexists|done]. Qed.

Lemma loop_numbered G gray v s0 seen m s : loop G gray v s0 seen m s → num s v ≠ 0.
Proof. intros Hl. rewrite (l_num _ _ _ _ _ _ _ Hl). pose proof (i_index _ _ _ (l_old _ _ _ _ _ _ _ Hl) v). lia. Qed.

(** A node on the stack with a smaller number than [v] lies below [v]. *)
Lemma below G gray v s0 seen m s x :
  loop G gray v s0 seen m s → x ∈ stack s → num s x < num s v → x ∈ stack s0.
Proof.
  intros Hl Hx Hlt. destruct (l_stack _ _ _ _ _ _ _ Hl) as (new & Hs & _).
  pose proof (i_sorted _ _ _ (l_inv _ _ _ _ _ _ _ Hl)) as Hso. rewrite Hs in Hx, Hso.
  rewrite elem_of_app, elem_of_cons in Hx. destruct Hx as [Hx|[->|Hx]]; [|lia|done].
  assert (num s v < num s x); [|lia].
  apply (StronglySorted_app_1_elem_of _ _ _ x v Hso Hx). set_solver.
Qed.

Lemma loop_start G gray v s :
  inv G gray s → has_node G v → num s v = 0 → (∀ g, g ∈ gray → reach G g v) →
  loop G gray v s [] (low (enter v s) v) (enter v s).
Proof.
  intros Hi Hn Hz Hg. pose proof (proj1 (has_node_nodes _ _ _ v Hi) Hn) as Hv.
  constructor; try done.
  - by apply inv_enter.
  - intros x Hx. cbn. rewrite lookup_alter_ne; [done|]. by intros ->.
  - by rewrite num_enter, decide_True.
  - by rewrite num_enter, low_enter, !decide_True.
  - exists v. rewrite num_enter, low_enter, !decide_True by done. split_and!; [set_solver|done|apply rtc_refl].
  - exists []. split; [done|set_solver].
  - set_solver.
Qed.

(** One more successor seen, [low_link_ v] about to get the smaller [m']. *)
Lemma loop_see G gray v s0 seen m m' s x :
  loop G gray v s0 seen m s → num s x ≠ 0 → m' ≤ m → (x ∈ stack s0 → m' ≤ num s0 x) →
  loop G gray v s0 (x :: seen) m' s.
Proof.
  intros [] Hx Hm Hxs. constructor; try done.
  - destruct l_stack0 as (new & Hs & Hc). exists new. split; [done|].
    intros a b Ha Hb He. specialize (Hc a b Ha Hb He). lia.
  - intros z Hz. rewrite elem_of_cons in Hz. destruct Hz as [->|Hz]; [done|].
    destruct (l_seen0 z Hz) as [? Hle]. split; [done|]. intros Hin. specialize (Hle Hin). lia.
Qed.

(** Lowering [low_link_ v] to the number of a node on the stack that [v]
    reaches, or to anything above it. *)
Lemma loop_lower G gray v s0 seen s n :
  loop G gray v s0 seen (Z.min (low s v) n) s →
  (n < low s v → ∃ y, y ∈ stack s ∧ num s y = n ∧ reach G v y) →
  loop G gray v s0 seen (low (lower v n s) v) (lower v n s).
Proof.
  intros Hl Hn. pose proof (numbered_node _ _ (loop_numbered _ _ _ _ _ _ _ Hl)) as Hv.
  pose proof Hl as [Ho Hz Hg Hi Hf Hnv Hlv (y & Hy & Hyn & Hyr) Hst Hse].
  pose proof (num_lower s v Hv n) as En. pose proof (low_lower s v Hv n v) as El. rewrite decide_True in El by done.
  constructor; rewrite ?El; try setoid_rewrite En; try done.
  - by apply inv_lower.
  - intros z Hz'. rewrite <- (Hf z Hz'). cbn. rewrite lookup_alter_ne; [done|]. by intros ->.
  - lia.
  - destruct (decide (n < low s v)) as [Hlt|Hge].
    + destruct (Hn Hlt) as (z & Hz' & Hzn & Hzr). exists z. rewrite Z.min_r by lia. split_and!; try done.
      apply elem_of_cons. right. apply (below _ _ _ _ _ _ _ z Hl Hz'). lia.
    + exists y. rewrite Z.min_l by lia. done.
Qed.

(** After the call for the unvisited successor [x]. *)
Lemma loop_call G gray v s0 seen s x s1 :
  loop G gray v s0 seen (low s v) s → num s x = 0 → edge G v x →
  inv G ({[v]} ∪ gray) s1 → post G x s s1 →
  loop G gray v s0 (x :: seen) (Z.min (low s1 v) (low s1 x)) s1 ∧
  (low s1 x < low s1 v → ∃ y, y ∈ stack s1 ∧ num s1 y = low s1 x ∧ reach G v y).
Proof.
  intros Hl Hx He Hi1 [Hf1 Hn1 (new1 & Hs1 & Hc1 & Hend)]. pose proof (loop_numbered _ _ _ _ _ _ _ Hl) as Hnv'.
  pose proof Hl as [Ho Hz Hg Hi Hf Hnv Hlv (y & Hy & Hyn & Hyr) (new & Hs & Hc) Hse].
  destruct (frame_num _ _ v Hf1 Hnv') as [Env Elv].
  assert (∀ z, z ∈ stack s → num s1 z = num s z) as Est.
  { intros z Hz'. apply (frame_num _ _ z Hf1). by apply (i_seen _ _ _ Hi). }
  assert (∀ z, z ∈ stack s0 → z ∈ stack s ∧ num s z = num s0 z) as Eold.
  { intros z Hz'. split; [rewrite Hs; set_solver|]. apply (frame_num _ _ z Hf). by apply (i_seen _ _ _ Ho). }
  split.
  - constructor; try done.
    + by eapply frame_trans.
    + by rewrite Env.
    + by rewrite Env, Elv.
    + exists y. rewrite Elv. rewrite Est; [done|]. rewrite Hs. set_solver.
    + exists (new1 ++ new). rewrite Hs1, Hs, <- app_assoc. split; [done|]. intros a b Ha Hb He'.
      destruct (Eold b Hb) as [Hbs Hbn]. rewrite elem_of_app in Ha. destruct Ha as [Ha|Ha].
      * specialize (Hc1 a b Ha Hbs He'). lia.
      * specialize (Hc a b Ha Hb He'). lia.
    + intros z Hz'. rewrite elem_of_cons in Hz'. destruct Hz' as [->|Hz'].
      * split; [done|]. intros Hin. destruct (Eold x Hin) as [Hin' _]. by destruct (white_off _ _ _ _ Hi Hx).
      * destruct (Hse z Hz') as [Hzn Hle]. destruct (frame_num _ _ z Hf1 Hzn) as [-> _]. split; [done|].
        intros Hin. specialize (Hle Hin). lia.
  - rewrite Elv. intros Hlt. destruct Hend as [[_ Hge]|(z & Hz' & Hzn & Hzr)].
    + pose proof (i_index _ _ _ Hi v). lia.
    + exists z. rewrite Est by done. split_and!; [rewrite Hs1; set_solver|done|]. by eapply rtc_l.
Qed.

(** ** The loop over the successors *)

Definition whites (s : search) : nat := size (filter (fun v => num s v = 0) (dom (nodes s) : gset Z)).

Lemma dom_inv G gray s : inv G gray s → dom (nodes s) = dom G.
Proof. intros Hi. rewrite <- (i_graph _ _ _ Hi). unfold graph. by rewrite dom_fmap_L. Qed.

Lemma whites_mono s s' :
  dom (nodes s') = dom (nodes s) → (∀ x, num s x ≠ 0 → num s' x ≠ 0) → (whites s' ≤ whites s)%nat.
Proof. intros Hd Hn. unfold whites. apply subseteq_size. rewrite Hd. intros x. rewrite !elem_of_filter. specialize (Hn x). destruct (decide (num s x = 0)); naive_solver. Qed.

Lemma whites_decr s s' v :
  dom (nodes s') = dom (nodes s) → (∀ x, num s x ≠ 0 → num s' x ≠ 0) →
  v ∈ dom (nodes s) → num s v = 0 → num s' v ≠ 0 → (whites s' < whites s)%nat.
Proof.
  intros Hd Hn Hv Hz Hnz. unfold whites. apply subset_size. rewrite Hd. split.
  - intros x. rewrite !elem_of_filter. specialize (Hn x). destruct (decide (num s x = 0)); naive_solver.
  - intros Hsub. specialize (Hsub v). rewrite !elem_of_filter in Hsub. naive_solver.
Qed.

Lemma frame_mono s s' : frame s s' → ∀ x, num s x ≠ 0 → num s' x ≠ 0.
Proof. intros Hf x Hx. by destruct (frame_num _ _ x Hf Hx) as [-> _]. Qed.

(** [connect] does what [strong_connect] must do while at most [n] nodes are
    unvisited. *)
Definition connects (G : gmap Z (gset Z)) (n : nat) (connect : Z → search → option search) : Prop :=
  ∀ gray x s, inv G gray s → has_node G x → num s x = 0 → (∀ g, g ∈ gray → reach G g x) → (whites s ≤ n)%nat →
    ∃ s', connect x s = Some s' ∧ inv G gray s' ∧ post G x s s'.

Section closed.
Context (G : gmap Z (gset Z)).
Context (Hclosed : ∀ v w, edge G v w → has_node G w).

Lemma visit_loop n connect gray v s0 xs : connects G n connect → (∀ x, x ∈ xs → edge G v x) →
  ∀ seen s, loop G gray v s0 seen (low s v) s → (whites s ≤ n)%nat →
  ∃ s' seen', visit connect v xs s = Some s' ∧ loop G gray v s0 seen' (low s' v) s' ∧ seen ⊆ seen' ∧ xs ⊆ seen'.
Proof.
  intros Hcon. induction xs as [|x xs IH]; intros Hxs seen s Hl Hw; simpl.
  { exists s, seen. split_and!; try done. set_solver. }
  pose proof (l_inv _ _ _ _ _ _ _ Hl) as Hi. pose proof (Hxs x ltac:(set_solver)) as He.
  assert (∀ s1, (whites s1 ≤ whites s)%nat → loop G gray v s0 (x :: seen) (low s1 v) s1 →
    ∃ s' seen', visit connect v xs s1 = Some s' ∧ loop G gray v s0 seen' (low s' v) s' ∧ seen ⊆ seen' ∧ x :: xs ⊆ seen')
    as Hnext.
  { intros s1 Hle Hl1. destruct (IH ltac:(set_solver) (x :: seen) s1 Hl1 ltac:(lia)) as (s' & seen' & ? & ? & ? & ?).
    exists s', seen'. split_and!; try done; set_solver. }
  destruct (proj1 (has_node_nodes _ _ _ x Hi) (Hclosed v x He)) as [w Hw']. rewrite Hw'.
  assert (num s x = index_ w) as Hnum by (unfold num; by rewrite Hw').
  assert (on s x = on_stack_ w) as Hon by (unfold on; by rewrite Hw').
  pose proof (i_stack _ _ _ Hi x) as Hst. destruct (Z.eqb_spec (index_ w) 0) as [E|E].
  - destruct (Hcon ({[v]} ∪ gray) x s) as (s1 & -> & Hi1 & Hp); [done|by eapply Hclosed|congruence| |done|].
    { intros g Hg. apply rtc_r with v; [|done]. rewrite elem_of_union, elem_of_singleton in Hg.
      destruct Hg as [->|Hg]; [apply rtc_refl|]. by apply (l_gray _ _ _ _ _ _ _ Hl). }
    destruct (loop_call _ _ _ _ _ _ _ _ Hl (eq_trans Hnum E) He Hi1 Hp) as [Hl1 Hn].
    apply Hnext; [|by apply loop_lower].
    apply whites_mono.
    + cbn. rewrite dom_alter_L, (dom_inv _ _ _ Hi1). by rewrite (dom_inv _ _ _ Hi).
    + intros z Hz. rewrite num_lower by (eapply numbered_node, loop_numbered; done).
      by apply (frame_mono s s1 (p_frame _ _ _ _ Hp)).
  - case_match.
    + apply Hnext.
      * apply whites_mono; [cbn; by rewrite dom_alter_L|].
        intros z Hz. by rewrite num_lower by (eapply numbered_node, loop_numbered; done).
      * apply loop_lower.
        { eapply loop_see; [done|lia|lia|]. intros Hin. rewrite <- Hnum.
          destruct (frame_num _ _ x (l_frame _ _ _ _ _ _ _ Hl)) as [-> _]; [|lia].
          by apply (i_seen _ _ _ (l_old _ _ _ _ _ _ _ Hl)). }
        intros _. exists x. split_and!; [apply Hst; congruence|done|by apply rtc_once].
    + apply Hnext; [done|]. eapply loop_see; [done|lia|done|]. intros Hin.
      destruct (l_stack _ _ _ _ _ _ _ Hl) as (new & Hs & _).
      assert (on s x = true); [|congruence]. apply Hst. rewrite Hs. set_solver.
Qed.

End closed.

(** ** Popping a component *)

Definition offs (l : list Z) (ns : gmap Z tx_wait) : gmap Z tx_wait :=
  foldl (fun ns x => alter (fun w => w <| on_stack_ := false |>) x ns) ns l.

Lemma lookup_offs l ns x :
  offs l ns !! x = (fun w => if decide (x ∈ l) then w <| on_stack_ := false |> else w) <$> ns !! x.
Proof.
  revert ns. induction l as [|y l IH]; intros ns; simpl.
  { destruct (ns !! x); done. }
  rewrite IH. destruct (decide (y = x)) as [->|Hne].
  - rewrite lookup_alter_eq. destruct (ns !! x); [|done]. simpl. f_equal.
    destruct (decide (x ∈ l)), (decide (x ∈ x :: l)); set_solver.
  - rewrite lookup_alter_ne by done. destruct (ns !! x); [|done]. simpl. f_equal.
    destruct (decide (x ∈ l)), (decide (x ∈ y :: l)); set_solver.
Qed.

Lemma pop_spec v new old ns acc :
  v ∉ new → (∀ x, x ∈ new ++ [v] → is_Some (ns !! x)) →
  pop_component v (new ++ v :: old) ns acc = (acc ++ new ++ [v], old, offs (new ++ [v]) ns).
Proof.
  revert ns acc. induction new as [|x new IH]; intros ns acc Hv Hns; simpl.
  - destruct (Hns v ltac:(set_solver)) as [w ->]. by rewrite Z.eqb_refl.
  - destruct (Hns x ltac:(set_solver)) as [w ->]. destruct (Z.eqb_spec x v) as [->|Hne]; [set_solver|].
    rewrite IH; [by rewrite <- app_assoc|set_solver|]. intros y Hy.
    apply lookup_alter_is_Some, Hns. set_solver.
Qed.

(** The state with the nodes [c] off the stack. *)
Definition popped (c old : list Z) (cs : list (list Z)) (s : search) : search :=
  mk_search (offs c (nodes s)) (index s) old cs.

Lemma num_popped c old cs s x : num (popped c old cs s) x = num s x.
Proof. unfold num. cbn. rewrite lookup_offs. destruct (nodes s !! x); [|done]. simpl. by destruct (decide _). Qed.

Lemma low_popped c old cs s x : low (popped c old cs s) x = low s x.
Proof. unfold low. cbn. rewrite lookup_offs. destruct (nodes s !! x); [|done]. simpl. by destruct (decide _). Qed.

Lemma on_popped c old cs s x : on (popped c old cs s) x = if decide (x ∈ c) then false else on s x.
Proof.
  unfold on. cbn. rewrite lookup_offs. destruct (nodes s !! x); simpl; by destruct (decide _).
Qed.

Lemma graph_popped c old cs s : graph (nodes (popped c old cs s)) = graph (nodes s).
Proof.
  apply map_eq. intros x. unfold graph. cbn. rewrite !lookup_fmap, lookup_offs.
  destruct (nodes s !! x); [|done]. simpl. by destruct (decide _).
Qed.

(** ** Leaving a node *)

Section leave.
Context (G : gmap Z (gset Z)) (gray : gset Z) (v : Z) (s0 s : search) (seen new : list Z).
Context (Hl : loop G gray v s0 seen (low s v) s).
Context (Hs : stack s = new ++ v :: stack s0).
Context (Hnew : ∀ a b, a ∈ new → b ∈ stack s0 → edge G a b → low s v ≤ num s0 b).
Context (Hseen : ∀ x, edge G v x → x ∈ seen).

Lemma new_above x : x ∈ new → num s v < num s x.
Proof.
  intros Hx. pose proof (i_sorted _ _ _ (l_inv _ _ _ _ _ _ _ Hl)) as Hso. rewrite Hs in Hso.
  apply (StronglySorted_app_1_elem_of _ _ _ x v Hso Hx). set_solver.
Qed.

Lemma old_num x : x ∈ stack s0 → num s x = num s0 x ∧ num s x < num s v.
Proof.
  intros Hx. destruct (frame_num _ _ x (l_frame _ _ _ _ _ _ _ Hl)) as [-> _].
  { by apply (i_seen _ _ _ (l_old _ _ _ _ _ _ _ Hl)). }
  split; [done|]. rewrite (l_num _ _ _ _ _ _ _ Hl). apply (i_index _ _ _ (l_old _ _ _ _ _ _ _ Hl)).
Qed.

Lemma component_nodup : NoDup (new ++ [v]).
Proof.
  pose proof (i_sorted _ _ _ (l_inv _ _ _ _ _ _ _ Hl)) as Hso. rewrite Hs in Hso.
  replace (new ++ v :: stack s0) with ((new ++ [v]) ++ stack s0) in Hso by by rewrite <- app_assoc.
  apply StronglySorted_app_1_l in Hso. induction Hso as [|x l Hl' IH Hx]; constructor; [|done].
  rewrite Forall_forall in Hx. intros Hin. specialize (Hx x Hin). lia.
Qed.

Lemma component_numbered x : x ∈ new ++ [v] → x ∈ stack s ∧ x ∉ stack s0 ∧ num s0 x = 0.
Proof.
  intros Hx. assert (num s v ≤ num s x) as Hle.
  { rewrite elem_of_app in Hx. destruct Hx as [Hx|Hx]; [apply new_above in Hx; lia|].
    assert (x = v) as -> by set_solver. lia. }
  split_and!.
  - rewrite Hs. set_solver.
  - intros Hin. destruct (old_num x Hin). lia.
  - destruct (decide (num s0 x = 0)) as [|Hne]; [done|].
    destruct (frame_num _ _ x (l_frame _ _ _ _ _ _ _ Hl) Hne) as [Hn _].
    rewrite (l_num _ _ _ _ _ _ _ Hl) in Hle. pose proof (i_index _ _ _ (l_old _ _ _ _ _ _ _ Hl) x). lia.
Qed.

(** Once its loop is over, the edges of [v] lead to numbered nodes. *)
Lemma black_now x w : num s x ≠ 0 → x ∉ gray → edge G x w → num s w ≠ 0.
Proof.
  intros Hx Hg He. destruct (decide (x = v)) as [->|Hne].
  - by apply (l_seen _ _ _ _ _ _ _ Hl), Hseen.
  - apply (i_black _ _ _ (l_inv _ _ _ _ _ _ _ Hl) x w); set_solver.
Qed.

(** A node that is not a root joins the nodes its caller left on the stack. *)
Lemma leave_inner : low s v ≠ num s v → inv G gray s ∧ post G v s0 s.
Proof.
  intros Hlow. pose proof Hl as [Ho Hz Hg Hi Hf Hnv Hlv (y & Hy & Hyn & Hyr) _ Hse].
  assert (y ∈ stack s0) as Hy'.
  { rewrite elem_of_cons in Hy. destruct Hy as [->|]; [congruence|done]. }
  destruct (old_num y Hy') as [Hyo _]. split.
  - pose proof Hi as []. constructor; try done.
    + set_solver.
    + apply black_now.
    + intros x Hx. destruct (i_down0 x Hx) as (g & Hgg & Hle & Hr). rewrite elem_of_union, elem_of_singleton in Hgg.
      destruct Hgg as [->|Hgg]; [|by exists g].
      destruct (i_down _ _ _ Ho y Hy') as (g & Hgg & Hle' & Hr'). exists g. split_and!; [done| |by do 2 (etrans; [done|])].
      destruct (old_num g (i_gray _ _ _ Ho g Hgg)) as [-> _]. lia.
  - constructor; [done|by eapply loop_numbered|]. exists (new ++ [v]). rewrite Hs, <- app_assoc. split_and!; [done| |].
    + intros a b Ha Hb He. rewrite elem_of_app in Ha. destruct Ha as [Ha|Ha]; [by eapply Hnew|].
      assert (a = v) as -> by set_solver. by apply (Hse b (Hseen b He)).
    + right. exists y. split_and!; [done|congruence|done].
Qed.

Section root.
Context (Hroot : low s v = num s v).
Let c := new ++ [v].
Let s' := popped c (stack s0) (if 1 <? Z.of_nat (length c) then scc s ++ [c] else scc s) s.

Lemma elem_c x : x ∈ c ↔ x ∈ new ∨ x = v.
Proof. unfold c. set_solver. Qed.

Lemma done_popped x : done_ s' x ↔ done_ s x ∨ x ∈ c.
Proof.
  unfold done_, s'. rewrite num_popped. cbn. rewrite Hs. split.
  - intros [Hn Hx]. destruct (decide (x ∈ c)); [by right|]. left. rewrite elem_c in *. set_solver.
  - intros [[Hn Hx]|Hx]; [set_solver|]. destruct (component_numbered x Hx) as (Hin & Hx' & _).
    split; [|done]. by apply (i_seen _ _ _ (l_inv _ _ _ _ _ _ _ Hl)).
Qed.

Lemma done_closed a w : done_ s' a → edge G a w → done_ s' w.
Proof.
  intros Ha He. rewrite done_popped in Ha. destruct Ha as [Ha|Ha].
  { apply done_popped. left. by apply (i_done _ _ _ (l_inv _ _ _ _ _ _ _ Hl) a). }
  destruct (component_numbered a Ha) as (Hin & Hoff & _).
  assert (num s w ≠ 0) as Hw.
  { apply (black_now a); [by apply (i_seen _ _ _ (l_inv _ _ _ _ _ _ _ Hl))| |done].
    intros Hg. by apply Hoff, (i_gray _ _ _ (l_old _ _ _ _ _ _ _ Hl)). }
  split; [unfold s'; by rewrite num_popped|]. unfold s'. cbn. intros Hold.
  destruct (old_num w Hold) as [Heq Hlt]. rewrite elem_c in Ha. destruct Ha as [Ha|Ha].
  - specialize (Hnew a w Ha Hold He). lia.
  - subst a. destruct (l_seen _ _ _ _ _ _ _ Hl w (Hseen w He)) as [_ Hle]. specialize (Hle Hold). lia.
Qed.

Lemma component_reach a : a ∈ c → reach G v a ∧ reach G a v.
Proof.
  intros Ha. destruct (component_numbered a Ha) as (Hin & _ & _). pose proof (l_inv _ _ _ _ _ _ _ Hl) as Hi. split.
  - apply (i_up _ _ _ Hi); [rewrite Hs; set_solver|done|].
    rewrite elem_c in Ha. destruct Ha as [Ha|Ha]; [apply new_above in Ha; lia|]. by subst a.
  - destruct (i_down _ _ _ Hi a Hin) as (g & Hg & _ & Hr). rewrite elem_of_union, elem_of_singleton in Hg.
    destruct Hg as [->|Hg]; [done|]. etrans; [done|]. by apply (l_gray _ _ _ _ _ _ _ Hl).
Qed.

(** No node outside [c] is strongly connected to one of [c]. *)
Lemma component_maximal a b : a ∈ c → reach G a b → reach G b a → b ∈ c.
Proof.
  intros Ha Hab Hba. assert (done_ s' b) as Hb.
  { apply (reach_closed G _ a b done_closed Hab), done_popped. by right. }
  rewrite done_popped in Hb. destruct Hb as [Hb|]; [|done].
  assert (done_ s a) as [_ Hoff].
  { by apply (reach_closed G _ b a (i_done _ _ _ (l_inv _ _ _ _ _ _ _ Hl))). }
  by destruct (component_numbered a Ha) as (Hin & _).
Qed.

Lemma component_c : (1 < length c)%nat → component G c.
Proof.
  intros Hlen. split_and!; [done|apply component_nodup|]. intros a Ha b. split; [|intros []; by apply (component_maximal a)].
  intros Hb. destruct (component_reach a Ha), (component_reach b Hb). split; by etrans.
Qed.

Lemma scc_popped d : d ∈ scc s' ↔ d ∈ scc s ∨ (d = c ∧ (1 < length c)%nat).
Proof.
  change (scc s') with (if 1 <? Z.of_nat (length c) then scc s ++ [c] else scc s). clearbody c.
  destruct (Z.ltb_spec 1 (Z.of_nat (length c))); [rewrite elem_of_app, list_elem_of_singleton|]; naive_solver lia.
Qed.

Lemma scc_once : NoDup (concat (scc s')).
Proof.
  pose proof (l_inv _ _ _ _ _ _ _ Hl) as Hi. pose proof (i_once _ _ _ Hi) as Honce.
  assert (NoDup (concat (scc s ++ [c]))) as Happ.
  { rewrite concat_app. simpl. rewrite app_nil_r. apply NoDup_app. split_and!; [done| |apply component_nodup].
    intros x Hx Hxc. apply list_elem_of_In, in_concat in Hx as (d & Hd & Hxd).
    apply list_elem_of_In in Hd, Hxd. destruct (i_off _ _ _ Hi d x Hd Hxd) as [_ Hoff].
    by destruct (component_numbered x Hxc) as (? & _). }
  change (scc s') with (if 1 <? Z.of_nat (length c) then scc s ++ [c] else scc s). by destruct (_ <? _).
Qed.

Lemma leave_root_inv : inv G gray s'.
Proof.
  pose proof (l_old _ _ _ _ _ _ _ Hl) as Ho. pose proof (l_inv _ _ _ _ _ _ _ Hl) as Hi.
  assert (∀ x, num s' x = num s x) as Hn by apply num_popped. pose proof Hi as []. constructor.
  - unfold s'. by rewrite graph_popped.
  - intros x. rewrite Hn. apply i_index0.
  - intros x. unfold s'. rewrite on_popped. cbn. specialize (i_stack0 x). rewrite Hs in i_stack0.
    destruct (decide (x ∈ c)) as [Hx|Hx].
    + destruct (component_numbered x Hx) as (_ & ? & _). naive_solver.
    + rewrite <- i_stack0. rewrite elem_c in Hx. set_solver.
  - intros x. rewrite Hn. cbn. intros Hx. apply i_seen0. rewrite Hs. set_solver.
  - cbn. eapply sorted_mono; [|apply (i_sorted _ _ _ Ho)]. intros x y Hx Hy. rewrite !Hn.
    destruct (old_num x Hx) as [-> _], (old_num y Hy) as [-> _]. done.
  - apply (i_gray _ _ _ Ho).
  - apply done_closed.
  - intros x w. rewrite !Hn. apply black_now.
  - cbn. intros x y Hx Hy. rewrite !Hn. apply i_up0; rewrite Hs; set_solver.
  - cbn. intros y Hy. destruct (i_down _ _ _ Ho y Hy) as (g & Hg & Hle & Hr). exists g. rewrite !Hn.
    destruct (old_num y Hy) as [-> _], (old_num g (i_gray _ _ _ Ho g Hg)) as [-> _]. done.
  - intros d Hd. rewrite scc_popped in Hd. destruct Hd as [Hd|[Hd Hlen]]; [by apply i_sound0|].
    rewrite Hd. by apply component_c.
  - intros a b Ha Hne Hab Hba. rewrite done_popped in Ha. destruct Ha as [Ha|Ha].
    + destruct (i_complete0 a b Ha Hne Hab Hba) as (d & Hd & Hin). exists d. split; [|done].
      apply scc_popped. by left.
    + exists c. split; [|done]. apply scc_popped. right. split; [done|]. pose proof (component_maximal a b Ha Hab Hba) as Hb.
      by apply (two_elements a b).
  - intros d x Hd Hx. apply done_popped. rewrite scc_popped in Hd. destruct Hd as [Hd|[Hd _]].
    + left. by apply (i_off0 d).
    + right. by rewrite <- Hd.
  - apply scc_once.
Qed.

Lemma leave_root_post : post G v s0 s'.
Proof.
  pose proof (l_old _ _ _ _ _ _ _ Hl) as Ho. constructor.
  - intros x Hx. unfold s'. cbn. rewrite lookup_offs, (l_frame _ _ _ _ _ _ _ Hl x Hx).
    destruct (nodes s0 !! x); [|done]. simpl. f_equal. destruct (decide (x ∈ c)) as [Hin|]; [|done].
    destruct (component_numbered x Hin) as (_ & _ & ?). done.
  - unfold s'. rewrite num_popped. by eapply loop_numbered.
  - exists []. split_and!; [done|set_solver|]. left. split; [done|]. unfold s'.
    rewrite low_popped, Hroot, (l_num _ _ _ _ _ _ _ Hl). done.
Qed.

End root.

Lemma leave : inv G gray (finish_node v s) ∧ post G v s0 (finish_node v s).
Proof.
  destruct (numbered_node _ _ (loop_numbered _ _ _ _ _ _ _ Hl)) as [w Hw]. unfold finish_node. rewrite Hw.
  assert (low s v = low_link_ w) as El by (unfold low; by rewrite Hw).
  assert (num s v = index_ w) as En by (unfold num; by rewrite Hw).
  destruct (Z.eqb_spec (low_link_ w) (index_ w)) as [E|E]; [|apply leave_inner; congruence].
  rewrite Hs, pop_spec; simpl.
  - split; [apply leave_root_inv|apply leave_root_post]; congruence.
  - intros Hin. apply new_above in Hin. lia.
  - intros x Hx. apply numbered_node, (i_seen _ _ _ (l_inv _ _ _ _ _ _ _ Hl)). by apply component_numbered.
Qed.

End leave.

(** ** The whole search *)

Lemma strong_connect_connects G (Hclosed : ∀ v w, edge G v w → has_node G w) fuel :
  connects G fuel (strong_connect (S fuel)).
Proof.
  induction fuel as [fuel IH] using lt_wf_ind. intros gray v s Hi Hn Hz Hg Hw.
  assert (v ∈ dom (nodes s)) as Hdom. { apply elem_of_dom. by apply (has_node_nodes _ _ _ _ Hi). }
  pose proof (loop_start _ _ _ _ Hi Hn Hz Hg) as Hl0.
  assert (whites (enter v s) < whites s)%nat as Hlt.
  { apply (whites_decr s (enter v s) v); try done.
    - by rewrite (dom_inv _ _ _ (l_inv _ _ _ _ _ _ _ Hl0)), (dom_inv _ _ _ Hi).
    - apply frame_mono, (l_frame _ _ _ _ _ _ _ Hl0).
    - by eapply loop_numbered. }
  destruct fuel as [|fuel]; [lia|].
  change (strong_connect (S (S fuel)) v s) with
    (match visit (strong_connect (S fuel)) v (from_option (fun w => elements (in_set_ w)) [] (nodes (enter v s) !! v)) (enter v s)
     with None => None | Some s => Some (finish_node v s) end).
  assert (∀ x, x ∈ from_option (fun w => elements (in_set_ w)) [] (nodes (enter v s) !! v) ↔ edge G v x) as Hsucc.
  { intros x. rewrite <- (i_graph _ _ _ (l_inv _ _ _ _ _ _ _ Hl0)). unfold edge, graph. rewrite lookup_fmap.
    destruct (nodes (enter v s) !! v) as [w|]; simpl.
    - rewrite elem_of_elements. split; [by eexists|]. intros (X & [= <-] & Hx). done.
    - split; [set_solver|]. intros (X & [=] & _). }
  destruct (visit_loop G Hclosed fuel (strong_connect (S fuel)) gray v s _ (IH fuel ltac:(lia)) (fun x => proj1 (Hsucc x))
    [] (enter v s) Hl0 ltac:(lia)) as (s' & seen & -> & Hl & _ & Hall).
  destruct (l_stack _ _ _ _ _ _ _ Hl) as (new & Hs & Hnew). exists (finish_node v s'). split; [done|].
  apply (leave G gray v s s' seen new Hl Hs Hnew). intros x Hx. by apply Hall, Hsucc.
Qed.

Lemma inv_start ns : (∀ x w, ns !! x = Some w → index_ w = 0 ∧ on_stack_ w = false) →
  inv (graph ns) ∅ (mk_search ns 1 [] []).
Proof.
  intros Hns. assert (∀ x, num (mk_search ns 1 [] []) x = 0) as Hn.
  { intros x. unfold num. cbn. destruct (ns !! x) eqn:E; [|done]. by apply (Hns x). }
  constructor; try done; cbn; try set_solver.
  - intros x. rewrite Hn. lia.
  - intros x. unfold on. cbn. destruct (ns !! x) eqn:E; simpl; [|set_solver].
    destruct (Hns x _ E) as [_ ->]. set_solver.
  - constructor.
  - intros x w [Hx _]. by rewrite Hn in Hx.
  - intros a b [Ha _]. by rewrite Hn in Ha.
  - constructor.
Qed.

Lemma search_all_spec G (Hclosed : ∀ v w, edge G v w → has_node G w) n vs s :
  inv G ∅ s → (whites s ≤ n)%nat →
  ∃ s', search_all (S n) vs s = Some s' ∧ inv G ∅ s' ∧ (∀ x, num s x ≠ 0 → num s' x ≠ 0) ∧
    ∀ x, x ∈ vs → has_node G x → num s' x ≠ 0.
Proof.
  revert s. induction vs as [|v vs IH]; intros s Hi Hw; cbn [search_all].
  { exists s. split_and!; try done. set_solver. }
  assert (∀ s1, inv G ∅ s1 → (∀ x, num s x ≠ 0 → num s1 x ≠ 0) → (has_node G v → num s1 v ≠ 0) →
    ∃ s', search_all (S n) vs s1 = Some s' ∧ inv G ∅ s' ∧ (∀ x, num s x ≠ 0 → num s' x ≠ 0) ∧
    ∀ x, x ∈ v :: vs → has_node G x → num s' x ≠ 0) as Hnext.
  { intros s1 Hi1 Hm Hv. destruct (IH s1 Hi1) as (s' & ? & ? & Hm' & Hall).
    { etrans; [|exact Hw]. apply whites_mono; [|done]. by rewrite (dom_inv _ _ _ Hi1), (dom_inv _ _ _ Hi). }
    exists s'. split_and!; auto. intros x. rewrite elem_of_cons. intros [->|Hx]; auto. }
  destruct (nodes s !! v) as [w|] eqn:E.
  2:{ apply Hnext; try done. rewrite (has_node_nodes _ _ _ v Hi), E. by intros []. }
  assert (num s v = index_ w) as En by (unfold num; by rewrite E).
  destruct (Z.eqb_spec (index_ w) 0) as [E0|E0]; [|apply Hnext; try done; congruence].
  destruct (strong_connect_connects G Hclosed n ∅ v s Hi) as (s1 & -> & Hi1 & Hp); try done.
  { apply (has_node_nodes _ _ _ v Hi). by rewrite E. }
  { congruence. }
  apply Hnext; [done|apply frame_mono, (p_frame _ _ _ _ Hp)|]. intros _. apply (p_num _ _ _ _ Hp).
Qed.

(** ** The prepared graph *)

(** [prepare] adds a node without successors for each target of an edge. *)
Lemma prepare_keys m l x :
  foldl add_missing m l !! x = match m !! x with Some w => Some w | None => if decide (x ∈ l) then Some (new_wait ∅) else None end.
Proof.
  revert m. induction l as [|y l IH]; intros m; simpl; [by destruct (m !! x)|].
  rewrite IH. unfold add_missing. destruct (m !! y) eqn:E.
  - destruct (m !! x) eqn:E'; [done|]. destruct (decide (x ∈ l)), (decide (x ∈ y :: l)); set_solver.
  - destruct (decide (y = x)) as [->|Hne].
    + rewrite lookup_insert_eq, E. by rewrite decide_True by set_solver.
    + rewrite lookup_insert_ne by done. destruct (m !! x); [done|].
      destruct (decide (x ∈ l)), (decide (x ∈ y :: l)); set_solver.
Qed.

Lemma prepare_fold l m x :
  foldl (fun m (kv : Z * tx_wait) => foldl add_missing m (elements (in_set_ kv.2))) m l !! x =
  match m !! x with
  | Some w => Some w
  | None => if decide (Exists (fun kv => x ∈ in_set_ kv.2) l) then Some (new_wait ∅) else None
  end.
Proof.
  revert m. induction l as [|[k w] l IH]; intros m; cbn [foldl]; [by destruct (m !! x)|].
  rewrite IH, prepare_keys. cbn. destruct (m !! x); [done|].
  destruct (decide (x ∈ elements (in_set_ w))) as [Hx|Hx]; rewrite elem_of_elements in Hx.
  - rewrite decide_True; [done|]. by apply Exists_cons; left.
  - destruct (decide (Exists _ l)), (decide (Exists _ (_ :: l))) as [H|H]; try done.
    + destruct H. by apply Exists_cons; right.
    + apply Exists_cons in H as [H|H]; done.
Qed.

Lemma prepare_lookup ns x :
  prepare ns !! x = match ns !! x with
                    | Some w => Some (init w)
                    | None => if decide (Exists (fun kv => x ∈ in_set_ kv.2) (map_to_list (init <$> ns)))
                              then Some (new_wait ∅) else None
                    end.
Proof. unfold prepare. rewrite prepare_fold, lookup_fmap. by destruct (ns !! x). Qed.

Lemma prepare_edge ns v w : edge (graph (prepare ns)) v w ↔ edge (graph ns) v w.
Proof.
  unfold edge, graph. rewrite !lookup_fmap, prepare_lookup. destruct (ns !! v) as [u|]; simpl; [done|].
  destruct (decide _); simpl; split; intros (X & HX & Hw); simplify_eq/=; set_solver.
Qed.

Lemma prepare_reach ns v w : reach (graph (prepare ns)) v w ↔ reach (graph ns) v w.
Proof. split; apply rtc_congruence with (f := id); intros; by apply prepare_edge. Qed.

Lemma prepare_closed ns v w : edge (graph (prepare ns)) v w → has_node (graph (prepare ns)) w.
Proof.
  rewrite prepare_edge. unfold edge, has_node, graph. rewrite !lookup_fmap, fmap_is_Some. intros (X & HX & Hw).
  rewrite prepare_lookup. destruct (ns !! w); [by eexists|]. rewrite decide_True; [by eexists|].
  apply fmap_Some in HX as (u & Hu & ->). apply Exists_exists. exists (v, init u). split; [|done].
  apply elem_of_map_to_list. by rewrite lookup_fmap, Hu.
Qed.

Lemma prepare_fresh ns x w : prepare ns !! x = Some w → index_ w = 0 ∧ on_stack_ w = false.
Proof. rewrite prepare_lookup. destruct (ns !! x); [by intros [= <-]|]. destruct (decide _); [by intros [= <-]|done]. Qed.

Lemma component_prepare ns c : component (graph (prepare ns)) c → component (graph ns) c.
Proof. intros (? & ? & H). split_and!; try done. intros a Ha b. rewrite (H a Ha b), !prepare_reach. done. Qed.

(** What the search promises its callers about the lists it reports. *)
Record finds (G : gmap Z (gset Z)) (cs : list (list Z)) : Prop := mk_finds {
  f_sound : ∀ c, c ∈ cs → component G c;
  f_once : NoDup (concat cs);
  f_complete : ∀ a b, a ≠ b → reach G a b → reach G b a → ∃ c, c ∈ cs ∧ a ∈ c ∧ b ∈ c;
}.

Lemma find_scc_ok ns : ∃ r, find_scc ns = Some r ∧ finds (graph ns) (scc r).
Proof.
  pose proof (inv_start (prepare ns) (prepare_fresh ns)) as Hi.
  destruct (search_all_spec _ (prepare_closed ns) (size (prepare ns)) (map fst (map_to_list (prepare ns))) _ Hi)
    as (r & Hr & Hi' & _ & Hall).
  { unfold whites. rewrite <- size_dom. apply subseteq_size. cbn. set_solver. }
  exists r. split; [exact Hr|]. constructor.
  - intros c Hc. by apply component_prepare, (i_sound _ _ _ Hi').
  - apply (i_once _ _ _ Hi').
  - intros a b Hne Hab Hba. rewrite <- prepare_reach in Hab, Hba.
    assert (done_ r a) as Hd.
    { split; [|intros Hin; destruct (i_down _ _ _ Hi' a Hin) as (g & Hg & _); set_solver].
      assert (has_node (graph (prepare ns)) a) as Hn.
      { apply rtc_inv_r in Hba as [->|(c & _ & He)]; [done|]. by eapply prepare_closed. }
      apply Hall; [|done]. unfold has_node, graph in Hn. rewrite lookup_fmap, fmap_is_Some in Hn.
      destruct Hn as [w Hw]. apply list_elem_of_fmap. exists (a, w). split; [done|]. by apply elem_of_map_to_list. }
    destruct (i_complete _ _ _ Hi' a b Hd Hne Hab Hba) as (c & Hc & Ha). exists c. split_and!; try done.
    destruct (i_sound _ _ _ Hi' c Hc) as (_ & _ & Hmax). by apply (Hmax a Ha).
Qed.

(** C16: The search for circles always returns.  Each list it reports is a
    strongly connected component of the wait-for graph with at least two
    transactions, no transaction is in two of them, and any two different
    transactions that wait for each other, directly or through others, are
    reported together. *)
Theorem find_scc_correct ns : ∃ r, find_scc ns = Some r ∧
  (∀ c, c ∈ scc r → component (graph ns) c) ∧
  NoDup (concat (scc r)) ∧
  ∀ a b, a ≠ b → reach (graph ns) a b → reach (graph ns) b a → ∃ c, c ∈ scc r ∧ a ∈ c ∧ b ∈ c.
Proof. destruct (find_scc_ok ns) as (r & ? & []). by exists r. Qed.

End TarjanScc.
