(* ===== verification/Deadlock.v ===== *)
(** * The deadlock detector of a node

    [src/concurrency/deadlock.cpp].  A node collects who waits for whom in its
    [wait_path].  With detection on, [detect] runs from a timer: it searches the
    graph for circles, picks one transaction of each as victim, and passes the
    graph on to the next node of the ring of shards.  With detection off,
    wait-die decides at once from the transaction ids.

    Every operation runs on the strand of the detector, one at a time.  The
    random draws and the clock are arguments: [rnd i] is the i-th draw of
    [uniform_int_distribution(0, 99)] in a round, [ms] the time in
    milliseconds.  The model follows the build with [DIST_DEADLOCK] and the
    shared-nothing database.  [removed_] and [notify_] are never used.

    - [detect_correct]: a round always ends, it makes one transaction of each
      circle a victim and no transaction that is not on a circle;
    - [wait_die_acyclic]: waits that wait-die lets stand never form a circle;
    - [forward_bounded]: a dependency message travels a bounded number of hops;
    - [dependency_roundtrip]: the graph a node sends is the graph the next node
      receives. *)

From S2P Require Import Prelude Common.
From S2P Require Import WaitPath TarjanScc.
#[local] Open Scope Z_scope.
#[local] Open Scope act_scope.

Module Deadlock.
Import WaitPath.WaitPath.
Import TarjanScc.TarjanScc.

(* @src include/concurrency/deadlock.h 15 37 deadlock *)
Record deadlock := mk_deadlock {
  wait_die_ : bool;
  detecting_ : bool;
  distributed_ : bool;
  send_to_node_ : Z;
  wait_path_ : tx_wait_set;
  dep_ : list dependency_set;
  set_ : list (Z * tx_wait);
  deadlock_detect_ms_ : Z;
  num_shard_ : Z;
  time_ms_ : Z;
}.
#[export] Instance eta_deadlock : Eta deadlock := fun d =>
  mk_deadlock (wait_die_ d) (detecting_ d) (distributed_ d) (send_to_node_ d) (wait_path_ d) (dep_ d) (set_ d)
    (deadlock_detect_ms_ d) (num_shard_ d) (time_ms_ d).

(** What the detector asks others to do: abort a transaction, send the graph to
    a node, arm its timer. *)
Inductive event :=
  | Victim (xid : Z)
  | SendDependency (node : Z) (ds : dependency_set)
  | StartTimer
  | PostWaitSet (xid : Z) (ws : tx_wait)
  | WaitAgain.

(* @src src/concurrency/deadlock.cpp 6 25 deadlock::deadlock *)
Definition new_deadlock (num_shard : Z) (deadlock_detection : bool) (detect_timeout_ms : Z) : deadlock :=
  mk_deadlock (negb deadlock_detection) false true 0 (mk_wait_set ∅ ∅ ∅) [] [] detect_timeout_ms num_shard 0.

(* @src src/concurrency/deadlock.cpp 27 40 deadlock::start *)
Definition start : act deadlock event := fun d => when (negb (wait_die_ d)) (emit StartTimer) d.

(* @src src/concurrency/deadlock.cpp 210 219 deadlock::async_victim *)
Definition async_victim (x : Z) : act deadlock event := emit (Victim x).

(* @src src/concurrency/deadlock.cpp 52 68 deadlock::add_wait_set *)
Definition add_wait_set (xid : Z) (ws : tx_wait) : act deadlock event := fun d =>
  if wait_die_ d then each (fun i => when (i <=? xid) (async_victim xid)) (elements (in_set_ ws)) d
  else if detecting_ d then modify (fun d => d <| set_ := set_ d ++ [(xid, ws)] |>) d
  else modify (fun d => d <| wait_path_ := add_wait xid ws (wait_path_ d) |>) d.

(* @src src/concurrency/deadlock.cpp 70 77 deadlock::add_dependency *)
Definition add_dependency (ds : dependency_set) : act deadlock event := fun d =>
  if detecting_ d then modify (fun d => d <| dep_ := dep_ d ++ [ds] |>) d
  else modify (fun d => d <| wait_path_ := add_dependency_set ds (wait_path_ d) |>) d.

(** The body is commented out in the source. *)
(* @src src/concurrency/deadlock.cpp 79 87 deadlock::gut_tx_finish *)
Definition gut_tx_finish (xid : Z) : act deadlock event := skip.

(* @src src/concurrency/deadlock.cpp 106 109 deadlock::set_next_node *)
Definition set_next_node (node_id : Z) : act deadlock event := modify (fun d => d <| send_to_node_ := node_id |>).

Definition clear_path : act deadlock event := modify (fun d => d <| wait_path_ := clear (wait_path_ d) |>).

(* @src src/concurrency/deadlock.cpp 111 140 deadlock::send_dependency *)
Definition send_dependency (ms seqno : Z) : act deadlock event := fun d =>
  if negb (distributed_ d) then clear_path d
  else if send_to_node_ d =? 0 then clear_path d
  else if (time_ms_ d <? ms) && (ms - time_ms_ d <? deadlock_detect_ms_ d) && (seqno =? 0) then skip d
  else (modify (fun d => d <| time_ms_ := ms |>) ;;
        emit (SendDependency (send_to_node_ d) (to_dependency_set seqno (wait_path_ d)))) d.

(** The shard count is a [uint32_t], so that its successor wraps. *)
(* @src src/concurrency/deadlock.cpp 142 150 deadlock::gut_recv_dependency *)
Definition gut_recv_dependency (ms : Z) (ds : dependency_set) : act deadlock event := fun d =>
  if u32 (num_shard_ d + 1) <=? sequence ds then clear_path d
  else (add_dependency ds ;; send_dependency ms (u64 (sequence ds + 1))) d.

(** What arrived during the previous round enters the graph. *)
(* @src src/concurrency/deadlock.cpp 153 169 deadlock::detect *)
Definition detect_begin (d : deadlock) : deadlock :=
  let wp := foldl (fun wp ds => add_dependency_set ds wp) (wait_path_ d) (dep_ d) in
  let wp := foldl (fun wp w => add_wait w.1 w.2 wp) wp (set_ d) in
  d <| wait_path_ := wp |> <| dep_ := [] |> <| set_ := [] |> <| detecting_ := true |>.

(* @src src/concurrency/deadlock.cpp 171 190 deadlock::detect *)
Definition choose_victim (n : Z) (circle : list Z) : option Z :=
  if decide (circle = []) then None
  else
    let len := Z.of_nat (length circle) in
    let index := u64 (len * n) / 100 in
    let index := if len <=? index then len - 1 else index in
    circle !! Z.to_nat index.

(** The callback once per circle, [i] numbering the draws. *)
Fixpoint choose_victims (rnd : nat → Z) (i : nat) (circles : list (list Z)) : list Z :=
  match circles with
  | [] => []
  | c :: cs => option_list (choose_victim (rnd i) c) ++ choose_victims rnd (S i) cs
  end.

(* @src src/concurrency/deadlock.cpp 194 201 deadlock::detect *)
Definition detect_end (xids : list Z) (d : deadlock) : deadlock :=
  d <| detecting_ := false |> <| wait_path_ := foldl (fun wp x => tx_victim x wp) (wait_path_ d) xids |>.

(* @src src/concurrency/deadlock.cpp 152 208 deadlock::detect *)
Definition detect (rnd : nat → Z) (ms : Z) (d : deadlock) : option (deadlock * list event) :=
  let d := detect_begin d in
  match detect_circle (wait_path_ d) with
  | None => None
  | Some (circles, wp) =>
      let d := detect_end (choose_victims rnd 0 circles) (d <| wait_path_ := wp |>) in
      Some ((each async_victim (elements (victim_ (wait_path_ d))) ;; send_dependency ms 0) d)
  end.

(* @src src/concurrency/deadlock.cpp 42 44 deadlock::tick *)
Definition tick := detect.

(** When the timer of a waiting operation fires it calls [fn_wait], code of the
    waiting transaction: [reports] are the wait sets that call hands back, each
    posted to [add_wait_set], and [exists_] whether the transaction still
    exists, in which case the timer is armed again. *)
(* @src src/concurrency/deadlock.cpp 223 252 deadlock::async_wait_lock *)
Definition async_wait_lock (failed exists_ : bool) (reports : list (Z * tx_wait)) : act deadlock event :=
  when (negb failed) (each (fun r => emit (PostWaitSet r.1 r.2)) reports ;; when exists_ (emit WaitAgain)).

(** ** Choosing victims *)

Lemma choose_victim_in n c : c ≠ [] → ∃ x, choose_victim n c = Some x ∧ x ∈ c.
Proof.
  intros Hc. unfold choose_victim. rewrite decide_False by done. cbv zeta.
  set (i := u64 (Z.of_nat (length c) * n) / 100).
  assert (0 ≤ i) as Hi.
  { apply Z.div_pos; [|lia]. apply (wrap_fits 64 (Z.of_nat (length c) * n)). lia. }
  assert (0 < length c)%nat by (destruct c; simpl; [done|lia]). clearbody i.
  destruct (lookup_lt_is_Some_2 c (Z.to_nat (if Z.of_nat (length c) <=? i then Z.of_nat (length c) - 1 else i))) as [x Hx].
  { case_test; [lia|]. apply Z.leb_gt in E. lia. }
  exists x. split; [done|]. by eapply list_elem_of_lookup_2.
Qed.

Lemma choose_victims_sound rnd i cs x : x ∈ choose_victims rnd i cs → ∃ c, c ∈ cs ∧ x ∈ c.
Proof.
  revert i. induction cs as [|c cs IH]; intros i; simpl; [set_solver|].
  rewrite elem_of_app. intros [Hx|Hx].
  - exists c. split; [set_solver|]. destruct (decide (c = [])) as [->|Hc]; [by apply elem_of_nil in Hx|].
    destruct (choose_victim_in (rnd i) c Hc) as (y & E & Hy). rewrite E in Hx. simpl in Hx. set_solver.
  - destruct (IH _ Hx) as (c' & ? & ?). exists c'. set_solver.
Qed.

Lemma choose_victims_complete rnd i cs c : c ∈ cs → c ≠ [] → ∃ x, x ∈ choose_victims rnd i cs ∧ x ∈ c.
Proof.
  revert i. induction cs as [|c' cs IH]; intros i Hc Hne; [set_solver|]. simpl.
  rewrite elem_of_cons in Hc. destruct Hc as [->|Hc].
  - destruct (choose_victim_in (rnd i) c' Hne) as (y & -> & Hy). exists y. simpl. set_solver.
  - destruct (IH (S i) Hc Hne) as (x & ? & ?). exists x. set_solver.
Qed.

(** Of disjoint circles at most one victim each. *)
Lemma choose_victims_one rnd i cs c x y :
  NoDup (concat cs) → c ∈ cs → x ∈ c → y ∈ c → x ∈ choose_victims rnd i cs → y ∈ choose_victims rnd i cs → x = y.
Proof.
  revert i. induction cs as [|c' cs IH]; intros i Hnd Hc Hx Hy; [set_solver|]. simpl in *.
  apply NoDup_app in Hnd as (_ & Hdis & Hnd). rewrite !elem_of_app.
  assert (∀ z d, z ∈ d → d ∈ cs → z ∈ concat cs) as Hcat.
  { intros z d Hz Hd. apply list_elem_of_In, in_concat. exists d. by rewrite <- !list_elem_of_In. }
  assert (∀ z, z ∈ option_list (choose_victim (rnd i) c') → z ∈ c') as Hhd.
  { intros z Hz. destruct (decide (c' = [])) as [->|Hne]; [by apply elem_of_nil in Hz|].
    destruct (choose_victim_in (rnd i) c' Hne) as (u & E & Hu). rewrite E in Hz. simpl in Hz. set_solver. }
  rewrite elem_of_cons in Hc. destruct Hc as [->|Hc].
  - intros [H1|H1] [H2|H2].
    + destruct (choose_victim (rnd i) c'); simpl in *; set_solver.
    + destruct (choose_victims_sound _ _ _ _ H2) as (d & ? & ?). destruct (Hdis y Hy). eauto.
    + destruct (choose_victims_sound _ _ _ _ H1) as (d & ? & ?). destruct (Hdis x Hx). eauto.
    + destruct (choose_victims_sound _ _ _ _ H1) as (d & ? & ?). destruct (Hdis x Hx). eauto.
  - intros [H1|H1] [H2|H2]; [| | |by eapply IH].
    all: try (apply Hhd in H1; destruct (Hdis x H1); exact (Hcat x c Hx Hc)).
    apply Hhd in H2. destruct (Hdis y H2). exact (Hcat y c Hy Hc).
Qed.

Lemma victims_added xs wp : victim_ (foldl (fun wp x => tx_victim x wp) wp xs) = victim_ wp ∪ list_to_set xs.
Proof. revert wp. induction xs as [|x xs IH]; intros wp; simpl; [set_solver|]. rewrite IH. cbn. set_solver. Qed.

(** ** A round of detection *)

Definition waits (d : deadlock) : gmap Z (gset Z) := graph (tx_wait_ (wait_path_ d)).
(** On a circle with another transaction. *)
Definition deadlocked (G : gmap Z (gset Z)) (a b : Z) : Prop := a ≠ b ∧ reach G a b ∧ reach G b a.

Lemma component_deadlocked G c x : component G c → x ∈ c → ∃ y, deadlocked G x y.
Proof.
  intros (Hlen & Hnd & Hc) Hx. destruct c as [|y [|z c]]; simpl in Hlen; [lia|lia|].
  assert (y ≠ z) as Hne by (inversion Hnd; set_solver).
  destruct (decide (x = y)) as [->|Hxy].
  - exists z. split; [done|]. by apply (Hc y Hx z); set_solver.
  - exists y. split; [done|]. by apply (Hc x Hx y); set_solver.
Qed.

Lemma send_dependency_no_victim ms q d x : Victim x ∉ (send_dependency ms q d).2.
Proof. unfold send_dependency. repeat case_test; cbn; set_solver. Qed.

Lemma victims_emitted ms xs d x :
  Victim x ∈ ((each async_victim xs ;; send_dependency ms 0) d).2 ↔ x ∈ xs.
Proof.
  rewrite and_then_eq. change (each async_victim xs d) with (each (fun x => emit (Victim x)) xs d).
  rewrite each_emit. cbn. rewrite elem_of_app, (list_elem_of_fmap Victim).
  pose proof (send_dependency_no_victim ms 0 d x). naive_solver.
Qed.

Lemma detect_eq rnd ms d : ∃ cs, finds (waits (detect_begin d)) cs ∧
  ∃ wp, victim_ wp = victim_ (wait_path_ (detect_begin d)) ∪ list_to_set (choose_victims rnd 0 cs) ∧
  detect rnd ms d = Some ((each async_victim (elements (victim_ wp)) ;; send_dependency ms 0)
    ((detect_begin d) <| detecting_ := false |> <| wait_path_ := wp |>)).
Proof.
  unfold detect, detect_circle. destruct (find_scc_ok (tx_wait_ (wait_path_ (detect_begin d)))) as (r & -> & Hf).
  exists (scc r). split; [done|].
  exists (foldl (fun wp x => tx_victim x wp) ((wait_path_ (detect_begin d)) <| tx_wait_ := nodes r |>)
    (choose_victims rnd 0 (scc r))).
  split; [by rewrite victims_added|reflexivity].
Qed.

Lemma detect_rounds rnd ms d : ∃ d' evs, detect rnd ms d = Some (d', evs) ∧
  let G := waits (detect_begin d) in let old := victim_ (wait_path_ (detect_begin d)) in
  (∀ a b, deadlocked G a b → ∃ x, Victim x ∈ evs ∧ reach G a x ∧ reach G x a) ∧
  (∀ x, Victim x ∈ evs → x ∈ old ∨ ∃ y, deadlocked G x y) ∧
  (∀ x y, Victim x ∈ evs → Victim y ∈ evs → x ∉ old → y ∉ old → ¬ deadlocked G x y).
Proof.
  destruct (detect_eq rnd ms d) as (r & [Hsound Honce Hcomplete] & wp & Hwp & ->).
  destruct ((each _ _ ;; _) _) as [d' evs] eqn:E. exists d', evs. split; [done|]. cbn zeta.
  assert (∀ x, Victim x ∈ evs ↔ x ∈ victim_ (wait_path_ (detect_begin d)) ∨ x ∈ choose_victims rnd 0 r) as Hev.
  { intros x. replace evs with ((d', evs).2) by done. rewrite <- E, victims_emitted, elem_of_elements, Hwp, elem_of_union, elem_of_list_to_set. done. }
  setoid_rewrite Hev. split_and!.
  - intros a b (Hne & Hab & Hba). destruct (Hcomplete a b Hne Hab Hba) as (c & Hc & Ha & _).
    destruct (choose_victims_complete rnd 0 r c Hc) as (x & Hx & Hxc); [by intros ->; apply elem_of_nil in Ha|].
    exists x. split; [by right|]. destruct (Hsound c Hc) as (_ & _ & Hmax). by apply (Hmax a Ha x).
  - intros x [Hx|Hx]; [by left|right]. destruct (choose_victims_sound _ _ _ _ Hx) as (c & Hc & Hxc).
    eapply component_deadlocked; eauto.
  - intros x y [Hx|Hx] [Hy|Hy] Hox Hoy (Hne & Hxy & Hyx); try done.
    destruct (Hcomplete x y Hne Hxy Hyx) as (c & Hc & Hxc & Hyc). apply Hne. by eapply choose_victims_one.
Qed.

(** C15: A round of detection always ends.  It tells the owner of some
    transaction of every circle to abort it, of no transaction that is not on a
    circle (victims of earlier rounds are told again), and of one only in each
    circle. *)
Theorem detect_correct rnd ms d : ∃ d' evs, detect rnd ms d = Some (d', evs) ∧
  let G := waits (detect_begin d) in let old := victim_ (wait_path_ (detect_begin d)) in
  (∀ a b, deadlocked G a b → ∃ x, Victim x ∈ evs ∧ reach G a x ∧ reach G x a) ∧
  (∀ x, Victim x ∈ evs → x ∈ old ∨ ∃ y, deadlocked G x y) ∧
  (∀ x y, Victim x ∈ evs → Victim y ∈ evs → x ∉ old → y ∉ old → ¬ deadlocked G x y).
Proof. apply detect_rounds. Qed.

(** ** Wait-die *)

Lemma add_wait_edge xid w s a b :
  edge (graph (tx_wait_ (add_wait xid w s))) a b ↔ edge (graph (tx_wait_ s)) a b ∨ (a = xid ∧ b ∈ in_set_ w).
Proof.
  unfold add_wait, edge, graph. cbn. rewrite !lookup_fmap. destruct (decide (xid = a)) as [->|Hne].
  - destruct (tx_wait_ s !! a) as [w'|]; rewrite lookup_insert_eq; simpl; naive_solver set_solver.
  - destruct (tx_wait_ s !! xid); rewrite lookup_insert_ne by done; naive_solver.
Qed.

Lemma add_waits_edge W s a b :
  edge (graph (tx_wait_ (foldl (fun wp w => add_wait w.1 w.2 wp) s W))) a b ↔
  edge (graph (tx_wait_ s)) a b ∨ ∃ w, (a, w) ∈ W ∧ b ∈ in_set_ w.
Proof.
  revert s. induction W as [|[x w] W IH]; intros s; simpl.
  { split; [auto|]. intros [|(w & Hw & _)]; [done|by apply elem_of_nil in Hw]. }
  rewrite IH, add_wait_edge. setoid_rewrite elem_of_cons. naive_solver.
Qed.

Lemma wait_die_stands xid w d :
  wait_die_ d = true → (add_wait_set xid w d).2 = [] → ∀ i, i ∈ in_set_ w → xid < i.
Proof.
  unfold add_wait_set. intros -> Hev i Hi. apply elem_of_elements in Hi. revert Hev Hi.
  generalize (elements (in_set_ w)) as l. induction l as [|j l IH]; [set_solver|]. simpl.
  rewrite and_then_eq. simpl. intros Hev Hi. apply app_eq_nil in Hev as [H1 H2].
  destruct (Z.leb_spec j xid); [done|]. apply elem_of_cons in Hi as [->|Hi]; [done|]. by apply IH.
Qed.

(** C31: With detection off, the waits that raise no victim form no circle. *)
Theorem wait_die_acyclic d W :
  wait_die_ d = true → (∀ x w, (x, w) ∈ W → (add_wait_set x w d).2 = []) →
  let G := graph (tx_wait_ (foldl (fun wp w => add_wait w.1 w.2 wp) (mk_wait_set ∅ ∅ ∅) W)) in
  ∀ a, ¬ tc (edge G) a a.
Proof.
  intros Hd HW G a Ha. assert (∀ x y, edge G x y → x < y) as Hlt.
  { intros x y He. apply add_waits_edge in He as [(X & HX & _)|(w & Hw & Hy)]; [done|].
    by eapply wait_die_stands; [|apply (HW x w Hw)|]. }
  assert (∀ x y, tc (edge G) x y → x < y) as Htc; [|specialize (Htc a a Ha); lia].
  induction 1 as [x y He|x y z He _ IH]; [by apply Hlt|]. specialize (Hlt _ _ He). lia.
Qed.

(** ** Passing the graph around the ring *)

Lemma add_in_edge X o s a b :
  edge (graph (tx_wait_ (add_in X o s))) a b ↔ edge (graph (tx_wait_ s)) a b ∨ (a = o ∧ b ∈ X).
Proof.
  unfold add_in, edge, graph. cbn. rewrite !lookup_fmap. destruct (decide (o = a)) as [->|Hne].
  - destruct (tx_wait_ s !! a) as [w'|]; rewrite lookup_insert_eq; simpl; naive_solver set_solver.
  - destruct (tx_wait_ s !! o); rewrite lookup_insert_ne by done; naive_solver.
Qed.

Lemma add_ins_edge l s a b :
  edge (graph (tx_wait_ (foldl (fun s d => add_in (list_to_set d.2) d.1 s) s l))) a b ↔
  edge (graph (tx_wait_ s)) a b ∨ ∃ X, (a, X) ∈ l ∧ b ∈ X.
Proof.
  revert s. induction l as [|[o X] l IH]; intros s; simpl.
  { split; [auto|]. intros [|(w & Hw & _)]; [done|by apply elem_of_nil in Hw]. }
  rewrite IH, add_in_edge. setoid_rewrite elem_of_cons. rewrite elem_of_list_to_set. naive_solver.
Qed.

Lemma add_ins_rest l s : let s' := foldl (fun s d => add_in (list_to_set d.2) d.1 s) s l in
  victim_ s' = victim_ s ∧ finish_ s' = finish_ s.
Proof. revert s. induction l as [|x l IH]; intros s; [done|]. cbn. destruct (IH (add_in (list_to_set x.2) x.1 s)) as [-> ->]. done. Qed.

Lemma add_victims_rest l s : let s' := foldl (fun s x => tx_victim x s) s l in
  tx_wait_ s' = tx_wait_ s ∧ finish_ s' = finish_ s.
Proof. revert s. induction l as [|x l IH]; intros s; [done|]. cbn. destruct (IH (tx_victim x s)) as [-> ->]. done. Qed.

Lemma finish_edge l s a b : let s' := foldl (fun s x => tx_finish x s) s l in
  (edge (graph (tx_wait_ s')) a b ↔ edge (graph (tx_wait_ s)) a b ∧ a ∉ l) ∧
  (a ∈ victim_ s' ↔ a ∈ victim_ s ∧ a ∉ l) ∧ (a ∈ finish_ s' ↔ a ∈ finish_ s ∨ a ∈ l).
Proof.
  revert s. induction l as [|x l IH]; intros s; [cbn; set_solver|]. cbn. destruct (IH (tx_finish x s)) as (-> & -> & ->).
  cbn. rewrite elem_of_cons. split_and!; [|set_solver|set_solver].
  unfold edge, graph. rewrite !lookup_fmap. destruct (decide (x = a)) as [->|Hne].
  - rewrite lookup_delete_eq. simpl. naive_solver.
  - rewrite lookup_delete_ne by done. naive_solver.
Qed.

Lemma received q s s0 a b :
  let r := add_dependency_set (to_dependency_set q s) s0 in
  (edge (graph (tx_wait_ r)) a b ↔
    (edge (graph (tx_wait_ s0)) a b ∨ edge (graph (tx_wait_ s)) a b) ∧ a ∉ finish_ s) ∧
  (a ∈ victim_ r ↔ (a ∈ victim_ s0 ∨ a ∈ victim_ s) ∧ a ∉ finish_ s) ∧
  (a ∈ finish_ r ↔ a ∈ finish_ s0 ∨ a ∈ finish_ s).
Proof.
  cbn zeta. unfold add_dependency_set. cbn [dep ds_victim ds_finish to_dependency_set].
  set (s1 := foldl _ s0 _). set (s2 := foldl _ s1 _).
  destruct (finish_edge (elements (finish_ s)) s2 a b) as (-> & -> & ->). rewrite elem_of_elements.
  destruct (add_victims_rest (elements (victim_ s)) s1) as [E1 E2]. fold s2 in E1, E2. rewrite E1, E2.
  unfold s2. rewrite victims_added, elem_of_union, elem_of_list_to_set, elem_of_elements.
  unfold s1. rewrite add_ins_edge. destruct (add_ins_rest (map (fun kv => (kv.1, elements (in_set_ kv.2))) (map_to_list (tx_wait_ s))) s0) as [-> ->].
  split_and!; [|done|done].
  enough ((∃ X, (a, X) ∈ map (fun kv => (kv.1, elements (in_set_ kv.2))) (map_to_list (tx_wait_ s)) ∧ b ∈ X)
    ↔ edge (graph (tx_wait_ s)) a b) as -> by done.
  unfold edge, graph. rewrite lookup_fmap. split.
  - intros (X & HX & Hb). apply list_elem_of_fmap in HX as ([k w] & [= -> ->] & Hk). apply elem_of_map_to_list in Hk.
    rewrite Hk. exists (in_set_ w). split; [done|]. by apply elem_of_elements.
  - intros (X & HX & Hb). apply fmap_Some in HX as (w & Hw & ->). exists (elements (in_set_ w)).
    split; [|by apply elem_of_elements]. apply list_elem_of_fmap. exists (a, w). split; [done|]. by apply elem_of_map_to_list.
Qed.

(** A node that receives the graph of another has the waits and the victims
    of both, less the transactions the sender knows to be finished. *)
Theorem dependency_roundtrip q s s0 a b :
  let r := add_dependency_set (to_dependency_set q s) s0 in
  (edge (graph (tx_wait_ r)) a b ↔
    (edge (graph (tx_wait_ s0)) a b ∨ edge (graph (tx_wait_ s)) a b) ∧ a ∉ finish_ s) ∧
  (a ∈ victim_ r ↔ (a ∈ victim_ s0 ∨ a ∈ victim_ s) ∧ a ∉ finish_ s) ∧
  (a ∈ finish_ r ↔ a ∈ finish_ s0 ∨ a ∈ finish_ s).
Proof. apply received. Qed.

(** A message and the one a node of a ring of [n] shards sends on for it. *)
Definition relay (n : Z) (ds ds' : dependency_set) : Prop :=
  ∃ d ms node, num_shard_ d = n ∧ SendDependency node ds' ∈ (gut_recv_dependency ms ds d).2.

Lemma relay_sequence n ds ds' :
  0 ≤ n < 2 ^ 32 - 1 → 0 ≤ sequence ds → relay n ds ds' → sequence ds ≤ n ∧ sequence ds' = sequence ds + 1.
Proof.
  intros Hn Hs (d & ms & node & <- & Hin). unfold gut_recv_dependency in Hin.
  rewrite (wrap_small 32) in Hin by (unfold fits; lia).
  destruct (Z.leb_spec (num_shard_ d + 1) (sequence ds)); [by apply elem_of_nil in Hin|].
  split; [lia|]. rewrite (wrap_small 64) in Hin by (unfold fits; lia).
  rewrite and_then_eq in Hin. cbn in Hin. unfold add_dependency at 1 in Hin.
  replace ((if detecting_ d then _ else _).2) with (@nil event) in Hin by by destruct (detecting_ d).
  cbn in Hin. unfold send_dependency in Hin. repeat case_test; cbn in Hin; try by apply elem_of_nil in Hin.
  apply list_elem_of_singleton in Hin. by injection Hin as _ ->.
Qed.

(** A dependency message is passed on at most once per shard and once more:
    in a ring of [n] shards a chain of relays has at most [n + 1] hops. *)
Theorem forward_bounded n k ds ds' :
  0 ≤ n < 2 ^ 32 - 1 → 0 ≤ sequence ds → nsteps (relay n) k ds ds' → Z.of_nat k ≤ n + 1.
Proof.
  intros Hn Hs Hk. enough (k = 0%nat ∨ sequence ds + Z.of_nat k ≤ n + 1) by lia.
  induction Hk as [|k x y z Hr _ IH]; [by left|right].
  destruct (relay_sequence n x y Hn Hs Hr) as [Hle Heq]. specialize (IH ltac:(lia)). lia.
Qed.

(** ** Between rounds *)

(** Rounds do not overlap with anything, so that the queues for waits that
    arrive during a round stay empty. *)
Definition idle (d : deadlock) : Prop := detecting_ d = false ∧ dep_ d = [] ∧ set_ d = [].

Inductive label :=
  | LAddWait (xid : Z) (ws : tx_wait)
  | LRecv (ms : Z) (ds : dependency_set)
  | LTick (rnd : nat → Z) (ms : Z)
  | LNext (node : Z)
  | LFinish (xid : Z).

Definition exec (l : label) (d : deadlock) : option (deadlock * list event) :=
  match l with
  | LAddWait xid ws => Some (add_wait_set xid ws d)
  | LRecv ms ds => Some (gut_recv_dependency ms ds d)
  | LTick rnd ms => tick rnd ms d
  | LNext node => Some (set_next_node node d)
  | LFinish xid => Some (gut_tx_finish xid d)
  end.

Lemma each_state {A} (f : A → act deadlock event) l d : (∀ x, (f x d).1 = d) → (each f l d).1 = d.
Proof.
  intros Hf. induction l as [|x l IH]; [done|]. simpl. rewrite and_then_eq. cbn. by rewrite Hf.
Qed.

Lemma send_dependency_idle ms q d : idle d → idle (send_dependency ms q d).1.
Proof. unfold send_dependency. by repeat case_test. Qed.

Lemma exec_idle l d d' evs : idle d → exec l d = Some (d', evs) → idle d'.
Proof.
  intros Hi. assert (detecting_ d = false) as Hd by apply Hi. destruct l; cbn [exec].
  - intros [= Hx]. replace d' with ((d', evs).1) by done. rewrite <- Hx. unfold add_wait_set. rewrite Hd.
    destruct (wait_die_ d); [|done]. rewrite each_state; [done|]. intros x. unfold when. by case_test.
  - intros [= Hx]. replace d' with ((d', evs).1) by done. rewrite <- Hx. unfold gut_recv_dependency.
    case_test; [done|]. rewrite and_then_eq. cbn. apply send_dependency_idle. unfold add_dependency. by rewrite Hd.
  - unfold tick. destruct (detect_eq rnd ms d) as (cs & _ & wp & _ & ->). intros [= Hx].
    replace d' with ((d', evs).1) by done. rewrite <- Hx, and_then_eq. cbn. apply send_dependency_idle.
    rewrite each_state; done.
  - by intros [= <- _].
  - by intros [= <- _].
Qed.

Lemma idle_begin d : idle d → wait_path_ (detect_begin d) = wait_path_ d.
Proof. intros (_ & Hdep & Hset). unfold detect_begin. rewrite Hdep, Hset. done. Qed.


(** ** Concrete runs *)

Definition node (detection : bool) (next : Z) (ws : list (Z * Z)) : deadlock :=
  foldl (fun d e => (add_wait_set e.1 (new_wait {[e.2]}) d).1)
    (set_next_node next (new_deadlock 2 detection 100)).1 ws.

Lemma wait_die_acyclic_witness :
  let G := graph (tx_wait_ (foldl (fun wp w => add_wait w.1 w.2 wp) (mk_wait_set ∅ ∅ ∅)
    [(1, new_wait {[2; 3]}); (2, new_wait {[3]})])) in
  ¬ tc (edge G) 1 1.
Proof.
  apply (wait_die_acyclic (node false 7 []) [(1, new_wait {[2; 3]}); (2, new_wait {[3]})]).
  - reflexivity.
  - intros x w Hw. rewrite !elem_of_cons, elem_of_nil in Hw.
    destruct Hw as [Hw|[Hw|[]]]; injection Hw as -> ->; vm_compute; reflexivity.
Defined.

Lemma forward_bounded_witness :
  let ds0 := mk_dep 0 [(1, [2])] [] [] in
  let ds1 := mk_dep 1 [(1, [2])] [] [] in
  let ds2 := mk_dep 2 [(1, [2])] [] [] in
  nsteps (relay 2) 2 ds0 ds2 ∧ 2 ≤ 2 + 1.
Proof.
  assert (∀ q, 0 ≤ q ≤ 1 → relay 2 (mk_dep q [(1, [2])] [] []) (mk_dep (q + 1) [(1, [2])] [] [])) as Hr.
  { intros q Hq. exists (node true 7 []), 500, 7. split; [reflexivity|].
    assert (q = 0 ∨ q = 1) as [-> | ->] by lia; vm_compute; apply elem_of_cons; by left. }
  assert (nsteps (relay 2) 2 (mk_dep 0 [(1, [2])] [] []) (mk_dep 2 [(1, [2])] [] [])) as H2.
  { eapply nsteps_l; [apply (Hr 0); lia|]. eapply nsteps_l; [apply (Hr 1); lia|]. apply nsteps_O. }
  split; [exact H2|]. refine (forward_bounded 2 2 _ _ _ _ H2); cbn; lia.
Defined.


End Deadlock.
