(* ===== verification/Bytes.v ===== *)
(** * Bytes in memory

    What the wire formats and buffers share: a block of memory is a list of
    bytes, positions and sizes are integers as in the source ([size_t]),
    [memcpy] is [blit] and [slice], [std::vector::resize] is [vresize], and the
    [boost::endian] little-endian integers are [le] and [le_val]. *)

From S2P Require Import Prelude.
#[local] Open Scope Z_scope.

Definition zlen {A} (l : list A) : Z := Z.of_nat (length l).
Definition ztake {A} (n : Z) (l : list A) : list A := take (Z.to_nat n) l.
Definition zdrop {A} (n : Z) (l : list A) : list A := drop (Z.to_nat n) l.

(** [n] bytes from [off]; [src] copied over the bytes from [off]. *)
Definition slice (off n : Z) (m : list Z) : list Z := ztake n (zdrop off m).
Definition blit (off : Z) (src m : list Z) : list Z := ztake off m ++ src ++ zdrop (off + zlen src) m.
Definition vresize (n : Z) (m : list Z) : list Z := ztake n m ++ replicate (Z.to_nat (n - zlen m)) 0.

(** [n] bytes of [x], least significant first. *)
Fixpoint le (n : nat) (x : Z) : list Z :=
  match n with
  | O => []
  | S n => x mod 256 :: le n (x / 256)
  end.

Fixpoint le_val (bs : list Z) : Z :=
  match bs with
  | [] => 0
  | b :: bs => b + 256 * le_val bs
  end.

(** ** Lengths *)

Lemma zlen_nonneg {A} (l : list A) : 0 ≤ zlen l.
Proof. unfold zlen. lia. Qed.

Lemma zlen_app {A} (l k : list A) : zlen (l ++ k) = zlen l + zlen k.
Proof. unfold zlen. rewrite length_app. lia. Qed.

Lemma zlen_nil {A} : zlen (@nil A) = 0.
Proof. done. Qed.

Lemma zlen_cons {A} (x : A) l : zlen (x :: l) = 1 + zlen l.
Proof. unfold zlen. simpl. lia. Qed.

Lemma zlen_ztake {A} n (l : list A) : 0 ≤ n → zlen (ztake n l) = Z.min n (zlen l).
Proof. unfold zlen, ztake. rewrite length_take. lia. Qed.

Lemma zlen_zdrop {A} n (l : list A) : 0 ≤ n → zlen (zdrop n l) = Z.max 0 (zlen l - n).
Proof. unfold zlen, zdrop. rewrite length_drop. lia. Qed.

Lemma zlen_slice off n m : 0 ≤ off → 0 ≤ n → off + n ≤ zlen m → zlen (slice off n m) = n.
Proof. intros. unfold slice. rewrite zlen_ztake, zlen_zdrop by lia. lia. Qed.

Lemma zlen_blit off src m : 0 ≤ off → off + zlen src ≤ zlen m → zlen (blit off src m) = zlen m.
Proof.
  intros. pose proof (zlen_nonneg src). unfold blit. rewrite !zlen_app, zlen_ztake, zlen_zdrop by lia. lia.
Qed.

Lemma zlen_vresize n m : 0 ≤ n → zlen (vresize n m) = n.
Proof. intros. unfold vresize. rewrite zlen_app, zlen_ztake by lia. unfold zlen. rewrite length_replicate. lia. Qed.

Lemma zlen_le n x : zlen (le n x) = Z.of_nat n.
Proof. revert x. induction n as [|n IH]; intros x; [done|]. cbn [le]. rewrite zlen_cons, IH. lia. Qed.

(** ** Taking and dropping *)

Lemma ztake_all {A} n (l : list A) : zlen l ≤ n → ztake n l = l.
Proof. unfold zlen, ztake. intros. apply take_ge. lia. Qed.

Lemma zdrop_all {A} n (l : list A) : zlen l ≤ n → zdrop n l = [].
Proof. unfold zlen, zdrop. intros. apply drop_ge. lia. Qed.

Lemma zdrop_0 {A} (l : list A) : zdrop 0 l = l.
Proof. done. Qed.

Lemma ztake_zdrop {A} n (l : list A) : ztake n l ++ zdrop n l = l.
Proof. apply take_drop. Qed.

Lemma zdrop_zdrop {A} n m (l : list A) : 0 ≤ n → 0 ≤ m → zdrop n (zdrop m l) = zdrop (m + n) l.
Proof. intros. unfold zdrop. rewrite drop_drop. f_equal. lia. Qed.

Lemma ztake_app_le {A} n (l k : list A) : n ≤ zlen l → ztake n (l ++ k) = ztake n l.
Proof. unfold zlen, ztake. intros. apply take_app_le. lia. Qed.

Lemma ztake_app_len {A} n (l k : list A) : n = zlen l → ztake n (l ++ k) = l.
Proof. intros ->. rewrite ztake_app_le by lia. by apply ztake_all. Qed.

Lemma zdrop_app_len {A} n (l k : list A) : n = zlen l → zdrop n (l ++ k) = k.
Proof. intros ->. unfold zlen, zdrop. rewrite Nat2Z.id. apply drop_app_length. Qed.

Lemma zdrop_app_le {A} n (l k : list A) : n ≤ zlen l → zdrop n (l ++ k) = zdrop n l ++ k.
Proof. unfold zlen, zdrop. intros. apply drop_app_le. lia. Qed.

Lemma zdrop_app_ge {A} n (l k : list A) : zlen l ≤ n → zdrop n (l ++ k) = zdrop (n - zlen l) k.
Proof. unfold zlen, zdrop. intros. rewrite drop_app_ge by lia. f_equal. lia. Qed.

Lemma ztake_ztake {A} n m (l : list A) : 0 ≤ n ≤ m → ztake n (ztake m l) = ztake n l.
Proof. intros. unfold ztake. rewrite take_take. f_equal. lia. Qed.

Lemma zdrop_ztake {A} n m (l : list A) : 0 ≤ n ≤ m → zdrop n (ztake m l) = ztake (m - n) (zdrop n l).
Proof. intros. unfold ztake, zdrop. rewrite skipn_firstn_comm. f_equal. lia. Qed.

(** A slice of a slice, and two neighbouring slices. *)
Lemma slice_split a n k m : 0 ≤ a → 0 ≤ n → 0 ≤ k → slice a (n + k) m = slice a n m ++ slice (a + n) k m.
Proof.
  intros. unfold slice. rewrite <- (zdrop_zdrop n a) by lia.
  generalize (zdrop a m) as l. intros l. unfold ztake, zdrop. rewrite Z2Nat.inj_add by lia. by rewrite take_take_drop.
Qed.

Lemma slice_full m : slice 0 (zlen m) m = m.
Proof. unfold slice. rewrite zdrop_0. by apply ztake_all. Qed.

Lemma slice_zero a m : slice a 0 m = [].
Proof. done. Qed.

(** ** Writing *)

(** Up to the end of the copied bytes the memory is the old prefix and [src]. *)
Lemma ztake_blit off src m :
  0 ≤ off → off + zlen src ≤ zlen m → ztake (off + zlen src) (blit off src m) = ztake off m ++ src.
Proof.
  intros. unfold blit. rewrite app_assoc. apply ztake_app_len. pose proof (zlen_nonneg src).
  rewrite zlen_app, zlen_ztake by lia. lia.
Qed.

Lemma slice_blit off src m : 0 ≤ off → off + zlen src ≤ zlen m → slice off (zlen src) (blit off src m) = src.
Proof.
  intros. pose proof (zlen_nonneg src). unfold slice, blit. rewrite zdrop_app_len; [by apply ztake_app_len|].
  rewrite zlen_ztake by lia. lia.
Qed.

Lemma slice_blit_before a n off src m :
  0 ≤ a → 0 ≤ n → a + n ≤ off → off + zlen src ≤ zlen m → slice a n (blit off src m) = slice a n m.
Proof.
  intros. pose proof (zlen_nonneg src). unfold slice, blit.
  rewrite <- (ztake_zdrop off m) at 3.
  rewrite !zdrop_app_le, !ztake_app_le; rewrite ?zlen_zdrop, ?zlen_ztake by lia; try lia. done.
Qed.

Lemma zdrop_blit a off src m :
  0 ≤ off → off + zlen src ≤ a → off + zlen src ≤ zlen m → zdrop a (blit off src m) = zdrop a m.
Proof.
  intros. pose proof (zlen_nonneg src). unfold blit. rewrite app_assoc, zdrop_app_ge.
  - rewrite zdrop_zdrop; rewrite ?zlen_app, ?zlen_ztake by lia; try lia. f_equal. lia.
  - rewrite zlen_app, zlen_ztake by lia. lia.
Qed.

Lemma slice_blit_after a n off src m :
  0 ≤ off → off + zlen src ≤ a → off + zlen src ≤ zlen m → slice a n (blit off src m) = slice a n m.
Proof. intros. unfold slice. by rewrite zdrop_blit. Qed.

(** Resizing keeps what lies below both sizes. *)
Lemma slice_vresize a n k m :
  0 ≤ a → 0 ≤ n → a + n ≤ k → a + n ≤ zlen m → slice a n (vresize k m) = slice a n m.
Proof.
  intros. unfold slice, vresize. rewrite <- (ztake_zdrop k m) at 3.
  rewrite !zdrop_app_le, !ztake_app_le; rewrite ?zlen_zdrop, ?zlen_ztake by lia; try lia. done.
Qed.

(** ** Little-endian integers *)

Lemma le_val_le n x : le_val (le n x) = x mod 256 ^ Z.of_nat n.
Proof.
  revert x. induction n as [|n IH]; intros x; cbn [le le_val].
  - by rewrite Z.mod_1_r.
  - rewrite IH, Nat2Z.inj_succ, Z.pow_succ_r by lia.
    rewrite Z.rem_mul_r by lia. done.
Qed.

Lemma le_val_small n x : 0 ≤ x < 256 ^ Z.of_nat n → le_val (le n x) = x.
Proof. intros. rewrite le_val_le. by apply Z.mod_small. Qed.

#[global] Arguments le : simpl never.
#[global] Arguments slice : simpl never.
#[global] Arguments blit : simpl never.
#[global] Arguments vresize : simpl never.

#[export] Hint Rewrite @zlen_app @zlen_nil @zlen_cons zlen_le : tddb.

(** Two ways to cut the same bytes. *)
Lemma cut_longer {A} (a r f s : list A) : a ++ r = f ++ s → zlen f ≤ zlen a → ∃ a', a = f ++ a' ∧ a' ++ r = s.
Proof.
  intros E Hle. exists (zdrop (zlen f) a).
  assert (ztake (zlen f) a = f) as Ef.
  { rewrite <- (ztake_app_le (zlen f) a r), E by done. by apply ztake_app_len. }
  split; [rewrite <- Ef at 1; by rewrite ztake_zdrop|].
  rewrite <- (zdrop_app_le (zlen f) a r), E by done. by apply zdrop_app_len.
Qed.

Lemma cut_shorter {A} (a r f s : list A) : a ++ r = f ++ s → zlen a ≤ zlen f → a = ztake (zlen a) f.
Proof.
  intros E Hle. rewrite <- (ztake_app_le _ f s), <- E by done. symmetry. by apply ztake_app_len.
Qed.
