(* ===== verification/ByteBuffer.v ===== *)
(** * Byte buffers

    [include/common/byte_buffer.h]: a vector of bytes with a read and a write
    position; the bytes in between ([window]) are the contents.  A failed
    assertion, and a copy past the end of the vector, is [None].

    The theorems say that [write] appends to the contents and [read] takes from
    their front or both report [EC_INSUFFICIENT_SPACE] and change nothing, so
    that the buffer is a bounded queue ([write_read_queue]), and when [append]
    is right and when not. *)

From S2P Require Import Prelude Common.
From S2P Require Import Bytes.
#[local] Open Scope Z_scope.

Module ByteBuffer.

(* @src include/common/variable.h 13 13 MESSAGE_BUFFER_SIZE *)
Definition MESSAGE_BUFFER_SIZE : Z := 8192.

(* @src include/common/byte_buffer.h 141 145 byte_buffer *)
Record byte_buffer := mk_buffer {
  data_ : list Z;
  write_pos_ : Z;
  read_pos_ : Z;
}.
#[export] Instance eta_buffer : Eta byte_buffer := fun b => mk_buffer (data_ b) (write_pos_ b) (read_pos_ b).

(* @src include/common/byte_buffer.h 31 31 byte_buffer::byte_buffer *)
Definition new_buffer (n : Z) : byte_buffer := mk_buffer (replicate (Z.to_nat n) 0) 0 0.

(* @src include/common/byte_buffer.h 25 25 byte_buffer::byte_buffer *)
Definition default_buffer : byte_buffer := new_buffer MESSAGE_BUFFER_SIZE.

(* @src include/common/byte_buffer.h 37 37 byte_buffer::size *)
Definition size (b : byte_buffer) : Z := zlen (data_ b).

(* @src include/common/byte_buffer.h 128 128 byte_buffer::read_available_size *)
Definition read_available_size (b : byte_buffer) : Z := u64 (write_pos_ b - read_pos_ b).

(* @src include/common/byte_buffer.h 130 130 byte_buffer::write_available_size *)
Definition write_available_size (b : byte_buffer) : Z := u64 (size b - write_pos_ b).

(* @src include/common/byte_buffer.h 63 66 byte_buffer::resize_capacity *)
Definition resize_capacity (n : Z) (b : byte_buffer) : option byte_buffer :=
  if (write_pos_ b <=? n) && (read_pos_ b <=? n) then Some (b <| data_ := vresize n (data_ b) |>) else None.

(* @src include/common/byte_buffer.h 68 73 byte_buffer::resize_write_available_size *)
Definition resize_write_available_size (new_size : Z) (b : byte_buffer) : byte_buffer :=
  if write_available_size b <? new_size then b <| data_ := vresize (new_size + write_pos_ b) (data_ b) |> else b.

(* @src include/common/byte_buffer.h 75 83 byte_buffer::reset *)
Definition reset (b : byte_buffer) : byte_buffer := b <| read_pos_ := 0 |> <| write_pos_ := 0 |>.

(** [read_begin] asserts, [memcpy] needs the room. *)
(* @src include/common/byte_buffer.h 85 92 byte_buffer::append *)
Definition append (src b : byte_buffer) : option byte_buffer :=
  let n := read_available_size src in
  let b := if size b <? write_pos_ b + n then b <| data_ := vresize (write_pos_ src + n) (data_ b) |> else b in
  if (write_pos_ b + n <=? size b) && (read_pos_ src <? size src) then
    Some (b <| data_ := blit (write_pos_ b) (slice (read_pos_ src) n (data_ src)) (data_ b) |>
            <| write_pos_ := write_pos_ b + write_pos_ src |>)
  else None.

(* @src include/common/byte_buffer.h 94 102 byte_buffer::write *)
Definition write (bs : list Z) (b : byte_buffer) : EC + byte_buffer :=
  if size b <? write_pos_ b + zlen bs then inl EC_INSUFFICIENT_SPACE
  else inr (b <| data_ := blit (write_pos_ b) bs (data_ b) |> <| write_pos_ := write_pos_ b + zlen bs |>).

(* @src include/common/byte_buffer.h 104 112 byte_buffer::read *)
Definition read (n : Z) (b : byte_buffer) : EC + (list Z * byte_buffer) :=
  if write_pos_ b <? read_pos_ b + n then inl EC_INSUFFICIENT_SPACE
  else inr (slice (read_pos_ b) n (data_ b), b <| read_pos_ := read_pos_ b + n |>).

(* @src include/common/byte_buffer.h 114 118 byte_buffer::set_read_pos *)
Definition set_read_pos (r : Z) (b : byte_buffer) : option byte_buffer :=
  if (r <=? size b) && (r <=? write_pos_ b) then Some (b <| read_pos_ := r |>) else None.

(* @src include/common/byte_buffer.h 122 126 byte_buffer::set_write_pos *)
Definition set_write_pos (w : Z) (b : byte_buffer) : option byte_buffer :=
  if (w <=? size b) && (read_pos_ b <=? w) then Some (b <| write_pos_ := w |>) else None.

(** ** Contents *)

(** The comment of the class: [read_pos, write_pos) is valid and write_pos <=
    size; sizes are 64-bit. *)
Definition wf (b : byte_buffer) : Prop := 0 ≤ read_pos_ b ≤ write_pos_ b ∧ write_pos_ b ≤ size b < 2 ^ 64.
Definition window (b : byte_buffer) : list Z := slice (read_pos_ b) (write_pos_ b - read_pos_ b) (data_ b).

Lemma read_available b : wf b → read_available_size b = write_pos_ b - read_pos_ b.
Proof. intros [? ?]. apply wrap_small. unfold fits. lia. Qed.

Lemma write_available b : wf b → write_available_size b = size b - write_pos_ b.
Proof. intros [? ?]. apply wrap_small. unfold fits. lia. Qed.

Lemma zlen_window b : wf b → zlen (window b) = write_pos_ b - read_pos_ b.
Proof. intros [? ?]. unfold window, size in *. rewrite zlen_slice; lia. Qed.

Lemma wf_new n : 0 ≤ n < 2 ^ 64 → wf (new_buffer n) ∧ window (new_buffer n) = [].
Proof. intros Hn. split; [|done]. unfold wf, size, new_buffer, zlen. cbn [data_ write_pos_ read_pos_]. rewrite length_replicate. lia. Qed.

(** Bytes stored at the end of the contents, with the position moved. *)
Lemma window_put b bs d :
  wf b → write_pos_ b + zlen bs ≤ size b → d = blit (write_pos_ b) bs (data_ b) →
  let b' := mk_buffer d (write_pos_ b + zlen bs) (read_pos_ b) in wf b' ∧ window b' = window b ++ bs ∧ size b' = size b.
Proof.
  intros [H1 H2] Hfit ->. pose proof (zlen_nonneg bs). unfold size in *.
  assert (zlen (blit (write_pos_ b) bs (data_ b)) = zlen (data_ b)) as El by (apply zlen_blit; lia).
  unfold wf, window, size. cbn. rewrite El. split_and!; try lia.
  replace (write_pos_ b + zlen bs - read_pos_ b) with ((write_pos_ b - read_pos_ b) + zlen bs) by lia.
  rewrite slice_split by lia. rewrite slice_blit_before by lia.
  replace (read_pos_ b + (write_pos_ b - read_pos_ b)) with (write_pos_ b) by lia. by rewrite slice_blit by lia.
Qed.

(** Resizing keeps the contents. *)
Lemma window_resize b n :
  wf b → write_pos_ b ≤ n < 2 ^ 64 →
  let b' := b <| data_ := vresize n (data_ b) |> in wf b' ∧ window b' = window b ∧ size b' = n.
Proof.
  intros [H1 H2] Hn. unfold wf, window, size in *. cbn. rewrite zlen_vresize by lia. split_and!; try lia.
  apply slice_vresize; lia.
Qed.

Lemma write_cases bs b : wf b →
  if size b <? write_pos_ b + zlen bs then write bs b = inl EC_INSUFFICIENT_SPACE
  else ∃ b', write bs b = inr b' ∧ wf b' ∧ window b' = window b ++ bs ∧ size b' = size b ∧
         read_pos_ b' = read_pos_ b ∧ write_pos_ b' = write_pos_ b + zlen bs.
Proof.
  intros Hwf. unfold write. destruct (Z.ltb_spec (size b) (write_pos_ b + zlen bs)); [done|].
  eexists. split; [reflexivity|]. destruct (window_put b bs _ Hwf ltac:(lia) eq_refl) as (? & ? & ?). done.
Qed.

Lemma read_cases n b : wf b → 0 ≤ n →
  if zlen (window b) <? n then read n b = inl EC_INSUFFICIENT_SPACE
  else ∃ b', read n b = inr (ztake n (window b), b') ∧ wf b' ∧ window b' = zdrop n (window b) ∧
         data_ b' = data_ b ∧ read_pos_ b' = read_pos_ b + n ∧ write_pos_ b' = write_pos_ b.
Proof.
  intros Hwf Hn. rewrite zlen_window by done. destruct Hwf as [H1 H2]. unfold read, window.
  replace (write_pos_ b <? read_pos_ b + n) with (write_pos_ b - read_pos_ b <? n)
    by (destruct (Z.ltb_spec (write_pos_ b - read_pos_ b) n), (Z.ltb_spec (write_pos_ b) (read_pos_ b + n)); lia).
  destruct (Z.ltb_spec (write_pos_ b - read_pos_ b) n); [done|].
  exists (b <| read_pos_ := read_pos_ b + n |>). split; [|split; [|split; [|done]]].
  - unfold slice. by rewrite ztake_ztake by lia.
  - unfold wf, size in *. cbn. lia.
  - unfold slice. cbn. rewrite zdrop_ztake, zdrop_zdrop by lia. f_equal. lia.
Qed.

(** The buffer is a bounded queue of bytes: [write] appends all bytes or
    reports [EC_INSUFFICIENT_SPACE], [read] takes the oldest bytes or reports
    [EC_INSUFFICIENT_SPACE], and bytes written come out again in order. *)
Theorem write_read_queue b bs n :
  wf b → 0 ≤ n →
  (write bs b = inl EC_INSUFFICIENT_SPACE ∧ size b - write_pos_ b < zlen bs) ∨
  ∃ b', write bs b = inr b' ∧ wf b' ∧ window b' = window b ++ bs ∧
    ((read n b' = inl EC_INSUFFICIENT_SPACE ∧ zlen (window b ++ bs) < n) ∨
     ∃ b'' out, read n b' = inr (out, b'') ∧ wf b'' ∧ zlen out = n ∧ out ++ window b'' = window b ++ bs).
Proof.
  intros Hwf Hn. pose proof (write_cases bs b Hwf) as Hw. destruct (Z.ltb_spec (size b) (write_pos_ b + zlen bs)).
  { left. split; [done|lia]. }
  destruct Hw as (b' & Hw & Hwf' & Hwin & _). right. exists b'. split_and!; try done.
  pose proof (read_cases n b' Hwf' Hn) as Hr. destruct (Z.ltb_spec (zlen (window b')) n).
  { left. split; [done|]. by rewrite <- Hwin. }
  destruct Hr as (b'' & Hr & Hwf'' & Hwin' & _). right. exists b'', (ztake n (window b')).
  split_and!; try done; [rewrite zlen_ztake by done; lia|]. rewrite Hwin'. by rewrite ztake_zdrop.
Qed.

(** [append] of a buffer that has not been read, with room for it. *)
Lemma append_fits src b :
  wf src → wf b → read_pos_ src = 0 → 0 < size src → write_pos_ b + write_pos_ src ≤ size b →
  ∃ b', append src b = Some b' ∧ wf b' ∧ window b' = window b ++ window src ∧ size b' = size b ∧ read_pos_ b' = read_pos_ b
    ∧ write_pos_ b' = write_pos_ b + write_pos_ src.
Proof.
  intros Hs Hb H0 Hsz Hfit. pose proof (zlen_window src Hs) as Hlen. unfold append. rewrite (read_available src Hs), H0.
  rewrite H0, Z.sub_0_r in *.
  destruct (Z.ltb_spec (size b) (write_pos_ b + write_pos_ src)); [lia|].
  rewrite (proj2 (Z.leb_le _ _)) by lia. rewrite (proj2 (Z.ltb_lt _ _)) by lia. simpl.
  assert (slice 0 (write_pos_ src) (data_ src) = window src) as Ew by (unfold window; by rewrite H0, Z.sub_0_r).
  rewrite Ew. eexists. split; [reflexivity|].
  destruct (window_put b (window src) _ Hb ltac:(rewrite Hlen; lia) eq_refl) as (Hwf & Hwin & Hsize).
  rewrite Hlen in *. done.
Qed.

(** [append] computes the new size from the source's write position: when
    the destination holds more than the source it shrinks below its own write
    position and the copy runs past its end. *)
Theorem append_shrinks :
  ∃ src b, wf src ∧ wf b ∧ window b = [1; 2; 3; 4; 5; 6; 7; 8] ∧ window src = [9] ∧ append src b = None.
Proof.
  exists (mk_buffer [9] 1 0), (mk_buffer [1; 2; 3; 4; 5; 6; 7; 8] 8 0).
  split_and!; [..|done|done|vm_compute; done]; unfold wf; vm_compute; split_and!; congruence.
Qed.

(** [append] of a source that has been read in part moves the write position
    past what it copied, so that the contents end in bytes never written. *)
Theorem append_after_read :
  ∃ src b b', wf src ∧ wf b ∧ window b = [] ∧ window src = [7] ∧ append src b = Some b' ∧ window b' = [7; 0].
Proof.
  exists (mk_buffer [6; 7] 2 1), (mk_buffer [0; 0; 0] 0 0). eexists.
  split_and!; [..|done|done|vm_compute; done|done]; unfold wf; vm_compute; split_and!; congruence.
Qed.

Lemma write_read_queue_witness :
  ∃ b', write [1; 2; 3] (new_buffer 4) = inr b' ∧ ∃ b'' out, read 2 b' = inr (out, b'') ∧ out ++ window b'' = [1; 2; 3].
Proof.
  destruct (write_read_queue (new_buffer 4) [1; 2; 3] 2) as [[H _]|(b' & H & _ & _ & [[H' _]|(b'' & out & H' & _ & _ & Hout)])].
  - apply wf_new. lia.
  - lia.
  - vm_compute in H. discriminate.
  - vm_compute in H. injection H as <-. vm_compute in H'. discriminate.
  - exists b'. split; [done|]. exists b'', out. split; [done|]. by rewrite Hout.
Defined.

End ByteBuffer.
