(* ===== verification/MessageCodec.v ===== *)
(** * Messages on the wire

    [include/common/read_write_pb.hpp] in the build without
    [DEBUG_NETWORK_SEND_RECV] and [TEST_NETWORK_TIME]: a message is a header of
    ten bytes (type and total length, little-endian and unaligned) and the
    serialized protobuf, [body] here.  Serialization itself is protobuf's; the
    code relies on [SerializeToArray] storing [ByteSizeLong] bytes. *)

From S2P Require Import Prelude Common.
From S2P Require Import Bytes ByteBuffer.
#[local] Open Scope Z_scope.

Module MessageCodec.
Import ByteBuffer.ByteBuffer.

(* @src include/common/read_write_pb.hpp 50 63 msg_hdr *)
Record msg_hdr := mk_hdr { type_ : Z; length_ : Z }.

(* @src include/common/read_write_pb.hpp 164 164 msg_hdr::size *)
Definition hdr_size : Z := 10.

(** The bytes of a header and back. *)
Definition hdr_bytes (h : msg_hdr) : list Z := le 2 (type_ h) ++ le 8 (length_ h).
Definition bytes_hdr (bs : list Z) : msg_hdr := mk_hdr (le_val (ztake 2 bs)) (le_val (zdrop 2 bs)).

(* @src include/common/read_write_pb.hpp 116 122 msg_hdr::body_length *)
Definition body_length (h : msg_hdr) : Z := u64 (length_ h - hdr_size).

(** The [assert] before serializing fails or the header finds no room: [None],
    respectively [EC_INSUFFICIENT_SPACE]. *)
(* @src include/common/read_write_pb.hpp 169 230 proto_to_buf *)
Definition proto_to_buf (id : Z) (body : list Z) (b : byte_buffer) : option (EC + byte_buffer) :=
  let body_size := zlen body in
  let b := if write_available_size b <? hdr_size + body_size
           then resize_write_available_size (hdr_size + body_size) b else b in
  if size b <? body_size + hdr_size + write_pos_ b then None
  else if write_available_size b <? body_size then Some (inl EC_INSUFFICIENT_SPACE)
  else
    let b := b <| data_ := blit (write_pos_ b + hdr_size) body (data_ b) |> in
    let wpos := write_pos_ b in
    match write (hdr_bytes (mk_hdr id (body_size + hdr_size))) b with
    | inl e => match set_write_pos wpos b with Some _ => Some (inl e) | None => None end
    | inr b => match set_write_pos (wpos + hdr_size + body_size) b with Some b => Some (inr b) | None => None end
    end.

(** The position is kept in a [uint32_t] and asserted to fit. *)
(* @src include/common/read_write_pb.hpp 232 246 buf_to_msg_hdr *)
Definition buf_to_msg_hdr (b : byte_buffer) : option (EC + (msg_hdr * byte_buffer)) :=
  if read_available_size b <? hdr_size then Some (inl EC_INSUFFICIENT_SPACE)
  else if negb (u32 (read_pos_ b) =? read_pos_ b) then None
  else match read hdr_size b with
       | inl e => match set_read_pos (u32 (read_pos_ b)) b with Some _ => Some (inl e) | None => None end
       | inr (bs, b) => Some (inr (bytes_hdr bs, b))
       end.

(** ** Frames *)

(** A message type and its serialized body, and the bytes that carry it. *)
Definition message : Type := Z * list Z.
Definition frame (m : message) : list Z := hdr_bytes (mk_hdr m.1 (zlen m.2 + hdr_size)) ++ m.2.
#[global] Arguments frame : simpl never.
Definition stream (ms : list message) : list Z := concat (map frame ms).

(** Types have 16 bits and bodies at most half a gigabyte. *)
Definition wf_message (m : message) : Prop := 0 ≤ m.1 < 2 ^ 16 ∧ zlen m.2 ≤ 2 ^ 29.

Lemma zlen_hdr_bytes h : zlen (hdr_bytes h) = hdr_size.
Proof. unfold hdr_bytes. by rewrite zlen_app, !zlen_le. Qed.

Lemma zlen_frame m : zlen (frame m) = hdr_size + zlen m.2.
Proof. unfold frame. by rewrite zlen_app, zlen_hdr_bytes. Qed.

Lemma hdr_roundtrip h : 0 ≤ type_ h < 2 ^ 16 → 0 ≤ length_ h < 2 ^ 64 → bytes_hdr (hdr_bytes h) = h.
Proof.
  intros Ht Hl. unfold bytes_hdr, hdr_bytes. rewrite ztake_app_len, zdrop_app_len by by rewrite zlen_le.
  rewrite !le_val_small by done. by destruct h.
Qed.

Lemma proto_to_buf_frame id body b :
  wf b → size b + hdr_size + zlen body < 2 ^ 63 →
  ∃ b', proto_to_buf id body b = Some (inr b') ∧ wf b' ∧ window b' = window b ++ frame (id, body) ∧
    read_pos_ b' = read_pos_ b ∧ write_pos_ b' = write_pos_ b + hdr_size + zlen body ∧
    size b' = Z.max (size b) (write_pos_ b + hdr_size + zlen body).
Proof.
  intros Hwf Hbig. pose proof (zlen_nonneg body) as Hn. unfold proto_to_buf.
  set (b1 := if _ <? _ then _ else b).
  assert (wf b1 ∧ window b1 = window b ∧ size b1 = Z.max (size b) (write_pos_ b + hdr_size + zlen body) ∧
    write_pos_ b1 = write_pos_ b ∧ read_pos_ b1 = read_pos_ b) as (Hwf1 & Hwin1 & Hsz & Hw & Hr).
  { unfold b1, resize_write_available_size. rewrite (write_available b Hwf). pose proof Hwf as [? ?].
    destruct (Z.ltb_spec (size b - write_pos_ b) (hdr_size + zlen body)); cbn [write_pos_ read_pos_].
    - destruct (window_resize b (hdr_size + zlen body + write_pos_ b) Hwf) as (? & ? & ->); [unfold hdr_size in *; lia|].
      split_and!; try done; lia.
    - split_and!; try done; lia. }
  clearbody b1. rewrite (write_available b1 Hwf1). pose proof Hwf1 as [? ?]. unfold hdr_size in *.
  destruct (Z.ltb_spec (size b1) (zlen body + 10 + write_pos_ b1)); [lia|].
  destruct (Z.ltb_spec (size b1 - write_pos_ b1) (zlen body)); [lia|].
  set (h := mk_hdr id (zlen body + 10)). set (b2 := b1 <| data_ := blit (write_pos_ b1 + 10) body (data_ b1) |>).
  assert (zlen (data_ b2) = size b1) as Hlen by (unfold b2; cbn; apply zlen_blit; unfold size in *; lia).
  assert (wf b2 ∧ window b2 = window b1) as [Hwf2 Hwin2].
  { split; [unfold wf, size; rewrite Hlen; unfold b2; cbn; lia|].
    unfold window, b2. cbn. apply slice_blit_before; unfold size in *; lia. }
  pose proof (write_cases (hdr_bytes h) b2 Hwf2) as Hwr.
  assert (size b2 = size b1) as Hs2 by done.
  rewrite (zlen_hdr_bytes h) in Hwr. unfold hdr_size in Hwr.
  assert (write_pos_ b2 = write_pos_ b1) as Hw2 by done.
  destruct (Z.ltb_spec (size b2) (write_pos_ b2 + 10)); [lia|].
  destruct Hwr as (b3 & E3 & Hwf3 & Hwin3 & Hs3 & Hr3 & Hw3). rewrite E3.
  assert (read_pos_ b2 = read_pos_ b1) as Hr2 by done.
  unfold set_write_pos. rewrite (proj2 (Z.leb_le _ _)) by lia. rewrite (proj2 (Z.leb_le _ _)) by lia. simpl.
  eexists. split; [reflexivity|].
  assert (data_ b3 = blit (write_pos_ b1) (hdr_bytes h) (blit (write_pos_ b1 + 10) body (data_ b1))) as Hd3.
  { unfold write in E3. rewrite (zlen_hdr_bytes h) in E3. unfold hdr_size in E3.
    destruct (Z.ltb_spec (size b2) (write_pos_ b2 + 10)); [lia|]. injection E3 as <-. done. }
  split_and!; cbn; try lia.
  - unfold wf, size in *. cbn. lia.
  - rewrite <- Hwin1, <- Hwin2. unfold window at 1. cbn.
    replace (write_pos_ b1 + 10 + zlen body - read_pos_ b3) with ((write_pos_ b3 - read_pos_ b3) + zlen body) by lia.
    unfold frame. cbn [fst snd]. rewrite slice_split by lia. rewrite app_assoc. fold (window b3). rewrite Hwin3. fold h. f_equal.
    replace (read_pos_ b3 + (write_pos_ b3 - read_pos_ b3)) with (write_pos_ b1 + 10) by lia.
    rewrite Hd3, slice_blit_after; [apply slice_blit| | |]; rewrite ?zlen_hdr_bytes; unfold hdr_size, size in *; try lia.
    all: rewrite zlen_blit; lia.
  - unfold size in *. cbn. lia.
Qed.

(** Reading a header off the front of the contents. *)
Lemma buf_to_msg_hdr_frame m rest b :
  wf b → read_pos_ b < 2 ^ 32 → wf_message m → window b = frame m ++ rest ∨ (∃ k, hdr_size ≤ k ∧ window b = ztake k (frame m)) →
  ∃ b', buf_to_msg_hdr b = Some (inr (mk_hdr m.1 (zlen m.2 + hdr_size), b')) ∧ wf b' ∧
    window b' = zdrop hdr_size (window b) ∧ data_ b' = data_ b ∧
    read_pos_ b' = read_pos_ b + hdr_size ∧ write_pos_ b' = write_pos_ b.
Proof.
  intros Hwf Hr32 [Ht Hl] Hwin. pose proof (zlen_nonneg m.2). set (h := mk_hdr m.1 (zlen m.2 + hdr_size)).
  assert (hdr_size ≤ zlen (window b) ∧ ztake hdr_size (window b) = hdr_bytes h) as [Hlen Hhdr].
  { destruct Hwin as [-> | (k & Hk & ->)].
    - rewrite zlen_app, zlen_frame. pose proof (zlen_nonneg rest). split; [unfold hdr_size in *; lia|].
      unfold frame. rewrite <- app_assoc. apply ztake_app_len. by rewrite zlen_hdr_bytes.
    - rewrite zlen_ztake, zlen_frame by (unfold hdr_size in *; lia). split; [lia|].
      rewrite ztake_ztake by (unfold hdr_size in *; lia). unfold frame. apply ztake_app_len. by rewrite zlen_hdr_bytes. }
  unfold buf_to_msg_hdr. rewrite (read_available b Hwf), <- (zlen_window b Hwf).
  destruct (Z.ltb_spec (zlen (window b)) hdr_size); [lia|].
  rewrite (wrap_small 32) by (unfold fits; destruct Hwf; lia). rewrite Z.eqb_refl. simpl.
  pose proof (read_cases hdr_size b Hwf ltac:(done)) as Hrd.
  destruct (Z.ltb_spec (zlen (window b)) hdr_size); [lia|].
  destruct Hrd as (b' & -> & ? & ? & ? & ? & ?). exists b'. split_and!; try done.
  rewrite Hhdr, hdr_roundtrip; [done|done|]. unfold h, hdr_size. cbn. lia.
Qed.

End MessageCodec.
