(* ===== verification/Connection.v ===== *)
(** * A network connection

    [connection] of [include/network/connection.h] and
    [src/network/connection.cpp].  The receiving half keeps what has arrived in
    [recv_buf_] and hands every complete message to the handler; the sending
    half writes one buffer at a time and collects the messages sent meanwhile.

    The model follows the build without [DEBUG_NETWORK_SEND_RECV].  The
    handler's verdict on a message is an argument; when it refuses one, the code
    asks a result that holds no error for its error, which is [None] here like a
    failed assertion.

    - [framing]: whatever the sizes in which the bytes of a stream of messages
      arrive, the handler gets exactly the messages, in order. *)

From S2P Require Import Prelude Common.
From S2P Require Import Bytes ByteBuffer MessageCodec.
#[local] Open Scope Z_scope.

Module Connection.
Import ByteBuffer.ByteBuffer.
Import MessageCodec.MessageCodec.

Section receive.
Context (handler_ : option (message → bool)).

(** ** Receiving *)

(** The handler sees the contents of the buffer as the body. *)
(* @src src/network/connection.cpp 219 229 connection::process_message_body *)
Definition process_message_body (id : Z) (b : byte_buffer) : bool * list message :=
  match handler_ with
  | None => (true, [])
  | Some f => (f (id, window b), [(id, window b)])
  end.

(** The loop over the complete messages: the buffer, the messages handed over
    and the length of the body that is missing. *)
(* @src src/network/connection.cpp 76 170 connection::process_message_buffer *)
Fixpoint process_loop (fuel : nat) (wpos : Z) (b : byte_buffer) : option (byte_buffer * list message * Z) :=
  match fuel with
  | O => None
  | S fuel =>
      if u64 (wpos - read_pos_ b) <? hdr_size then Some (b, [], 0)
      else
        match buf_to_msg_hdr b with
        | Some (inr (hdr, b)) =>
            let length := u32 (length_ hdr - hdr_size) in
            let body_length := u32 (body_length hdr) in
            let pos_end_tailer := u32 (read_pos_ b + length) in
            let pos_end_body := u32 (read_pos_ b + body_length) in
            if write_pos_ b <? pos_end_tailer then
              if read_pos_ b <? hdr_size then None
              else match set_read_pos (read_pos_ b - hdr_size) b with
                   | Some b => Some (b, [], length)
                   | None => None
                   end
            else
              match set_write_pos pos_end_body b with
              | None => None
              | Some b =>
                  let '(ok, out) := process_message_body (type_ hdr) b in
                  match set_write_pos wpos b with
                  | None => None
                  | Some b =>
                      if negb ok then None
                      else match set_read_pos (read_pos_ b + body_length) b with
                           | None => None
                           | Some b => match process_loop fuel wpos b with
                                       | None => None
                                       | Some (b, out', prev) => Some (b, out ++ out', prev)
                                       end
                           end
                  end
              end
        | _ => None
        end
  end.

(** What is left moves to the front of the buffer. *)
(* @src src/network/connection.cpp 172 200 connection::process_message_buffer *)
Definition compact (wpos : Z) (b : byte_buffer) : option byte_buffer :=
  if read_pos_ b <? wpos then
    let left_begin := read_pos_ b in
    if 0 <? left_begin then
      let unprocessed := wpos - left_begin in
      if size b <? left_begin + unprocessed then None
      else match set_read_pos 0 (b <| data_ := blit 0 (slice left_begin unprocessed (data_ b)) (data_ b) |>) with
           | Some b => set_write_pos unprocessed b
           | None => None
           end
    else Some b
  else if write_pos_ b =? read_pos_ b then Some (reset b)
  else Some b.

(** The buffer grows for a message that does not fit and shrinks again. *)
(* @src src/network/connection.cpp 201 216 connection::process_message_buffer *)
Definition fit_buffer (prev : Z) (b : byte_buffer) : option byte_buffer :=
  if MESSAGE_BUFFER_SIZE <? write_pos_ b + prev then Some (resize_write_available_size (write_pos_ b + prev) b)
  else if (write_pos_ b <=? MESSAGE_BUFFER_SIZE) && (MESSAGE_BUFFER_SIZE <? size b) then
    resize_capacity MESSAGE_BUFFER_SIZE b
  else Some b.

(* @src src/network/connection.cpp 68 217 connection::process_message_buffer *)
Definition process_message_buffer (b : byte_buffer) : option (byte_buffer * list message) :=
  let wpos := u32 (write_pos_ b) in
  match process_loop (S (length (data_ b))) wpos b with
  | None => None
  | Some (b, out, prev) =>
      match compact wpos b with
      | None => None
      | Some b => match fit_buffer prev b with
                  | None => None
                  | Some b => Some (b, out)
                  end
      end
  end.

(** [async_read_some] stores some bytes, at most the room there is, behind the
    contents and calls back with their number. *)
(* @src src/network/connection.cpp 43 66 connection::async_read_done *)
Definition async_read_done (bytes : list Z) (b : byte_buffer) : option (byte_buffer * list message) :=
  let b := b <| data_ := blit (write_pos_ b) bytes (data_ b) |> in
  let wpos := u32 (write_pos_ b + u32 (zlen bytes)) in
  if size b <? wpos then None
  else match set_write_pos wpos b with
       | None => None
       | Some b => process_message_buffer b
       end.

(** One read: the socket delivers [n] bytes of [str], or as many as fit or are
    there; the assertion says that there is room. *)
(* @src src/network/connection.cpp 13 41 connection::async_read *)
Definition async_read (n : Z) (str : list Z) (b : byte_buffer) : option (byte_buffer * list message * list Z) :=
  if write_pos_ b <? size b then
    let k := Z.min n (write_available_size b) in
    match async_read_done (ztake k str) b with
    | Some (b, out) => Some (b, out, zdrop k str)
    | None => None
    end
  else None.

Fixpoint receive (ns : list Z) (str : list Z) (b : byte_buffer) : option (byte_buffer * list message * list Z) :=
  match ns with
  | [] => Some (b, [], str)
  | n :: ns =>
      match async_read n str b with
      | None => None
      | Some (b, out, str) =>
          match receive ns str b with
          | None => None
          | Some (b, out', str) => Some (b, out ++ out', str)
          end
      end
  end.

End receive.

(** ** Correctness of receiving *)

Section accepting.
Context (f : message → bool).
Context (accepts : ∀ m, f m = true).

(** The next message has not arrived in full. *)
Definition incomplete (ms : list message) (w : list Z) : Prop :=
  match ms with
  | [] => w = []
  | m :: _ => zlen w < zlen (frame m)
  end.

(** Buffers keep their first size and stay below two gigabytes. *)
Definition bounded (b : byte_buffer) : Prop := wf b ∧ 8192 ≤ size b ≤ 2 ^ 31.

Lemma loop_one m rest b fuel :
  bounded b → wf_message m → window b = frame m ++ rest →
  ∃ b', bounded b' ∧ window b' = rest ∧ data_ b' = data_ b ∧ write_pos_ b' = write_pos_ b ∧
    process_loop (Some f) (S fuel) (write_pos_ b) b =
    match process_loop (Some f) fuel (write_pos_ b) b' with
    | None => None
    | Some (b, out', prev) => Some (b, m :: out', prev)
    end.
Proof.
  intros [Hwf Hsz] Hm Hwin. pose proof Hwf as [Hp1 Hp2]. pose proof (zlen_nonneg m.2) as Hm2. pose proof Hm as [Ht Hl].
  pose proof (zlen_window b Hwf) as Hlen. rewrite Hwin, zlen_app, zlen_frame in Hlen. pose proof (zlen_nonneg rest).
  destruct (buf_to_msg_hdr_frame m rest b Hwf ltac:(lia) Hm ltac:(by left)) as (b1 & E1 & Hwf1 & Hwin1 & Hd1 & Hr1 & Hw1).
  assert (window b1 = m.2 ++ rest) as Hw1'.
  { rewrite Hwin1, Hwin. unfold frame. rewrite <- app_assoc. apply zdrop_app_len. by rewrite zlen_hdr_bytes. }
  unfold hdr_size in *. cbn [process_loop]. rewrite (wrap_small 64) by (unfold fits; lia).
  unfold hdr_size at 1. destruct (Z.ltb_spec (write_pos_ b - read_pos_ b) 10); [lia|]. rewrite E1.
  cbn [length_ type_]. unfold body_length. cbn [length_]. unfold hdr_size.
  replace (zlen m.2 + 10 - 10) with (zlen m.2) by lia.
  rewrite (wrap_small 64 (zlen m.2)), (wrap_small 32 (zlen m.2)), (wrap_small 32 (read_pos_ b1 + zlen m.2))
    by (unfold fits; lia).
  destruct (Z.ltb_spec (write_pos_ b1) (read_pos_ b1 + zlen m.2)); [lia|].
  assert (size b1 = size b) as Hs1 by (unfold size; by rewrite Hd1).
  unfold set_write_pos at 1. rewrite Hs1, !(proj2 (Z.leb_le _ _)) by lia. cbn [andb].
  set (b2 := b1 <| write_pos_ := _ |>).
  assert (window b2 = m.2) as Hw2.
  { unfold b2, window. cbn. rewrite Z.add_simpl_l. transitivity (ztake (zlen m.2) (window b1)).
    - unfold window, slice. by rewrite ztake_ztake by lia.
    - rewrite Hw1'. by apply ztake_app_len. }
  unfold process_message_body. rewrite Hw2, accepts.
  unfold set_write_pos, set_read_pos, b2, size in *. cbn. rewrite Hd1.
  do 2 (rewrite !(proj2 (Z.leb_le _ _)) by lia; cbn; rewrite ?Hd1).
  exists (mk_buffer (data_ b) (write_pos_ b) (read_pos_ b1 + zlen m.2)). split_and!; try done.
  - unfold bounded, wf, size in *. cbn. lia.
  - unfold window. cbn. transitivity (zdrop (zlen m.2) (window b1)).
    + unfold window, slice. rewrite zdrop_ztake, zdrop_zdrop, Hd1 by lia. f_equal. lia.
    + rewrite Hw1'. by apply zdrop_app_len.
  - destruct m. by destruct (process_loop _ _ _ _) as [[[? ?] ?]|].
Qed.

(** A message that has not arrived in full leaves the buffer as it is. *)
Lemma loop_partial m w b fuel :
  bounded b → wf_message m → window b = w → w = ztake (zlen w) (frame m) → zlen w < zlen (frame m) →
  ∃ prev, process_loop (Some f) (S fuel) (write_pos_ b) b = Some (b, [], prev) ∧ 0 ≤ prev ≤ 2 ^ 29 ∧
    (hdr_size ≤ zlen w → 0 < prev).
Proof.
  intros [Hwf Hsz] Hm Hwin Hw Hlt. pose proof Hwf as [Hp1 Hp2]. pose proof (zlen_nonneg m.2) as Hm2. pose proof Hm as [Ht Hl].
  pose proof (zlen_window b Hwf) as Hlen. rewrite Hwin in Hlen. rewrite zlen_frame in Hlt.
  cbn [process_loop]. rewrite (wrap_small 64) by (unfold fits; lia). rewrite <- Hlen.
  destruct (Z.ltb_spec (zlen w) hdr_size) as [Hshort|Hhdr].
  { exists 0. split_and!; try done; lia. }
  destruct (buf_to_msg_hdr_frame m [] b Hwf ltac:(lia) Hm) as (b1 & -> & Hwf1 & Hwin1 & Hd1 & Hr1 & Hw1).
  { right. exists (zlen w). split; [done|]. by rewrite Hwin. }
  unfold hdr_size in *. cbn [length_ type_]. unfold body_length. cbn [length_]. unfold hdr_size.
  replace (zlen m.2 + 10 - 10) with (zlen m.2) by lia.
  rewrite (wrap_small 32 (zlen m.2)), (wrap_small 32 (read_pos_ b1 + zlen m.2)) by (unfold fits; lia).
  destruct (Z.ltb_spec (write_pos_ b1) (read_pos_ b1 + zlen m.2)); [|lia].
  destruct (Z.ltb_spec (read_pos_ b1) 10); [lia|].
  unfold set_read_pos. rewrite !(proj2 (Z.leb_le _ _)) by (unfold size in *; rewrite ?Hd1; lia). cbn [andb].
  exists (zlen m.2). split_and!; try lia. f_equal. f_equal. f_equal.
  destruct b, b1. cbn in *. subst. unfold update_field. cbn. f_equal. lia.
Qed.

Lemma loop_frames fuel ms rest b :
  bounded b → Forall wf_message ms → window b ++ rest = stream ms → (length (window b) < fuel)%nat →
  ∃ b' out ms' prev, process_loop (Some f) fuel (write_pos_ b) b = Some (b', out, prev) ∧ ms = out ++ ms' ∧
    bounded b' ∧ data_ b' = data_ b ∧ write_pos_ b' = write_pos_ b ∧ window b' ++ rest = stream ms' ∧
    incomplete ms' (window b') ∧ 0 ≤ prev ≤ 2 ^ 29 ∧ (hdr_size ≤ zlen (window b') → 0 < prev).
Proof.
  revert fuel b. induction ms as [|m ms IH]; intros fuel b Hb Hms Hwin Hfuel;
    pose proof Hb as [Hwf Hsz]; pose proof Hwf as [Hp1 Hp2]; pose proof (zlen_window b Hwf) as Hlen;
    (destruct fuel as [|fuel]; [lia|]).
  { apply app_nil in Hwin as [Hw ->]. rewrite Hw, zlen_nil in Hlen. exists b, [], [], 0. cbn [process_loop].
    rewrite (wrap_small 64) by (unfold fits; lia). unfold hdr_size.
    destruct (Z.ltb_spec (write_pos_ b - read_pos_ b) 10); [|lia].
    rewrite Hw. by split_and!. }
  inversion Hms as [|? ? Hm Hms']; subst. change (stream (m :: ms)) with (frame m ++ stream ms) in Hwin.
  destruct (decide (zlen (frame m) ≤ zlen (window b))) as [Hfull|Hpart].
  - destruct (cut_longer _ _ _ _ Hwin Hfull) as (w & Hw & Hrest).
    destruct (loop_one m w b fuel Hb Hm Hw) as (b1 & Hb1 & Hw1 & Hd1 & Hwp1 & ->). rewrite <- Hwp1.
    destruct (IH fuel b1) as (b' & out & ms' & prev & -> & -> & ? & ? & ? & ? & ? & ? & ?); try done.
    { by rewrite Hw1. }
    { rewrite Hw in Hfuel. rewrite length_app in Hfuel. pose proof (zlen_frame m). unfold zlen, hdr_size in *. rewrite Hw1. lia. }
    exists b', (m :: out), ms', prev. split_and!; try done; solve [congruence | lia].
  - destruct (loop_partial m (window b) b fuel Hb Hm) as (prev & E & Hprev & Hpos); try done.
    { by apply (cut_shorter _ rest _ (stream ms)); [|lia]. }
    { lia. }
    exists b, [], (m :: ms), prev. split_and!; try done; simpl; lia.
Qed.

Lemma compact_ok b : bounded b →
  ∃ b', compact (write_pos_ b) b = Some b' ∧ bounded b' ∧ size b' = size b ∧ window b' = window b ∧
    read_pos_ b' = 0 ∧ write_pos_ b' = zlen (window b).
Proof.
  intros [Hwf Hsz]. pose proof Hwf as [Hp1 Hp2]. pose proof (zlen_window b Hwf) as Hlen. unfold compact.
  destruct (Z.ltb_spec (read_pos_ b) (write_pos_ b)).
  - destruct (Z.ltb_spec 0 (read_pos_ b)).
    + destruct (Z.ltb_spec (size b) (read_pos_ b + (write_pos_ b - read_pos_ b))); [lia|].
      fold (window b). set (d := blit 0 (window b) (data_ b)).
      assert (zlen d = size b) as Hd by (apply zlen_blit; unfold size in *; lia).
      unfold set_read_pos, set_write_pos, size. cbn. rewrite Hd. do 2 (rewrite !(proj2 (Z.leb_le _ _)) by lia; cbn).
      exists (mk_buffer d (write_pos_ b - read_pos_ b) 0). unfold bounded, wf, size. cbn. rewrite Hd.
      split_and!; try done; try lia. unfold window at 1. cbn. rewrite Z.sub_0_r, <- Hlen.
      apply slice_blit; unfold size in *; lia.
    + exists b. split_and!; try done; lia.
  - destruct (Z.eqb_spec (write_pos_ b) (read_pos_ b)) as [E|E]; [|lia]. exists (reset b).
    unfold bounded, wf, size in *. cbn. split_and!; try done; try lia. unfold window. cbn.
    rewrite E, !Z.sub_diag. by rewrite !slice_zero.
Qed.

(** Afterwards there is room for more. *)
Lemma fit_ok prev b : bounded b → read_pos_ b = 0 → write_pos_ b < 2 ^ 29 + hdr_size → 0 ≤ prev ≤ 2 ^ 29 →
  (hdr_size ≤ write_pos_ b → 0 < prev) →
  ∃ b', fit_buffer prev b = Some b' ∧ bounded b' ∧ window b' = window b ∧ read_pos_ b' = 0 ∧
    write_pos_ b' = write_pos_ b ∧ write_pos_ b' < size b'.
Proof.
  intros [Hwf Hsz] H0 Hw Hp Hpos. pose proof Hwf as [Hp1 Hp2]. unfold fit_buffer, hdr_size, MESSAGE_BUFFER_SIZE in *.
  destruct (Z.ltb_spec 8192 (write_pos_ b + prev)).
  - eexists. split; [done|]. unfold resize_write_available_size. rewrite (write_available b Hwf).
    destruct (Z.ltb_spec (size b - write_pos_ b) (write_pos_ b + prev)).
    + destruct (window_resize b (write_pos_ b + prev + write_pos_ b) Hwf) as (? & ? & Es); [lia|].
      assert (write_pos_ b < write_pos_ b + prev + write_pos_ b) by lia.
      split; [split; [done|rewrite Es; lia]|]. split_and!; try done. by rewrite Es.
    + split_and!; try done; lia.
  - destruct (Z.leb_spec (write_pos_ b) 8192); [|lia]. destruct (Z.ltb_spec 8192 (size b)); cbn [andb].
    + unfold resize_capacity. rewrite !(proj2 (Z.leb_le _ _)) by lia. cbn [andb]. eexists. split; [done|].
      destruct (window_resize b 8192 Hwf) as (? & ? & Es); [lia|].
      assert (write_pos_ b < 8192) by lia.
      split; [split; [done|rewrite Es; lia]|]. split_and!; try done. by rewrite Es.
    + exists b. split_and!; try done; lia.
Qed.

Lemma process_ok ms rest b :
  bounded b → Forall wf_message ms → window b ++ rest = stream ms →
  ∃ b' out ms', process_message_buffer (Some f) b = Some (b', out) ∧ ms = out ++ ms' ∧ bounded b' ∧
    window b' ++ rest = stream ms' ∧ incomplete ms' (window b') ∧ write_pos_ b' < size b'.
Proof.
  intros Hb Hms Hwin. pose proof Hb as [Hwf Hsz]. pose proof Hwf as [Hp1 Hp2]. unfold process_message_buffer.
  rewrite (wrap_small 32) by (unfold fits; lia). pose proof (zlen_window b Hwf) as Hlen.
  destruct (loop_frames (S (length (data_ b))) ms rest b Hb Hms Hwin) as
    (b1 & out & ms' & prev & -> & -> & Hb1 & Hd1 & Hw1 & Hwin1 & Hinc & Hprev & Hpos).
  { unfold zlen, size in *. unfold zlen in *. lia. }
  rewrite <- Hw1. destruct (compact_ok b1 Hb1) as (b2 & -> & Hb2 & Hs2 & Hwin2 & Hr2 & Hw2).
  assert (zlen (window b1) < 2 ^ 29 + hdr_size) as Hlt.
  { apply Forall_app in Hms as [_ Hms]. destruct ms' as [|m ms']; simpl in Hinc.
    - rewrite Hinc. unfold hdr_size. rewrite zlen_nil. lia.
    - inversion Hms as [|? ? [_ Hm] _]; subst. rewrite zlen_frame in Hinc. lia. }
  destruct (fit_ok prev b2 Hb2 Hr2) as (b3 & -> & Hb3 & Hwin3 & _ & Hw3 & Hroom); try done; try (rewrite Hw2; lia).
  exists b3, out, ms'. rewrite Hwin3, Hwin2. done.
Qed.

(** A read of [k] bytes of what the peer sent. *)
Lemma read_ok n ms str b :
  bounded b → write_pos_ b < size b → Forall wf_message ms → window b ++ str = stream ms → 1 ≤ n →
  ∃ b' out ms' str', async_read (Some f) n str b = Some (b', out, str') ∧ ms = out ++ ms' ∧ bounded b' ∧
    write_pos_ b' < size b' ∧ window b' ++ str' = stream ms' ∧ incomplete ms' (window b') ∧
    zlen str' ≤ Z.max 0 (zlen str - 1).
Proof.
  intros Hb Hroom Hms Hwin Hn. pose proof Hb as [Hwf Hsz]. pose proof Hwf as [Hp1 Hp2]. unfold async_read.
  rewrite (proj2 (Z.ltb_lt _ _)) by lia. rewrite (write_available b Hwf). set (k := Z.min n _).
  assert (1 ≤ k ≤ size b - write_pos_ b) as Hk by lia. unfold async_read_done.
  pose proof (zlen_ztake k str ltac:(lia)) as Hlen. pose proof (zlen_nonneg str).
  assert (zlen (blit (write_pos_ b) (ztake k str) (data_ b)) = size b) as Hd by (apply zlen_blit; unfold size in *; lia).
  unfold size at 1 2. cbn. rewrite Hd. fold (size b).
  rewrite (wrap_small 32 (zlen (ztake k str))), (wrap_small 32 (write_pos_ b + _)) by (unfold fits; lia).
  destruct (Z.ltb_spec (size b) (write_pos_ b + zlen (ztake k str))); [lia|].
  unfold set_write_pos. unfold size at 1. cbn. rewrite Hd, !(proj2 (Z.leb_le _ _)) by lia. cbn.
  destruct (window_put b (ztake k str) _ Hwf ltac:(lia) eq_refl) as (Hwf1 & Hwin1 & Hs1).
  destruct (process_ok ms (zdrop k str) (mk_buffer (blit (write_pos_ b) (ztake k str) (data_ b)) (write_pos_ b + zlen (ztake k str)) (read_pos_ b)))
    as (b' & out & ms' & E & -> & Hb' & Hwin' & Hinc & Hroom').
  { split; [done|]. by rewrite Hs1. }
  { done. }
  { rewrite Hwin1, <- app_assoc, ztake_zdrop. done. }
  unfold update_field. cbn. rewrite E. exists b', out, ms', (zdrop k str). split_and!; try done.
  rewrite zlen_zdrop by lia. lia.
Qed.

Lemma receive_ok ns : ∀ ms str b,
  bounded b → write_pos_ b < size b → Forall wf_message ms → window b ++ str = stream ms → incomplete ms (window b) →
  Forall (Z.le 1) ns →
  ∃ b' out ms' str', receive (Some f) ns str b = Some (b', out, str') ∧ ms = out ++ ms' ∧ bounded b' ∧
    window b' ++ str' = stream ms' ∧ incomplete ms' (window b') ∧ zlen str' ≤ Z.max 0 (zlen str - Z.of_nat (length ns)).
Proof.
  induction ns as [|n ns IH]; intros ms str b Hb Hroom Hms Hwin Hinc Hns; cbn [receive].
  { exists b, [], ms, str. split_and!; try done. simpl. pose proof (zlen_nonneg str). lia. }
  inversion Hns as [|? ? Hn Hns']; subst.
  destruct (read_ok n ms str b Hb Hroom Hms Hwin Hn) as (b1 & out1 & ms1 & str1 & -> & -> & Hb1 & Hroom1 & Hwin1 & Hinc1 & Hl1).
  apply Forall_app in Hms as [_ Hms1].
  destruct (IH ms1 str1 b1 Hb1 Hroom1 Hms1 Hwin1 Hinc1 Hns') as (b2 & out2 & ms2 & str2 & -> & -> & Hb2 & Hwin2 & Hinc2 & Hl2).
  exists b2, (out1 ++ out2), ms2, str2. split_and!; try done; [by rewrite app_assoc|]. simpl length. lia.
Qed.

Lemma receive_all ms ns :
  Forall wf_message ms → Forall (Z.le 1) ns → zlen (stream ms) ≤ Z.of_nat (length ns) →
  ∃ b, receive (Some f) ns (stream ms) default_buffer = Some (b, ms, []) ∧ window b = [].
Proof.
  intros Hms Hns Hlen. destruct (wf_new MESSAGE_BUFFER_SIZE) as [Hwf _]; [done|].
  assert (size default_buffer = 8192) as Hs by reflexivity.
  destruct (receive_ok ns ms (stream ms) default_buffer) as (b & out & ms' & str & -> & -> & Hb & Hw & Hinc & Hl); try done.
  { destruct ms as [|m ms]; simpl; [done|]. rewrite zlen_frame. pose proof (zlen_nonneg m.2). change (zlen (window default_buffer)) with 0. unfold hdr_size. lia. }
  pose proof (zlen_nonneg str). assert (str = []) as ->.
  { destruct str as [|x str]; [done|]. rewrite zlen_cons in Hl. pose proof (zlen_nonneg str). lia. }
  rewrite app_nil_r in Hw. destruct ms' as [|m ms'].
  - exists b. rewrite app_nil_r. by rewrite Hinc.
  - simpl in Hinc. rewrite Hw in Hinc. change (stream (m :: ms')) with (frame m ++ stream ms') in Hinc.
    rewrite zlen_app in Hinc. pose proof (zlen_nonneg (stream ms')). lia.
Qed.

(** Let the peer send the messages [ms].  However the socket cuts their
    bytes into reads, the reads never fail, and once all bytes have arrived the
    handler has been given exactly the messages [ms], in order, and the buffer
    is empty. *)
Theorem framing ms ns :
  Forall wf_message ms → Forall (Z.le 1) ns → zlen (stream ms) ≤ Z.of_nat (length ns) →
  ∃ b, receive (Some f) ns (stream ms) default_buffer = Some (b, ms, []) ∧ window b = [].
Proof. apply receive_all. Qed.

End accepting.

Lemma framing_witness :
  ∃ b, receive (Some (fun _ => true)) (replicate 33 1) (stream [(8, [2]); (9, []); (10, [1; 2])]) default_buffer
    = Some (b, [(8, [2]); (9, []); (10, [1; 2])], []) ∧ window b = [].
Proof.
  apply (framing (fun _ => true) (fun _ => eq_refl) [(8, [2]); (9, []); (10, [1; 2])] (replicate 33 1)).
  - unfold wf_message. repeat constructor; vm_compute; congruence.
  - repeat constructor; lia.
  - vm_compute. congruence.
Defined.

End Connection.
