(* ===== verification/ConnectionSend.v ===== *)
(** * The sending half of a connection

    [connection] of [include/network/connection.h] and
    [src/network/connection.cpp].  [async_write] hands the socket a view of
    [send_buf_], not a copy: the bytes that reach the wire are those in the
    buffer when the write completes.  [views] are the lengths of the writes that
    have not completed and [wire] the bytes written so far; the rest are the
    fields of the class.

    - [sender_in_order]: on a connected socket the bytes written are those of
      the messages in the order they were sent, at most one write is in
      progress, and two completions after the last message all is written;
    - [end_to_end]: the receiving half at the other end hands over exactly the
      messages sent;
    - [connect_loses_message]: messages queued before the connection stands can
      be overwritten while they are written. *)

From S2P Require Import Prelude Common.
From S2P Require Import Bytes ByteBuffer MessageCodec Connection.
#[local] Open Scope Z_scope.

Module ConnectionSend.
Import ByteBuffer.ByteBuffer.
Import MessageCodec.MessageCodec.

(* @src include/network/connection.h 26 47 connection *)
Record connection := mk_connection {
  connected_ : bool;
  writing_in_action_ : bool;
  send_buf_ : byte_buffer;
  send_msg_pending_ : list byte_buffer;
  views : list Z;
  wire : list Z;
}.
#[export] Instance eta_connection : Eta connection := fun c =>
  mk_connection (connected_ c) (writing_in_action_ c) (send_buf_ c) (send_msg_pending_ c) (views c) (wire c).

(** A client before its connection stands; a server's accepted socket. *)
(* @src include/network/connection.h 50 52 connection::connection *)
Definition new_client : connection := mk_connection false false default_buffer [] [] [].
(* @src include/network/connection.h 54 58 connection::connection *)
Definition new_server : connection := mk_connection true false default_buffer [] [] [].

(* @src src/network/connection.cpp 241 262 connection::async_write *)
Definition async_write (c : connection) : connection :=
  c <| views := views c ++ [read_available_size (send_buf_ c)] |>.

Fixpoint append_all (ms : list byte_buffer) (b : byte_buffer) : option byte_buffer :=
  match ms with
  | [] => Some b
  | m :: ms => match append m b with Some b => append_all ms b | None => None end
  end.

Definition total (ms : list byte_buffer) : Z := foldr (fun m n => read_available_size m + n) 0 ms.

(* @src src/network/connection.cpp 264 286 connection::async_write_done *)
Definition async_write_done (c : connection) : option connection :=
  let c := c <| send_buf_ := reset (send_buf_ c) |> <| connected_ := true |> in
  if decide (send_msg_pending_ c = []) then Some (c <| writing_in_action_ := false |>)
  else
    let n := total (send_msg_pending_ c) in
    match (if size (send_buf_ c) <? n then resize_capacity n (send_buf_ c) else Some (send_buf_ c)) with
    | None => None
    | Some b =>
        match append_all (send_msg_pending_ c) b with
        | None => None
        | Some b =>
            if read_available_size b =? n
            then Some (async_write (c <| send_buf_ := b |> <| send_msg_pending_ := [] |>))
            else None
        end
    end.

(** The oldest write completes. *)
(* @src src/network/connection.cpp 244 256 connection::async_write *)
Definition write_complete (c : connection) : option connection :=
  match views c with
  | [] => Some c
  | n :: vs => async_write_done (c <| views := vs |> <| wire := wire c ++ slice 0 n (data_ (send_buf_ c)) |>)
  end.

(* @src src/network/connection.cpp 231 239 connection::process_error *)
Definition process_error (c : connection) : connection := c <| connected_ := false |>.

(** The oldest write fails. *)
Definition write_failed (c : connection) : connection := process_error (c <| views := tail (views c) |>).

(* @src src/network/net_service.cpp 251 255 net_service::handle_connect_done *)
Definition handle_connect_done (c : connection) : option connection := async_write_done (c <| connected_ := true |>).

(** The last buffer of the queue, or a new one when there is none or it has
    grown, gets the message. *)
(* @src include/network/connection.h 235 249 connection::gut_async_send *)
Definition enqueue (m : message) (q : list byte_buffer) : option (list byte_buffer) :=
  let q := match last q with
           | None => [default_buffer]
           | Some b => if MESSAGE_BUFFER_SIZE <? size b then q ++ [default_buffer] else q
           end in
  match last q with
  | None => None
  | Some b => match proto_to_buf m.1 m.2 b with
              | Some (inr b) => Some (take (pred (length q)) q ++ [b])
              | _ => None
              end
  end.

(** The result code and the connection; [None] is a failed assertion. *)
(* @src include/network/connection.h 201 251 connection::gut_async_send *)
Definition gut_async_send (m : message) (non_connect : bool) (c : connection) : option (EC * connection) :=
  if negb (connected_ c) then
    if non_connect then
      match proto_to_buf m.1 m.2 default_buffer with
      | None => None
      | Some (inl e) => Some (e, c)
      | Some (inr b) => Some (EC_NET_UNCONNECTED, c <| send_msg_pending_ := send_msg_pending_ c ++ [b] |>)
      end
    else Some (EC_NET_UNCONNECTED, c)
  else if negb (writing_in_action_ c) then
    match proto_to_buf m.1 m.2 (reset (send_buf_ c)) with
    | None => None
    | Some (inl e) => Some (e, c <| send_buf_ := reset (send_buf_ c) |>)
    | Some (inr b) => Some (EC_OK, async_write (c <| send_buf_ := b |> <| writing_in_action_ := true |>))
    end
  else
    match enqueue m (send_msg_pending_ c) with
    | None => None
    | Some q => Some (EC_OK, c <| send_msg_pending_ := q |>)
    end.

(** ** Runs *)

Inductive label :=
  | LSend (m : message)
  | LDone.

Definition exec (l : label) (c : connection) : option connection :=
  match l with
  | LSend m => option_map snd (gut_async_send m false c)
  | LDone => write_complete c
  end.

Fixpoint run (ls : list label) (c : connection) : option connection :=
  match ls with
  | [] => Some c
  | l :: ls => match exec l c with Some c => run ls c | None => None end
  end.

(** The messages sent in a run. *)
Definition sends (ls : list label) : list message := omap (fun l => match l with LSend m => Some m | LDone => None end) ls.

(** ** The invariant *)

(** A queued buffer: written from the start, never read. *)
Record queued (n : Z) (b : byte_buffer) : Prop := mk_queued {
  q_wf : wf b;
  q_read : read_pos_ b = 0;
  q_size : 8192 ≤ size b ≤ 8192 + n;
}.

(** [n] bounds the bytes sent so far. *)
Record inv (n : Z) (ms : list message) (c : connection) : Prop := mk_inv {
  i_connected : connected_ c = true;
  i_buf : queued n (send_buf_ c);
  i_pending : Forall (queued n) (send_msg_pending_ c);
  i_idle : writing_in_action_ c = false → views c = [] ∧ send_msg_pending_ c = [] ∧ wire c = stream ms;
  i_writing : writing_in_action_ c = true → views c = [write_pos_ (send_buf_ c)] ∧
    wire c ++ window (send_buf_ c) ++ concat (map window (send_msg_pending_ c)) = stream ms;
}.

Lemma stream_app ms ks : stream (ms ++ ks) = stream ms ++ stream ks.
Proof. unfold stream. by rewrite map_app, concat_app. Qed.

Lemma stream_one m : stream [m] = frame m.
Proof. unfold stream. simpl. by rewrite app_nil_r. Qed.

Lemma queued_default n : 0 ≤ n → queued n default_buffer.
Proof. intros Hn. destruct (wf_new MESSAGE_BUFFER_SIZE) as [Hwf _]; [done|]. constructor; try done. change (size default_buffer) with 8192. lia. Qed.

Lemma queued_mono n n' b : n ≤ n' → queued n b → queued n' b.
Proof. intros Hle []. constructor; try done. lia. Qed.

Lemma queued_reset n b : queued n b → queued n (reset b) ∧ window (reset b) = [].
Proof.
  intros [[H1 H2] H0 Hs]. split; [|unfold window, reset; cbn; by rewrite slice_zero].
  constructor; try done. unfold wf, size in *. cbn. lia.
Qed.

(** Serializing a message into a queued buffer. *)
Lemma queued_put n m b : queued n b → zlen (window b) + zlen (frame m) ≤ n → n < 2 ^ 61 →
  ∃ b', proto_to_buf m.1 m.2 b = Some (inr b') ∧ queued n b' ∧ window b' = window b ++ frame m.
Proof.
  intros [Hwf H0 Hs] Hn Hbig. rewrite zlen_frame in Hn. pose proof (zlen_nonneg (window b)). pose proof (zlen_window b Hwf).
  pose proof (zlen_nonneg m.2). unfold hdr_size in Hn.
  destruct (proto_to_buf_frame m.1 m.2 b Hwf) as (b' & -> & Hwf' & Hwin & Hr & Hw & Hs'); [unfold hdr_size; lia|].
  exists b'. split_and!; [done| |by destruct m]. constructor; [done|congruence|]. rewrite Hs'. unfold hdr_size. lia.
Qed.

Lemma enqueue_ok n m q :
  Forall (queued n) q → zlen (concat (map window q)) + zlen (frame m) ≤ n → n < 2 ^ 61 →
  ∃ q', enqueue m q = Some q' ∧ Forall (queued n) q' ∧ concat (map window q') = concat (map window q) ++ frame m.
Proof.
  intros Hq Hn Hbig. pose proof (zlen_nonneg (concat (map window q))). pose proof (zlen_nonneg (frame m)).
  assert (∀ q0 b, Forall (queued n) (q0 ++ [b]) → concat (map window (q0 ++ [b])) = concat (map window q) →
    ∃ q', match proto_to_buf m.1 m.2 b with Some (inr b') => Some (q0 ++ [b']) | _ => None end = Some q' ∧
      Forall (queued n) q' ∧ concat (map window q') = concat (map window q) ++ frame m) as Hput.
  { intros q0 b Hf Hc. apply Forall_app in Hf as [Hq0 Hb]. inversion Hb as [|? ? Hb' _]; subst. rewrite <- Hc in *.
    rewrite map_app, concat_app in *. simpl in *. rewrite app_nil_r, zlen_app in *. pose proof (zlen_nonneg (concat (map window q0))).
    destruct (queued_put n m b Hb' ltac:(lia) Hbig) as (b' & -> & Hqb & Hwin). exists (q0 ++ [b']). split_and!; [done| |].
    - apply Forall_app. by split; [|constructor].
    - rewrite map_app, concat_app. simpl. by rewrite app_nil_r, Hwin, app_assoc. }
  assert (∀ (q0 : list byte_buffer) b, take (pred (length (q0 ++ [b]))) (q0 ++ [b]) = q0) as Htake.
  { intros q0 b. rewrite length_app. simpl. rewrite Nat.add_1_r. simpl. apply take_app_length. }
  unfold enqueue. destruct q as [|b q0 _] using rev_ind.
  - apply (Hput [] default_buffer); [|done]. constructor; [|done]. apply queued_default. lia.
  - rewrite last_snoc. destruct (MESSAGE_BUFFER_SIZE <? size b).
    + rewrite last_snoc, Htake. apply Hput.
      * apply Forall_app. split; [done|]. constructor; [|done]. apply queued_default. lia.
      * rewrite (map_app _ (q0 ++ [b])), concat_app. simpl. by rewrite !app_nil_r.
    + rewrite last_snoc, Htake. by apply Hput.
Qed.

Lemma total_windows n q : Forall (queued n) q → total q = zlen (concat (map window q)).
Proof.
  induction 1 as [|b q [Hwf ? ?] _ IH]; [done|]. cbn. rewrite zlen_app, <- IH, (zlen_window b Hwf). by rewrite (read_available b Hwf).
Qed.

Lemma append_all_ok n q : Forall (queued n) q → ∀ b, wf b → read_pos_ b = 0 → write_pos_ b + total q ≤ size b →
  ∃ b', append_all q b = Some b' ∧ wf b' ∧ read_pos_ b' = 0 ∧ size b' = size b ∧
    write_pos_ b' = write_pos_ b + total q ∧ window b' = window b ++ concat (map window q).
Proof.
  induction 1 as [|m q [Hwf H0 Hs] Hq IH]; intros b Hb Hr Hfit.
  { exists b. cbn in *. rewrite app_nil_r. split_and!; try done. lia. }
  cbn [total foldr append_all map concat] in *. fold (total q) in *.
  assert (read_available_size m = write_pos_ m) as Hav by (rewrite (read_available m Hwf), H0; lia). rewrite Hav in *.
  pose proof (total_windows n q Hq) as Htq. pose proof (zlen_nonneg (concat (map window q))).
  destruct (append_fits m b Hwf Hb H0) as (b1 & -> & Hwf1 & Hwin1 & Hs1 & Hr1 & Hw1); [lia|lia|].
  destruct (IH b1 Hwf1) as (b2 & -> & Hwf2 & Hr2 & Hs2 & Hw2 & Hwin2); [congruence|lia|].
  exists b2. split_and!; try done; try congruence; try lia. by rewrite Hwin2, Hwin1, app_assoc.
Qed.

(** A completed write: the queue goes into the buffer, or the connection rests. *)
Lemma done_ok n ms c : inv n ms c → writing_in_action_ c = true → zlen (stream ms) ≤ n → n < 2 ^ 61 →
  ∃ c', write_complete c = Some c' ∧ inv n ms c' ∧ send_msg_pending_ c' = [] ∧
    (send_msg_pending_ c = [] → writing_in_action_ c' = false).
Proof.
  intros [Hcon Hbuf Hpend _ Hwr] Hw Hlen Hbig. destruct (Hwr Hw) as [Hv Hs]. unfold write_complete. rewrite Hv.
  pose proof Hbuf as [Hwf H0 Hsz].
  assert (slice 0 (write_pos_ (send_buf_ c)) (data_ (send_buf_ c)) = window (send_buf_ c)) as ->
    by (unfold window; by rewrite H0, Z.sub_0_r).
  unfold async_write_done. cbn [send_msg_pending_ send_buf_ update_field]. cbn. destruct (decide (send_msg_pending_ c = [])) as [Hnil|Hne].
  - eexists. split; [done|]. split; [|split; [done|done]]. destruct (queued_reset n _ Hbuf) as [Hqr _].
    rewrite Hnil in Hs. cbn in Hs. rewrite app_nil_r in Hs. by constructor.
  - pose proof (total_windows n _ Hpend) as Ht. destruct (queued_reset n _ Hbuf) as [[Hwf' Hr' Hsz'] Hwin'].
    pose proof (f_equal zlen Hs) as Hl. rewrite !zlen_app in Hl.
    pose proof (zlen_nonneg (wire c)). pose proof (zlen_nonneg (window (send_buf_ c))). pose proof (zlen_nonneg (concat (map window (send_msg_pending_ c)))).
    set (t := total (send_msg_pending_ c)) in *.
    set (b0 := reset (send_buf_ c)) in *.
    assert (∃ b1, (if size b0 <? t then resize_capacity t b0 else Some b0) = Some b1 ∧ wf b1 ∧ read_pos_ b1 = 0 ∧
      write_pos_ b1 = 0 ∧ window b1 = [] ∧ t ≤ size b1 ∧ 8192 ≤ size b1 ≤ 8192 + n) as (b1 & -> & Hwf1 & Hr1 & Hw1 & Hwin1 & Hf1 & Hs1).
    { destruct (Z.ltb_spec (size b0) t).
      - unfold resize_capacity. change (write_pos_ b0) with 0. change (read_pos_ b0) with 0.
        rewrite !(proj2 (Z.leb_le _ _)) by lia. cbn [andb]. eexists. split; [done|].
        destruct (window_resize b0 t Hwf') as (? & E & Es); [change (write_pos_ b0) with 0; lia|].
        split_and!; try done; rewrite ?Es, ?E; try done; lia.
      - exists b0. split_and!; try done; lia. }
    destruct (append_all_ok n _ Hpend b1 Hwf1 Hr1) as (b2 & -> & Hwf2 & Hr2 & Hs2 & Hw2 & Hwin2); [fold t; lia|].
    fold t in Hw2. rewrite (read_available b2 Hwf2), Hr2, Hw2, Hw1, Z.sub_0_r, Z.add_0_l, Z.eqb_refl.
    eexists. split; [done|]. split; [|split; [done|done]]. constructor; try done.
    + apply (mk_queued n b2 Hwf2 Hr2). by rewrite Hs2.
    + cbn. congruence.
    + intros _. cbn. unfold async_write. cbn. rewrite (read_available b2 Hwf2), Hr2, Z.sub_0_r.
      split; [done|]. rewrite app_nil_r, Hwin2, Hwin1. cbn. by rewrite <- Hs, <- app_assoc.
Qed.

Lemma send_ok n ms m c : inv n ms c → zlen (stream (ms ++ [m])) ≤ n → n < 2 ^ 61 →
  ∃ c', gut_async_send m false c = Some (EC_OK, c') ∧ inv n (ms ++ [m]) c' ∧ writing_in_action_ c' = true.
Proof.
  intros Hinv Hlen Hbig. pose proof Hinv as [Hcon Hbuf Hpend Hidle Hwr]. unfold gut_async_send. rewrite Hcon. cbn [negb].
  rewrite stream_app, stream_one, zlen_app in Hlen. destruct (writing_in_action_ c) eqn:Hw; cbn [negb].
  - destruct (Hwr eq_refl) as [Hv Hs]. pose proof (f_equal zlen Hs) as Hl. rewrite !zlen_app in Hl.
    pose proof (zlen_nonneg (wire c)). pose proof (zlen_nonneg (window (send_buf_ c))).
    destruct (enqueue_ok n m (send_msg_pending_ c) Hpend ltac:(lia) Hbig) as (q & -> & Hq & Hwin).
    eexists. split; [done|]. split; [|done]. constructor; try done; [cbn; congruence|]. intros _. cbn.
    split; [done|]. by rewrite Hwin, stream_app, stream_one, <- Hs, !app_assoc.
  - destruct (Hidle eq_refl) as (Hv & Hp & Hs). destruct (queued_reset n _ Hbuf) as [Hqr Hwin].
    pose proof (zlen_nonneg (stream ms)).
    destruct (queued_put n m (reset (send_buf_ c)) Hqr) as (b & -> & Hqb & Hwb); [rewrite Hwin, zlen_nil; lia|done|].
    eexists. split; [done|]. split; [|done]. constructor; try done. intros _. cbn. destruct Hqb as [Hwfb H0 _].
    rewrite (read_available b Hwfb), H0, Z.sub_0_r, Hv, Hp. split; [done|]. cbn.
    by rewrite app_nil_r, Hwb, Hwin, stream_app, stream_one, Hs.
Qed.

Lemma run_ok n ls : ∀ ms c, inv n ms c → zlen (stream (ms ++ sends ls)) ≤ n → n < 2 ^ 61 →
  ∃ c', run ls c = Some c' ∧ inv n (ms ++ sends ls) c'.
Proof.
  induction ls as [|l ls IH]; intros ms c Hi Hlen Hbig; cbn [run].
  { exists c. cbn. rewrite app_nil_r. done. }
  destruct l as [m|]; cbn [exec].
  - change (sends (LSend m :: ls)) with ([m] ++ sends ls) in *. rewrite app_assoc in *.
    destruct (send_ok n ms m c Hi) as (c' & -> & Hi' & _); [|done|].
    { rewrite stream_app, zlen_app in Hlen. pose proof (zlen_nonneg (stream (sends ls))). lia. }
    simpl. by apply IH.
  - change (sends (LDone :: ls)) with (sends ls) in *. destruct (writing_in_action_ c) eqn:Hw.
    + destruct (done_ok n ms c Hi Hw) as (c' & -> & Hi' & _); [|done|by apply IH].
      rewrite stream_app, zlen_app in Hlen. pose proof (zlen_nonneg (stream (sends ls))). lia.
    + destruct (i_idle _ _ _ Hi Hw) as (Hv & _). unfold write_complete. rewrite Hv. by apply IH.
Qed.

Lemma sender_inv_start n : 0 ≤ n → inv n [] new_server.
Proof. intros Hn. constructor; try done. by apply queued_default. Qed.

(** Two completions after the last message everything is on the wire. *)
Lemma drained n ms c : inv n ms c → zlen (stream ms) ≤ n → n < 2 ^ 61 →
  ∃ c', run [LDone; LDone] c = Some c' ∧ views c' = [] ∧ wire c' = stream ms.
Proof.
  intros Hi Hlen Hbig. cbn [run exec]. destruct (writing_in_action_ c) eqn:Hw.
  - destruct (done_ok n ms c Hi Hw Hlen Hbig) as (c1 & -> & Hi1 & Hp1 & Hr1). destruct (writing_in_action_ c1) eqn:Hw1.
    + destruct (done_ok n ms c1 Hi1 Hw1 Hlen Hbig) as (c2 & -> & Hi2 & _ & Hr2). exists c2.
      destruct (i_idle _ _ _ Hi2 (Hr2 Hp1)) as (? & _ & ?). done.
    + destruct (i_idle _ _ _ Hi1 Hw1) as (Hv & _ & Hs). exists c1. unfold write_complete. by rewrite Hv.
  - destruct (i_idle _ _ _ Hi Hw) as (Hv & _ & Hs). exists c. unfold write_complete. rewrite Hv. cbn. by rewrite Hv.
Qed.

Lemma run_app ls ks c : run (ls ++ ks) c = match run ls c with Some c => run ks c | None => None end.
Proof. revert c. induction ls as [|l ls IH]; intros c; [done|]. simpl. destruct (exec l c); [apply IH|done]. Qed.

(** On a connected socket, whatever the interleaving of sends and
    completions, no assertion fails, at most one write is in progress, what is
    written and queued is the stream of the messages in the order they were
    sent, and two completions later it has all been written. *)
Theorem sender_in_order ls :
  zlen (stream (sends ls)) < 2 ^ 61 →
  ∃ c, run ls new_server = Some c ∧
    (views c = [] ∧ wire c = stream (sends ls) ∨
     views c = [zlen (window (send_buf_ c))] ∧
     wire c ++ window (send_buf_ c) ++ concat (map window (send_msg_pending_ c)) = stream (sends ls)) ∧
    ∃ c', run [LDone; LDone] c = Some c' ∧ views c' = [] ∧ wire c' = stream (sends ls).
Proof.
  intros Hlen. pose proof (zlen_nonneg (stream (sends ls))) as H0.
  destruct (run_ok _ ls [] new_server (sender_inv_start _ H0)) as (c & Hr & Hi); [done|done|]. exists c. split; [done|]. split.
  - destruct (writing_in_action_ c) eqn:Hw.
    + destruct (i_writing _ _ _ Hi Hw) as [Hv Hs]. right. destruct (i_buf _ _ _ Hi) as [Hwf Hr0 _].
      rewrite (zlen_window _ Hwf), Hr0, Z.sub_0_r. done.
    + destruct (i_idle _ _ _ Hi Hw) as (? & _ & ?). by left.
  - by eapply drained.
Qed.


(** A message queued before the connection stands can be lost: the write
    that [handle_connect_done] starts does not set [writing_in_action_], so the
    next send starts a second write and overwrites the buffer the first one is
    to send; when the socket takes the bytes late, both put the second message
    on the wire. *)
Theorem connect_loses_message :
  ∃ c c1 c2 c3, gut_async_send (7, [1]) true new_client = Some (EC_NET_UNCONNECTED, c) ∧
    handle_connect_done c = Some c1 ∧ gut_async_send (8, [2]) false c1 = Some (EC_OK, c2) ∧
    views c2 = [11; 11] ∧ run [LDone; LDone] c2 = Some c3 ∧ wire c3 = stream [(8, [2]); (8, [2])].
Proof. do 4 eexists. split; [vm_compute; reflexivity|]. split; [vm_compute; reflexivity|]. split; [vm_compute; reflexivity|]. split; [reflexivity|]. split; [vm_compute; reflexivity|]. vm_compute. reflexivity. Qed.

Definition demo_run : list label := [LSend (7, [1]); LSend (8, []); LDone; LSend (9, [2; 3])].

Lemma sender_in_order_witness :
  ∃ c, run demo_run new_server = Some c ∧
    ∃ c', run [LDone; LDone] c = Some c' ∧ views c' = [] ∧ wire c' = stream [(7, [1]); (8, []); (9, [2; 3])].
Proof.
  destruct (sender_in_order demo_run) as (c & Hc & _ & Hc'); [vm_compute; reflexivity|].
  change (sends demo_run) with [(7, [1]); (8, []); (9, [2; 3])] in Hc'. exists c. split; [exact Hc|exact Hc'].
Defined.


End ConnectionSend.
