(* ===== verification/TxLogFormat.v ===== *)
(** * Transaction logs as bytes

    [include/common/tx_log.h] and [src/concurrency/write_ahead_log.cpp].  A
    [repeated_tx_logs] is a row of records, each a header of three 64-bit
    little-endian integers (payload size, timestamp, node) and the serialized
    [tx_log].  [log_buffer] is a view of one record in place; it is the list of
    the record's bytes here.  A failed assertion, a view past the end of the
    memory and a log that does not parse are [None].

    - [wal_roundtrip]: what the write-ahead log sends is read back record by
      record, with the node that wrote it;
    - [short_log_fails]: the assertion of [get_data] refuses payloads of fewer
      than eight bytes. *)

From S2P Require Import Prelude Common.
From S2P Require Import Bytes.
#[local] Open Scope Z_scope.

Module TxLogFormat.

(* @src include/common/tx_log.h 14 14 OFFSET_TIMESTAMP *)
Definition OFFSET_TIMESTAMP : Z := 8.
(* @src include/common/tx_log.h 15 15 OFFSET_NODE_ID *)
Definition OFFSET_NODE_ID : Z := 16.
(* @src include/common/tx_log.h 16 16 OFFSET_PAYLOAD_SIZE *)
Definition OFFSET_PAYLOAD_SIZE : Z := 0.
(* @src include/common/tx_log.h 17 17 HEADER_SIZE *)
Definition HEADER_SIZE : Z := 24.

(** ** Access to a view *)

(** The assertion of [get_data]: eight bytes at the offset. *)
(* @src include/common/tx_log.h 50 58 log_buffer::get_data *)
Definition has_data (offset : Z) (m : list Z) : bool := offset + 8 <=? zlen m.

Definition get_u64 (offset : Z) (m : list Z) : option Z :=
  if has_data offset m then Some (le_val (slice offset 8 m)) else None.

Definition set_u64 (offset x : Z) (m : list Z) : option (list Z) :=
  if has_data offset m then Some (blit offset (le 8 x) m) else None.

(* @src include/common/tx_log.h 59 61 log_buffer::add_header_size *)
Definition add_header_size (n : Z) : Z := u64 (HEADER_SIZE + n).
(* @src include/common/tx_log.h 64 68 log_buffer::timestamp *)
Definition timestamp (m : list Z) : option Z := get_u64 OFFSET_TIMESTAMP m.
(* @src include/common/tx_log.h 70 74 log_buffer::payload_size *)
Definition payload_size (m : list Z) : option Z := get_u64 OFFSET_PAYLOAD_SIZE m.
(* @src include/common/tx_log.h 76 80 log_buffer::node_id *)
Definition node_id (m : list Z) : option Z := option_map u32 (get_u64 OFFSET_NODE_ID m).
(* @src include/common/tx_log.h 84 88 log_buffer::set_timestamp *)
Definition set_timestamp (x : Z) (m : list Z) : option (list Z) := set_u64 OFFSET_TIMESTAMP x m.
(* @src include/common/tx_log.h 90 94 log_buffer::set_payload_size *)
Definition set_payload_size (x : Z) (m : list Z) : option (list Z) := set_u64 OFFSET_PAYLOAD_SIZE x m.
(* @src include/common/tx_log.h 96 100 log_buffer::set_node_id *)
Definition set_node_id (x : Z) (m : list Z) : option (list Z) := set_u64 OFFSET_NODE_ID x m.

(* @src include/common/tx_log.h 102 105 log_buffer::copy_payload *)
Definition copy_payload (src m : list Z) : option (list Z) :=
  if (zlen src + HEADER_SIZE <=? zlen m) && has_data HEADER_SIZE m then Some (blit HEADER_SIZE src m) else None.

(** [payload_data] with the length [payload_size] says. *)
(* @src include/common/tx_log.h 82 82 log_buffer::payload_data *)
Definition payload (m : list Z) : option (list Z) :=
  match payload_size m with
  | Some n => if has_data HEADER_SIZE m && (HEADER_SIZE + n <=? zlen m) then Some (slice HEADER_SIZE n m) else None
  | None => None
  end.

(* @src include/common/tx_log.h 33 40 log_buffer::format *)
Definition format (src : list Z) (ts node : Z) (m : list Z) : option (list Z) :=
  m ← set_payload_size (zlen src) m;
  m ← set_timestamp ts m;
  m ← set_node_id node m;
  copy_payload src m.

(** ** Rows of records *)

(** The second loop of [async_append]: [done] are the bytes before [offset]. *)
(* @src src/concurrency/write_ahead_log.cpp 34 39 write_ahead_log::async_append *)
Fixpoint format_all (entries : list (list Z)) (node : Z) (done m : list Z) : option (list Z) :=
  match entries with
  | [] => Some (done ++ m)
  | log :: entries =>
      m ← format log 0 node m;
      let n := add_header_size (zlen log) in
      format_all entries node (done ++ ztake n m) (zdrop n m)
  end.

(* @src include/concurrency/write_ahead_log.h 10 27 write_ahead_log *)
Record write_ahead_log := mk_wal { node_id_ : Z; rlb_node_id_ : Z; cno_ : Z }.
#[export] Instance eta_wal : Eta write_ahead_log := fun w => mk_wal (node_id_ w) (rlb_node_id_ w) (cno_ w).

(* @src src/concurrency/write_ahead_log.cpp 7 10 write_ahead_log::write_ahead_log *)
Definition new_wal (node rlb_node : Z) : write_ahead_log := mk_wal node rlb_node 0.

(* @src src/concurrency/write_ahead_log.cpp 12 12 write_ahead_log::set_cno *)
Definition set_cno (cno : Z) (w : write_ahead_log) : write_ahead_log := w <| cno_ := cno |>.

(** The message to the replication block. *)
(* @src src/proto/block.proto 48 55 ccb_append_log_request *)
Record ccb_append_log_request := mk_append_request { source : Z; dest : Z; cno : Z; repeated_tx_logs : list Z }.

(* @src src/concurrency/write_ahead_log.cpp 21 49 write_ahead_log::async_append *)
Definition async_append (entries : list (list Z)) (w : write_ahead_log) : option ccb_append_log_request :=
  if cno_ w =? 0 then None
  else
    let total_size := foldl (fun n log => u64 (n + add_header_size (zlen log))) 0 entries in
    logs ← format_all entries (node_id_ w) [] (replicate (Z.to_nat total_size) 0);
    Some (mk_append_request (node_id_ w) (rlb_node_id_ w) (cno_ w) logs).

(* @src src/concurrency/write_ahead_log.cpp 14 19 write_ahead_log::async_append *)
Definition async_append_one (entry : list Z) (w : write_ahead_log) : option ccb_append_log_request :=
  async_append [entry] w.

(** The views of the records of [m]. *)
(* @src include/common/tx_log.h 119 132 handle_repeated_tx_logs_to_buffer *)
Fixpoint split_logs (fuel : nat) (m : list Z) : option (list (list Z)) :=
  match fuel with
  | O => None
  | S fuel =>
      if decide (m = []) then Some []
      else
        n ← payload_size m;
        let buffer_size := u64 (n + HEADER_SIZE) in
        if (0 <? buffer_size) && (buffer_size <=? zlen m) then
          rest ← split_logs fuel (zdrop buffer_size m);
          Some (ztake buffer_size m :: rest)
        else None
  end.

Definition handle_repeated_tx_logs_to_buffer (m : list Z) : option (list (list Z)) := split_logs (S (length m)) m.

(** [parse] is protobuf's [ParseFromArray] for [tx_log]. *)
Section parse.
Context {A : Type} (parse : list Z → option A).

(* @src include/common/tx_log.h 134 146 handle_repeated_tx_logs_to_proto *)
Definition handle_repeated_tx_logs_to_proto (m : list Z) : option (list A) :=
  bs ← handle_repeated_tx_logs_to_buffer m;
  mapM (fun b => p ← payload b; parse p) bs.

(* @src include/common/tx_log.h 148 159 handle_repeated_tx_logs_to_proto_and_timestamp *)
Definition handle_repeated_tx_logs_to_proto_and_timestamp (m : list Z) : option (list (A * Z * Z)) :=
  bs ← handle_repeated_tx_logs_to_buffer m;
  mapM (fun b => p ← payload b; a ← parse p; ts ← timestamp b; n ← node_id b; Some (a, ts, n)) bs.

End parse.

(** ** Records *)

(** A record and its bytes; a payload has at least eight bytes. *)
Record log_record := mk_record { r_payload : list Z; r_timestamp : Z; r_node : Z }.

Definition encode (r : log_record) : list Z :=
  le 8 (zlen (r_payload r)) ++ le 8 (r_timestamp r) ++ le 8 (r_node r) ++ r_payload r.
#[global] Arguments encode : simpl never.

Record wf_record (r : log_record) : Prop := mk_wf_record {
  wr_payload : 8 ≤ zlen (r_payload r) < 2 ^ 62;
  wr_timestamp : fits 64 (r_timestamp r);
  wr_node : fits 32 (r_node r);
}.

Lemma zlen_encode r : zlen (encode r) = HEADER_SIZE + zlen (r_payload r).
Proof. unfold encode. rewrite !zlen_app, !zlen_le. unfold HEADER_SIZE. lia. Qed.

(** The fields of an encoded record. *)
Lemma slice_mid (a b c : list Z) off n : off = zlen a → n = zlen b → slice off n (a ++ b ++ c) = b.
Proof. intros -> ->. unfold slice. rewrite zdrop_app_len by done. by apply ztake_app_len. Qed.

Lemma get_u64_mid (a c : list Z) off x : off = zlen a → fits 64 x → get_u64 off (a ++ le 8 x ++ c) = Some x.
Proof.
  intros -> Hx. unfold get_u64, has_data. rewrite !zlen_app, zlen_le. pose proof (zlen_nonneg c).
  rewrite (proj2 (Z.leb_le _ _)) by lia. rewrite (slice_mid a (le 8 x) c) by by rewrite ?zlen_le.
  by rewrite le_val_small.
Qed.

Lemma blit_mid (a b c src : list Z) off : off = zlen a → zlen b = zlen src → blit off src (a ++ b ++ c) = a ++ src ++ c.
Proof.
  intros -> Hb. unfold blit. rewrite ztake_app_len by done. do 2 f_equal.
  rewrite app_assoc. apply zdrop_app_len. by rewrite zlen_app, Hb.
Qed.

Lemma set_u64_mid (a b c : list Z) off x : off = zlen a → zlen b = 8 → set_u64 off x (a ++ b ++ c) = Some (a ++ le 8 x ++ c).
Proof.
  intros Ha Hb. unfold set_u64, has_data. rewrite !zlen_app, Hb. pose proof (zlen_nonneg c).
  rewrite (proj2 (Z.leb_le _ _)) by lia. f_equal. apply blit_mid; [done|]. by rewrite zlen_le.
Qed.

Section fields.
Context (r : log_record) (Hr : wf_record r) (rest : list Z).

Lemma payload_size_encode : payload_size (encode r ++ rest) = Some (zlen (r_payload r)).
Proof.
  unfold payload_size, encode. rewrite <- !app_assoc. apply (get_u64_mid [] _); [done|].
  destruct Hr as [[? ?] _ _]. unfold fits. lia.
Qed.

Lemma timestamp_encode : timestamp (encode r) = Some (r_timestamp r).
Proof. unfold timestamp, encode. apply get_u64_mid; [by rewrite zlen_le|apply Hr]. Qed.

Lemma node_id_encode : node_id (encode r) = Some (r_node r).
Proof.
  destruct Hr as [_ _ Hn]. unfold node_id, encode. rewrite (app_assoc (le 8 _)), get_u64_mid.
  - simpl. f_equal. by apply wrap_small.
  - by rewrite zlen_app, !zlen_le.
  - unfold fits in *. lia.
Qed.

Lemma payload_encode : payload (encode r) = Some (r_payload r).
Proof.
  unfold payload. destruct Hr as [[? ?] _ _].
  assert (payload_size (encode r) = Some (zlen (r_payload r))) as ->.
  { unfold payload_size, encode. apply (get_u64_mid [] _); [done|]. unfold fits. lia. }
  unfold has_data. rewrite zlen_encode. rewrite !(proj2 (Z.leb_le _ _)) by lia. simpl. f_equal.
  unfold encode, slice. rewrite !app_assoc. rewrite zdrop_app_len; [by apply ztake_all|].
  by rewrite !zlen_app, !zlen_le.
Qed.

Lemma set_timestamp_encode x : set_timestamp x (encode r) = Some (encode (mk_record (r_payload r) x (r_node r))).
Proof. unfold set_timestamp, encode. apply set_u64_mid; by rewrite zlen_le. Qed.

End fields.

(** [format] makes the front of the memory the record. *)
Lemma format_encode r m :
  8 ≤ zlen (r_payload r) → zlen (encode r) ≤ zlen m →
  format (r_payload r) (r_timestamp r) (r_node r) m = Some (encode r ++ zdrop (zlen (encode r)) m).
Proof.
  intros Hp Hm. rewrite zlen_encode in *. unfold HEADER_SIZE in *. set (n := zlen (r_payload r)) in *.
  assert (∃ h1 h2 h3 p rest, m = h1 ++ h2 ++ h3 ++ p ++ rest ∧ zlen h1 = 8 ∧ zlen h2 = 8 ∧ zlen h3 = 8 ∧ zlen p = n
    ∧ rest = zdrop (24 + n) m) as (h1 & h2 & h3 & p & rest & -> & H1 & H2 & H3 & H4 & Hrest).
  { exists (ztake 8 m), (ztake 8 (zdrop 8 m)), (ztake 8 (zdrop 16 m)), (ztake n (zdrop 24 m)), (zdrop (24 + n) m).
    rewrite !zlen_ztake, !zlen_zdrop by lia. split_and!; try lia; [|done].
    replace (zdrop (24 + n) m) with (zdrop n (zdrop 24 m)) by (rewrite zdrop_zdrop by lia; done).
    rewrite ztake_zdrop. replace (zdrop 24 m) with (zdrop 8 (zdrop 16 m)) by (rewrite zdrop_zdrop by lia; done).
    rewrite ztake_zdrop. replace (zdrop 16 m) with (zdrop 8 (zdrop 8 m)) by (rewrite zdrop_zdrop by lia; done).
    rewrite ztake_zdrop. by rewrite ztake_zdrop. }
  rewrite <- Hrest. pose proof (zlen_nonneg rest). unfold format, set_payload_size, set_timestamp, set_node_id. fold n.
  rewrite (set_u64_mid [] h1 _ _ _ eq_refl H1 : set_u64 _ _ (h1 ++ _) = _). cbn [mbind option_bind].
  change ([] ++ le 8 n ++ h2 ++ h3 ++ p ++ rest) with (le 8 n ++ h2 ++ h3 ++ p ++ rest).
  rewrite (set_u64_mid (le 8 n) h2) by by rewrite ?zlen_le. cbn [mbind option_bind].
  rewrite (app_assoc (le 8 n)). rewrite (set_u64_mid _ h3); [|by rewrite zlen_app, !zlen_le|done]. cbn [mbind option_bind].
  unfold copy_payload, has_data, HEADER_SIZE. rewrite !zlen_app, !zlen_le, H4. fold n.
  rewrite !(proj2 (Z.leb_le _ _)) by lia. cbn [andb]. f_equal.
  rewrite (app_assoc (le 8 n ++ _)). rewrite blit_mid; [|by rewrite !zlen_app, !zlen_le|by rewrite H4].
  unfold encode. fold n. by rewrite <- !app_assoc.
Qed.

Lemma split_logs_encode rs : Forall wf_record rs → ∀ fuel, (length rs < fuel)%nat →
  split_logs fuel (concat (map encode rs)) = Some (map encode rs).
Proof.
  induction 1 as [|r rs Hr _ IH]; intros fuel Hf; (destruct fuel as [|fuel]; [simpl in Hf; lia|]); [done|].
  cbn [map concat split_logs]. pose proof (zlen_encode r) as Hl. destruct Hr as [Hp Ht Hn] eqn:Er.
  rewrite decide_False.
  2:{ intros E. apply (f_equal zlen) in E. rewrite zlen_app, Hl in E. pose proof (zlen_nonneg (concat (map encode rs))).
      unfold HEADER_SIZE in E. rewrite zlen_nil in E. lia. }
  rewrite payload_size_encode by done. cbn [mbind option_bind].
  rewrite (wrap_small 64) by (unfold fits, HEADER_SIZE; lia).
  replace (zlen (r_payload r) + HEADER_SIZE) with (zlen (encode r)) by lia.
  pose proof (zlen_nonneg (concat (map encode rs))). unfold HEADER_SIZE in *.
  rewrite zlen_app, (proj2 (Z.ltb_lt _ _)), (proj2 (Z.leb_le _ _)) by lia. cbn [andb].
  rewrite zdrop_app_len, ztake_app_len by done. rewrite IH by (simpl in Hf; lia). done.
Qed.

Lemma concat_long rs : Forall wf_record rs → (length rs ≤ length (concat (map encode rs)))%nat.
Proof.
  induction 1 as [|r rs Hr _ IH]; [done|]. simpl. rewrite length_app. pose proof (zlen_encode r) as Hl.
  unfold zlen, HEADER_SIZE in Hl. lia.
Qed.

(** Splitting the concatenation of records gives the records. *)
Lemma split_records rs : Forall wf_record rs →
  handle_repeated_tx_logs_to_buffer (concat (map encode rs)) = Some (map encode rs).
Proof. intros Hrs. apply split_logs_encode; [done|]. pose proof (concat_long rs Hrs). lia. Qed.

(** The record the write-ahead log of a node makes of an entry. *)
Definition wal_record (node : Z) (log : list Z) : log_record := mk_record log 0 node.

Lemma format_all_encode node logs : ∀ done m,
  Forall (fun log => 8 ≤ zlen log < 2 ^ 62) logs → zlen (concat (map (fun l => encode (wal_record node l)) logs)) = zlen m →
  format_all logs node done m = Some (done ++ concat (map (fun l => encode (wal_record node l)) logs)).
Proof.
  induction logs as [|log logs IH]; intros dn m Hl Hm; cbn [format_all map concat] in *.
  { destruct m as [|x m]; [done|]. rewrite zlen_nil, zlen_cons in Hm. pose proof (zlen_nonneg m). lia. }
  inversion Hl as [|? ? Hlog Hlogs]; subst. set (r := wal_record node log) in *. rewrite zlen_app in Hm.
  set (rest := concat _) in *. pose proof (zlen_nonneg rest).
  change (format log 0 node m) with (format (r_payload r) (r_timestamp r) (r_node r) m).
  rewrite (format_encode r m) by (simpl; lia). cbn [mbind option_bind].
  assert (add_header_size (zlen log) = zlen (encode r)) as ->.
  { rewrite zlen_encode. apply wrap_small. unfold fits, HEADER_SIZE. simpl. lia. }
  rewrite ztake_app_len, zdrop_app_len by done. rewrite IH; [by rewrite <- app_assoc|done|].
  fold rest. pose proof (zlen_nonneg (encode r)). rewrite zlen_zdrop by lia. lia.
Qed.

Lemma total_encode node logs : ∀ n, 0 ≤ n → Forall (fun log => 8 ≤ zlen log < 2 ^ 62) logs →
  n + zlen (concat (map (fun l => encode (wal_record node l)) logs)) < 2 ^ 64 →
  foldl (fun n log => u64 (n + add_header_size (zlen log))) n logs
  = n + zlen (concat (map (fun l => encode (wal_record node l)) logs)).
Proof.
  induction logs as [|log logs IH]; intros n Hn Hl Hb; cbn [foldl map concat] in *; [rewrite zlen_nil; lia|].
  inversion Hl as [|? ? Hlog Hlogs]; subst. rewrite zlen_app, zlen_encode in *. cbn [r_payload wal_record] in *.
  set (rest := concat _) in *. pose proof (zlen_nonneg rest). unfold HEADER_SIZE in *.
  unfold add_header_size, HEADER_SIZE. rewrite (wrap_small 64 (24 + _)), (wrap_small 64) by (unfold fits; lia).
  rewrite IH by (done || lia). fold rest. lia.
Qed.

Lemma async_append_ok logs w :
  cno_ w ≠ 0 → fits 32 (node_id_ w) → Forall (fun log => 8 ≤ zlen log < 2 ^ 62) logs →
  zlen (concat (map (fun l => encode (wal_record (node_id_ w) l)) logs)) < 2 ^ 64 →
  async_append logs w = Some (mk_append_request (node_id_ w) (rlb_node_id_ w) (cno_ w)
    (concat (map encode (map (wal_record (node_id_ w)) logs)))) ∧
  Forall wf_record (map (wal_record (node_id_ w)) logs).
Proof.
  intros Hc Hn Hl Hb. split.
  - unfold async_append. destruct (Z.eqb_spec (cno_ w) 0); [done|]. rewrite (total_encode (node_id_ w)) by (done || lia).
    rewrite format_all_encode; [|done|].
    + cbn. by rewrite map_map.
    + unfold zlen at 2. rewrite length_replicate. pose proof (zlen_nonneg (concat (map (fun l => encode (wal_record (node_id_ w) l)) logs))). lia.
  - apply Forall_map. eapply Forall_impl; [done|]. intros log Hlog. by constructor.
Qed.

(** C28: What a node appends to its write-ahead log arrives record by record, in
    order, with timestamp 0 and the node's id: reading the request back gives
    the logs that were written. *)
Theorem wal_roundtrip {A} (parse : list Z → option A) (logs : list (list Z)) (vals : list A) w :
  cno_ w ≠ 0 → fits 32 (node_id_ w) → Forall (fun log => 8 ≤ zlen log < 2 ^ 62) logs →
  zlen (concat (map (fun l => encode (wal_record (node_id_ w) l)) logs)) < 2 ^ 64 →
  mapM parse logs = Some vals →
  ∃ req, async_append logs w = Some req ∧ cno req = cno_ w ∧ dest req = rlb_node_id_ w ∧
    handle_repeated_tx_logs_to_proto_and_timestamp parse (repeated_tx_logs req)
      = Some (map (fun a => (a, 0, node_id_ w)) vals).
Proof.
  intros Hc Hn Hl Hb Hp. destruct (async_append_ok logs w Hc Hn Hl Hb) as [E Hwf]. eexists. split; [exact E|].
  split; [done|]. split; [done|]. unfold handle_repeated_tx_logs_to_proto_and_timestamp. cbn [repeated_tx_logs].
  rewrite split_records by done. cbn [mbind option_bind]. clear E Hb Hl. revert vals Hp.
  induction logs as [|log logs IH]; intros vals Hp.
  { injection Hp as <-. done. }
  inversion Hwf as [|? ? Hr Hwf']; subst. cbn [mapM] in Hp. destruct (parse log) as [a|] eqn:Ea; [|done].
  cbn [mbind option_bind] in Hp. destruct (mapM parse logs) as [as_|]; [|done]. injection Hp as <-.
  cbn [map mapM]. rewrite payload_encode, timestamp_encode, node_id_encode by done. cbn [mbind option_bind r_payload wal_record].
  rewrite Ea. cbn. by rewrite (IH Hwf' as_ eq_refl).
Qed.

(** A log of fewer than eight bytes cannot be written: as the last of a
    request it fails the assertion of [get_data], though the memory has room
    for it. *)
Theorem short_log_fails w log : cno_ w ≠ 0 → zlen log < 8 → async_append [log] w = None.
Proof.
  intros Hc Hl. unfold async_append. destruct (Z.eqb_spec (cno_ w) 0); [done|].
  pose proof (zlen_nonneg log). cbn [foldl format_all]. unfold add_header_size, HEADER_SIZE.
  rewrite (wrap_small 64 (24 + _)), (wrap_small 64) by (unfold fits; lia). rewrite Z.add_0_l.
  set (m := replicate _ 0). assert (zlen m = 24 + zlen log) as Hm by (unfold m, zlen at 1; rewrite length_replicate; lia).
  assert (∀ off x k, zlen k = zlen m → 0 ≤ off ≤ 16 → ∃ k', set_u64 off x k = Some k' ∧ zlen k' = zlen m) as Hset.
  { intros off x k Hk Hoff. unfold set_u64, has_data. rewrite (proj2 (Z.leb_le _ _)) by lia. eexists. split; [done|].
    rewrite zlen_blit; rewrite ?zlen_le; lia. }
  unfold format, set_payload_size, set_timestamp, set_node_id, OFFSET_PAYLOAD_SIZE, OFFSET_TIMESTAMP, OFFSET_NODE_ID.
  destruct (Hset 0 (zlen log) m eq_refl ltac:(lia)) as (m1 & -> & H1). cbn [mbind option_bind].
  destruct (Hset 8 0 m1 H1 ltac:(lia)) as (m2 & -> & H2). cbn [mbind option_bind].
  destruct (Hset 16 (node_id_ w) m2 H2 ltac:(lia)) as (m3 & -> & H3). cbn [mbind option_bind].
  unfold copy_payload, has_data, HEADER_SIZE. rewrite (proj2 (Z.leb_gt (24 + 8) _)) by lia. by rewrite andb_false_r.
Qed.

Lemma wal_roundtrip_witness :
  ∃ req, async_append [le 8 5; le 9 7] (set_cno 3 (new_wal 11 12)) = Some req ∧
    handle_repeated_tx_logs_to_proto_and_timestamp (fun l => Some (le_val l)) (repeated_tx_logs req)
      = Some [(5, 0, 11); (7, 0, 11)].
Proof.
  destruct (wal_roundtrip (fun l => Some (le_val l)) [le 8 5; le 9 7] [5; 7] (set_cno 3 (new_wal 11 12)))
    as (req & H1 & _ & _ & H2).
  - done.
  - unfold fits. cbn. lia.
  - repeat constructor; vm_compute; congruence.
  - vm_compute. reflexivity.
  - reflexivity.
  - by exists req.
Defined.

Lemma short_log_fails_witness : async_append [[1; 2; 3]] (set_cno 3 (new_wal 11 12)) = None.
Proof. apply short_log_fails; vm_compute; congruence. Defined.

End TxLogFormat.
