(* ===== verification/LogService.v ===== *)
(** * The replica's log store

    [include/replog/log_service.h], [include/replog/log_service_impl.h] and
    [src/replog/log_service_impl.cpp].  The store is a RocksDB database; the
    code relies on RocksDB for a map ordered by the comparator, which is the
    class [KvStore] here.  Values are what protobuf serializes.

    - [compare_order]: the comparator is a total order that tells keys apart;
    - [state_survives]: a restarted replica reads back the last state written;
    - [log_never_read], [restart_forgets_log]: log entries are written under
      keys with transaction 0, which [retrieve_log] skips, so that a restarted
      replica has no log;
    - [equal_rejects_equal]: the comparator's [Equal] compares the index with
      the transaction. *)

From stdpp Require Import sorting.
From S2P Require Import Prelude Common.
From S2P Require Import Raft.
#[local] Open Scope Z_scope.

Module LogService.
Import (hints) Raft.Raft.
Import Raft.Raft.

(** ** Keys *)

(* @src include/replog/log_service.h 9 14 log_entry_type *)
Definition TX_LOG_WRITE : Z := 0.
Definition TX_LOG_END : Z := 1.
Definition TX_LOG_REPLAY : Z := 2.
Definition RAFT_LOG : Z := 3.

(* @src include/replog/log_service.h 16 35 tx_log_index *)
Record tx_log_index := mk_index { xid_ : Z; index_ : Z; type_ : Z }.
#[export] Instance tx_log_index_eq_dec : EqDecision tx_log_index.
Proof. solve_decision. Defined.

(* @src include/replog/log_service.h 23 23 tx_log_index::tx_log_index *)
Definition raft_index (index : Z) : tx_log_index := mk_index 0 index RAFT_LOG.
(* @src include/replog/log_service.h 41 43 tx_log_index::tx_max_index *)
Definition tx_max_index (xid : Z) : tx_log_index := mk_index xid (2 ^ 64 - 1) (2 ^ 32 - 1).
(* @src include/replog/log_service.h 45 47 tx_log_index::tx_min_index *)
Definition tx_min_index (xid : Z) : tx_log_index := mk_index xid 0 0.
(* @src include/replog/log_service.h 49 49 tx_log_index::state_index *)
Definition state_index : tx_log_index := mk_index 0 0 0.

(* @src include/replog/log_service.h 51 53 tx_log_index::equal *)
Definition equal (a i : tx_log_index) : bool := (xid_ i =? xid_ a) && (index_ i =? xid_ a) && (type_ i =? type_ a).

(* @src include/replog/log_service.h 55 75 tx_log_index::compare *)
Definition compare (a i : tx_log_index) : Z :=
  if xid_ a <? xid_ i then -1
  else if xid_ i <? xid_ a then 1
  else if index_ a <? index_ i then -1
  else if index_ i <? index_ a then 1
  else if type_ a <? type_ i then -1
  else if type_ i <? type_ a then 1
  else 0.

(* @src src/replog/log_service_impl.cpp 9 16 to_log_entry_type *)
Definition to_log_entry_type (type : tx_cmd_type) : Z :=
  match type with
  | TX_CMD_RM_COMMIT | TX_CMD_RM_ABORT | TX_CMD_TM_END => TX_LOG_END
  | _ => TX_LOG_WRITE
  end.

Lemma compare_props a b c :
  (compare a b = 0 ↔ a = b) ∧ compare b a = - compare a b ∧
  (compare a b = -1 → compare b c = -1 → compare a c = -1) ∧ compare a b ∈ [-1; 0; 1].
Proof.
  destruct a as [x1 i1 t1], b as [x2 i2 t2], c as [x3 i3 t3]. unfold compare. cbn.
  repeat match goal with |- context [?x <? ?y] => destruct (Z.ltb_spec x y) end; try lia;
    (split_and!; [split; [intros; f_equal; lia|intros [=]; lia]|lia|lia|set_solver]).
Qed.

(** The comparator the database is opened with is a total order: it answers
    0 for equal keys only, swaps its sign with its arguments, and is
    transitive. *)
Theorem compare_order a b c :
  (compare a b = 0 ↔ a = b) ∧ compare b a = - compare a b ∧
  (compare a b = -1 → compare b c = -1 → compare a c = -1) ∧ compare a b ∈ [-1; 0; 1].
Proof. apply compare_props. Qed.

(** ** The database *)

Class KvStore (V : Type) := {
  db : Type;
  kv_empty : db;
  kv_get : tx_log_index → db → option V;
  kv_put : tx_log_index → V → db → db;
  kv_delete_range : tx_log_index → tx_log_index → db → db;
  kv_list : db → list (tx_log_index * V);
}.

Class KvLaws V `{KvStore V} : Prop := {
  get_empty k : kv_get k kv_empty = None;
  get_put k k' v d : kv_get k (kv_put k' v d) = if decide (k = k') then Some v else kv_get k d;
  get_delete_range k b e d : kv_get k (kv_delete_range b e d) =
    if decide (compare b k ≤ 0 ∧ compare k e = -1) then None else kv_get k d;
  list_get k v d : (k, v) ∈ kv_list d ↔ kv_get k d = Some v;
  list_sorted d : StronglySorted (fun p q => compare p.1 q.1 = -1) (kv_list d);
}.

Section service.
Context {V : Type} `{KvLaws V}.
Context (ser_entry : raft_log_entry → V) (ser_state : raft_log_state → V) (parse_state : V → option raft_log_state).

(** [force] only syncs what is written. *)
(* @src src/replog/log_service_impl.cpp 47 71 log_service_impl::write_log *)
Definition write_log (entries : list raft_log_entry) (d : db) : db :=
  foldl (fun d e => kv_put (raft_index (e_index e)) (ser_entry e) d) d entries.

(* @src src/replog/log_service_impl.cpp 73 93 log_service_impl::write_state *)
Definition write_state (state : option raft_log_state) (d : db) : db :=
  match state with
  | None => d
  | Some s => kv_put (mk_index 0 0 0) (ser_state s) d
  end.

(** The value the callback gets, if it is called. *)
(* @src src/replog/log_service_impl.cpp 95 105 log_service_impl::retrieve_state *)
Definition retrieve_state (d : db) : option V := kv_get state_index d.

(** The calls of [fn2], in order. *)
(* @src src/replog/log_service_impl.cpp 107 121 log_service_impl::retrieve_log *)
Definition retrieve_log (d : db) : list (tx_log_index * V) := filter (fun kv => xid_ kv.1 ≠ 0) (kv_list d).

(** The loop of [clean_up] over the keys: [xid] and [le_consistency] are its
    variables; the ranges it deletes. *)
(* @src src/replog/log_service_impl.cpp 144 170 log_service_impl::clean_up *)
Fixpoint clean_ranges (consistency_index xid : Z) (le_consistency : bool) (ks : list tx_log_index)
    : list (tx_log_index * tx_log_index) :=
  match ks with
  | [] => []
  | k :: ks =>
      let le_consistency := if xid =? xid_ k then le_consistency else true in
      let '(out, le_consistency) :=
        if xid_ k =? 0 then ([], le_consistency)
        else if type_ k =? 11 (* TX_CMD_REPLAY_DSB *) then
          ((if le_consistency then [(tx_min_index xid, tx_max_index xid)] else []), le_consistency)
        else if consistency_index <? index_ k then ([], false)
        else ([], le_consistency) in
      out ++ clean_ranges consistency_index (xid_ k) le_consistency ks
  end.

(* @src src/replog/log_service_impl.cpp 123 176 log_service_impl::clean_up *)
Definition clean_up (d : db) : db :=
  match kv_get (mk_index 0 0 0) d with
  | None => d
  | Some value =>
      match parse_state value with
      | None => d
      | Some state =>
          if ls_consistency_index state =? 0 then d
          else foldl (fun d r => kv_delete_range r.1 r.2 d) d
                 (clean_ranges (ls_consistency_index state) 0 true (map fst (kv_list d)))
      end
  end.

(** ** Histories of a store *)

Inductive op :=
  | OLog (entries : list raft_log_entry)
  | OState (state : option raft_log_state)
  | OClean.

Definition apply (d : db) (o : op) : db :=
  match o with
  | OLog es => write_log es d
  | OState s => write_state s d
  | OClean => clean_up d
  end.

Lemma get_write_log es d k :
  kv_get k (write_log es d) = match last (filter (fun e => raft_index (e_index e) = k) es) with
                              | Some e => Some (ser_entry e)
                              | None => kv_get k d
                              end.
Proof.
  induction es as [|e es IH] using rev_ind; [done|]. unfold write_log in *. rewrite foldl_snoc, get_put, filter_app, filter_cons.
  destruct (decide (k = raft_index (e_index e))) as [->|Hne].
  - by rewrite decide_True, filter_nil, last_snoc.
  - rewrite decide_False, filter_nil, app_nil_r by congruence. done.
Qed.

(** Without keys of transactions there is nothing to clean. *)
Lemma clean_ranges_nil ci xid b ks : Forall (fun k => xid_ k = 0) ks → clean_ranges ci xid b ks = [].
Proof.
  intros Hks. revert xid b. induction Hks as [|k ks Hk _ IH]; intros xid b; [done|]. cbn. rewrite Hk. cbn. by rewrite IH.
Qed.

Definition plain (d : db) : Prop := ∀ k v, kv_get k d = Some v → xid_ k = 0.

Lemma clean_up_noop d : plain d → clean_up d = d.
Proof.
  intros Hd. unfold clean_up. destruct (kv_get _ d); [|done]. destruct (parse_state _); [|done].
  case_test; [done|]. rewrite clean_ranges_nil; [done|]. apply Forall_fmap, Forall_forall.
  intros [k u] Hkv. cbn. apply list_get in Hkv. by apply (Hd k u).
Qed.

Lemma apply_plain d o : plain d → plain (apply d o).
Proof.
  intros Hd k v. destruct o as [es|[s|]|]; cbn.
  - rewrite get_write_log. destruct (last _) as [e|] eqn:El; [|apply Hd].
    apply last_Some_elem_of, list_elem_of_filter in El as [<- _]. done.
  - rewrite get_put. destruct (decide _) as [->|]; [done|apply Hd].
  - apply Hd.
  - rewrite clean_up_noop by done. apply Hd.
Qed.

Lemma history_plain os d : plain d → plain (foldl apply d os).
Proof. revert d. induction os as [|o os IH]; intros d Hd; [done|]. cbn. by apply IH, apply_plain. Qed.

Lemma empty_plain : plain kv_empty.
Proof. intros k v. by rewrite get_empty. Qed.

(** The last state written, if any. *)
Fixpoint last_state (os : list op) : option raft_log_state :=
  match os with
  | [] => None
  | o :: os => match last_state os, o with
               | Some s, _ => Some s
               | None, OState s => s
               | None, _ => None
               end
  end.

Lemma history_state os : ∀ d, plain d →
  retrieve_state (foldl apply d os) = match last_state os with Some s => Some (ser_state s) | None => retrieve_state d end.
Proof.
  induction os as [|o os IH]; intros d Hd; [done|]. cbn. rewrite IH by by apply apply_plain.
  destruct (last_state os); [done|]. unfold retrieve_state. destruct o as [es|[s|]|]; cbn.
  - rewrite get_write_log. destruct (last _) as [e|] eqn:El; [|done].
    apply last_Some_elem_of, list_elem_of_filter in El as [El _]. by injection El.
  - by rewrite get_put, decide_True.
  - done.
  - by rewrite clean_up_noop.
Qed.

(** After any history of writes and clean-ups, [retrieve_state] returns the
    last raft state written. *)
Theorem state_survives os s :
  last_state os = Some s → retrieve_state (foldl apply kv_empty os) = Some (ser_state s).
Proof. intros Hs. rewrite (history_state os kv_empty empty_plain). by rewrite Hs. Qed.

Lemma retrieve_nothing d : plain d → retrieve_log d = [].
Proof.
  intros Hd. apply elem_of_nil_inv. intros [k v] Hkv. apply list_elem_of_filter in Hkv as [Hk Hkv].
  apply list_get in Hkv. by apply Hk, (Hd k v).
Qed.

(** However many entries were written, [retrieve_log] calls its callback for
    none of them, though each written entry is still in the database. *)
Theorem log_never_read os es e :
  e ∈ es →
  retrieve_log (foldl apply kv_empty (os ++ [OLog es])) = [] ∧
  is_Some (kv_get (raft_index (e_index e)) (foldl apply kv_empty (os ++ [OLog es]))).
Proof.
  intros He. split; [apply retrieve_nothing, history_plain, empty_plain|].
  rewrite foldl_snoc. cbn. rewrite get_write_log. destruct (last _) eqn:El; [by eexists|].
  apply last_None in El. assert (e ∈ filter (fun e' => raft_index (e_index e') = raft_index (e_index e)) es) as Hin
    by by apply list_elem_of_filter. rewrite El in Hin. by apply elem_of_nil in Hin.
Qed.

(** The entries [pre_start] builds from the calls of its callback, [parse_entry]
    being protobuf's. *)
Definition recovered (parse_entry : V → option raft_log_entry) (d : db) : list raft_log_entry :=
  omap (fun kv => parse_entry kv.2) (retrieve_log d).

(** A replica that restarts on what it wrote has an empty log, whatever
    entries it had stored. *)
Theorem restart_forgets_log parse_entry cfg node_id nodes os :
  let d := foldl apply kv_empty os in
  log_ (pre_start cfg node_id nodes (retrieve_state d ≫= parse_state) (recovered parse_entry d)) = [].
Proof. cbn. unfold recovered. rewrite retrieve_nothing by apply history_plain, empty_plain. done. Qed.

End service.

(** [Equal] answers false for a key and itself when its transaction and its
    index differ, as for every stored log entry but the first. *)
Theorem equal_rejects_equal a : xid_ a ≠ index_ a → compare a a = 0 ∧ equal a a = false.
Proof.
  intros Ha. unfold compare, equal. rewrite !Z.ltb_irrefl. split; [done|]. rewrite Z.eqb_refl.
  by destruct (Z.eqb_spec (index_ a) (xid_ a)).
Qed.

(** ** A database in memory

    An instance of the interface: a finite map, listed by sorting its keys. *)

#[export] Instance tx_log_index_countable : Countable tx_log_index :=
  inj_countable' (fun k => (xid_ k, index_ k, type_ k)) (fun p => mk_index p.1.1 p.1.2 p.2) ltac:(by intros []).

Section memory.
Context {V : Type}.

Definition key_le (p q : tx_log_index * V) : Prop := compare p.1 q.1 ≤ 0.
#[export] Instance key_le_dec : RelDecision key_le.
Proof. intros p q. unfold key_le. apply _. Defined.

#[export] Instance key_le_total : Total key_le.
Proof.
  intros p q. unfold key_le. destruct (compare_props p.1 q.1 p.1) as (_ & E & _ & Hin).
  rewrite !elem_of_cons, elem_of_nil in Hin. destruct Hin as [?|[?|[?|[]]]]; [left|left|right]; lia.
Qed.

#[export] Instance key_le_trans : Transitive key_le.
Proof.
  intros p q r. unfold key_le. intros H1 H2.
  destruct (compare_props p.1 q.1 r.1) as (Epq & _ & Ht & Hin1), (compare_props q.1 r.1 r.1) as (Eqr & _ & _ & Hin2).
  rewrite !elem_of_cons, elem_of_nil in Hin1, Hin2.
  destruct Hin1 as [E1|[E1|[E1|[]]]], Hin2 as [E2|[E2|[E2|[]]]]; try lia.
  - apply Eqr in E2. rewrite <- E2. lia.
  - apply Epq in E1. rewrite E1. lia.
  - apply Epq in E1. rewrite E1. lia.
Qed.

#[export] Instance memory_store : KvStore V := {|
  db := gmap tx_log_index V;
  kv_empty := ∅;
  kv_get k d := d !! k;
  kv_put k v d := <[k := v]> d;
  kv_delete_range b e d := filter (fun p => ¬ (compare b p.1 ≤ 0 ∧ compare p.1 e = -1)) d;
  kv_list d := merge_sort key_le (map_to_list d);
|}.

Lemma strict_sorted (l : list (tx_log_index * V)) :
  NoDup l.*1 → StronglySorted key_le l → StronglySorted (fun p q => compare p.1 q.1 = -1) l.
Proof.
  intros Hnd Hs. induction Hs as [|p l Hs IH Hp]; [constructor|]. cbn in Hnd. apply NoDup_cons in Hnd as [Hni Hnd].
  constructor; [by apply IH|]. rewrite Forall_forall in *. intros q Hq. specialize (Hp q Hq). unfold key_le in Hp.
  destruct (compare_props p.1 q.1 p.1) as (E & _ & _ & Hin). rewrite !elem_of_cons, elem_of_nil in Hin.
  destruct Hin as [?|[E0|[?|[]]]]; try lia. apply E in E0. destruct Hni. rewrite E0. by apply list_elem_of_fmap_2.
Qed.

#[export] Instance memory_laws : KvLaws V.
Proof.
  constructor; cbn.
  - intros k. apply lookup_empty.
  - intros k k' v d. destruct (decide (k = k')) as [->|Hne]; [apply lookup_insert_eq|by apply lookup_insert_ne].
  - intros k b e d. rewrite map_lookup_filter. destruct (d !! k) eqn:E; cbn; [|by destruct (decide _)].
    destruct (decide (compare b k ≤ 0 ∧ compare k e = -1)); [by rewrite option_guard_False by auto|by rewrite option_guard_True].
  - intros k v d. rewrite merge_sort_Permutation. apply elem_of_map_to_list.
  - intros d. apply strict_sorted; [|apply StronglySorted_merge_sort; apply _].
    rewrite merge_sort_Permutation. apply NoDup_fst_map_to_list.
Qed.

End memory.

(** ** Witnesses *)

Definition demo_value : Type := raft_log_state + raft_log_entry.
Definition demo_parse (v : demo_value) : option raft_log_state := match v with inl s => Some s | inr _ => None end.
Definition demo_ops : list op :=
  [OState (Some (mk_log_state 1 2 3 4)); OLog [mk_entry 1 1 "a"; mk_entry 2 1 "b"]; OClean;
   OState (Some (mk_log_state 5 2 3 4)); OClean].

Lemma state_survives_witness :
  retrieve_state (foldl (apply inr inl demo_parse) (kv_empty (V := demo_value)) demo_ops) = Some (inl (mk_log_state 5 2 3 4)).
Proof. apply (state_survives (V := demo_value) inr inl demo_parse demo_ops (mk_log_state 5 2 3 4)). reflexivity. Defined.

Lemma log_never_read_witness :
  retrieve_log (foldl (apply inr inl demo_parse) (kv_empty (V := demo_value)) (demo_ops ++ [OLog [mk_entry 3 1 "c"]])) = [] ∧
  is_Some (kv_get (raft_index 3) (foldl (apply inr inl demo_parse) (kv_empty (V := demo_value)) (demo_ops ++ [OLog [mk_entry 3 1 "c"]]))).
Proof. apply (log_never_read (V := demo_value) inr inl demo_parse demo_ops [mk_entry 3 1 "c"] (mk_entry 3 1 "c")). apply elem_of_cons. by left. Defined.

Lemma restart_forgets_log_witness :
  let d := foldl (apply inr inl demo_parse) (kv_empty (V := demo_value)) demo_ops in
  log_ (pre_start (mk_config 1 1 1 1) 1 [1] (retrieve_state d ≫= demo_parse)
    (recovered (fun v => match v with inr e => Some e | inl _ => None end) d)) = [].
Proof. apply (restart_forgets_log (V := demo_value) inr inl demo_parse). Defined.

Lemma equal_rejects_equal_witness : compare (raft_index 5) (raft_index 5) = 0 ∧ equal (raft_index 5) (raft_index 5) = false.
Proof. apply equal_rejects_equal. done. Defined.

End LogService.
