(* ===== verification/RlBlock.v ===== *)
(** * The replication block

    [src/replog/rl_block.cpp], [include/replog/rl_block.h].  The block registers
    the concurrency and the storage blocks that use its replicated log, passes
    their append requests to the raft replica while they name the current term
    ([cno_]), and hands committed records back: to the concurrency block that
    wrote each record, and to the storage blocks for replay.

    Messages to the raft replica itself are [Raft]'s handlers.  [parse] is
    protobuf's for [tx_log] and [current_us] the clock.

    - [commit_routed]: every committed record reaches the node that wrote it, in
      order, in one message, and no other node;
    - [replay_whole]: a single storage block gets every record, in order;
    - [stale_append_refused]: an append of another term is answered with the
      current term and changes nothing. *)

From S2P Require Import Prelude Common.
From S2P Require Import Bytes TxLogFormat Raft.
#[local] Open Scope Z_scope.
#[local] Open Scope act_scope.

Module RlBlock.
Import TxLogFormat.TxLogFormat.

(* @src include/replog/rl_block.h 20 44 rl_block *)
Record rl_block := mk_rlb {
  cno_ : Z;
  node_id_ : Z;
  ccb_shards_ : gmap Z Z;
  dsb_shards_ : gmap Z Z;
  ccb_node_id_ : option Z;
  dsb_node_id_ : option Z;
  ccb_responsed_ : gmap Z bool;
}.
#[export] Instance eta_rlb : Eta rl_block := fun b =>
  mk_rlb (cno_ b) (node_id_ b) (ccb_shards_ b) (dsb_shards_ b) (ccb_node_id_ b) (dsb_node_id_ b) (ccb_responsed_ b).

(** What raft says of itself. *)
(* @src include/raft/state_machine.h 48 52 sm_status *)
Record sm_status := mk_status { s_state : Raft.Raft.raft_state; s_term : Z; s_lead_node : Z }.

(* @src src/proto/block.proto 57 65 rlb_commit_entries *)
Record rlb_commit_entries := mk_commit { ce_error_code : EC; ce_source : Z; ce_cno : Z; ce_logs : list Z }.
(* @src src/proto/replay.proto 5 11 replay_to_dsb_request *)
Record replay_to_dsb_request := mk_replay { re_source : Z; re_cno : Z; re_logs : list Z; re_operations : list tx_operation }.

Inductive event :=
  | RegisterCcbResponse (dest cno lead_node : Z) (is_lead : bool) (shards : list (Z * Z))
  | RegisterDsbResponse (dest cno : Z) (lead : bool)
  | ErrorConsistency (dest cno : Z)
  | AppendLog (logs : list Z)
  | BecomeLeader (term : Z)
  | BecomeFollower (term : Z)
  | CommitEntries (ec : EC) (is_lead : bool)
  | SendCommit (dest : Z) (m : rlb_commit_entries)
  | SendReplay (dest : Z) (m : replay_to_dsb_request).

(** ** Registration *)

(** The loop over the shards: known storage blocks are listed, the first
    unknown one ends the handler. *)
(* @src src/replog/rl_block.cpp 145 157 rl_block::handle_register_ccb *)
Fixpoint register_shards (node : Z) (ids : list Z) (b : rl_block) : rl_block * option (list (Z * Z)) :=
  match ids with
  | [] => (b, Some [])
  | id :: ids =>
      let shards := match ccb_shards_ b !! id with Some _ => ccb_shards_ b | None => <[id := node]> (ccb_shards_ b) end in
      let b := b <| ccb_shards_ := shards |> in
      let b := if (1 <? size shards)%nat then b <| ccb_node_id_ := None |> else b in
      match dsb_shards_ b !! id with
      | None => (b, None)
      | Some d => let '(b, r) := register_shards node ids b in
                  (b, match r with Some l => Some ((id, d) :: l) | None => None end)
      end
  end.

Definition serving (s : sm_status) : bool :=
  negb (s_term s =? 0) && match s_state s with Raft.Raft.RAFT_STATE_LEADER | Raft.Raft.RAFT_STATE_FOLLOWER => true | _ => false end.

Definition is_leader (s : sm_status) : bool := match s_state s with Raft.Raft.RAFT_STATE_LEADER => true | _ => false end.

(* @src src/replog/rl_block.cpp 123 164 rl_block::handle_register_ccb *)
Definition handle_register_ccb (s : sm_status) (source cno : Z) (shard_ids : list Z) : act rl_block event := fun b =>
  if negb (serving s) then (b, [])
  else
    let '(b, shards) :=
      if s_term s =? cno then (b, Some [])
      else
        let b := if bool_decide (ccb_node_id_ b = None) && bool_decide (ccb_shards_ b = ∅)
                 then b <| ccb_node_id_ := Some source |> else b in
        register_shards source shard_ids b in
    match shards with
    | None => (b, [])
    | Some shards => (b, [RegisterCcbResponse source (s_term s) (s_lead_node s) (is_leader s) shards])
    end.

(* @src src/replog/rl_block.cpp 186 191 rl_block::handle_register_dsb *)
Definition register_dsb_shard (node : Z) (b : rl_block) (id : Z) : rl_block :=
  let shards := match dsb_shards_ b !! id with Some _ => dsb_shards_ b | None => <[id := node]> (dsb_shards_ b) end in
  let b := b <| dsb_shards_ := shards |> in
  if (1 <? size shards)%nat then b <| dsb_node_id_ := None |> else b.

(* @src src/replog/rl_block.cpp 166 209 rl_block::handle_register_dsb *)
Definition handle_register_dsb (s : sm_status) (source cno : Z) (shard_ids : list Z) : act rl_block event := fun b =>
  if negb (serving s) then (b, [])
  else
    let b := if s_term s =? cno then b
             else
               let b := if bool_decide (dsb_node_id_ b = Some source) then b else b <| dsb_node_id_ := Some source |> in
               foldl (register_dsb_shard source) b shard_ids in
    (b, [RegisterDsbResponse source (s_term s) (is_leader s)]).

(* @src src/replog/rl_block.cpp 264 272 rl_block::handle_report_status_response *)
Definition handle_report_status_response (source : Z) : act rl_block event :=
  modify (fun b => match ccb_responsed_ b !! source with
                   | Some _ => b <| ccb_responsed_ := <[source := true]> (ccb_responsed_ b) |>
                   | None => b
                   end).

(** ** Terms and appends *)

(* @src src/replog/rl_block.cpp 211 223 rl_block::send_error_consistency *)
Definition send_error_consistency (dest : Z) : act rl_block event := fun b => emit (ErrorConsistency dest (cno_ b)) b.

(* @src src/replog/rl_block.cpp 225 236 rl_block::handle_append_entries *)
Definition handle_append_entries (req : ccb_append_log_request) : act rl_block event := fun b =>
  if negb (cno req =? cno_ b) then send_error_consistency (source req) b
  else emit (AppendLog (repeated_tx_logs req)) b.

(* @src src/replog/rl_block.cpp 238 249 rl_block::on_become_leader *)
Definition on_become_leader (term : Z) : act rl_block event :=
  emit (BecomeLeader term) ;; modify (fun b => b <| cno_ := term |>).

(* @src src/replog/rl_block.cpp 251 262 rl_block::on_become_follower *)
Definition on_become_follower (term : Z) : act rl_block event :=
  modify (fun b => b <| cno_ := term |>) ;; emit (BecomeFollower term).

(** ** Committed records *)

Section commit.
Context (parse : list Z → option tx_log).

(** The variables the callback captures: the latency of the previous record and
    the two maps of messages, by node; of a message only its payload changes. *)
Record outbox := mk_outbox {
  previous_latency : Z;
  commit_msg_map : gmap Z (list Z);
  replay_msg_map : gmap Z (list Z * list tx_operation);
}.

(** The timestamp becomes the time the record took; a record without one gets
    that of the record before it. *)
(* @src src/replog/rl_block.cpp 334 349 rl_block::response_commit_log *)
Definition restamp (current_us prev : Z) (buffer : list Z) : option (list Z * Z) :=
  start_us ← timestamp buffer;
  if negb (start_us =? 0) then
    let latency := u64 (current_us - start_us) in
    buffer ← set_timestamp latency buffer; Some (buffer, latency)
  else if negb (prev =? 0) then
    buffer ← set_timestamp prev buffer; Some (buffer, prev)
  else Some (buffer, prev).

(* @src src/replog/rl_block.cpp 406 428 rl_block::response_commit_log *)
Definition replay_operation (b : rl_block) (m : gmap Z (list Z * list tx_operation)) (op : tx_operation)
    : gmap Z (list Z * list tx_operation) :=
  if is_write_operation (op_type op) then
    match dsb_shards_ b !! op_shard_id op with
    | Some d => let '(logs, ops) := default ([], []) (m !! d) in <[d := (logs, ops ++ [op])]> m
    | None => m
    end
  else m.

(* @src src/replog/rl_block.cpp 369 429 rl_block::response_commit_log *)
Definition replay_buffer (b : rl_block) (ec : EC) (buffer : list Z) (m : gmap Z (list Z * list tx_operation))
    : option (gmap Z (list Z * list tx_operation)) :=
  p ← payload buffer;
  match (if (size (dsb_shards_ b) =? 1)%nat then dsb_node_id_ b else None) with
  | Some d => let '(logs, ops) := default ([], []) (m !! d) in Some (<[d := (logs ++ buffer, ops)]> m)
  | None =>
      match (if EC_eqb ec EC_OK then parse p else None) with
      | Some log => Some (foldl (replay_operation b) m (log_operations log))
      | None => Some m
      end
  end.

(* @src src/replog/rl_block.cpp 332 430 rl_block::response_commit_log *)
Definition on_buffer (b : rl_block) (ec : EC) (current_us : Z) (o : outbox) (buffer : list Z) : option outbox :=
  n ← node_id buffer;
  '(buffer, prev) ← restamp current_us (previous_latency o) buffer;
  let logs := default [] (commit_msg_map o !! n) in
  replay ← replay_buffer b ec buffer (replay_msg_map o);
  Some (mk_outbox prev (<[n := logs ++ buffer]> (commit_msg_map o)) replay).

Fixpoint on_buffers (b : rl_block) (ec : EC) (current_us : Z) (o : outbox) (buffers : list (list Z)) : option outbox :=
  match buffers with
  | [] => Some o
  | x :: xs => o ← on_buffer b ec current_us o x; on_buffers b ec current_us o xs
  end.

(* @src src/replog/rl_block.cpp 296 453 rl_block::response_commit_log *)
Definition response_commit_log (ec : EC) (current_us : Z) (logs : list (list Z)) (b : rl_block) : option (list event) :=
  if decide (logs = []) then Some []
  else
    buffers ← mapM handle_repeated_tx_logs_to_buffer logs;
    o ← on_buffers b ec current_us (mk_outbox 0 ∅ ∅) (concat buffers);
    Some (map (fun p => SendCommit p.1 (mk_commit ec (node_id_ b) (cno_ b) p.2)) (map_to_list (commit_msg_map o)) ++
          map (fun p => SendReplay p.1 (mk_replay (node_id_ b) (cno_ b) p.2.1 p.2.2)) (map_to_list (replay_msg_map o))).

(** The callback of the block's owner always gets [EC_OK]. *)
(* @src src/replog/rl_block.cpp 274 294 rl_block::on_commit_entries *)
Definition on_commit_entries (ec : EC) (is_lead : bool) (current_us : Z) (logs : list (list Z)) (b : rl_block)
    : option (list event) :=
  out ← (if is_lead then response_commit_log ec current_us logs b else Some []);
  Some (CommitEntries EC_OK is_lead :: out).

(** ** Where records go *)

(** The records with their new timestamps. *)
Fixpoint restamped (current_us prev : Z) (rs : list log_record) : list log_record :=
  match rs with
  | [] => []
  | r :: rs =>
      let latency := if r_timestamp r =? 0 then prev else u64 (current_us - r_timestamp r) in
      mk_record (r_payload r) latency (r_node r) :: restamped current_us latency rs
  end.

Definition of_node (n : Z) (rs : list log_record) : list log_record := filter (fun r => r_node r = n) rs.

Definition bytes_of (rs : list log_record) : list Z := concat (map encode rs).

Lemma bytes_of_app rs ks : bytes_of (rs ++ ks) = bytes_of rs ++ bytes_of ks.
Proof. unfold bytes_of. by rewrite map_app, concat_app. Qed.

Lemma bytes_of_cons r rs : bytes_of (r :: rs) = encode r ++ bytes_of rs.
Proof. done. Qed.

Lemma of_node_cons n r rs : of_node n (r :: rs) = if decide (r_node r = n) then r :: of_node n rs else of_node n rs.
Proof. unfold of_node. rewrite filter_cons. done. Qed.

Lemma restamp_encode current_us prev r :
  wf_record r → fits 64 prev →
  let latency := if r_timestamp r =? 0 then prev else u64 (current_us - r_timestamp r) in
  fits 64 latency ∧ wf_record (mk_record (r_payload r) latency (r_node r)) ∧
  restamp current_us prev (encode r) = Some (encode (mk_record (r_payload r) latency (r_node r)), latency).
Proof.
  intros Hr Hp. cbv zeta. unfold restamp. rewrite timestamp_encode by done. cbn [mbind option_bind].
  destruct Hr as [H1 H2 H3].
  assert (fits 64 (if r_timestamp r =? 0 then prev else u64 (current_us - r_timestamp r))) as Hf
    by (case_test; [done|by apply wrap_fits]).
  split_and!; [done|by constructor|]. destruct (Z.eqb_spec (r_timestamp r) 0) as [E|E]; cbn [negb].
  - destruct (Z.eqb_spec prev 0) as [->|E']; cbn [negb].
    + rewrite <- E at 2. by destruct r.
    + by rewrite set_timestamp_encode.
  - by rewrite set_timestamp_encode.
Qed.

Lemma restamped_ok cur prev rs :
  Forall wf_record rs → fits 64 prev →
  Forall wf_record (restamped cur prev rs) ∧ map r_payload (restamped cur prev rs) = map r_payload rs.
Proof.
  intros Hrs. revert prev. induction Hrs as [|r rs Hr _ IH]; intros prev Hp; [done|]. cbn [restamped map].
  destruct (restamp_encode cur prev r Hr Hp) as (Hl & Hw & _). destruct (IH _ Hl) as [H1 H2].
  split; [by constructor|]. cbn. by rewrite H2.
Qed.

(** The storage node that gets whole records, if there is one. *)
Definition single_dsb (b : rl_block) : option Z := if (size (dsb_shards_ b) =? 1)%nat then dsb_node_id_ b else None.

Definition replay_of (m : gmap Z (list Z * list tx_operation)) (d : Z) : list Z * list tx_operation := default ([], []) (m !! d).

Lemma replay_total b ec r m :
  wf_record r → ∃ m', replay_buffer b ec (encode r) m = Some m' ∧
    ∀ d, single_dsb b = Some d → is_Some (m' !! d) ∧
      replay_of m' d = ((replay_of m d).1 ++ encode r, (replay_of m d).2) ∧ ∀ k, k ≠ d → m' !! k = m !! k.
Proof.
  intros Hr. unfold replay_buffer. rewrite payload_encode by done. cbn [mbind option_bind]. fold (single_dsb b).
  destruct (single_dsb b) as [d|].
  - fold (replay_of m d). destruct (replay_of m d) as [logs ops] eqn:E. eexists. split; [reflexivity|]. intros ? [= <-].
    unfold replay_of at 1. rewrite lookup_insert_eq, E. split_and!; [by eexists|done|]. intros k Hk. by apply lookup_insert_ne.
  - destruct (if EC_eqb ec EC_OK then parse _ else None); (eexists; split; [reflexivity|by intros]).
Qed.

Lemma restamped_nodes cur prev rs n : of_node n rs = [] → of_node n (restamped cur prev rs) = [].
Proof.
  revert prev. induction rs as [|r rs IH]; intros prev; [done|]. cbn [restamped]. rewrite !of_node_cons. cbn [r_node].
  destruct (decide (r_node r = n)); [done|]. apply IH.
Qed.

(** What a run of the callback over records adds to the messages. *)
Record adds (b : rl_block) (cur : Z) (rs : list log_record) (o o' : outbox) : Prop := mk_adds {
  a_commit : ∀ n, commit_msg_map o' !! n =
    if decide (of_node n rs = []) then commit_msg_map o !! n
    else Some (default [] (commit_msg_map o !! n) ++ bytes_of (of_node n (restamped cur (previous_latency o) rs)));
  a_replay : ∀ d, single_dsb b = Some d →
    (rs ≠ [] ∨ is_Some (replay_msg_map o !! d) → is_Some (replay_msg_map o' !! d)) ∧
    replay_of (replay_msg_map o') d = ((replay_of (replay_msg_map o) d).1 ++ bytes_of (restamped cur (previous_latency o) rs),
                                       (replay_of (replay_msg_map o) d).2) ∧
    ∀ k, k ≠ d → replay_msg_map o' !! k = replay_msg_map o !! k;
}.

Lemma on_buffers_ok b ec cur rs : Forall wf_record rs → ∀ o, fits 64 (previous_latency o) →
  ∃ o', on_buffers b ec cur o (map encode rs) = Some o' ∧ adds b cur rs o o'.
Proof.
  induction 1 as [|r rs Hr Hrs IH]; intros o Ho; cbn [map on_buffers].
  { exists o. split; [done|]. constructor; [done|]. intros d _. cbn. rewrite app_nil_r. split_and!; [by intros [|]| |done].
    by destruct (replay_of (replay_msg_map o) d). }
  unfold on_buffer. rewrite node_id_encode by done. cbn [mbind option_bind].
  destruct (restamp_encode cur (previous_latency o) r Hr Ho) as (Hl & Hr' & ->).
  cbn [mbind option_bind]. set (l := if r_timestamp r =? 0 then _ else _) in *. set (r' := mk_record _ l _) in *.
  destruct (replay_total b ec r' (replay_msg_map o) Hr') as (m & -> & Hm). cbn [mbind option_bind].
  destruct (IH (mk_outbox l (<[r_node r := default [] (commit_msg_map o !! r_node r) ++ encode r']> (commit_msg_map o)) m) Hl)
    as (o' & -> & [Hc Hp]). exists o'. split; [done|]. cbn [commit_msg_map replay_msg_map previous_latency] in *.
  constructor; cbn [restamped]; fold l r'.
  - intros n. rewrite Hc, !of_node_cons. change (r_node r') with (r_node r).
    destruct (decide (r_node r = n)) as [<-|Hne]; [|by rewrite lookup_insert_ne].
    rewrite lookup_insert_eq, bytes_of_cons, app_assoc. rewrite (decide_False (P := _ :: _ = [])) by done.
    case_decide as E; [|done]. rewrite (restamped_nodes _ _ _ _ E). by rewrite app_nil_r.
  - intros d Hd. destruct (Hm d Hd) as (Hs & Hmd & Hmk), (Hp d Hd) as (Hs' & Hpd & Hpk). split_and!.
    + intros _. apply Hs'. by right.
    + rewrite Hpd, Hmd, bytes_of_cons, app_assoc. done.
    + intros k Hk. by rewrite Hpk, Hmk.
Qed.

Lemma split_all rss : Forall (Forall wf_record) rss →
  mapM handle_repeated_tx_logs_to_buffer (map bytes_of rss) = Some (map (map encode) rss).
Proof.
  induction 1 as [|rs rss Hrs _ IH]; [done|]. cbn [map mapM].
  rewrite (split_records rs Hrs : handle_repeated_tx_logs_to_buffer (bytes_of rs) = _). cbn [mbind option_bind].
  rewrite IH. done.
Qed.

Lemma response_ok ec cur rss b :
  Forall (Forall wf_record) rss → rss ≠ [] →
  ∃ o, adds b cur (concat rss) (mk_outbox 0 ∅ ∅) o ∧
    response_commit_log ec cur (map bytes_of rss) b = Some (
      map (fun p => SendCommit p.1 (mk_commit ec (node_id_ b) (cno_ b) p.2)) (map_to_list (commit_msg_map o)) ++
      map (fun p => SendReplay p.1 (mk_replay (node_id_ b) (cno_ b) p.2.1 p.2.2)) (map_to_list (replay_msg_map o))).
Proof.
  intros Hrss Hne. unfold response_commit_log. rewrite decide_False by by destruct rss.
  rewrite split_all by done. cbn [mbind option_bind]. rewrite <- concat_map.
  destruct (on_buffers_ok b ec cur (concat rss)) with (o := mk_outbox 0 ∅ ∅) as (o & -> & Ho).
  - by apply Forall_concat.
  - done.
  - by exists o.
Qed.

(** The commit message of a node. *)
Lemma commit_message ec cur rss b n m :
  Forall (Forall wf_record) rss → rss ≠ [] →
  ∃ evs, response_commit_log ec cur (map bytes_of rss) b = Some evs ∧
    (SendCommit n m ∈ evs ↔
     of_node n (concat rss) ≠ [] ∧
     m = mk_commit ec (node_id_ b) (cno_ b) (bytes_of (of_node n (restamped cur 0 (concat rss))))).
Proof.
  intros Hrss Hne. destruct (response_ok ec cur rss b Hrss Hne) as (o & [Hc _] & ->). eexists. split; [reflexivity|].
  specialize (Hc n). cbn [commit_msg_map previous_latency] in Hc. rewrite lookup_empty in Hc.
  rewrite elem_of_app. split.
  - intros [Hin|Hin]; apply list_elem_of_fmap in Hin as ([k bs] & E & Hk); [|done].
    injection E as -> ->. apply elem_of_map_to_list in Hk. cbn in *. case_decide as Ed; [congruence|].
    split; [done|]. rewrite Hc in Hk. injection Hk as <-. done.
  - intros [Hn ->]. left. apply list_elem_of_fmap. case_decide as Ed; [done|]. eexists (n, _). split; [|by apply elem_of_map_to_list].
    done.
Qed.

(** Every committed record goes back to the concurrency block that wrote
    it: a node gets one message, with exactly its records in log order and with
    the latencies as timestamps, and a node without records gets none. *)
Theorem commit_routed ec cur rss b n m :
  Forall (Forall wf_record) rss → rss ≠ [] →
  ∃ evs, response_commit_log ec cur (map bytes_of rss) b = Some evs ∧
    (SendCommit n m ∈ evs ↔
     of_node n (concat rss) ≠ [] ∧
     m = mk_commit ec (node_id_ b) (cno_ b) (bytes_of (of_node n (restamped cur 0 (concat rss))))).
Proof. apply commit_message. Qed.

(** The replay messages of a node with one storage block. *)
Lemma replay_message ec cur rss b d m :
  Forall (Forall wf_record) rss → concat rss ≠ [] → size (dsb_shards_ b) = 1%nat → dsb_node_id_ b = Some d →
  ∃ evs, response_commit_log ec cur (map bytes_of rss) b = Some evs ∧
    ∀ k, SendReplay k m ∈ evs ↔
      k = d ∧ m = mk_replay (node_id_ b) (cno_ b) (bytes_of (restamped cur 0 (concat rss))) [].
Proof.
  intros Hrss Hne Hsz Hd. destruct (response_ok ec cur rss b Hrss ltac:(by destruct rss)) as (o & [_ Hr] & ->).
  eexists. split; [reflexivity|]. intros k.
  destruct (Hr d) as (Hs & Hof & Hk); [unfold single_dsb; by rewrite Hsz|]. specialize (Hs (or_introl Hne)).
  cbn [replay_msg_map previous_latency] in *. unfold replay_of in Hof. rewrite lookup_empty in Hof. cbn in Hof.
  destruct Hs as [[logs ops] Hs]. rewrite Hs in Hof. cbn in Hof. injection Hof as -> ->.
  rewrite elem_of_app. split.
  - intros [Hin|Hin]; apply list_elem_of_fmap in Hin as ([k' p] & E & Hkk); [done|].
    injection E as -> ->. apply elem_of_map_to_list in Hkk. destruct (decide (k' = d)) as [->|Hkd].
    + rewrite Hs in Hkk. by injection Hkk as <-.
    + rewrite Hk in Hkk by done. by rewrite lookup_empty in Hkk.
  - intros [-> ->]. right. apply list_elem_of_fmap. eexists (d, _). split; [|by apply elem_of_map_to_list]. done.
Qed.

(** When all shards are on one storage block, it gets every committed record
    in log order, in one message. *)
Theorem replay_whole ec cur rss b d m :
  Forall (Forall wf_record) rss → concat rss ≠ [] → size (dsb_shards_ b) = 1%nat → dsb_node_id_ b = Some d →
  ∃ evs, response_commit_log ec cur (map bytes_of rss) b = Some evs ∧
    ∀ k, SendReplay k m ∈ evs ↔
      k = d ∧ m = mk_replay (node_id_ b) (cno_ b) (bytes_of (restamped cur 0 (concat rss))) [].
Proof. apply replay_message. Qed.

End commit.

(** An append request of another term is refused: the sender is told the
    current term, and nothing reaches the log. *)
Theorem stale_append_refused req b :
  cno req ≠ cno_ b → handle_append_entries req b = (b, [ErrorConsistency (source req) (cno_ b)]).
Proof. intros Hc. unfold handle_append_entries. destruct (Z.eqb_spec (cno req) (cno_ b)); [done|]. done. Qed.

(** ** Witnesses *)

Definition demo_block : rl_block := mk_rlb 3 100 ∅ {[1 := 200]} None (Some 200) ∅.
Definition demo_records : list (list log_record) :=
  [[mk_record (le 8 1) 10 7; mk_record (le 8 2) 0 8]; [mk_record (le 8 3) 0 7]].

Lemma demo_records_wf : Forall (Forall wf_record) demo_records.
Proof. repeat constructor; vm_compute; congruence. Qed.

Lemma commit_routed_witness :
  ∃ evs, response_commit_log (fun _ => None) EC_OK 25 (map bytes_of demo_records) demo_block = Some evs ∧
    SendCommit 7 (mk_commit EC_OK 100 3 (bytes_of [mk_record (le 8 1) 15 7; mk_record (le 8 3) 15 7])) ∈ evs.
Proof.
  destruct (commit_routed (fun _ => None) EC_OK 25 demo_records demo_block 7
    (mk_commit EC_OK 100 3 (bytes_of [mk_record (le 8 1) 15 7; mk_record (le 8 3) 15 7]))) as (evs & E & Hin).
  - apply demo_records_wf.
  - done.
  - exists evs. split; [exact E|]. apply Hin. split; [done|reflexivity].
Defined.

Lemma replay_whole_witness :
  ∃ evs, response_commit_log (fun _ => None) EC_OK 25 (map bytes_of demo_records) demo_block = Some evs ∧
    SendReplay 200 (mk_replay 100 3 (bytes_of (restamped 25 0 (concat demo_records))) []) ∈ evs.
Proof.
  destruct (replay_whole (fun _ => None) EC_OK 25 demo_records demo_block 200
    (mk_replay 100 3 (bytes_of (restamped 25 0 (concat demo_records))) [])) as (evs & E & Hin).
  - apply demo_records_wf.
  - done.
  - reflexivity.
  - done.
  - exists evs. split; [exact E|]. apply Hin. done.
Defined.

Lemma stale_append_refused_witness :
  handle_append_entries (mk_append_request 7 100 2 []) demo_block = (demo_block, [ErrorConsistency 7 3]).
Proof. apply (stale_append_refused (mk_append_request 7 100 2 []) demo_block). done. Defined.

End RlBlock.
