(* ===== verification/LockMgr.v ===== *)
(** * Lock and data managers

    [include/common/hash_table.h] (the concurrent table, over TBB's map),
    [lock_mgr], [lock_mgr_global], [access_mgr] and [data_mgr] of
    [src/concurrency].  A lock manager keeps the lock slots of one table on one
    shard, a data manager the versions of its tuples, and the access manager one
    of each per table and shard.  Each lock manager runs its calls on a strand,
    in order.

    - [rows_locked_apart]: in every state the access manager can reach, every
      row's slot satisfies the locking invariant, so that a writer excludes all
      others; a lock or unlock changes the slot of its own row only;
    - [get_latest]: a tuple read is the last one put;
    - [conflict_never]: the check for predicate conflicts looks at no row;
    - [removed_still_found]: [remove] of the concurrent table erases nothing. *)

From stdpp Require Import sorting.
From S2P Require Import Prelude Common.
From S2P Require Import LockSlot.
#[local] Open Scope Z_scope.

(** ** The concurrent hash table *)

Module HashTable.
Section table.
Context {V : Type}.

(** The value and whether the key was there. *)
(* @src include/common/hash_table.h 33 49 concurrent_hash_table::find_or_insert *)
Definition find_or_insert (k : Z) (absent : V) (m : gmap Z V) : V * bool * gmap Z V :=
  match m !! k with
  | None => (absent, false, <[k := absent]> m)
  | Some v => (v, true, m)
  end.

(* @src include/common/hash_table.h 51 59 concurrent_hash_table::find *)
Definition find (k : Z) (m : gmap Z V) : option V := m !! k.

(* @src include/common/hash_table.h 82 91 concurrent_hash_table::insert *)
Definition insert (k : Z) (v : V) (m : gmap Z V) : bool * gmap Z V :=
  match m !! k with
  | None => (true, <[k := v]> m)
  | Some _ => (false, m)
  end.

(** The callback runs on the value; the entry stays. *)
(* @src include/common/hash_table.h 93 104 concurrent_hash_table::remove *)
Definition remove (k : Z) (m : gmap Z V) : bool * gmap Z V :=
  match m !! k with
  | Some _ => (true, m)
  | None => (false, m)
  end.

(** [remove] answers that it removed a key and leaves it in the table. *)
Theorem removed_still_found k v m :
  find k m = Some v → (remove k m).1 = true ∧ find k (remove k m).2 = Some v.
Proof. unfold find, remove. intros E. by rewrite E. Qed.

End table.

Lemma removed_still_found_witness : find 3 (remove 3 (<[3 := 7]> (∅ : gmap Z Z))).2 = Some 7.
Proof. apply (removed_still_found 3 7 (<[3 := 7]> ∅)). reflexivity. Defined.

End HashTable.

(** ** The lock manager of a table's shard *)

Module LockMgr.
Import HashTable.
Import LockSlot.LockSlot.

Section managers.
Context (non_deterministic : bool).

(* @src include/concurrency/lock_mgr.h 47 57 lock_mgr *)
Record lock_mgr := mk_mgr {
  lm_table_id_ : Z;
  lm_shard_id_ : Z;
  lm_before_ : bool;
  lm_after_ : bool;
  key_row_locks_ : gmap Z lock_slot;
}.
#[export] Instance eta_mgr : Eta lock_mgr := fun l =>
  mk_mgr (lm_table_id_ l) (lm_shard_id_ l) (lm_before_ l) (lm_after_ l) (key_row_locks_ l).

(* @src src/concurrency/lock_mgr.cpp 7 12 lock_mgr::lock_mgr *)
Definition new_mgr (table_id shard_id : Z) (before after : bool) : lock_mgr := mk_mgr table_id shard_id before after ∅.

(* @src src/concurrency/lock_mgr.cpp 94 96 lock_mgr::find_slot *)
Definition find_slot (key : Z) (l : lock_mgr) : option lock_slot := find key (key_row_locks_ l).

(** [conflicts] is [predicate_conflict] of the slots found, one after the
    other. *)
(* @src src/concurrency/lock_mgr.cpp 125 143 lock_mgr::find_conflict *)
Fixpoint find_conflict (xid oid txn : Z) (tuple_ids : list Z) (l : lock_mgr) : Z * lock_mgr :=
  match tuple_ids with
  | [] => (0, l)
  | t :: ts =>
      match find_slot t l with
      | None => find_conflict xid oid txn ts l
      | Some s =>
          let '(b, s) := predicate_conflict xid oid txn s in
          let '(n, l) := find_conflict xid oid txn ts (l <| key_row_locks_ := <[t := s]> (key_row_locks_ l) |>) in
          ((if b then 1 else 0) + n, l)
      end
  end.

(** The set of tuples is a local variable that nothing fills. *)
(* @src src/concurrency/lock_mgr.cpp 113 117 lock_mgr::conflict *)
Definition conflict (xid oid : Z) (l : lock_mgr) : bool * lock_mgr :=
  let '(blocking, l) := find_conflict xid oid 0 [] l in (negb (blocking =? 0), l).

(** What the slots of a manager see of [conflict]. *)
Definition slot_conflict (l : lock_mgr) : option (Z → Z → bool) := Some (fun xid oid => (conflict xid oid l).1).

(** [None]: the assertion on the slot's tuple fails. *)
(* @src src/concurrency/lock_mgr.cpp 98 111 lock_mgr::get_lock_slot *)
Definition get_lock_slot (key : Z) (l : lock_mgr) : option (lock_slot * lock_mgr) :=
  let '(s, _, m) := find_or_insert key (new_slot (lm_table_id_ l) (lm_shard_id_ l) key (lm_before_ l) (lm_after_ l)) (key_row_locks_ l) in
  if tuple_id_ s =? key then Some (s, l <| key_row_locks_ := m |>) else None.

(* @src src/concurrency/lock_mgr.cpp 87 92 lock_mgr::row_lock *)
Definition row_lock (oid : Z) (lt : lock_mode) (key tx : Z) (l : lock_mgr) : option (lock_mgr * list slot_event) :=
  '(s, l) ← get_lock_slot key l;
  let '(_, s, ev) := lock non_deterministic lt tx oid s in
  Some (l <| key_row_locks_ := <[key := s]> (key_row_locks_ l) |>, ev).

(* @src src/concurrency/lock_mgr.cpp 35 45 lock_mgr::lock_gut *)
Definition lock_gut (oid : Z) (lt : lock_mode) (key tx : Z) (l : lock_mgr) : option (lock_mgr * list slot_event) :=
  match lt with
  | LOCK_WRITE_ROW | LOCK_READ_ROW => row_lock oid lt key tx l
  | _ => Some (l, [])
  end.

(** A row nobody ever locked fails an assertion. *)
(* @src src/concurrency/lock_mgr.cpp 47 58 lock_mgr::unlock_gut *)
Definition lm_unlock_gut (xid : Z) (mode : lock_mode) (key : Z) (l : lock_mgr) : option (lock_mgr * list slot_event) :=
  match mode with
  | LOCK_WRITE_ROW | LOCK_READ_ROW =>
      match find key (key_row_locks_ l) with
      | Some s => match unlock (slot_conflict l) xid s with
                  | Some (s, ev) => Some (l <| key_row_locks_ := <[key := s]> (key_row_locks_ l) |>, ev)
                  | None => None
                  end
      | None => None
      end
  | _ => Some (l, [])
  end.

(** ** Data *)

(** The versions of each tuple, oldest first. *)
(* @src include/concurrency/data_mgr.h 13 26 data_mgr *)
Definition data_mgr : Type := gmap Z (list string).

(* @src src/concurrency/data_mgr.cpp 7 22 data_mgr::put *)
Definition dm_put (key : Z) (tuple : string) (d : data_mgr) : data_mgr :=
  let '(versions, _, d) := find_or_insert key [] d in <[key := versions ++ [tuple]]> d.

(* @src src/concurrency/data_mgr.cpp 24 33 data_mgr::get *)
Definition dm_get (key : Z) (d : data_mgr) : option string := find key d ≫= last.

(** ** The access manager *)

(** Vectors by table id of maps by shard; a null pointer is [None]. *)
(* @src include/concurrency/access_mgr.h 19 28 access_mgr *)
Record access_mgr := mk_access {
  lock_table_ : list (gmap Z (option lock_mgr));
  data_table_ : list (gmap Z (option data_mgr));
}.
#[export] Instance eta_access : Eta access_mgr := fun a => mk_access (lock_table_ a) (data_table_ a).

(* @src src/concurrency/access_mgr.cpp 5 26 access_mgr::access_mgr *)
Definition new_access (shards : list Z) (max_table_id : nat) (before after : bool) : access_mgr :=
  mk_access
    (map (fun id => list_to_map (map (fun s => (s, Some (new_mgr (Z.of_nat id) s before after))) shards)) (seq 0 (S max_table_id)))
    (map (fun id => list_to_map (map (fun s => (s, Some ∅)) shards)) (seq 0 (S max_table_id))).

(** [table[table_id][shard_id]]: past the end of the vector is undefined
    ([None]); a missing shard gets a null entry. *)
Definition at_shard {A} (table_id : nat) (shard_id : Z) (t : list (gmap Z (option A))) : option (option A) :=
  m ← t !! table_id; Some (default None (m !! shard_id)).

Definition set_shard {A} (table_id : nat) (shard_id : Z) (x : option A) (t : list (gmap Z (option A))) : list (gmap Z (option A)) :=
  alter (<[shard_id := x]>) table_id t.

(** Without a manager the call only logs.  [xid] is also the id of the
    transaction object [tx]. *)
(* @src src/concurrency/access_mgr.cpp 28 37 access_mgr::lock_row *)
Definition lock_row (xid oid : Z) (lt : lock_mode) (table_id : nat) (shard_id key : Z) (a : access_mgr)
    : option (access_mgr * list slot_event) :=
  lm ← at_shard table_id shard_id (lock_table_ a);
  match lm with
  | None => Some (a <| lock_table_ := set_shard table_id shard_id None (lock_table_ a) |>, [])
  | Some l => '(l, ev) ← lock_gut oid lt key xid l;
              Some (a <| lock_table_ := set_shard table_id shard_id (Some l) (lock_table_ a) |>, ev)
  end.

(* @src src/concurrency/access_mgr.cpp 39 47 access_mgr::unlock *)
Definition unlock_row (xid : Z) (mode : lock_mode) (table_id : nat) (shard_id key : Z) (a : access_mgr)
    : option (access_mgr * list slot_event) :=
  lm ← at_shard table_id shard_id (lock_table_ a);
  match lm with
  | None => Some (a <| lock_table_ := set_shard table_id shard_id None (lock_table_ a) |>, [])
  | Some l => '(l, ev) ← lm_unlock_gut xid mode key l;
              Some (a <| lock_table_ := set_shard table_id shard_id (Some l) (lock_table_ a) |>, ev)
  end.

(** The tuple must not be nil. *)
(* @src src/concurrency/access_mgr.cpp 49 58 access_mgr::put *)
Definition put (table_id : nat) (shard_id key : Z) (data : string) (a : access_mgr) : option access_mgr :=
  if is_tuple_nil data then None
  else
    dm ← at_shard table_id shard_id (data_table_ a);
    match dm with
    | None => Some (a <| data_table_ := set_shard table_id shard_id None (data_table_ a) |>)
    | Some d => Some (a <| data_table_ := set_shard table_id shard_id (Some (dm_put key data d)) (data_table_ a) |>)
    end.

(* @src src/concurrency/access_mgr.cpp 60 68 access_mgr::get *)
Definition get (table_id : nat) (shard_id key : Z) (a : access_mgr) : option (option string) :=
  dm ← at_shard table_id shard_id (data_table_ a);
  Some (dm ≫= dm_get key).

(** The slots in the order of their keys. *)
(* @src src/concurrency/lock_mgr.cpp 76 85 lock_mgr::debug_dependency *)
Definition lm_dependency (l : lock_mgr) : list (Z * gset Z) :=
  concat (map (fun k => from_option build_dependency [] (key_row_locks_ l !! k))
              (merge_sort Z.le (map fst (map_to_list (key_row_locks_ l))))).

End managers.

(** The lock table alone is [lock_mgr_global]. *)
(* @src src/concurrency/lock_mgr_global.cpp 5 23 lock_mgr_global::lock_mgr_global *)
Definition new_global (shards : list Z) (max_table_id : nat) (before after : bool) : list (gmap Z (option lock_mgr)) :=
  lock_table_ (new_access shards max_table_id before after).

(* @src src/concurrency/lock_mgr_global.cpp 25 34 lock_mgr_global::lock_row *)
Definition global_lock_row nd (xid oid : Z) (lt : lock_mode) (table_id : nat) (shard_id key : Z)
    (t : list (gmap Z (option lock_mgr))) : option (list (gmap Z (option lock_mgr)) * list slot_event) :=
  '(a, ev) ← lock_row nd xid oid lt table_id shard_id key (mk_access t []); Some (lock_table_ a, ev).

(* @src src/concurrency/lock_mgr_global.cpp 36 44 lock_mgr_global::unlock *)
Definition global_unlock (xid : Z) (mode : lock_mode) (table_id : nat) (shard_id key : Z)
    (t : list (gmap Z (option lock_mgr))) : option (list (gmap Z (option lock_mgr)) * list slot_event) :=
  '(a, ev) ← unlock_row xid mode table_id shard_id key (mk_access t []); Some (lock_table_ a, ev).

(** ** Rows *)

(** The slot of a row, if it was ever locked. *)
Definition slot_at (table_id : nat) (shard_id key : Z) (a : access_mgr) : option lock_slot :=
  lm ← at_shard table_id shard_id (lock_table_ a); l ← lm; find_slot key l.

(** No row conflicts with a predicate. *)
Definition no_conflict : option (Z → Z → bool) := Some (fun _ _ => false).

Lemma slot_conflict_none l : slot_conflict l = no_conflict.
Proof. reflexivity. Qed.

(** The place of a slot never changes. *)
Definition placed (t sh k : Z) (s : lock_slot) : Prop := table_id_ s = t ∧ shard_id_ s = sh ∧ tuple_id_ s = k.

Lemma placed_lock t sh k nd m x o s : placed t sh k s → placed t sh k (lock nd m x o s).1.2.
Proof.
  unfold placed, lock, add_lock_info, read_lock, write_lock, acquire_read_lock, add_read, add_write.
  intros H. destruct (info_ s !! x) as [i|]; [destruct (acquired_ i)|]; destruct m; simpl;
    repeat case_match; simplify_eq/=; done.
Qed.

Lemma placed_notify_all t sh k xs s : placed t sh k s → placed t sh k (notify_all xs s).1.
Proof.
  revert s. induction xs as [|x xs IH]; intros s H; [done|]. simpl.
  destruct (notify_grant x s) as [s1 e1] eqn:E. specialize (IH s1).
  destruct (notify_all xs s1). simpl in *. apply IH. revert E.
  unfold notify_grant, add_read, add_write, set_acquired. repeat case_match; intros [= <- _]; done.
Qed.

Lemma placed_unlock t sh k c x s s' ev : unlock c x s = Some (s', ev) → placed t sh k s → placed t sh k s'.
Proof.
  unfold unlock, unlock_gut, notify_lock_acquire. intros E H. apply bind_Some in E as ([xs w] & _ & [= E]).
  change (placed t sh k (s', ev).1). rewrite <- E. apply placed_notify_all.
  unfold remove_lock. repeat case_match; done.
Qed.

(** ** What a call does to its manager *)

Definition lockable (x : Z) (s : lock_slot) : Prop := may_lock x s ∧ Z.of_nat (size (info_ s)) + 1 < 2 ^ 32.

Definition mgr_ok nd (l : lock_mgr) : Prop :=
  ∀ k s, find_slot k l = Some s → reachable nd no_conflict s ∧ placed (lm_table_id_ l) (lm_shard_id_ l) k s.

Definition same_place (l l' : lock_mgr) : Prop := lm_table_id_ l' = lm_table_id_ l ∧ lm_shard_id_ l' = lm_shard_id_ l.

(** A call for row [k]: the manager stays well-formed and its other rows as
    they were. *)
Definition mgr_step nd (k : Z) (l l' : lock_mgr) : Prop :=
  same_place l l' ∧ (∀ k', k' ≠ k → find_slot k' l' = find_slot k' l) ∧ (mgr_ok nd l → mgr_ok nd l').

Lemma mgr_step_refl nd k l : mgr_step nd k l l.
Proof. by split_and!. Qed.

Lemma mgr_step_insert nd k s l :
  (mgr_ok nd l → reachable nd no_conflict s ∧ placed (lm_table_id_ l) (lm_shard_id_ l) k s) →
  mgr_step nd k l (l <| key_row_locks_ := <[k := s]> (key_row_locks_ l) |>).
Proof.
  intros Hs. split_and!; [done| |].
  - intros k' Hne. unfold find_slot, find. simpl. by rewrite lookup_insert_ne.
  - intros Hok k' s'. unfold find_slot, find. simpl. destruct (decide (k' = k)) as [->|Hne].
    + rewrite lookup_insert_eq. intros [= <-]. by apply Hs.
    + rewrite lookup_insert_ne by done. apply Hok.
Qed.

Definition slot_or_new (k : Z) (l : lock_mgr) : lock_slot :=
  default (new_slot (lm_table_id_ l) (lm_shard_id_ l) k (lm_before_ l) (lm_after_ l)) (find_slot k l).

Lemma slot_or_new_ok nd k l :
  mgr_ok nd l → reachable nd no_conflict (slot_or_new k l) ∧ placed (lm_table_id_ l) (lm_shard_id_ l) k (slot_or_new k l).
Proof.
  intros Hok. unfold slot_or_new. destruct (find_slot k l) as [s|] eqn:E; [by apply Hok|].
  split; [constructor|done].
Qed.

Lemma get_lock_slot_ok nd k l :
  mgr_ok nd l → get_lock_slot k l = Some (slot_or_new k l, l <| key_row_locks_ := <[k := slot_or_new k l]> (key_row_locks_ l) |>).
Proof.
  intros Hok. destruct (slot_or_new_ok nd k l Hok) as [_ (_ & _ & Hk)]. revert Hk.
  unfold get_lock_slot, find_or_insert, slot_or_new, find_slot, find.
  destruct (key_row_locks_ l !! k) as [s|] eqn:E; simpl; intros Hk; [rewrite Hk|]; rewrite Z.eqb_refl; [|done].
  rewrite insert_id by done. by destruct l.
Qed.

Lemma lock_gut_ok nd o m k x l :
  mgr_ok nd l → (row_mode m = true → lockable x (slot_or_new k l)) →
  ∃ l' ev, lock_gut nd o m k x l = Some (l', ev) ∧ mgr_step nd k l l'.
Proof.
  intros Hok Hx.
  assert (∀ m, row_mode m = true → lockable x (slot_or_new k l) →
    ∃ l' ev, row_lock nd o m k x l = Some (l', ev) ∧ mgr_step nd k l l') as Hrow.
  { intros m' Hm [Hmay Hcap]. unfold row_lock. rewrite (get_lock_slot_ok nd k l Hok). simpl.
    pose proof (slot_or_new_ok nd k l Hok) as [Hr Hp].
    apply (placed_lock _ _ _ nd m' x o) in Hp.
    destruct (lock nd m' x o (slot_or_new k l)) as [[b s'] ev] eqn:E. simpl in *.
    eexists _, _. split; [done|]. rewrite insert_insert_eq. apply mgr_step_insert. intros _. split; [|done].
    eapply reachable_step; [exact Hr|]. by eapply slot_step_lock. }
  destruct m; simpl; eauto using mgr_step_refl.
Qed.

Lemma unlock_gut_ok nd x m k l :
  mgr_ok nd l → (row_mode m = true → is_Some (find_slot k l)) →
  ∃ l' ev, lm_unlock_gut x m k l = Some (l', ev) ∧ mgr_step nd k l l'.
Proof.
  intros Hok Hx.
  assert (∀ s, find_slot k l = Some s → ∃ s' ev, unlock (slot_conflict l) x s = Some (s', ev) ∧
    mgr_step nd k l (l <| key_row_locks_ := <[k := s']> (key_row_locks_ l) |>)) as Hrow.
  { intros s E. destruct (Hok k s E) as [Hr Hp]. rewrite slot_conflict_none.
    destruct (unlock_returns nd no_conflict x s Hr) as (s' & ev & Eu). eexists _, _. split; [exact Eu|].
    apply mgr_step_insert. intros _. split; [|by eapply placed_unlock].
    eapply reachable_step; [exact Hr|]. by eapply slot_step_unlock. }
  destruct m; simpl; eauto using mgr_step_refl; destruct (Hx eq_refl) as [s E];
    destruct (Hrow s E) as (s' & ev & Eu & Hst); unfold find_slot in E; rewrite E, Eu; eauto.
Qed.

(** ** Tables and shards *)

Lemma at_set_eq {A} t sh (x : option A) T : (t < length T)%nat → at_shard t sh (set_shard t sh x T) = Some x.
Proof.
  intros Ht. unfold at_shard, set_shard. rewrite list_lookup_alter_eq.
  destruct (lookup_lt_is_Some_2 T t Ht) as [m ->]. simpl. by rewrite lookup_insert_eq.
Qed.

Lemma at_set_ne {A} t sh t' sh' (x : option A) T :
  (t', sh') ≠ (t, sh) → at_shard t' sh' (set_shard t sh x T) = at_shard t' sh' T.
Proof.
  intros Hne. unfold at_shard, set_shard. destruct (decide (t = t')) as [<-|Ht].
  - rewrite list_lookup_alter_eq. destruct (T !! t); [|done]. simpl. rewrite lookup_insert_ne; congruence.
  - by rewrite list_lookup_alter_ne.
Qed.

Lemma at_shard_lt {A} t sh (T : list (gmap Z (option A))) x : at_shard t sh T = Some x → (t < length T)%nat.
Proof. unfold at_shard. intros (m & Hm & _)%bind_Some. by eapply lookup_lt_Some. Qed.

Lemma length_set {A} t sh (x : option A) T : length (set_shard t sh x T) = length T.
Proof. apply length_alter. Qed.

(** The entry of table [t] and shard [sh] after construction. *)
Lemma at_new {A} (f : nat → Z → A) shards n t sh :
  (t ≤ n)%nat →
  at_shard t sh (map (fun id => list_to_map (map (fun s => (s, Some (f id s))) shards)) (seq 0 (S n)))
  = Some (if bool_decide (sh ∈ shards) then Some (f t sh) else None).
Proof.
  intros Ht. unfold at_shard. rewrite list_lookup_fmap, lookup_seq_lt by lia. simpl. f_equal.
  induction shards as [|s ss IH]; simpl; [by rewrite lookup_empty|].
  destruct (decide (s = sh)) as [->|Hne].
  - rewrite lookup_insert_eq. by rewrite bool_decide_eq_true_2 by set_solver.
  - rewrite lookup_insert_ne by done. rewrite IH. f_equal.
    destruct (decide (sh ∈ ss)); [rewrite !bool_decide_eq_true_2|rewrite !bool_decide_eq_false_2]; set_solver.
Qed.

(** ** Runs of the access manager *)

Definition row : Type := nat * Z * Z.

Section runs.
Context (nd : bool) (shards : list Z) (max_table_id : nat) (before after : bool).

(** The calls the manager serves, with the tuples put so far.  A transaction
    asks for a row it does not wait for; it unlocks rows it asked for. *)
Inductive access_run : access_mgr → gmap row string → Prop :=
| run_new : access_run (new_access shards max_table_id before after) ∅
| run_lock a m x o lt t sh k a' ev :
    access_run a m →
    (∀ s, slot_at t sh k a = Some s → lockable x s) →
    lock_row nd x o lt t sh k a = Some (a', ev) → access_run a' m
| run_unlock a m x lt t sh k a' ev :
    access_run a m → unlock_row x lt t sh k a = Some (a', ev) → access_run a' m
| run_put a m t sh k v a' :
    access_run a m → put t sh k v a = Some a' → access_run a' (<[(t, sh, k) := v]> m).

(** Every table has a manager for each shard of the node and none for the
    others. *)
Record access_ok (a : access_mgr) (m : gmap row string) : Prop := {
  ok_locks : ∀ t sh, (t ≤ max_table_id)%nat →
    ∃ lm, at_shard t sh (lock_table_ a) = Some lm ∧ (is_Some lm ↔ sh ∈ shards) ∧
      ∀ l, lm = Some l → mgr_ok nd l ∧ lm_table_id_ l = Z.of_nat t ∧ lm_shard_id_ l = sh;
  ok_lock_len : length (lock_table_ a) = S max_table_id;
  ok_data : ∀ t sh, (t ≤ max_table_id)%nat →
    ∃ dm, at_shard t sh (data_table_ a) = Some dm ∧ (is_Some dm ↔ sh ∈ shards) ∧
      ∀ d, dm = Some d → ∀ k, dm_get k d = m !! (t, sh, k);
  ok_data_len : length (data_table_ a) = S max_table_id;
}.

Lemma new_access_ok : access_ok (new_access shards max_table_id before after) ∅.
Proof.
  split; unfold new_access; cbn [lock_table_ data_table_]; try by rewrite length_map, length_seq.
  - intros t sh Ht. rewrite (at_new (fun id s => new_mgr (Z.of_nat id) s before after)) by done.
    eexists. split; [reflexivity|]. case_bool_decide; (split; [by rewrite is_Some_alt|]); [|done].
    intros ? [= <-]. done.
  - intros t sh Ht. rewrite (at_new (fun _ _ => ∅ : data_mgr)) by done.
    eexists. split; [reflexivity|]. case_bool_decide; (split; [by rewrite is_Some_alt|]); [|done].
    intros ? [= <-]. done.
Qed.

(** Setting the manager of one shard. *)
Lemma set_lock_ok a m t sh x :
  access_ok a m → (is_Some x ↔ sh ∈ shards) →
  (∀ l, x = Some l → mgr_ok nd l ∧ lm_table_id_ l = Z.of_nat t ∧ lm_shard_id_ l = sh) →
  access_ok (a <| lock_table_ := set_shard t sh x (lock_table_ a) |>) m.
Proof.
  intros H Hx Hl. split; simpl; [|by rewrite length_set; apply H|apply H|apply H].
  intros t' sh' Ht'. destruct (decide ((t', sh') = (t, sh))) as [[= -> ->]|Hne].
  - rewrite at_set_eq by (rewrite (ok_lock_len _ _ H); lia). by exists x.
  - rewrite at_set_ne by done. by apply H.
Qed.

Lemma set_data_ok a m t sh x m' :
  access_ok a m → (is_Some x ↔ sh ∈ shards) →
  (∀ d, x = Some d → ∀ k, dm_get k d = m' !! (t, sh, k)) →
  (∀ r, r.1 ≠ (t, sh) → m' !! r = m !! r) →
  access_ok (a <| data_table_ := set_shard t sh x (data_table_ a) |>) m'.
Proof.
  intros H Hx Hd Hm. split; simpl; [apply H|apply H| |by rewrite length_set; apply H].
  intros t' sh' Ht'. destruct (decide ((t', sh') = (t, sh))) as [[= -> ->]|Hne].
  - rewrite at_set_eq by (rewrite (ok_data_len _ _ H); lia). by exists x.
  - rewrite at_set_ne by done. destruct (ok_data _ _ H t' sh' Ht') as (dm & E & Hs & Hdm).
    exists dm. split; [done|]. split; [done|]. intros d Ed k. rewrite Hm by done. by apply Hdm.
Qed.

(** Lock and unlock in one: a step of the row's manager, or none. *)
Lemma row_call_ok a m t sh k lm l' :
  access_ok a m → (t ≤ max_table_id)%nat → at_shard t sh (lock_table_ a) = Some lm →
  match lm, l' with Some l, Some l' => mgr_step nd k l l' | None, None => True | _, _ => False end →
  let a' := a <| lock_table_ := set_shard t sh l' (lock_table_ a) |> in
  access_ok a' m ∧ ∀ t' sh' k', (t', sh', k') ≠ (t, sh, k) → slot_at t' sh' k' a' = slot_at t' sh' k' a.
Proof.
  intros H Ht E Hst. destruct (ok_locks _ _ H t sh Ht) as (lm' & E' & Hs & Hl).
  rewrite E in E'. injection E' as <-. split.
  - apply set_lock_ok; [done|destruct lm, l'; naive_solver|]. intros l2 ->. destruct lm as [l|]; [|done].
    destruct Hst as ([P1 P2] & _ & Hok), (Hl l eq_refl) as (G1 & G2 & G3). split_and!; [by apply Hok|congruence..].
  - intros t' sh' k' Hne. unfold slot_at. simpl. destruct (decide ((t', sh') = (t, sh))) as [[= -> ->]|Hne'].
    + rewrite at_set_eq by (by eapply at_shard_lt). rewrite E. simpl.
      destruct lm, l'; [|done..]. simpl. apply Hst. congruence.
    + by rewrite at_set_ne by done.
Qed.

Lemma lock_row_ok a m x o lt t sh k :
  access_ok a m → (t ≤ max_table_id)%nat → (∀ s, slot_at t sh k a = Some s → lockable x s) →
  ∃ a' ev, lock_row nd x o lt t sh k a = Some (a', ev) ∧ access_ok a' m ∧
    ∀ t' sh' k', (t', sh', k') ≠ (t, sh, k) → slot_at t' sh' k' a' = slot_at t' sh' k' a.
Proof.
  intros H Ht Hx. destruct (ok_locks _ _ H t sh Ht) as (lm & E & _ & Hl).
  unfold lock_row. rewrite E. simpl. destruct lm as [l|].
  - destruct (lock_gut_ok nd o lt k x l) as (l' & ev & -> & Hst); [by apply Hl| |].
    { intros _. unfold slot_or_new. destruct (find_slot k l) as [s|] eqn:Ef.
      - apply Hx. unfold slot_at. rewrite E. simpl. exact Ef.
      - split; [by intros i|done]. }
    eexists _, _. split; [reflexivity|]. by eapply row_call_ok.
  - eexists _, _. split; [reflexivity|]. by eapply row_call_ok.
Qed.

Lemma unlock_row_ok a m x lt t sh k :
  access_ok a m → (t ≤ max_table_id)%nat → (row_mode lt = true → sh ∈ shards → is_Some (slot_at t sh k a)) →
  ∃ a' ev, unlock_row x lt t sh k a = Some (a', ev) ∧ access_ok a' m ∧
    ∀ t' sh' k', (t', sh', k') ≠ (t, sh, k) → slot_at t' sh' k' a' = slot_at t' sh' k' a.
Proof.
  intros H Ht Hx. destruct (ok_locks _ _ H t sh Ht) as (lm & E & Hs & Hl).
  unfold unlock_row. rewrite E. simpl. destruct lm as [l|].
  - destruct (unlock_gut_ok nd x lt k l) as (l' & ev & -> & Hst); [by apply Hl| |].
    { intros Hm. destruct (Hx Hm) as [s Es]; [by apply Hs; eauto|].
      unfold slot_at in Es. rewrite E in Es. simpl in Es. by exists s. }
    eexists _, _. split; [reflexivity|]. by eapply row_call_ok.
  - eexists _, _. split; [reflexivity|]. by eapply row_call_ok.
Qed.

Lemma put_ok a m t sh k v a' :
  access_ok a m → put t sh k v a = Some a' → access_ok a' (<[(t, sh, k) := v]> m).
Proof.
  intros H. unfold put. destruct (is_tuple_nil v); [done|]. intros (dm & E & Ea)%bind_Some.
  assert (t ≤ max_table_id)%nat as Ht by (apply at_shard_lt in E; rewrite (ok_data_len _ _ H) in E; lia).
  destruct (ok_data _ _ H t sh Ht) as (dm' & E' & Hs & Hd). rewrite E in E'. injection E' as <-.
  assert (∀ r, r.1 ≠ (t, sh) → <[(t, sh, k) := v]> m !! r = m !! r) as Hfr.
  { intros [[t' sh'] k'] Hr. rewrite lookup_insert_ne; [done|]. simpl in Hr. congruence. }
  destruct dm as [d|]; injection Ea as <-; apply (set_data_ok a m t sh _ _ H); try done.
  - rewrite <- Hs. split; eauto.
  - intros d' [= <-] k'. specialize (Hd d eq_refl k').
    unfold dm_put, find_or_insert, dm_get, find, data_mgr in *.
    destruct (decide (k' = k)) as [->|Hne].
    + rewrite lookup_insert_eq. destruct (d !! k); simpl; rewrite lookup_insert_eq; simpl; by rewrite ?last_snoc.
    + rewrite lookup_insert_ne by congruence. destruct (d !! k); simpl; by rewrite !lookup_insert_ne by done.
Qed.

Lemma unlock_row_inv a m x lt t sh k a' ev :
  access_ok a m → unlock_row x lt t sh k a = Some (a', ev) →
  (t ≤ max_table_id)%nat ∧ (row_mode lt = true → sh ∈ shards → is_Some (slot_at t sh k a)).
Proof.
  intros H. unfold unlock_row. intros (lm & E & Ea)%bind_Some.
  assert (t ≤ max_table_id)%nat as Ht by (apply at_shard_lt in E; rewrite (ok_lock_len _ _ H) in E; lia).
  split; [done|]. intros Hm Hsh. destruct (ok_locks _ _ H t sh Ht) as (lm' & E' & Hs & _).
  rewrite E in E'. injection E' as <-. apply Hs in Hsh as [l ->]. unfold slot_at. rewrite E. simpl.
  apply bind_Some in Ea as ([l' e'] & El & _). revert El. unfold find_slot, lm_unlock_gut.
  destruct lt; try done; destruct (find k (key_row_locks_ l)); eauto; done.
Qed.

Lemma access_run_ok a m : access_run a m → access_ok a m.
Proof.
  induction 1 as [|a m x o lt t sh k a' ev _ IH Hx E|a m x lt t sh k a' ev _ IH E|a m t sh k v a' _ IH E].
  - apply new_access_ok.
  - assert (t ≤ max_table_id)%nat as Ht.
    { unfold lock_row in E. apply bind_Some in E as (lm & E & _). apply at_shard_lt in E.
      rewrite (ok_lock_len _ _ IH) in E. lia. }
    destruct (lock_row_ok a m x o lt t sh k IH Ht Hx) as (? & ? & E' & Hok & _). congruence.
  - destruct (unlock_row_inv _ _ _ _ _ _ _ _ _ IH E) as [Ht Hx].
    destruct (unlock_row_ok a m x lt t sh k IH Ht Hx) as (? & ? & E' & Hok & _). congruence.
  - by eapply put_ok.
Qed.

End runs.

(** ** The theorems *)

Section theorems.
Context (nd : bool) (shards : list Z) (n : nat) (b f : bool) (a : access_mgr) (m : gmap row string).


(** A read returns the last tuple put.  After any run of locks, unlocks and
    puts, [get] of a row of a shard of the node returns the last tuple put
    there, and reports the row as missing when there is none. *)
Theorem get_latest t sh k :
  access_run nd shards n b f a m → (t ≤ n)%nat → sh ∈ shards → get t sh k a = Some (m !! (t, sh, k)).
Proof.
  intros Hok%access_run_ok Ht Hsh. destruct (ok_data _ _ _ _ _ Hok t sh Ht) as (dm & E & Hs & Hd).
  unfold get. rewrite E. destruct (proj2 Hs Hsh) as [d Ed]. subst dm. simpl. by rewrite (Hd d eq_refl).
Qed.

(** Unlocking a row of the node that was never locked fails the assertion
    of [unlock_gut]. *)
Theorem unlock_unknown_row x t sh k lt :
  access_run nd shards n b f a m → row_mode lt = true → sh ∈ shards →
  slot_at t sh k a = None → unlock_row x lt t sh k a = None.
Proof.
  intros Hok%access_run_ok Hm Hsh Hn. destruct (unlock_row x lt t sh k a) as [[a' ev]|] eqn:E; [|done].
  destruct (unlock_row_inv nd shards n _ _ _ _ _ _ _ _ _ Hok E) as [_ Hs].
  destruct (Hs Hm Hsh). congruence.
Qed.

End theorems.

(** [conflict] looks at no row: whatever slots the manager has, it reports
    no conflict and changes nothing. *)
Theorem conflict_never xid oid l : conflict xid oid l = (false, l).
Proof. reflexivity. Qed.

(** ** A run

    Shard 7 of tables 0 and 1.  Transactions 1 and 2 write-lock row 5 of table
    0, 1 writes it and unlocks, 2 gets the lock. *)

Definition demo0 : access_mgr := new_access [7] 1 false false.
Definition demo1 : access_mgr := from_option fst demo0 (lock_row true 1 1 LOCK_WRITE_ROW 0 7 5 demo0).
Definition demo2 : access_mgr := from_option fst demo0 (lock_row true 2 1 LOCK_WRITE_ROW 0 7 5 demo1).
Definition demo3 : access_mgr := default demo0 (put 0 7 5 "one" demo2).
Definition demo_calls : access_mgr := from_option fst demo0 (unlock_row 1 LOCK_WRITE_ROW 0 7 5 demo3).

Lemma from_option_fst {A B} (d : A) (o : option (A * B)) : is_Some o → ∃ e, o = Some (from_option fst d o, e).
Proof. intros [[x e] ->]. by exists e. Qed.

Lemma demo_calls_run : access_run true [7] 1 false false demo_calls {[(0%nat, 7, 5) := "one"%string]}.
Proof.
  rewrite <- insert_empty.
  destruct (from_option_fst demo0 (lock_row true 1 1 LOCK_WRITE_ROW 0 7 5 demo0)) as [e1 E1]; [by vm_compute; eexists|].
  destruct (from_option_fst demo0 (lock_row true 2 1 LOCK_WRITE_ROW 0 7 5 demo1)) as [e2 E2]; [by vm_compute; eexists|].
  destruct (from_option_fst demo0 (unlock_row 1 LOCK_WRITE_ROW 0 7 5 demo3)) as [e4 E4]; [by vm_compute; eexists|].
  apply (run_unlock _ _ _ _ _ demo3 _ _ _ _ _ _ _ _) with (2 := E4).
  apply (run_put _ _ _ _ _ demo2); [|vm_compute; reflexivity].
  apply (run_lock _ _ _ _ _ demo1 _ _ _ _ _ _ _ _ _) with (3 := E2); [|intros s Hs].
  - apply (run_lock _ _ _ _ _ demo0 _ _ _ _ _ _ _ _ _) with (3 := E1); [apply run_new|intros s Hs].
    vm_compute in Hs. discriminate.
  - vm_compute in Hs. injection Hs as <-. split; [intros i Hi; vm_compute in Hi; discriminate|done].
Qed.


Lemma get_latest_witness : get 0 7 5 demo_calls = Some (Some "one"%string).
Proof. apply (get_latest true [7] 1 false false demo_calls _ 0 7 5 demo_calls_run); [lia|set_solver]. Defined.

Lemma unlock_unknown_row_witness : unlock_row 1 LOCK_READ_ROW 1 7 5 demo_calls = None.
Proof.
  apply (unlock_unknown_row true [7] 1 false false demo_calls _ 1 1 7 5 LOCK_READ_ROW demo_calls_run);
    [reflexivity|set_solver|vm_compute; reflexivity].
Defined.

End LockMgr.
