(* ===== verification/LockView.v ===== *)
(** * What a transaction sees of the locks

    The record of one transaction in each slot of the access manager
    ([LockMgr.slot_at], [LockSlot.info_]) and the callbacks it is told, across a
    [lock_row] or [unlock_row] of any transaction.  A lock changes the record of
    its own transaction on its own row; an unlock forgets the transaction on the
    row and turns some of the waiting records there into held ones, one callback
    for each operation that waits. *)

From S2P Require Import Prelude Common.
From S2P Require Import LockSlot LockMgr.
#[local] Open Scope Z_scope.

Module LockView.
Import LockSlot.LockSlot LockMgr.LockMgr.

(** The callbacks to transaction [y] in a list of events. *)
Definition told_one (y : Z) (e : slot_event) : option EC :=
  match e with LockAcquire ec y' _ => if bool_decide (y' = y) then Some ec else None | _ => None end.
Definition told (y : Z) (ev : list slot_event) : list EC := omap (told_one y) ev.

Lemma told_app y ev ev' : told y (ev ++ ev') = told y ev ++ told y ev'.
Proof. apply omap_app. Qed.

Lemma told_acquired y s ec m x o : told y (on_lock_acquired s ec m x o) = if bool_decide (x = y) then [ec] else [].
Proof. unfold on_lock_acquired, told. destruct (fn_after_ s); simpl; by case_bool_decide. Qed.

Lemma told_before y s cmd x o : told y (before_event s cmd x o) = [].
Proof. unfold before_event. by destruct (fn_before_ s). Qed.

Lemma told_wait y nd x o s : told y (add_wait nd x o s).2 = [].
Proof. by destruct nd. Qed.

(** ** One slot *)

Definition record_after (x o : Z) (m : lock_mode) (b : bool) (i : option tx_lock_ctx) : tx_lock_ctx :=
  match i with
  | Some i => i <| oid_ := oid_ i ++ [o] |>
  | None => mk_ctx x [o] m b
  end.

Lemma lock_records nd m x o s b s' ev :
  may_lock x s → row_mode m = true → lock nd m x o s = (b, s', ev) →
  info_ s' = <[x := record_after x o m b (info_ s !! x)]> (info_ s) ∧
  (is_Some (info_ s !! x) → b = true) ∧
  ∀ y, told y ev = if b && bool_decide (x = y) then [EC_OK] else [].
Proof.
  intros Hmay Hm. unfold lock, add_lock_info. destruct (info_ s !! x) as [i|] eqn:Ei; simpl.
  { rewrite (Hmay i Ei). intros [= <- <- <-]. split_and!; [done|done|]. intros y. by rewrite told_acquired. }
  assert (∀ I, mark_acquired x (<[x := mk_ctx x [o] m false]> I) = <[x := mk_ctx x [o] m true]> I) as Hmark.
  { intros I. unfold mark_acquired. by rewrite alter_insert_eq. }
  destruct (row_mode_cases _ Hm) as [->| ->]; simpl.
  - unfold read_lock, acquire_read_lock. simpl. destruct (write_count_ s =? 0); intros [= <- <- <-].
    + split_and!; [unfold add_read; simpl; case_bool_decide; apply Hmark|by intros []|].
      intros y. by rewrite !told_app, told_before, told_acquired.
    + split_and!; [done|by intros []|]. intros y. rewrite app_nil_r, told_app, told_before.
      by destruct nd.
  - unfold write_lock. simpl. destruct (_ && _); intros [= <- <- <-].
    + split_and!; [unfold add_write; simpl; case_bool_decide; apply Hmark|by intros []|].
      intros y. by rewrite !told_app, told_before, told_acquired.
    + split_and!; [done|by intros []|]. intros y. rewrite app_nil_r, told_app, told_before.
      by destruct nd.
Qed.

Lemma told_grant x s y :
  (∀ y i, info_ s !! y = Some i → ctx_ i = y) →
  told y (notify_grant x s).2 =
  if bool_decide (x = y) then from_option (fun i => map (fun _ => EC_OK) (oid_ i)) [] (info_ s !! y) else [].
Proof.
  intros Hctx. unfold notify_grant. destruct (info_ s !! x) as [i|] eqn:Ei; simpl.
  - rewrite (Hctx x i Ei). generalize (if is_read_mode (type_ i) then add_read x s else match type_ i with LOCK_WRITE_ROW => add_write x s | _ => set_acquired x s end).
    intros s1. assert (∀ l, told y (concat (map (on_lock_acquired s1 EC_OK (type_ i) x) l)) =
      if bool_decide (x = y) then map (fun _ => EC_OK) l else []) as Hl.
    { induction l as [|o l IH]; simpl; [by case_bool_decide|]. rewrite told_app, told_acquired, IH. by case_bool_decide. }
    rewrite Hl. case_bool_decide; [subst; by rewrite Ei|done].
  - case_bool_decide; [subst; by rewrite Ei|done].
Qed.

Lemma notify_all_records xs s y :
  NoDup xs → (∀ y i, info_ s !! y = Some i → ctx_ i = y) →
  let r := notify_all xs s in
  if bool_decide (y ∈ xs)
  then info_ r.1 !! y = (fun i => i <| acquired_ := true |>) <$> info_ s !! y ∧
       told y r.2 = from_option (fun i => map (fun _ => EC_OK) (oid_ i)) [] (info_ s !! y)
  else info_ r.1 !! y = info_ s !! y ∧ told y r.2 = [].
Proof.
  revert s. induction xs as [|x xs IH]; intros s Hnd Hctx; [by rewrite bool_decide_eq_false_2 by set_solver|].
  apply NoDup_cons in Hnd as [Hx Hnd]. simpl.
  pose proof (told_grant x s y Hctx) as Ht. pose proof (notify_grant_info x s) as Hi.
  specialize (IH (notify_grant x s).1 Hnd (notify_grant_ctx x s Hctx)).
  destruct (notify_grant x s) as [s1 e1]. simpl in *. destruct (notify_all xs s1) as [s2 e2]. simpl in *.
  assert (info_ s1 !! y = if bool_decide (x = y) then (fun i => i <| acquired_ := true |>) <$> info_ s !! y else info_ s !! y) as Hy.
  { rewrite Hi. destruct (info_ s !! x) eqn:Ex.
    - rewrite lookup_mark. case_decide; case_bool_decide; subst; try done; congruence.
    - case_bool_decide; [subst; by rewrite Ex|done]. }
  rewrite told_app, Ht. rewrite Hy in IH. destruct (decide (x = y)) as [->|Hne].
  - rewrite (bool_decide_eq_true_2 (y = y)) in * by done. rewrite (bool_decide_eq_false_2 (y ∈ xs)) in IH by done.
    rewrite bool_decide_eq_true_2 by set_solver. destruct IH as [-> ->]. by rewrite app_nil_r.
  - rewrite (bool_decide_eq_false_2 (x = y)) in * by done.
    rewrite (bool_decide_ext (y ∈ x :: xs) (y ∈ xs)) by set_solver. exact IH.
Qed.

(** The record of [y] and what it is told, when another transaction's call ran. *)
Definition granted_or_same (y : Z) (i i' : option tx_lock_ctx) (ev : list slot_event) : Prop :=
  i' = i ∧ told y ev = [] ∨
  ∃ j, i = Some j ∧ acquired_ j = false ∧ i' = Some (j <| acquired_ := true |>) ∧ told y ev = map (fun _ => EC_OK) (oid_ j).

Lemma unlock_records nd c x s s' ev :
  reachable nd c s → unlock c x s = Some (s', ev) →
  info_ s' !! x = None ∧ told x ev = [] ∧ ∀ y, y ≠ x → granted_or_same y (info_ s !! y) (info_ s' !! y) ev.
Proof.
  intros [H _]%reachable_wf E.
  pose proof (core_remove_lock x s H) as H1. pose proof (info_remove_lock x s H) as Hinfo.
  destruct (notify_lock_acquire_wf c _ H1) as (xs & rest & s2 & ev2 & E2 & _ & Hmap & _ & Hall).
  unfold unlock, unlock_gut in E. rewrite E2 in E. injection E as -> ->.
  set (s1 := (remove_lock x s).2) in *.
  assert (NoDup xs) as Hnd. { pose proof (core_nodup _ _ H1) as Hn. simpl in Hn. rewrite Hmap in Hn. by apply NoDup_app in Hn as [? _]. }
  assert (∀ y i, info_ (s1 <| wait_ := rest |>) !! y = Some i → ctx_ i = y) as Hctx by (intros y i Hi; by apply (core_ctx _ _ H1) in Hi as [? _]).
  assert (∀ y, y ∈ xs → waiter (info_ s1) y) as Hw.
  { intros y Hy. apply (core_wait _ _ H1). simpl. rewrite Hmap. set_solver. }
  pose proof (fun y => notify_all_records xs _ y Hnd Hctx) as Hr. cbv zeta in Hr. rewrite Hall in Hr.
  change (info_ (s1 <| wait_ := rest |>)) with (info_ s1) in Hr. simpl in Hr. rewrite Hinfo in Hr, Hw.
  assert (info_ s' !! x = None ∧ told x ev = []) as [Hx1 Hx2].
  { specialize (Hr x). rewrite lookup_delete_eq in Hr. case_bool_decide; done. }
  split_and!; [done|done|]. intros y Hne. specialize (Hr y). rewrite lookup_delete_ne in Hr by done.
  case_bool_decide as Hy; [right|by left]. destruct (Hw y Hy) as (j & Hj & Ha). rewrite lookup_delete_ne in Hj by done.
  exists j. rewrite Hj in Hr. simpl in Hr. destruct Hr. done.
Qed.

(** ** The rows of the access manager *)

Definition info_at (r : row) (x : Z) (a : access_mgr) : option tx_lock_ctx :=
  s ← slot_at r.1.1 r.1.2 r.2 a; info_ s !! x.

Lemma info_at_set t sh k x l a s :
  (t < length (lock_table_ a))%nat → key_row_locks_ l !! k = Some s →
  info_at (t, sh, k) x (a <| lock_table_ := set_shard t sh (Some l) (lock_table_ a) |>) = info_ s !! x.
Proof.
  intros Ht Hs. unfold info_at, slot_at. simpl. rewrite at_set_eq by done. simpl.
  unfold find_slot, HashTable.find. by rewrite Hs.
Qed.

Lemma info_at_null t sh k x a :
  at_shard t sh (lock_table_ a) = Some None →
  info_at (t, sh, k) x (a <| lock_table_ := set_shard t sh None (lock_table_ a) |>) = info_at (t, sh, k) x a.
Proof.
  intros E. unfold info_at, slot_at. simpl. by rewrite at_set_eq, E by by eapply at_shard_lt.
Qed.

(** Nobody has a record at first. *)
Lemma info_at_new shards n b f r x : info_at r x (new_access shards n b f) = None.
Proof.
  destruct r as [[t sh] k]. unfold info_at, slot_at, new_access. cbn [lock_table_ fst snd].
  destruct (decide (t ≤ n)%nat) as [Ht|Ht].
  - rewrite (at_new (fun id s => new_mgr (Z.of_nat id) s b f)) by done. simpl. by case_bool_decide.
  - unfold at_shard. rewrite lookup_ge_None_2; [done|]. rewrite length_map, length_seq. lia.
Qed.

Section calls.
Context (nd : bool) (shards : list Z) (n : nat) (a : access_mgr) (m : gmap row string).
Context (Hok : access_ok nd shards n a m).

Lemma manager_ok t sh l : at_shard t sh (lock_table_ a) = Some (Some l) → mgr_ok nd l.
Proof.
  intros E. assert (t ≤ n)%nat as Ht by (apply at_shard_lt in E; rewrite (ok_lock_len _ _ _ _ _ Hok) in E; lia).
  destruct (ok_locks _ _ _ _ _ Hok t sh Ht) as (lm & E' & _ & Hl). by apply Hl; congruence.
Qed.

Lemma info_at_slot t sh k x l : at_shard t sh (lock_table_ a) = Some (Some l) → info_at (t, sh, k) x a = info_ (slot_or_new k l) !! x.
Proof.
  intros E. unfold info_at, slot_at, slot_or_new. simpl. rewrite E. simpl.
  by destruct (find_slot k l).
Qed.

Lemma lock_row_records x o md t sh k a' ev :
  row_mode md = true → (∀ s, slot_at t sh k a = Some s → lockable x s) →
  lock_row nd x o md t sh k a = Some (a', ev) →
  access_ok nd shards n a' m ∧
  (∀ r y, r ≠ (t, sh, k) ∨ y ≠ x → info_at r y a' = info_at r y a) ∧ (∀ y, y ≠ x → told y ev = []) ∧
  (info_at (t, sh, k) x a' = info_at (t, sh, k) x a ∧ told x ev = [] ∨
   ∃ b, info_at (t, sh, k) x a' = Some (record_after x o md b (info_at (t, sh, k) x a)) ∧
        (is_Some (info_at (t, sh, k) x a) → b = true) ∧ told x ev = if b then [EC_OK] else []).
Proof.
  intros Hm Hx E. pose proof E as (lm & Elm & E')%bind_Some.
  assert (t ≤ n)%nat as Ht by (apply at_shard_lt in Elm; rewrite (ok_lock_len _ _ _ _ _ Hok) in Elm; lia).
  destruct (lock_row_ok _ _ _ a m x o md t sh k Hok Ht Hx) as (? & ? & E2 & Hok' & Hfr).
  rewrite E in E2. injection E2 as <- <-. split; [done|].
  assert (∀ r y, r ≠ (t, sh, k) → info_at r y a' = info_at r y a) as Hother.
  { intros [[t' sh'] k'] y Hne. unfold info_at. simpl. by rewrite Hfr. }
  destruct lm as [l|].
  - pose proof (manager_ok _ _ _ Elm) as Hl. apply bind_Some in E' as ([l' ev'] & E' & [= <- <-]).
    assert (row_lock nd o md k x l = Some (l', ev')) as Er by (destruct (row_mode_cases _ Hm) as [->| ->]; done).
    unfold row_lock in Er. rewrite (get_lock_slot_ok nd k l Hl) in Er. simpl in Er.
    assert (may_lock x (slot_or_new k l)) as Hmay.
    { unfold slot_or_new. destruct (find_slot k l) as [s|] eqn:Ef; [|by intros i].
      apply Hx. unfold slot_at. by rewrite Elm. }
    destruct (lock nd md x o (slot_or_new k l)) as [[b s'] ev2] eqn:El. injection Er as <- <-.
    destruct (lock_records _ _ _ _ _ _ _ _ Hmay Hm El) as (R1 & R2 & R3).
    assert (∀ y, info_at (t, sh, k) y (a <| lock_table_ := set_shard t sh (Some (l <| key_row_locks_ := <[k := s']> (<[k := slot_or_new k l]> (key_row_locks_ l)) |>)) (lock_table_ a) |>) = info_ s' !! y) as Hi.
    { intros y. apply info_at_set; [by eapply at_shard_lt|]. simpl. apply lookup_insert_eq. }
    split_and!.
    + intros r y Hry. destruct (decide (r = (t, sh, k))) as [->|]; [|by apply Hother]. destruct Hry as [|Hy]; [done|].
      rewrite (info_at_slot _ _ _ _ _ Elm). etrans; [apply Hi|]. rewrite R1. by rewrite lookup_insert_ne.
    + intros y Hy. rewrite R3, bool_decide_eq_false_2 by done. by rewrite andb_false_r.
    + right. exists b. rewrite (info_at_slot _ _ _ _ _ Elm). split_and!; [|done|].
      * etrans; [apply Hi|]. rewrite R1. by rewrite lookup_insert_eq.
      * by rewrite R3, bool_decide_eq_true_2, andb_true_r.
  - injection E' as <- <-. split_and!; [|done|left; split; [by apply info_at_null|done]].
    intros r y _. destruct (decide (r = (t, sh, k))) as [->|]; [by apply info_at_null|by apply Hother].
Qed.

Lemma unlock_row_records x md t sh k a' ev :
  unlock_row x md t sh k a = Some (a', ev) →
  access_ok nd shards n a' m ∧
  (∀ r y, r ≠ (t, sh, k) → info_at r y a' = info_at r y a) ∧
  told x ev = [] ∧ (info_at (t, sh, k) x a' = info_at (t, sh, k) x a ∨ info_at (t, sh, k) x a' = None) ∧
  (∀ y, y ≠ x → granted_or_same y (info_at (t, sh, k) y a) (info_at (t, sh, k) y a') ev).
Proof.
  intros E. destruct (unlock_row_inv _ _ _ _ _ _ _ _ _ _ _ _ Hok E) as [Ht Hx].
  destruct (unlock_row_ok _ _ _ a m x md t sh k Hok Ht Hx) as (? & ? & E2 & Hok' & Hfr).
  rewrite E in E2. injection E2 as <- <-. split; [done|].
  split. { intros [[t' sh'] k'] y Hne. unfold info_at. simpl. by rewrite Hfr. }
  apply bind_Some in E as (lm & Elm & E). destruct lm as [l|].
  - apply bind_Some in E as ([l' ev'] & E & [= <- <-]).
    assert ((row_mode md = false ∧ l' = l ∧ ev' = []) ∨ ∃ s s', find_slot k l = Some s ∧ unlock no_conflict x s = Some (s', ev') ∧
      l' = l <| key_row_locks_ := <[k := s']> (key_row_locks_ l) |>) as [(_ & -> & ->)|(s & s' & Es & Eu & ->)].
    { revert E. unfold lm_unlock_gut. rewrite slot_conflict_none. unfold find_slot.
      destruct md; try (intros [= <- <-]; by left); destruct (HashTable.find k _) as [s|]; try done;
        destruct (unlock no_conflict x s) as [[s' ev2]|] eqn:Eu; try done; intros [= <- <-]; right; by eauto 6. }
    + assert (∀ y, info_at (t, sh, k) y (a <| lock_table_ := set_shard t sh (Some l) (lock_table_ a) |>) = info_at (t, sh, k) y a) as Hi.
      { intros y. unfold info_at, slot_at. simpl. by rewrite at_set_eq, Elm by by eapply at_shard_lt. }
      split_and!; [done|left; apply Hi|]. intros y _. left. split; [apply Hi|done].
    + destruct (manager_ok _ _ _ Elm k s Es) as [Hr _].
      destruct (unlock_records _ _ _ _ _ _ Hr Eu) as (R1 & R2 & R3).
      assert (∀ y, info_at (t, sh, k) y (a <| lock_table_ := set_shard t sh (Some (l <| key_row_locks_ := <[k := s']> (key_row_locks_ l) |>)) (lock_table_ a) |>) = info_ s' !! y) as Hi.
      { intros y. apply info_at_set; [by eapply at_shard_lt|]. simpl. apply lookup_insert_eq. }
      split_and!; [done|right; etrans; [apply Hi|done]|]. intros y Hy. rewrite (info_at_slot _ _ _ _ _ Elm).
      unfold slot_or_new. rewrite Es. simpl. rewrite Hi. by apply R3.
  - injection E as <- <-. split_and!; [done|left; by apply info_at_null|]. intros y _. left. split; [by apply info_at_null|done].
Qed.

(** Two holders of a row share it in read mode. *)
Lemma holders_share t sh k x y i j :
  info_at (t, sh, k) x a = Some i → info_at (t, sh, k) y a = Some j → acquired_ i = true → acquired_ j = true →
  x ≠ y → type_ i = LOCK_READ_ROW ∧ type_ j = LOCK_READ_ROW.
Proof.
  unfold info_at, slot_at. simpl. intros (s & (lm & E & (l & -> & Es)%bind_Some)%bind_Some & Hi)%bind_Some Hj Ha Hb Hne.
  rewrite E in Hj. simpl in Hj. rewrite Es in Hj. simpl in Hj.
  destruct (manager_ok _ _ _ E k s Es) as [[Hc _]%reachable_wf _].
  assert (∀ x i, info_ s !! x = Some i → acquired_ i = true →
    type_ i = LOCK_READ_ROW ∧ x ∈ read_ s ∨ x ∈ write_ s) as Hh.
  { intros z q Hq Haq. destruct (core_ctx _ _ Hc _ _ Hq) as [_ Hrow]. destruct (row_mode_cases _ Hrow) as [Ht|Ht].
    - left. split; [done|]. apply (core_read _ _ Hc). exists q. by rewrite Ht.
    - right. apply (core_write _ _ Hc). exists q. by rewrite Ht. }
  destruct (Hh x i Hi Ha) as [[? H1]|H1], (Hh y j Hj Hb) as [[? H2]|H2]; [done|exfalso..];
    destruct (core_excl _ _ Hc) as [He|[[z He] He']]; rewrite ?He, ?He' in *; clear -H1 H2 Hne; set_solver.
Qed.

End calls.

End LockView.
