(* ===== verification/BlockRun.v ===== *)
(** * Transactions beside each other on one block

    The contexts of one concurrency block ([tx_context.cpp]) with the access
    manager they share ([access_mgr.cpp], [lock_mgr.cpp]).  A handler of a context
    is one step; its lock and unlock calls are posted to the strands of the lock
    managers and run later, those of one manager in order; a granted lock posts
    the continuation to the strand of its transaction.  Everything else that may
    reach a context (storage answers, log entries that became durable, aborts and
    the coordinator's decision) comes at any time.

    The second half shows what every step keeps between a transaction and its
    locks ([ctx_ok]): it has one operation under way; the lock it waits for is
    the one of that operation, on its way to the manager, in the queue of its row
    or granted and on the strand; until it ends it unlocks nothing and holds every
    row it has touched.  [Isolation] draws the conclusions.

    A transaction flagged read-only takes no locks for its reads.  Requests that
    first read and then write a row are left out: the slot grants the second lock
    without excluding the other readers ([LockSlot.upgrade_keeps_other_readers]). *)

From S2P Require Import Prelude Common.
From S2P Require Import LockSlot TxContext LockMgr LockView.
#[local] Open Scope Z_scope.

Module BlockRun.
Import TxContext.
Abbreviation row := LockMgr.row.

(** ** The block *)

Definition row_of (table_id shard_id key : Z) : row := (Z.to_nat table_id, shard_id, key).
Definition op_row (op : tx_operation) : row := row_of (op_table_id op) (op_shard_id op) (op_tuple_id op).
Definition access_row (k : access) : row := row_of (k_table_id k) (k_shard_id k) (k_key k).

(** A call waiting on the strand of a lock manager. *)
(* @src src/concurrency/lock_mgr.cpp 16 33 lock_mgr::lock *)
Inductive call :=
| CLock (xid oid : Z) (mode : lock_mode) (r : row)
| CUnlock (xid : Z) (mode : lock_mode) (r : row).

Definition call_row (c : call) : row := match c with CLock _ _ _ r | CUnlock _ _ r => r end.

Definition call_of (e : ctx_event) : option call :=
  match e with
  | LockRow x o m t sh k => Some (CLock x o m (row_of t sh k))
  | UnlockRow l => Some (CUnlock (li_xid l) (li_type l) (row_of (li_table_id l) (li_shard_id l) (li_key l)))
  | _ => None
  end.
Definition calls_of (ev : list ctx_event) : list call := omap call_of ev.

(** What happened, oldest first: an access under its lock (and whether it writes
    the row), the end of a transaction. *)
Inductive happening :=
| HAccess (xid : Z) (r : row) (write : bool)
| HEnd (xid : Z).

Record world := mk_world {
  ctxs : gmap Z tx_context;
  acc : LockMgr.access_mgr;
  calls : list call;
  hist : list happening;
}.

Record env := mk_env {
  e_shards : list Z;
  e_max_table : nat;
  e_before : bool;
  e_after : bool;
  e_node : Z;
  e_dsb : option Z;
  e_shard2node : gmap Z Z;
  e_cno : Z;
}.

Section block.
Context (e : env).

Definition new_world : world :=
  mk_world ∅ (LockMgr.new_access (e_shards e) (e_max_table e) (e_before e) (e_after e)) [] [].

(** [access_->get]; past the end of the table vector is undefined. *)
Definition cache (a : LockMgr.access_mgr) (t sh k : Z) : option string :=
  default None (LockMgr.get (Z.to_nat t) sh k a).

Fixpoint puts (ev : list ctx_event) (a : LockMgr.access_mgr) : option LockMgr.access_mgr :=
  match ev with
  | [] => Some a
  | CachePut t sh k v :: ev => a ← LockMgr.put (Z.to_nat t) sh k v a; puts ev a
  | _ :: ev => puts ev a
  end.

(** The callbacks of a slot. *)
Fixpoint deliver (ev : list LockSlot.slot_event) (cs : gmap Z tx_context) : gmap Z tx_context :=
  match ev with
  | [] => cs
  | LockSlot.LockAcquire ec y _ :: ev => deliver ev (alter (fun s => (async_lock_acquire ec s).1) y cs)
  | _ :: ev => deliver ev cs
  end.

Definition writes (k : access) : bool := match k_kind k with KRead => false | _ => true end.

(** An access counts while its transaction is under way and locks rows. *)
Definition touch (x : Z) (s : tx_context) (k : access) : list happening :=
  if end_ s || read_only_ s then [] else [HAccess x (access_row k) (writes k)].

(** The access that the oldest closure of the strand carries out. *)
Definition touch_strand (x : Z) (s : tx_context) : list happening :=
  match strand_ s, lock_acquire_ s with
  | TaskLockAcquire EC_OK :: _, Some k => touch x s k
  | _, _ => []
  end.

(** The access that a storage answer completes. *)
Definition touch_answer (x oid : Z) (s : tx_context) : list happening :=
  from_option (touch x s) [] (ds_read_handler_ s !! oid).

(** Context [x] went from [s] to the result [r] of a handler. *)
Definition after (x : Z) (s : tx_context) (h : list happening) (r : tx_context * list ctx_event) (w : world)
    : option world :=
  a ← puts r.2 (acc w);
  Some (mk_world (<[x := r.1]> (ctxs w)) a (calls w ++ calls_of r.2)
          (hist w ++ h ++ if negb (end_ s) && end_ r.1 then [HEnd x] else [])).

Definition on_ctx (x : Z) (h : tx_context → list happening) (f : act tx_context ctx_event) (w : world) : option world :=
  s ← ctxs w !! x; after x s (h s) (f s) w.

Inductive label :=
| LStart (x : Z) (req : tx_request)
| LRun (x : Z)
| LStorage (x oid : Z) (ec : EC) (table_id shard_id key : Z) (tuple : option string)
| LLogged (x : Z) (type : tx_cmd_type)
| LAbort (x : Z) (ec : EC)
| LTmCommit (x : Z)
| LTmAbort (x : Z)
| LCall (i : nat).

(** ** Requests *)

Definition for_write (op : tx_operation) : bool := match op_type op with TX_OP_READ => false | _ => true end.

(** Nothing left writes row [r]. *)
Definition no_write_left (r : row) (ops : list tx_operation) : bool :=
  forallb (fun op => negb (for_write op && bool_decide (op_row op = r))) ops.

(** No row is read by an operation and written by a later one. *)
Fixpoint no_upgrade (ops : list tx_operation) : bool :=
  match ops with
  | [] => true
  | op :: ops => (for_write op || no_write_left (op_row op) ops) && no_upgrade ops
  end.

(** The records of a slot stay below the width of its counters. *)
Definition has_room (r : row) (a : LockMgr.access_mgr) : bool :=
  from_option (fun s => Z.of_nat (size (LockSlot.info_ s)) + 1 <? 2 ^ 32) true (LockMgr.slot_at r.1.1 r.1.2 r.2 a).

(** The closure of a call. *)
(* @src src/concurrency/lock_mgr.cpp 19 32 lock_mgr::unlock *)
Definition run_call (c : call) (w : world) : option (LockMgr.access_mgr * list LockSlot.slot_event) :=
  match c with
  | CLock x o m r => if has_room r (acc w) then LockMgr.lock_row true x o m r.1.1 r.1.2 r.2 (acc w) else None
  | CUnlock x m r => LockMgr.unlock_row x m r.1.1 r.1.2 r.2 (acc w)
  end.

(** The calls of one manager run in the order they were posted. *)
Definition first_of_manager (i : nat) (c : call) (cs : list call) : bool :=
  forallb (fun c' => negb (bool_decide ((call_row c').1 = (call_row c).1))) (take i cs).

Definition exec (l : label) (w : world) : option world :=
  match l with
  | LStart x req =>
      if bool_decide (ctxs w !! x = None) && no_upgrade (req_operations req) then
        let s := new_ctx x (e_node e) (e_dsb e) (e_shard2node e) (e_cno e) (req_distributed req) true in
        after x s [] (process_tx_request (cache (acc w)) DB_SN req s) w
      else None
  | LRun x => on_ctx x (touch_strand x) (run_strand (cache (acc w)) DB_SN) w
  | LStorage x oid ec t sh k tuple =>
      on_ctx x (touch_answer x oid) (read_data_from_dsb_response oid ec t sh k tuple) w
  | LLogged x type => on_ctx x (fun _ => []) (on_log_entry_commit DB_SN type) w
  | LAbort x ec => on_ctx x (fun _ => []) (abort ec) w
  | LTmCommit x => on_ctx x (fun _ => []) (handle_tx_tm_commit x) w
  | LTmAbort x => on_ctx x (fun _ => []) (handle_tx_tm_abort x) w
  | LCall i =>
      c ← calls w !! i;
      if first_of_manager i c (calls w) then
        '(a, ev) ← run_call c w;
        Some (mk_world (deliver ev (ctxs w)) a (delete i (calls w)) (hist w))
      else None
  end.

Fixpoint run (ls : list label) (w : world) : option world :=
  match ls with
  | [] => Some w
  | l :: ls => w ← exec l w; run ls w
  end.

End block.

(** ** What a handler does

    [settles]: it leaves the work of the transaction alone; if it unlocks, the
    transaction has ended and the rows are those it had asked for. *)

Definition same_work (s s' : tx_context) : Prop :=
  xid_ s' = xid_ s ∧ ops_ s' = ops_ s ∧ lock_acquire_ s' = lock_acquire_ s ∧
  ds_read_handler_ s' = ds_read_handler_ s ∧ strand_ s' = strand_ s ∧ read_only_ s' = read_only_ s.

Definition unlocks_from (L : gmap Z lock_item) (c : call) : Prop :=
  ∃ o l, L !! o = Some l ∧ call_of (UnlockRow l) = Some c.

Record settle (s : tx_context) (r : tx_context * list ctx_event) : Prop := {
  st_work : same_work s r.1;
  st_items : locks_ r.1 ⊆ locks_ s;
  st_end : end_ s = true → end_ r.1 = true;
  st_calls : end_ r.1 = false → calls_of r.2 = [];
  st_unlocks : Forall (unlocks_from (locks_ s)) (calls_of r.2);
}.
Definition settles (h : act tx_context ctx_event) : Prop := ∀ s, settle s (h s).

Lemma calls_app ev ev' : calls_of (ev ++ ev') = calls_of ev ++ calls_of ev'.
Proof. apply omap_app. Qed.

Lemma settles_skip : settles skip.
Proof. by intros s. Qed.

Lemma settles_emit ev : call_of ev = None → settles (emit ev).
Proof. intros E s. split; try done; unfold calls_of; simpl; by rewrite E. Qed.

Lemma settles_modify f :
  (∀ s, same_work s (f s) ∧ locks_ (f s) = locks_ s ∧ end_ (f s) = end_ s) → settles (modify f).
Proof. intros Hf s. destruct (Hf s) as (H1 & H2 & H3). split; simpl; try done; [by rewrite H2|by rewrite H3]. Qed.

Lemma settle_then s r r' : settle s r → settle r.1 r' → settle s (r'.1, r.2 ++ r'.2).
Proof.
  intros [(A1&A2&A3&A4&A5&A6) A7 A8 A9 A10] [(B1&B2&B3&B4&B5&B6) B7 B8 B9 B10]. split; simpl in *.
  - split_and!; congruence.
  - by etrans.
  - auto.
  - intros He. rewrite calls_app, B9 by done. rewrite A9; [done|].
    destruct (end_ r.1); [|done]. rewrite B8 in He by done. done.
  - rewrite calls_app. apply Forall_app. split; [done|].
    eapply Forall_impl; [exact B10|]. intros c (o & l & Hl & Hc). exists o, l. split; [|done].
    eapply lookup_weaken; [exact Hl|exact A7].
Qed.

Lemma settles_then a b : settles a → settles b → settles (and_then a b).
Proof.
  intros Ha Hb s. unfold and_then. specialize (Ha s). destruct (a s) as [s1 e1]. specialize (Hb s1).
  destruct (b s1) as [s2 e2]. exact (settle_then _ _ _ Ha Hb).
Qed.

Lemma settles_when b a : settles a → settles (when b a).
Proof. intros Ha. destruct b; [done|apply settles_skip]. Qed.

Lemma settle_of h s : settles h → settle s (h s).
Proof. intros H. apply H. Qed.

Create HintDb settles.
#[local] Hint Resolve settles_skip settles_then settles_when : settles.
#[local] Hint Extern 2 (settles (emit _)) => apply settles_emit; done : settles.
#[local] Hint Extern 2 (settles (modify _)) => apply settles_modify; intros; by repeat case_match : settles.

(** A handler that branches on its state. *)
Ltac settle_cases := intros ?; repeat case_match; (by split) || (apply settle_of; auto 6 with settles).

Lemma calls_unlocks (l : list (Z * lock_item)) (s : tx_context) :
  each (fun kv => emit (UnlockRow kv.2)) l s = (s, map (fun kv => UnlockRow kv.2) l).
Proof. induction l as [|[o i] l IH]; [done|]. simpl. unfold and_then. simpl. by rewrite IH. Qed.

Lemma settles_release : settles release_lock.
Proof.
  intros s. unfold release_lock, and_then, when, modify, emit, tx_ended, skip.
  assert (Forall (unlocks_from (locks_ s)) (calls_of (map (fun kv => UnlockRow kv.2) (map_to_list (locks_ s))))) as Hu.
  { apply Forall_forall. intros c (ev & ([o l] & -> & Hl)%list_elem_of_fmap & Hc)%list_elem_of_omap.
    apply elem_of_map_to_list in Hl. exists o, l. done. }
  destruct (read_only_ s); [destruct (has_dl_ s)|]; simpl; [split; simpl; try done; apply map_empty_subseteq..|].
  rewrite calls_unlocks. destruct (has_dl_ s); simpl; (split; simpl; try done; [apply map_empty_subseteq|]);
    rewrite !calls_app; by apply Forall_app.
Qed.
#[local] Hint Resolve settles_release : settles.

Lemma settles_respond : settles send_tx_response.
Proof. intros s. unfold send_tx_response. by case_match. Qed.
#[local] Hint Resolve settles_respond : settles.

Lemma settles_force_log : settles async_force_log.
Proof. by intros s. Qed.

Lemma settles_cmd t : settles (set_tx_cmd_type t).
Proof. unfold set_tx_cmd_type. auto with settles. Qed.

Lemma settles_send_ack c : settles (send_ack_message c).
Proof. by intros s. Qed.

Lemma settles_send_prepare c : settles (send_prepare_message c).
Proof. by intros s. Qed.
#[local] Hint Resolve settles_force_log settles_cmd settles_send_ack settles_send_prepare : settles.

Lemma settles_committed db : settles (tx_committed db).
Proof. unfold tx_committed. settle_cases. Qed.

Lemma settles_aborted db : settles (tx_aborted db).
Proof. unfold tx_aborted. settle_cases. Qed.
#[local] Hint Resolve settles_committed settles_aborted : settles.

Lemma settles_logged db t : settles (on_log_entry_commit db t).
Proof.
  unfold on_log_entry_commit, on_committed_log_commit, on_aborted_log_commit, on_prepare_committed_log_commit,
    on_prepare_aborted_log_commit. destruct t; auto with settles.
Qed.

Lemma settles_abort_1p : settles abort_tx_1p.
Proof. unfold abort_tx_1p. settle_cases. Qed.
#[local] Hint Resolve settles_abort_1p : settles.

Lemma settles_abort_2p : settles abort_tx_2p.
Proof. unfold abort_tx_2p. settle_cases. Qed.
#[local] Hint Resolve settles_abort_2p : settles.

Lemma settles_tm_abort x : settles (handle_tx_tm_abort x).
Proof. unfold handle_tx_tm_abort. settle_cases. Qed.

Lemma settles_tm_commit x : settles (handle_tx_tm_commit x).
Proof. unfold handle_tx_tm_commit, handle_finish_tx_phase2_commit. settle_cases. Qed.

Lemma settle_from s s0 r : same_work s s0 → locks_ s0 = locks_ s → end_ s0 = end_ s → settle s0 r → settle s r.
Proof. destruct r as [s1 ev]. intros H1 H2 H3 H. refine (settle_then s (s0, []) (s1, ev) _ H). split; simpl; try done; [by rewrite H2|by rewrite H3]. Qed.

Lemma settles_abort ec : settles (abort ec).
Proof.
  intros s. unfold abort.
  set (s0 := match ec with EC_VICTIM => _ | _ => _ end).
  assert (same_work s s0 ∧ locks_ s0 = locks_ s ∧ end_ s0 = end_ s) as (H1 & H2 & H3).
  { subst s0. destruct ec; try done. by case_match. }
  apply (settle_from s s0); [done..|]. case_match; [|done]. case_match; try done.
  by eapply settle_from, settles_abort_1p.
Qed.

Lemma settles_finish db : settles (fun s =>
  if EC_eqb (error_code_ s) EC_OK then
    (when (negb (oid_ s =? max_ops_ s + 1)) (emit AssertFailed) ;;
     if distributed_ s then when (is_shared_nothing db) handle_finish_tx_phase1_prepare_commit
     else handle_finish_tx_phase1_commit db)%act s
  else (if distributed_ s then when (is_shared_nothing db) handle_finish_tx_phase1_prepare_abort
        else handle_finish_tx_phase1_abort) s).
Proof.
  assert (settles prepare_commit_tx) as Hp by (unfold prepare_commit_tx; settle_cases).
  assert (settles (handle_finish_tx_phase1_commit db)) as Hc.
  { unfold handle_finish_tx_phase1_commit, on_committed_log_commit. settle_cases. }
  unfold handle_finish_tx_phase1_prepare_commit, handle_finish_tx_phase1_prepare_abort, prepare_abort_tx,
    handle_finish_tx_phase1_abort. settle_cases.
Qed.

(** [answered k]: the access [k] went one step on: its completion is posted, or
    the storage block is asked. *)
Definition rest_same (s s' : tx_context) : Prop :=
  xid_ s' = xid_ s ∧ ops_ s' = ops_ s ∧ lock_acquire_ s' = lock_acquire_ s ∧ locks_ s' = locks_ s ∧
  end_ s' = end_ s ∧ read_only_ s' = read_only_ s.

Definition completed (s s' : tx_context) : Prop :=
  ds_read_handler_ s' = ds_read_handler_ s ∧
  (strand_ s' = strand_ s ∨ ∃ ec, strand_ s' = strand_ s ++ [TaskOpDone ec]).

Definition answered (k : access) (s s' : tx_context) : Prop :=
  rest_same s s' ∧
  (completed s s' ∨ strand_ s' = strand_ s ∧ ds_read_handler_ s' = <[k_oid k := k]> (ds_read_handler_ s)).

Lemma op_answered k s t ec : rest_same s t → completed s t → strand_ t = strand_ s →
  answered k s (invoke_done ec t).1 ∧ calls_of (invoke_done ec t).2 = [].
Proof.
  intros H [H1 _] H2. split; [|done]. split; [done|]. left. split; [done|]. right. exists ec. simpl. by rewrite H2.
Qed.

Lemma read_done_answered k ec t s : answered k s (read_done ec t s).1 ∧ calls_of (read_done ec t s).2 = [].
Proof.
  unfold read_done, when. case_match; (split; [|done]); (split; [done|]); left; (split; [done|]); right; by eexists.
Qed.

Lemma append_answered k op ec s :
  answered k s (and_then (append_operation op) (invoke_done ec) s).1 ∧
  calls_of (and_then (append_operation op) (invoke_done ec) s).2 = [].
Proof.
  unfold and_then, append_operation. simpl. split; [|by case_match].
  split; [done|]. left. split; [done|]. right. by eexists.
Qed.

Lemma fetch_answered k s : answered k s (read_data_from_dsb k s).1 ∧ calls_of (read_data_from_dsb k s).2 = [].
Proof.
  unfold read_data_from_dsb. case_match; (split; [|done]); (split; [done|]); [by right|]. left. by split; [|left].
Qed.

Lemma emit_answered k ev s : call_of ev = None → answered k s (emit ev s).1 ∧ calls_of (emit ev s).2 = [].
Proof.
  intros E. split; [|unfold calls_of; simpl; by rewrite E]. split; [done|]. left. by split; [|left].
Qed.
#[local] Hint Resolve read_done_answered append_answered fetch_answered : settles.
#[local] Hint Extern 2 (answered _ _ (emit _ _).1 ∧ _) => apply emit_answered; done : settles.

Lemma locked_answered get k ec s : answered k s (locked get k ec s).1 ∧ calls_of (locked get k ec s).2 = [].
Proof.
  unfold locked, read_locked, update_locked, insert_locked, remove_locked, update_done, insert_done.
  repeat case_match; auto with settles.
Qed.

(** A storage answer completes the access. *)
Lemma dsb_completed k ec t s :
  rest_same s (dsb_done k ec t s).1 ∧ completed s (dsb_done k ec t s).1 ∧ calls_of (dsb_done k ec t s).2 = [].
Proof.
  assert (∀ r : tx_context * list ctx_event, answered k s r.1 ∧ calls_of r.2 = [] →
    ds_read_handler_ r.1 = ds_read_handler_ s → rest_same s r.1 ∧ completed s r.1 ∧ calls_of r.2 = []) as Hr.
  { intros r [[H1 [H2|[H2 H3]]] H4] H5; [done|]. split; [done|]. split; [|done]. split; [done|by left]. }
  apply Hr.
  - unfold dsb_done, insert_read_done, update_done, insert_done. repeat case_match; auto with settles.
  - unfold dsb_done, insert_read_done, read_done, when. destruct (k_kind k); [by destruct (_ && _)|done|by destruct ec|done].
Qed.

(** [starts op]: an operation begins.  Either its access and its lock call are
    under way, or it reads without a lock, or it is no access at all. *)
Definition mode_for (op : tx_operation) (m : lock_mode) : Prop :=
  m = LOCK_WRITE_ROW ∨ m = LOCK_READ_ROW ∧ for_write op = false.

Definition access_for (op : tx_operation) (k : access) : Prop :=
  access_row k = op_row op ∧ (writes k = true → for_write op = true).

Definition items_of (x : Z) (L : gmap Z lock_item) : Prop := ∀ o l, L !! o = Some l → li_xid l = x.

Definition kept (s s' : tx_context) : Prop :=
  xid_ s' = xid_ s ∧ ops_ s' = ops_ s ∧ end_ s' = end_ s ∧ read_only_ s' = read_only_ s ∧
  (items_of (xid_ s) (locks_ s) → items_of (xid_ s) (locks_ s')).

Inductive starts (op : tx_operation) (s : tx_context) (r : tx_context * list ctx_event) : Prop :=
| starts_lock k o m :
    kept s r.1 → ds_read_handler_ r.1 = ds_read_handler_ s → strand_ r.1 = strand_ s →
    lock_acquire_ r.1 = Some k → access_for op k → mode_for op m →
    calls_of r.2 = [CLock (xid_ s) o m (op_row op)] → starts op s r
| starts_free k s1 :
    kept s s1 → ds_read_handler_ s1 = ds_read_handler_ s → strand_ s1 = strand_ s →
    answered k s1 (r.1 <| lock_acquire_ := lock_acquire_ s1 |>) → lock_acquire_ r.1 = None →
    writes k = false → read_only_ s = true → calls_of r.2 = [] → starts op s r
| starts_nothing : same_work s r.1 → settle s r → starts op s r.

Lemma begin_access_spec kind m t sh key o s :
  let r := begin_access kind m t sh key o s in
  kept s r.1 ∧ ds_read_handler_ r.1 = ds_read_handler_ s ∧ strand_ r.1 = strand_ s ∧
  lock_acquire_ r.1 = Some (mk_access kind t sh key o) ∧ calls_of r.2 = [].
Proof.
  unfold begin_access, add_lock, and_then, modify, when, kept. simpl.
  case_bool_decide; simpl; case_match; simpl; split_and!; try done;
    intros Hi o' l; (destruct (decide (o' = o)) as [->|]; [rewrite lookup_insert_eq; by intros [= <-]|]);
    rewrite lookup_insert_ne by done; apply Hi.
Qed.

(** The access of an operation to its row. *)
Definition op_access (kind : access_kind) (op : tx_operation) (o : Z) : access :=
  mk_access kind (op_table_id op) (op_shard_id op) (op_tuple_id op) o.

Lemma locking_starts kind m op o s :
  (writes (op_access kind op o) = true → for_write op = true) → mode_for op m →
  starts op s (and_then (begin_access kind m (op_table_id op) (op_shard_id op) (op_tuple_id op) o)
                 (emit (LockRow (xid_ s) o m (op_table_id op) (op_shard_id op) (op_tuple_id op))) s).
Proof.
  intros Hk Hm. pose proof (begin_access_spec kind m (op_table_id op) (op_shard_id op) (op_tuple_id op) o s) as H.
  unfold and_then. destruct (begin_access _ _ _ _ _ _ s) as [s1 ev]. destruct H as (H1 & H2 & H3 & H4 & H5).
  apply (starts_lock op s _ (op_access kind op o) o m); try done. simpl in *. by rewrite calls_app, H5.
Qed.

Lemma async_read_starts get op b s :
  (b = false → for_write op = false) →
  starts op s (async_read get (op_table_id op) (op_shard_id op) (op_tuple_id op) b s).
Proof.
  intros Hb. unfold async_read. set (m := if b then LOCK_WRITE_ROW else LOCK_READ_ROW).
  assert (mode_for op m) as Hm by (destruct b; [by left|right; auto]).
  destruct (read_only_ s) eqn:Er; [|by apply locking_starts].
  pose proof (begin_access_spec KRead m (op_table_id op) (op_shard_id op) (op_tuple_id op) (oid_ s) s) as H.
  unfold and_then. destruct (begin_access _ _ _ _ _ _ s) as [s1 ev]. destruct H as (H1 & H2 & H3 & H4 & H5).
  destruct (locked_answered get (op_access KRead op (oid_ s)) EC_OK s1) as [Ha Hc]. unfold op_access in *.
  destruct (locked _ _ _ s1) as [s2 ev2]. simpl in *.
  apply (starts_free op s _ (op_access KRead op (oid_ s)) s1); try done.
  - destruct Ha as [(A1 & A2 & A3 & A4 & A5 & A6) A7]. by split.
  - simpl. rewrite app_nil_r, calls_app, H5, Hc. done.
Qed.

Lemma handle_operation_starts get op s : starts op s (handle_operation get op s).
Proof.
  unfold handle_operation, async_update, async_insert.
  destruct (op_type op) eqn:Et; try (apply starts_nothing; [done|by apply settle_of, settles_emit]).
  1,2: apply async_read_starts; unfold for_write; by rewrite Et.
  all: apply locking_starts; [unfold for_write; by rewrite Et|by left].
Qed.

(** ** What a transaction and its locks agree on

    The view of one transaction: its records in the slots, its calls that wait
    on the strands of the lock managers, and the rows it has touched. *)

Record view := mk_view {
  v_info : row → option LockSlot.tx_lock_ctx;
  v_locks : list (lock_mode * row);
  v_unlocks : list row;
  v_touched : list (row * bool);
}.

Definition lock_of (x : Z) (c : call) : option (lock_mode * row) :=
  match c with CLock y _ m r => if bool_decide (y = x) then Some (m, r) else None | _ => None end.
Definition unlock_of (x : Z) (c : call) : option row :=
  match c with CUnlock y _ r => if bool_decide (y = x) then Some r else None | _ => None end.
Definition touched_of (x : Z) (h : happening) : option (row * bool) :=
  match h with HAccess y r b => if bool_decide (y = x) then Some (r, b) else None | _ => None end.

Definition view_of (x : Z) (w : world) : view :=
  mk_view (fun r => LockView.info_at r x (acc w)) (omap (lock_of x) (calls w)) (omap (unlock_of x) (calls w))
    (omap (touched_of x) (hist w)).

(** The view with more calls and accesses. *)
Definition grow (x : Z) (cs : list call) (h : list happening) (v : view) : view :=
  mk_view (v_info v) (v_locks v ++ omap (lock_of x) cs) (v_unlocks v ++ omap (unlock_of x) cs)
    (v_touched v ++ omap (touched_of x) h).

Definition caller (c : call) : Z := match c with CLock x _ _ _ | CUnlock x _ _ => x end.

Definition lock_task (t : strand_task) : option EC := match t with TaskLockAcquire ec => Some ec | _ => None end.
Definition done_task (t : strand_task) : option EC := match t with TaskOpDone ec => Some ec | _ => None end.
Definition tasks_in (l : list strand_task) : list EC := omap lock_task l.
Definition dones_in (l : list strand_task) : list EC := omap done_task l.
Abbreviation tasks s := (tasks_in (strand_ s)).
Abbreviation dones s := (dones_in (strand_ s)).

Lemma tasks_app l l' : tasks_in (l ++ l') = tasks_in l ++ tasks_in l'.
Proof. apply omap_app. Qed.

Lemma dones_app l l' : dones_in (l ++ l') = dones_in l ++ dones_in l'.
Proof. apply omap_app. Qed.

Lemma tasks_cons t l : tasks_in (t :: l) = match lock_task t with Some ec => ec :: tasks_in l | None => tasks_in l end.
Proof. done. Qed.

Lemma dones_cons t l : dones_in (t :: l) = match done_task t with Some ec => ec :: dones_in l | None => dones_in l end.
Proof. done. Qed.

(** The operation under way is at its lock, at the storage block or done. *)
Definition token (s : tx_context) : nat :=
  (if lock_acquire_ s then 1 else 0) + size (ds_read_handler_ s) + length (dones s).

Definition current (s : tx_context) (k : access) : Prop :=
  lock_acquire_ s = Some k ∨ ∃ o, ds_read_handler_ s !! o = Some k.

Definition held (v : view) (r : row) : Prop := ∃ i, v_info v r = Some i ∧ LockSlot.acquired_ i = true.
(** Held, and in write mode if the access writes. *)
Definition holds_for (v : view) (r : row) (b : bool) : Prop :=
  ∃ i, v_info v r = Some i ∧ LockSlot.acquired_ i = true ∧ (b = true → LockSlot.type_ i ≠ LOCK_READ_ROW).
Definition no_wait (v : view) : Prop := ∀ r i, v_info v r = Some i → LockSlot.acquired_ i = true.
Definition waits_at (v : view) (r : row) : Prop :=
  ∀ r' i, v_info v r' = Some i → LockSlot.acquired_ i = false → r' = r ∧ ∃ o, LockSlot.oid_ i = [o].

(** Where the pending lock is: granted and on the strand, on its way to the
    manager, or in the queue of its row. *)
Definition pending (s : tx_context) (v : view) : Prop :=
  match lock_acquire_ s with
  | None => tasks s = [] ∧ v_locks v = [] ∧ no_wait v
  | Some k =>
      tasks s = [EC_OK] ∧ v_locks v = [] ∧ no_wait v ∨
      tasks s = [] ∧ no_wait v ∧
        (∃ m, v_locks v = [(m, access_row k)] ∧ LockSlot.row_mode m = true ∧
              (m = LOCK_READ_ROW → no_write_left (access_row k) (ops_ s) = true)) ∨
      tasks s = [] ∧ v_locks v = [] ∧ waits_at v (access_row k)
  end.

Record ctx_ok (x : Z) (s : tx_context) (v : view) : Prop := {
  co_xid : xid_ s = x;
  co_items : items_of x (locks_ s);
  co_token : (token s ≤ 1)%nat;
  co_ops : no_upgrade (ops_ s) = true;
  co_current : ∀ k, current s k → writes k = true →
    ∃ op ops, ops_ s = op :: ops ∧ for_write op = true ∧ op_row op = access_row k;
  co_pending : pending s v;
  co_mode : ∀ r i, v_info v r = Some i → LockSlot.type_ i = LOCK_READ_ROW → no_write_left r (ops_ s) = true;
  co_task : ∀ k, end_ s = false → tasks s ≠ [] → lock_acquire_ s = Some k → held v (access_row k);
  co_storage : ∀ o k, end_ s = false → read_only_ s = false → ds_read_handler_ s !! o = Some k → held v (access_row k);
  co_unlocks : end_ s = false → v_unlocks v = [];
  co_touched : ∀ r b, end_ s = false → (r, b) ∈ v_touched v → holds_for v r b;
}.

Definition step_ok (x : Z) (v : view) (h : list happening) (r : tx_context * list ctx_event) : Prop :=
  ctx_ok x r.1 (grow x (calls_of r.2) h v) ∧ Forall (fun c => caller c = x) (calls_of r.2).

Lemma grow_nil x v : grow x [] [] v = v.
Proof. destruct v. unfold grow. simpl. by rewrite !app_nil_r. Qed.

Lemma no_locks_unlocked x L cs : Forall (unlocks_from L) cs → omap (lock_of x) cs = [].
Proof. induction 1 as [|c cs (o & l & _ & Hc) _ IH]; [done|]. injection Hc as <-. exact IH. Qed.

Lemma settle_ok x s v r : ctx_ok x s v → settle s r → step_ok x v [] r.
Proof.
  intros [H1 H2 H3 H4 H5 H6 H7 H8 H9 H10 H11] [(A1&A2&A3&A4&A5&A6) A7 A8 A9 A10].
  assert (end_ r.1 = false → end_ s = false) as He by (destruct (end_ s); [intros E; by rewrite A8 in E|done]).
  assert (tasks r.1 = tasks s) as At by (by rewrite A5).
  split.
  - split; unfold token, current, pending, held, holds_for, no_wait, waits_at in *; simpl in *;
      rewrite ?A2, ?A3, ?A4, ?A5, ?A6, ?At, ?app_nil_r; rewrite ?(no_locks_unlocked x _ _ A10), ?app_nil_r; eauto.
    + congruence.
    + intros o l Hl. by eapply H2, lookup_weaken.
    + intros E. rewrite A9 by done. rewrite H10 by auto. done.
  - eapply Forall_impl; [exact A10|]. intros c (o & l & Hl & [= <-]). by eapply H2.
Qed.

(** An operation that begins, none being under way. *)
Lemma token_idle s : token s = 0%nat → lock_acquire_ s = None ∧ ds_read_handler_ s = ∅ ∧ dones s = [].
Proof.
  unfold token. intros H. split_and!.
  - destruct (lock_acquire_ s); [lia|done].
  - apply map_size_empty_inv. lia.
  - apply length_zero_iff_nil. lia.
Qed.

Lemma idle_tasks s v : lock_acquire_ s = None → pending s v → tasks s = [] ∧ v_locks v = [] ∧ no_wait v.
Proof. unfold pending. by intros ->. Qed.

(** The access [k] of a transaction without a pending lock went one step on. *)
Lemma answered_ok x s s' v k h :
  ctx_ok x s v → token s = 0%nat → answered k s s' →
  (writes k = true → ∃ op ops, ops_ s = op :: ops ∧ for_write op = true ∧ op_row op = access_row k) →
  (end_ s = false → read_only_ s = false → held v (access_row k)) →
  (∀ r b, end_ s = false → (r, b) ∈ omap (touched_of x) h → holds_for v r b) →
  ctx_ok x s' (grow x [] h v).
Proof.
  intros [H1 H2 H3 H4 H5 H6 H7 H8 H9 H10 H11] Ht [(A1&A2&A3&A4&A5&A6) Ha] Hk Hh Hn.
  destruct (token_idle _ Ht) as (T1 & T2 & T3). destruct (idle_tasks _ _ T1 H6) as (P1 & P2 & P3).
  assert (tasks s' = [] ∧ (token s' ≤ 1)%nat ∧ ∀ o k', ds_read_handler_ s' !! o = Some k' → k' = k) as (B1 & B2 & B3).
  { unfold token in *. rewrite A3, T1. destruct Ha as [[Hd [Hs|[ec Hs]]]|[Hs Hd]]; rewrite Hd, Hs, T2.
    - rewrite P1, T3, map_size_empty. split_and!; [done|simpl; lia|]. by intros o k'.
    - rewrite tasks_app, dones_app, P1, T3, map_size_empty. split_and!; [done|simpl; lia|]. by intros o k'.
    - rewrite P1, T3, map_size_insert, lookup_empty, map_size_empty. split_and!; [done|simpl; lia|].
      intros o k'. destruct (decide (o = k_oid k)) as [->|]; [by rewrite lookup_insert_eq; intros [= <-]|].
      by rewrite lookup_insert_ne. }
  split; unfold held, holds_for in *; simpl; rewrite ?A1, ?A2, ?A4, ?A5, ?A6, ?app_nil_r; auto.
  - unfold current. rewrite A3, T1. intros k' [|[o E%B3]] Hw; [done|]. subst. auto.
  - unfold pending. rewrite A3, T1. split_and!; [done|simpl; by rewrite app_nil_r|done].
  - rewrite A3, T1. done.
  - intros o k' He Hr ->%B3. auto.
  - intros r b He [Hin|Hin]%elem_of_app; auto.
Qed.

Lemma start_ok op get x s v ops :
  ctx_ok x s v → token s = 0%nat → ops_ s = op :: ops → step_ok x v [] (handle_operation get op s).
Proof.
  intros Hok Ht Eo. destruct (token_idle _ Ht) as (T1 & T2 & T3).
  destruct (idle_tasks _ _ T1 (co_pending _ _ _ Hok)) as (P1 & P2 & P3).
  destruct (handle_operation_starts get op s) as
    [k o m (K1&K2&K3&K4&K5) Hd Hs Hl [Hk1 Hk2] Hm Hc|k s1 (K1&K2&K3&K4&K5) Hd Hs Ha Hl Hw Hro Hc|_ Hs];
    [| |by apply (settle_ok x s)].
  - destruct Hok as [H1 H2 H3 H4 H5 H6 H7 H8 H9 H10 H11].
    split; [|rewrite Hc; by constructor]. rewrite Hc.
    assert (tasks (handle_operation get op s).1 = []) as At by (by rewrite Hs).
    split; unfold held, holds_for in *; simpl; rewrite ?K1, ?K2, ?K3, ?K4, ?app_nil_r, ?Hd; auto.
    + rewrite H1 in K5. auto.
    + unfold token in *. rewrite Hl, Hd, Hs, T2, T3, map_size_empty. done.
    + unfold current. rewrite Hl, Hd, T2. intros k' [[= <-]|[o' E]] Hw; [|done]. exists op, ops. auto.
    + unfold pending. rewrite Hl. right; left. split_and!; [done|done|]. exists m. simpl.
      rewrite P2, H1, bool_decide_eq_true_2 by done. rewrite Hk1. split_and!; [done|by destruct Hm as [->|[-> _]]|].
      intros ->. destruct Hm as [|[_ Hf]]; [done|]. rewrite K2, Eo. rewrite Eo in H4. simpl in *. rewrite Hf in H4 |- *. simpl in *.
      by apply andb_true_iff in H4 as [? _].
    + by rewrite At.
  - unfold step_ok. rewrite Hc. split; [|done].
    assert (ctx_ok x (s1 <| lock_acquire_ := None |>) v) as Hok1.
    { destruct Hok as [H1 H2 H3 H4 H5 H6 H7 H8 H9 H10 H11].
      assert (tasks (s1 <| lock_acquire_ := None |>) = []) as At by (simpl; by rewrite Hs).
      split; unfold held, holds_for in *; simpl; rewrite ?K1, ?K2, ?K3, ?K4, ?Hd, ?T2; try done; auto.
      - rewrite H1 in K5. auto.
      - unfold token in *. simpl. rewrite Hs, T3, map_size_empty. simpl. lia.
      - unfold current. simpl. by intros k' [|[]]. }
    apply (answered_ok _ _ _ _ k _ Hok1).
    + unfold token in *. simpl. by rewrite Hd, Hs, T2, T3, map_size_empty.
    + destruct Ha as [(A1&A2&A3&A4&A5&A6) A7]. split; [|exact A7]. simpl in *. by split_and!.
    + by rewrite Hw.
    + simpl. rewrite K4, Hro. done.
    + simpl. intros r b _ []%elem_of_nil.
Qed.

Lemma step_same x s v : ctx_ok x s v → step_ok x v [] (s, []).
Proof. intros H. split; [by rewrite grow_nil|done]. Qed.

Lemma next_ok get x s v : ctx_ok x s v → token s = 0%nat → step_ok x v [] (handle_next_operation get DB_SN s).
Proof.
  intros Hok Ht. pose proof (settles_finish DB_SN s) as Hf. cbv beta in Hf. unfold handle_next_operation.
  destruct (state_ s); try by apply step_same.
  destruct (EC_eqb (error_code_ s) EC_OK); [|by apply (settle_ok x s)].
  destruct (ops_ s) as [|op ops] eqn:Eo; [by apply (settle_ok x s)|by eapply start_ok].
Qed.

(** Fields that the agreement does not mention. *)
Definition same_view (s s' : tx_context) : Prop :=
  same_work s s' ∧ locks_ s' = locks_ s ∧ end_ s' = end_ s.

Lemma same_ok x s s' v : same_view s s' → ctx_ok x s v → ctx_ok x s' v.
Proof.
  intros [(A1&A2&A3&A4&A5&A6) [A7 A8]] [H1 H2 H3 H4 H5 H6 H7 H8 H9 H10 H11].
  split; unfold token, current, pending in *;
    rewrite ?A1, ?A2, ?A3, ?A4, ?A5, ?A6, ?A7, ?A8; auto.
Qed.

Lemma no_write_tail r ops : no_write_left r ops = true → no_write_left r (tail ops) = true.
Proof. destruct ops; [done|]. simpl. by intros [_ ?]%andb_true_iff. Qed.

Lemma no_upgrade_tail ops : no_upgrade ops = true → no_upgrade (tail ops) = true.
Proof. destruct ops; [done|]. simpl. by intros [_ ?]%andb_true_iff. Qed.

(** The completion of an operation leaves the strand. *)
Lemma pop_done_ok x s v ec ts :
  ctx_ok x s v → strand_ s = TaskOpDone ec :: ts →
  ctx_ok x (s <| strand_ := ts |> <| ops_ := tail (ops_ s) |>) v ∧ token (s <| strand_ := ts |>) = 0%nat.
Proof.
  intros [H1 H2 H3 H4 H5 H6 H7 H8 H9 H10 H11] Es.
  assert (token (s <| strand_ := ts |>) = 0%nat) as T0.
  { unfold token in *. rewrite Es, dones_cons in H3. simpl in *. lia. }
  split; [|done]. destruct (token_idle _ T0) as (T1 & T2 & T3). simpl in *.
  destruct (idle_tasks _ _ T1 H6) as (P1 & P2 & P3). rewrite Es, tasks_cons in P1. simpl in P1.
  split; simpl; auto using no_upgrade_tail, no_write_tail.
  - unfold token in *. simpl in *. lia.
  - unfold current. simpl. rewrite T1, T2. by intros k [|[]].
  - unfold pending. simpl. by rewrite T1.
  - intros r i Hr Hi. eapply no_write_tail, H7; done.
Qed.

Lemma op_done_ok get x s v ec ts :
  ctx_ok x s v → strand_ s = TaskOpDone ec :: ts → step_ok x v [] (op_done get DB_SN ec (s <| strand_ := ts |>)).
Proof.
  intros Hok Es. destruct (pop_done_ok x s v ec ts Hok Es) as [Hok' Ht]. unfold op_done, and_then, modify. simpl.
  match goal with |- context [handle_next_operation get DB_SN ?s'] => assert (step_ok x v [] (handle_next_operation get DB_SN s')) as Hn end.
  { apply next_ok; [|exact Ht]. by refine (same_ok _ _ _ _ _ Hok'). }
  destruct (handle_next_operation _ _ _) as [s' ev]. exact Hn.
Qed.

(** What is touched is held, and in write mode if the access writes. *)
Definition touches (x : Z) (s : tx_context) (v : view) (h : list happening) : Prop :=
  h = [] ∨ ∃ r b, h = [HAccess x r b] ∧ end_ s = false ∧ holds_for v r b.

Lemma touch_ok x s v k :
  ctx_ok x s v → current s k → (end_ s = false → read_only_ s = false → held v (access_row k)) →
  touches x s v (touch x s k).
Proof.
  intros Hok Hk Hh. unfold touch. destruct (end_ s) eqn:He; simpl; [by left|].
  destruct (read_only_ s); simpl; [by left|]. right. exists (access_row k), (writes k). split_and!; [done|done|].
  destruct (Hh eq_refl eq_refl) as (i & Hi & Ha). exists i. split_and!; [done|done|]. intros Hw Hread.
  destruct (co_current _ _ _ Hok k Hk Hw) as (op & ops & Eo & Hf & Hr).
  pose proof (co_mode _ _ _ Hok _ _ Hi Hread) as Hno. rewrite Eo in Hno. simpl in Hno.
  by rewrite Hf, bool_decide_eq_true_2 in Hno by done.
Qed.

Lemma strand_touches x s v : ctx_ok x s v → touches x s v (touch_strand x s).
Proof.
  intros Hok. unfold touch_strand. destruct (strand_ s) as [|[ec|] ts] eqn:Es; [by left| |by left].
  destruct ec; try by left. destruct (lock_acquire_ s) as [k|] eqn:El; [|by left].
  apply touch_ok; [done|by left|]. intros He _. apply (co_task _ _ _ Hok k He); [by rewrite Es|done].
Qed.

Lemma answer_touches x oid s v : ctx_ok x s v → touches x s v (touch_answer x oid s).
Proof.
  intros Hok. unfold touch_answer. destruct (ds_read_handler_ s !! oid) as [k|] eqn:Ek; [|by left].
  apply touch_ok; [done|right; by exists oid|]. intros He Hr. by apply (co_storage _ _ _ Hok oid).
Qed.

Lemma touches_in x s v h r b :
  touches x s v h → (r, b) ∈ omap (touched_of x) h → holds_for v r b.
Proof.
  intros [->|(r' & b' & -> & _ & H)]; simpl; [by intros []%elem_of_nil|].
  rewrite bool_decide_eq_true_2 by done. by intros [= -> ->]%list_elem_of_singleton.
Qed.

(** A granted lock leaves the strand and its access is carried out. *)
Lemma lock_granted_ok get x s v ec ts :
  ctx_ok x s v → strand_ s = TaskLockAcquire ec :: ts →
  step_ok x v (touch_strand x s) (run_lock_acquire get ec (s <| strand_ := ts |>)).
Proof.
  intros Hok Es. pose proof Hok as [H1 H2 H3 H4 H5 H6 H7 H8 H9 H10 H11].
  unfold run_lock_acquire. change (lock_acquire_ (s <| strand_ := ts |>)) with (lock_acquire_ s).
  destruct (lock_acquire_ s) as [k|] eqn:El.
  2: { destruct (idle_tasks _ _ El H6) as (P1 & _). by rewrite Es in P1. }
  unfold pending in H6. rewrite El in H6. rewrite Es, tasks_cons in H6. simpl in H6.
  destruct H6 as [(P1 & P2 & P3)|[(P1 & _)|(P1 & _)]]; [|done..]. injection P1 as -> P1.
  set (s0 := s <| strand_ := ts |> <| lock_acquire_ := None |>).
  destruct (locked_answered get k EC_OK s0) as [Ha Hc]. unfold step_ok. fold s0. rewrite Hc. split; [|done].
  assert (token s0 = 0%nat) as T0.
  { unfold token in *. rewrite Es, El, dones_cons in H3. simpl in *. lia. }
  destruct (token_idle _ T0) as (T1 & T2 & T3). simpl in T2.
  assert (end_ s = false → held v (access_row k)) as Hheld.
  { intros He. apply (H8 k He); [by rewrite Es|done]. }
  assert (writes k = true → ∃ op ops, ops_ s0 = op :: ops ∧ for_write op = true ∧ op_row op = access_row k) as Hw.
  { apply (H5 k). by left. }
  apply (answered_ok x s0 _ v k); auto.
  - split; simpl; auto; try done.
    + unfold token in *. simpl in *. lia.
    + unfold current. simpl. rewrite T2. by intros k' [|[]].
  - intros r b _. by apply touches_in with (s := s), strand_touches.
Qed.

(** A storage answer. *)
Lemma storage_ok x s v oid ec t sh key tuple :
  ctx_ok x s v → step_ok x v (touch_answer x oid s) (read_data_from_dsb_response oid ec t sh key tuple s).
Proof.
  intros Hok.
  assert (∀ h (r : tx_context * list ctx_event), step_ok x v h r → ∀ f : act tx_context ctx_event,
    (f = skip ∨ f = emit (CachePut t sh key (default "" tuple))) →
    step_ok x v h (let '(s1, e1) := r in let '(s2, e2) := f s1 in (s2, e1 ++ e2))) as Hput.
  { intros h [s1 e1] Hr f [->| ->]; simpl; [by rewrite app_nil_r|]. unfold step_ok in *. simpl in *.
    by rewrite calls_app, app_nil_r. }
  unfold read_data_from_dsb_response, and_then at 1. apply Hput; [|destruct ec, tuple; eauto].
  unfold touch_answer. destruct (ds_read_handler_ s !! oid) as [k|] eqn:Ek; simpl; [|by apply (step_same x s)].
  pose proof Hok as [H1 H2 H3 H4 H5 H6 H7 H8 H9 H10 H11].
  set (s0 := s <| ds_read_handler_ := delete oid (ds_read_handler_ s) |>).
  assert (token s0 = 0%nat) as T0.
  { unfold token in *. subst s0. simpl in *. rewrite map_size_delete, Ek.
    assert (size (ds_read_handler_ s) ≠ 0)%nat; [|lia]. intros E%map_size_empty_inv. by rewrite E in Ek. }
  assert (ctx_ok x s0 v) as Hok0.
  { split; subst s0; simpl; auto.
    - unfold token in *. simpl in *. lia.
    - intros k' [Hk|[o Ho]]; apply H5; [by left|right]. exists o. simpl in Ho. by apply lookup_delete_Some in Ho as [_ ?].
    - intros o k' He Hr [_ Ho]%lookup_delete_Some. by eapply H9. }
  unfold and_then, modify. destruct (dsb_completed k ec (default "" tuple) s) as ((A1&A2&A3&A4&A5&A6) & [C1 C2] & Hc).
  destruct (dsb_done k ec (default "" tuple) s) as [s1 ev]. simpl in *.
  split; simpl; rewrite app_nil_r, Hc; [|done]. apply (answered_ok x s0 _ v k); auto.
  - split; [done|]. left. split; simpl; [by rewrite C1|done].
  - apply H5. right. by exists oid.
  - intros He Hr. by eapply H9.
  - intros r b _ Hin. apply (touches_in x s _ _ _ _ (answer_touches x oid s v Hok)). unfold touch_answer. by rewrite Ek.
Qed.

Lemma run_strand_ok get x s v : ctx_ok x s v → step_ok x v (touch_strand x s) (run_strand get DB_SN s).
Proof.
  intros Hok. unfold run_strand. destruct (strand_ s) as [|[ec|ec] ts] eqn:Es.
  - unfold touch_strand. rewrite Es. by apply step_same.
  - by apply lock_granted_ok.
  - unfold touch_strand. rewrite Es. by apply op_done_ok.
Qed.

(** Requests whose rows are each only read or only written. *)
Lemma no_upgrade_by_row (f : row → bool) ops : Forall (fun op => for_write op = f (op_row op)) ops → no_upgrade ops = true.
Proof.
  induction 1 as [|op ops Hop Hops IH]; [done|]. simpl. rewrite IH, andb_true_r. apply orb_true_iff.
  destruct (for_write op) eqn:Hw; [by left|right]. apply forallb_forall. intros op' Hin%list_elem_of_In.
  rewrite Forall_forall in Hops. rewrite (Hops op' Hin). case_bool_decide as E; [|by rewrite andb_false_r].
  by rewrite E, <- Hop.
Qed.

(** A request starts from an empty view. *)
Definition empty_view (v : view) : Prop :=
  (∀ r, v_info v r = None) ∧ v_locks v = [] ∧ v_unlocks v = [] ∧ v_touched v = [].

Lemma process_tx_ok get x v req node dsb shard2node cno d :
  empty_view v → no_upgrade (req_operations req) = true →
  step_ok x v [] (process_tx_request get DB_SN req (new_ctx x node dsb shard2node cno d true)).
Proof.
  intros (V1 & V2 & V3 & V4) Hu.
  assert (∀ s, xid_ s = x → locks_ s = ∅ → lock_acquire_ s = None → ds_read_handler_ s = ∅ → strand_ s = [] →
    no_upgrade (ops_ s) = true → ctx_ok x s v ∧ token s = 0%nat) as Hnew.
  { intros s E1 E2 E3 E4 E5 E6. assert (token s = 0%nat) as T0.
    { unfold token. by rewrite E3, E4, E5, map_size_empty. }
    split; [|done]. split; rewrite ?E2, ?E3, ?E4, ?E5; auto; try done.
    - lia.
    - unfold current. rewrite E3, E4. by intros k [|[]].
    - unfold pending. rewrite E3, E5, V2. split_and!; try done. intros r i. by rewrite V1.
    - intros r i. by rewrite V1.
    - rewrite V4. by intros r b _ []%elem_of_nil. }
  unfold process_tx_request, and_then, modify, new_ctx. simpl.
  destruct (req_distributed req), (req_oneshot req); simpl;
    try (apply step_same; by apply Hnew);
    match goal with |- context [handle_next_operation get DB_SN ?s'] =>
      assert (step_ok x v [] (handle_next_operation get DB_SN s')) as Hn by (apply next_ok; by apply Hnew) end;
    destruct (handle_next_operation _ _ _) as [s' ev]; exact Hn.
Qed.

(** ** The calls of the lock managers *)

(** The context after the callbacks [tl]. *)
Definition posted (tl : list EC) (s : tx_context) : tx_context :=
  s <| strand_ := strand_ s ++ map TaskLockAcquire tl |>.

Lemma posted_tasks tl s : tasks (posted tl s) = tasks s ++ tl.
Proof.
  simpl. rewrite tasks_app. f_equal. induction tl as [|ec tl IH]; [done|].
  change (map TaskLockAcquire (ec :: tl)) with (TaskLockAcquire ec :: map TaskLockAcquire tl).
  rewrite tasks_cons, IH. done.
Qed.

Lemma posted_token tl s : token (posted tl s) = token s.
Proof.
  unfold token. simpl. rewrite dones_app. replace (dones_in (map TaskLockAcquire tl)) with (@nil EC).
  - by rewrite app_nil_r.
  - induction tl as [|ec tl IH]; [done|]. exact IH.
Qed.

(** The agreement after the records, the calls and the strand have changed. *)
Lemma call_ok x s v v' tl :
  ctx_ok x s v → pending (posted tl s) v' →
  (∀ r i, v_info v' r = Some i → LockSlot.type_ i = LOCK_READ_ROW → no_write_left r (ops_ s) = true) →
  (end_ s = false → ∀ r b, holds_for v r b → holds_for v' r b) →
  (∀ k, end_ s = false → tasks s ++ tl ≠ [] → lock_acquire_ s = Some k → held v' (access_row k)) →
  (end_ s = false → v_unlocks v = [] → v_unlocks v' = []) → v_touched v' = v_touched v →
  ctx_ok x (posted tl s) v'.
Proof.
  intros [H1 H2 H3 H4 H5 H6 H7 H8 H9 H10 H11] Hp Hm Hh Ht Hu Hv.
  split; rewrite ?posted_token, ?posted_tasks, ?Hv; auto.
  - intros o k He Hr Hk. destruct (H9 o k He Hr Hk) as (i & Hi & Ha).
    destruct (Hh He (access_row k) false) as (j & Hj & Haj & _); [by exists i|]. by exists j.
Qed.

(** The records may not change. *)
Lemma same_view_ok x s v v' :
  ctx_ok x s v → (∀ r, v_info v' r = v_info v r) → v_locks v' = v_locks v →
  (end_ s = false → v_unlocks v = [] → v_unlocks v' = []) → v_touched v' = v_touched v → ctx_ok x s v'.
Proof.
  intros [H1 H2 H3 H4 H5 H6 H7 H8 H9 H10 H11] Hi Hl Hu Hv.
  assert (∀ r b, holds_for v r b → holds_for v' r b) as Hh.
  { intros r b (i & Ei & Hi'). exists i. by rewrite Hi. }
  assert (∀ r, held v r → held v' r) as Hd by (intros r (i & Ei & Ha); exists i; by rewrite Hi).
  assert (no_wait v → no_wait v') as Hn by (intros Hq r i; rewrite Hi; apply Hq).
  assert (∀ r, waits_at v r → waits_at v' r) as Hw by (intros r Hq r' i; rewrite Hi; apply Hq).
  split; rewrite ?Hv; auto.
  - unfold pending in *. rewrite Hl. destruct (lock_acquire_ s); naive_solver.
  - intros r i. rewrite Hi. apply H7.
  - intros o k He Hr Hk. by eapply Hd, H9.
Qed.

(** The lock call of a transaction runs. *)
Lemma lock_call_ok x s v v' m r o tl :
  ctx_ok x s v → v_locks v = [(m, r)] →
  (∀ r', r' ≠ r → v_info v' r' = v_info v r') →
  (v_info v' r = v_info v r ∧ tl = [] ∨
   ∃ b, v_info v' r = Some (LockView.record_after x o m b (v_info v r)) ∧
        (is_Some (v_info v r) → b = true) ∧ tl = if b then [EC_OK] else []) →
  v_locks v' = [] → v_unlocks v' = v_unlocks v → v_touched v' = v_touched v →
  ctx_ok x (posted tl s) v'.
Proof.
  intros Hok El Hother Hr Hl Hu Hv. pose proof (co_pending _ _ _ Hok) as Hp. unfold pending in Hp.
  destruct (lock_acquire_ s) as [k|] eqn:Ek; [|destruct Hp as (_ & E & _); congruence].
  rewrite El in Hp. destruct Hp as [(_ & ? & _)|[(Et & Hnw & m' & [= <- ->] & Hm & Hread)|(_ & ? & _)]]; [done| |done].
  assert (∀ r' i, v_info v' r' = Some i → r' ≠ access_row k → v_info v r' = Some i) as Hne.
  { intros r' i Hi Hr'. by rewrite <- Hother. }
  assert (∀ r b, holds_for v r b → holds_for v' r b) as Hh.
  { intros r' b (i & Hi & Ha & Hw). destruct (decide (r' = access_row k)) as [->|Hn]; [|exists i; by rewrite Hother].
    destruct Hr as [[E _]|(b' & E & _)]; [exists i; by rewrite E|]. rewrite Hi in E. eexists. by split. }
  apply (call_ok x s v v'); auto; [| | |by rewrite Hu].
  - unfold pending. rewrite posted_tasks, Et. change (lock_acquire_ (posted tl s)) with (lock_acquire_ s). rewrite Ek.
    destruct Hr as [[E ->]|(b & E & Hb & ->)].
    + right; right. split_and!; [done|done|]. intros r' i Hi Ha. destruct (decide (r' = access_row k)) as [->|Hn].
      * rewrite E in Hi. by rewrite (Hnw _ _ Hi) in Ha.
      * by rewrite (Hnw _ _ (Hne _ _ Hi Hn)) in Ha.
    + destruct b; [left; split_and!; [done|done|]|right; right; split_and!; [done|done|]].
      * intros r' i Hi. destruct (decide (r' = access_row k)) as [->|Hn]; [|by eapply Hnw, Hne].
        rewrite E in Hi. injection Hi as <-. destruct (v_info v (access_row k)) as [j|] eqn:Ej; [|done].
        by apply (Hnw _ _ Ej).
      * intros r' i Hi Ha. destruct (decide (r' = access_row k)) as [->|Hn].
        -- split; [done|]. rewrite E in Hi. injection Hi as <-.
           destruct (v_info v (access_row k)); [discriminate Hb; eauto|]. by exists o.
        -- by rewrite (Hnw _ _ (Hne _ _ Hi Hn)) in Ha.
  - intros r' i Hi Hty. destruct (decide (r' = access_row k)) as [->|Hn]; [|by eapply (co_mode _ _ _ Hok); [apply Hne|]].
    destruct Hr as [[E _]|(b & E & _)]; [rewrite E in Hi; by eapply (co_mode _ _ _ Hok)|].
    rewrite E in Hi. injection Hi as <-. destruct (v_info v (access_row k)) as [j|] eqn:Ej; [|by apply Hread].
    by apply (co_mode _ _ _ Hok _ _ Ej).
  - rewrite Et. intros k' _ Htl Hk'. rewrite Ek in Hk'. injection Hk' as <-. destruct Hr as [[_ ->]|(b & E & Hb & ->)]; [done|]. destruct b; [|done].
    eexists. split; [exact E|]. destruct (v_info v (access_row k)) as [j|] eqn:Ej; [|done]. by apply (Hnw _ _ Ej).
Qed.

(** Another transaction's unlock may grant the lock it waits for. *)
Lemma granted_ok x s v v' r ev :
  ctx_ok x s v → (∀ r', r' ≠ r → v_info v' r' = v_info v r') →
  LockView.granted_or_same x (v_info v r) (v_info v' r) ev →
  v_locks v' = v_locks v → v_unlocks v' = v_unlocks v → v_touched v' = v_touched v →
  ctx_ok x (posted (LockView.told x ev) s) v'.
Proof.
  intros Hok Hother Hr Hl Hu Hv. destruct Hr as [[E ->]|(j & Ej & Hj & E & ->)].
  { replace (posted [] s) with s by (destruct s; unfold posted; simpl; by rewrite app_nil_r).
    apply (same_view_ok x s v); [done| |done|by rewrite Hu|done].
    intros r'. destruct (decide (r' = r)) as [->|Hn]; auto. }
  pose proof (co_pending _ _ _ Hok) as Hp. unfold pending in Hp.
  assert (¬ no_wait v) as Hw by (intros Hq; by rewrite (Hq _ _ Ej) in Hj).
  destruct (lock_acquire_ s) as [k|] eqn:Ek; [|by destruct Hp as (_ & _ & ?)].
  destruct Hp as [(_ & _ & ?)|[(_ & ? & _)|(Et & El & Hp)]]; [done|done|].
  destruct (Hp r j Ej Hj) as [-> [o ->]]. simpl.
  assert (no_wait v') as Hn.
  { intros r' i Hi. destruct (decide (r' = access_row k)) as [->|Hne]; [rewrite E in Hi; by injection Hi as <-|].
    rewrite Hother in Hi by done. destruct (LockSlot.acquired_ i) eqn:Ha; [done|]. by destruct (Hp r' i Hi Ha). }
  apply (call_ok x s v v'); auto; [| | | |by rewrite Hu].
  - unfold pending. rewrite posted_tasks, Et. change (lock_acquire_ (posted [EC_OK] s)) with (lock_acquire_ s).
    rewrite Ek. left. split_and!; [done|by rewrite Hl|done].
  - intros r' i Hi Hty. destruct (decide (r' = access_row k)) as [->|Hne].
    + rewrite E in Hi. injection Hi as <-. by apply (co_mode _ _ _ Hok _ _ Ej).
    + rewrite Hother in Hi by done. by apply (co_mode _ _ _ Hok _ _ Hi).
  - intros _ r' b (i & Hi & Ha & Hb). exists i. rewrite Hother; [done|]. intros ->. congruence.
  - intros k' _ _ Hk'. rewrite Ek in Hk'. injection Hk' as <-. eexists. split; [exact E|done].
Qed.

(** The unlock of a transaction that has ended. *)
Lemma forgotten_ok x s v v' :
  ctx_ok x s v → end_ s = true → (∀ r i, v_info v' r = Some i → v_info v r = Some i) →
  v_locks v' = v_locks v → v_touched v' = v_touched v → ctx_ok x s v'.
Proof.
  intros [H1 H2 H3 H4 H5 H6 H7 H8 H9 H10 H11] He Hi Hl Hv.
  assert (no_wait v → no_wait v') as Hn by (intros Hq r i; eauto).
  assert (∀ r, waits_at v r → waits_at v' r) as Hw by (intros r Hq r' i; eauto).
  split; rewrite ?Hv, ?He; try done; eauto.
  unfold pending in *. rewrite Hl. destruct (lock_acquire_ s); naive_solver.
Qed.

End BlockRun.
