(* ===== verification/Isolation.v ===== *)
(** * Isolation of the transactions of a block

    The runs of [BlockRun]: the contexts of one concurrency block, the lock
    managers and the tuple cache they share, with every order of their steps.

    - [conflicts_follow_ends]: whatever the order of these steps, a transaction
      touches a row that another one touched, one of them writing, only after the
      other has ended, so that the order in which the transactions end is
      a serial order of their conflicting accesses;
    - [cached_row_not_refreshed]: the tuple cache changes with storage answers
      only: a committed update does not reach the tuple that the next transaction
      reads from the cache. *)

From S2P Require Import Prelude Common.
From S2P Require Import LockSlot TxContext LockMgr LockView BlockRun.
#[local] Open Scope Z_scope.

Module Isolation.
Import TxContext BlockRun.

(** ** Histories *)

(** [x] touched a row before [y] did, one of them writing. *)
Definition conflict_before (h : list happening) (x y : Z) : Prop :=
  ∃ h1 r b h2 b' h3, h = h1 ++ HAccess x r b :: h2 ++ HAccess y r b' :: h3 ∧ x ≠ y ∧ b || b' = true.

(** The transactions in the order they ended. *)
Definition ends (h : list happening) : list Z :=
  omap (fun e => match e with HEnd x => Some x | _ => None end) h.

Definition before (x y : Z) (l : list Z) : Prop := ∃ l1 l2, l = l1 ++ x :: l2 ∧ y ∈ l2.

(** A transaction ends once and touches nothing afterwards; a conflicting access
    comes after the end of the other transaction. *)
Definition closed (h : list happening) : Prop :=
  ∀ h1 x h2, h = h1 ++ HEnd x :: h2 → HEnd x ∉ h2 ∧ ∀ r b, HAccess x r b ∉ h2.
Definition strict (h : list happening) : Prop :=
  ∀ h1 x r b h2 y b' h3, h = h1 ++ HAccess x r b :: h2 ++ HAccess y r b' :: h3 →
    x ≠ y → b || b' = true → HEnd x ∈ h2.

Lemma closed_snoc h e :
  closed h → (match e with HEnd x | HAccess x _ _ => HEnd x ∉ h end) → closed (h ++ [e]).
Proof.
  intros Hc He h1 x h2 E. destruct h2 as [|e' h2 _] using rev_ind; [split; [|intros r b]; by intros []%elem_of_nil|].
  change (HEnd x :: h2 ++ [e']) with ((HEnd x :: h2) ++ [e']) in E. rewrite app_assoc in E.
  apply app_inj_tail in E as [-> <-]. destruct (Hc h1 x h2 eq_refl) as [H1 H2].
  split; [intros [?|Hin%list_elem_of_singleton]%elem_of_app|intros r b [Hin|Hin%list_elem_of_singleton]%elem_of_app];
    try done; [|by eapply H2|]; subst e; apply He; set_solver.
Qed.

(** An access of a transaction that has ended lies before its end. *)
Lemma ended_after h h1 x r b h2 : closed h → h = h1 ++ HAccess x r b :: h2 → HEnd x ∈ h → HEnd x ∈ h2.
Proof.
  intros Hc E Hx. rewrite E in Hx. apply elem_of_app in Hx as [(l1 & l2 & ->)%list_elem_of_split|Hx].
  - rewrite <- app_assoc in E. destruct (Hc _ _ _ E) as [_ Hno]. destruct (Hno r b). set_solver.
  - by apply elem_of_cons in Hx as [|].
Qed.

Lemma strict_snoc h e :
  closed h → strict h →
  (∀ y r b', e = HAccess y r b' → ∀ x b, HAccess x r b ∈ h → x ≠ y → b || b' = true → HEnd x ∈ h) →
  strict (h ++ [e]).
Proof.
  intros Hc Hs He h1 x r b h2 y b' h3 E Hne Hb. destruct h3 as [|e' h3 _] using rev_ind.
  - rewrite app_comm_cons, app_assoc in E. apply app_inj_tail in E as [E ->].
    eapply (ended_after h); [done|exact E|]. eapply He; [done| |exact Hne|exact Hb]. rewrite E. set_solver.
  - rewrite !app_comm_cons, !app_assoc in E. apply app_inj_tail in E as [E _].
    rewrite <- app_assoc in E. simpl in E. by eapply Hs.
Qed.

Lemma elem_of_ends x h : x ∈ ends h ↔ HEnd x ∈ h.
Proof.
  unfold ends. rewrite list_elem_of_omap. split.
  - intros ([?|y] & Hin & [=]). by subst.
  - intros Hin. by exists (HEnd x).
Qed.

Lemma ends_app h h' : ends (h ++ h') = ends h ++ ends h'.
Proof. apply omap_app. Qed.

Lemma ends_nodup h : closed h → NoDup (ends h).
Proof.
  induction h as [|e h IH] using rev_ind; intros Hc; [constructor|]. rewrite ends_app.
  assert (closed h) as Hh.
  { intros h1 x h2 ->. destruct (Hc h1 x (h2 ++ [e])) as [H1 H2]; [by rewrite <- app_assoc|]. split; [set_solver|].
    intros r b Hin. apply (H2 r b). set_solver. }
  destruct e as [x r b|x]; simpl; [rewrite app_nil_r; by apply IH|]. apply NoDup_app. split_and!; [by apply IH| |by apply NoDup_singleton].
  intros y (h1 & h2 & ->)%elem_of_ends%list_elem_of_split ->%list_elem_of_singleton.
  destruct (Hc h1 x (h2 ++ [HEnd x])) as [Hno _]; [by rewrite <- app_assoc|]. apply Hno. set_solver.
Qed.

Lemma conflict_ended h x y : strict h → conflict_before h x y → x ∈ ends h.
Proof.
  intros Hs (h1 & r & b & h2 & b' & h3 & E & Hne & Hb). apply elem_of_ends.
  pose proof (Hs _ _ _ _ _ _ _ _ E Hne Hb) as Hin. rewrite E. set_solver.
Qed.

(** Of two transactions that have ended, the one that touched the row first ended
    first. *)
Lemma conflict_order h x y : closed h → strict h → conflict_before h x y → y ∈ ends h → before x y (ends h).
Proof.
  intros Hc Hs (h1 & r & b & h2 & b' & h3 & E & Hne & Hb) Hy%elem_of_ends.
  pose proof (Hs _ _ _ _ _ _ _ _ E Hne Hb) as (g1 & g2 & Eg)%list_elem_of_split.
  assert (h = (h1 ++ HAccess x r b :: h2) ++ HAccess y r b' :: h3) as E' by (rewrite E; by rewrite <- app_assoc).
  pose proof (ended_after _ _ _ _ _ _ Hc E' Hy) as Hin.
  exists (ends (h1 ++ HAccess x r b :: g1)), (ends (g2 ++ HAccess y r b' :: h3)). split.
  - rewrite E', Eg, !ends_app. simpl. rewrite !ends_app. simpl. by rewrite <- !app_assoc.
  - apply elem_of_ends. set_solver.
Qed.

Lemma before_trans x y z l : NoDup l → before x y l → before y z l → before x z l.
Proof.
  intros Hnd (l1 & l2 & -> & (l3 & l4 & ->)%list_elem_of_split) (l5 & l6 & E & Hz).
  exists l1, (l3 ++ y :: l4). split; [done|].
  assert (l1 ++ x :: l3 ++ y :: l4 = (l1 ++ x :: l3) ++ y :: l4) as E1 by (by rewrite <- app_assoc).
  rewrite E1 in E, Hnd. assert (l4 = l6) as ->; [|set_solver].
  clear E1. revert l5 E Hnd. generalize (l1 ++ x :: l3). clear. intros l. induction l as [|a l IH]; intros [|b l5] E Hnd; simpl in *.
  - by injection E.
  - injection E as -> ->. apply NoDup_cons in Hnd as [Hn _]. set_solver.
  - injection E as -> <-. apply NoDup_cons in Hnd as [Hn _]. set_solver.
  - injection E as -> E. apply NoDup_cons in Hnd as [_ Hnd]. eauto.
Qed.

Lemma before_irrefl x l : NoDup l → ¬ before x x l.
Proof.
  intros Hnd (l1 & l2 & -> & Hin). apply NoDup_app in Hnd as (_ & _ & [Hn _]%NoDup_cons). done.
Qed.

(** Conflicts make no circle. *)
Lemma conflicts_ordered h x y : closed h → strict h → tc (conflict_before h) x y → y ∈ ends h → before x y (ends h).
Proof.
  intros Hc Hs Ht. pose proof (ends_nodup _ Hc) as Hnd. induction Ht as [x y H|x y z H _ IH]; intros Hy.
  - by apply conflict_order.
  - specialize (IH Hy). assert (y ∈ ends h) as Hy' by (destruct IH as (l1 & l2 & -> & _); set_solver).
    eapply before_trans; [done| |exact IH]. by apply conflict_order.
Qed.

(** ** The invariant of a run *)

Lemma acyclic h x : closed h → strict h → ¬ tc (conflict_before h) x x.
Proof.
  intros Hc Hs Ht. assert (x ∈ ends h) as Hx.
  { inversion Ht as [? ? H|? ? ? H]; subst; by eapply conflict_ended. }
  by eapply before_irrefl, conflicts_ordered; [apply ends_nodup| | | |].
Qed.

Definition ended (x : Z) (w : world) : bool := from_option end_ false (ctxs w !! x).

Section invariant.
Context (e : env).

Record inv (w : world) : Prop := {
  i_access : ∃ m, LockMgr.access_ok true (e_shards e) (e_max_table e) (acc w) m;
  i_ctx : ∀ x s, ctxs w !! x = Some s → ctx_ok x s (view_of x w);
  i_none : ∀ x, ctxs w !! x = None → empty_view (view_of x w);
  i_ended : ∀ x, HEnd x ∈ hist w ↔ ended x w = true;
  i_closed : closed (hist w);
  i_strict : strict (hist w);
}.

Lemma puts_ok ev a m a' :
  LockMgr.access_ok true (e_shards e) (e_max_table e) a m → puts ev a = Some a' →
  (∃ m', LockMgr.access_ok true (e_shards e) (e_max_table e) a' m') ∧
  ∀ r x, LockView.info_at r x a' = LockView.info_at r x a.
Proof.
  revert a m. induction ev as [|c ev IH]; intros a m Hok; simpl; [intros [= <-]; eauto|].
  destruct c; try by eapply IH.
  intros (a1 & E & Hp)%bind_Some. destruct (IH _ _ (LockMgr.put_ok _ _ _ _ _ _ _ _ _ _ Hok E) Hp) as [H1 H2].
  split; [done|]. intros r x. rewrite H2. unfold LockMgr.put in E. destruct (is_tuple_nil tuple); [done|].
  apply bind_Some in E as (dm & _ & E). by destruct dm; injection E as <-.
Qed.

Lemma touches_hist x s v h : touches x s v h → ∀ y, y ≠ x → omap (touched_of y) h = [].
Proof.
  intros [->|(r & b & -> & _)] y Hy; [done|]. simpl. by rewrite bool_decide_eq_false_2.
Qed.

Lemma others_calls x y cs : Forall (fun c => caller c = x) cs → y ≠ x →
  omap (lock_of y) cs = [] ∧ omap (unlock_of y) cs = [].
Proof.
  intros H Hne. induction H as [|c cs Hc _ [IH1 IH2]]; [done|].
  destruct c; simpl in *; subst; rewrite bool_decide_eq_false_2 by done; done.
Qed.

(** An access of [x] that holds its row: whoever touched the row in conflict has
    ended. *)
Lemma touched_ended w x r b y b0 :
  inv w → holds_for (view_of x w) r b → HAccess y r b0 ∈ hist w → y ≠ x → b0 || b = true → HEnd y ∈ hist w.
Proof.
  intros Hi (i & Hx & Hax & Hbx) Hy Hne Hb. apply (i_ended _ Hi). unfold ended.
  assert ((r, b0) ∈ v_touched (view_of y w)) as Hin.
  { simpl. apply list_elem_of_omap. exists (HAccess y r b0). simpl. by rewrite bool_decide_eq_true_2. }
  destruct (ctxs w !! y) as [s|] eqn:Es.
  2: { destruct (i_none _ Hi y Es) as (_ & _ & _ & E). rewrite E in Hin. by apply elem_of_nil in Hin. }
  simpl. destruct (end_ s) eqn:He; [done|]. exfalso.
  destruct (co_touched _ _ _ (i_ctx _ Hi y s Es) r b0 He Hin) as (j & Hj & Haj & Hbj).
  destruct (i_access _ Hi) as [m Hok]. destruct r as [[t sh] k].
  destruct (LockView.holders_share _ _ _ _ _ Hok t sh k y x j i Hj Hx Haj Hax Hne) as [T1 T2].
  apply orb_true_iff in Hb as [->| ->]; [by apply Hbj|by apply Hbx].
Qed.

Lemma extend_history w x s s' h :
  inv w → ended x w = end_ s → touches x s (view_of x w) h →
  let h' := hist w ++ h ++ (if negb (end_ s) && end_ s' then [HEnd x] else []) in
  closed h' ∧ strict h'.
Proof.
  intros Hi He Ht.
  assert (end_ s = false → HEnd x ∉ hist w) as Hne.
  { intros E Hin. apply (i_ended _ Hi) in Hin. congruence. }
  assert (closed (hist w ++ h) ∧ strict (hist w ++ h) ∧ (end_ s = false → HEnd x ∉ hist w ++ h)) as (H1 & H2 & H3).
  { destruct Ht as [->|(r & b & -> & E & Hh)].
    - rewrite app_nil_r. split_and!; [apply Hi|apply Hi|done].
    - split_and!; [apply closed_snoc; [apply Hi|by apply Hne]| |set_solver].
      apply strict_snoc; [apply Hi|apply Hi|]. intros y r' b' [= <- <- <-] z b0 Hz Hzy Hb. by eapply touched_ended. }
  cbv zeta. rewrite app_assoc. destruct (end_ s) eqn:E; simpl; [by rewrite app_nil_r|].
  destruct (end_ s'); [|by rewrite app_nil_r]. split; [apply closed_snoc; auto|]. apply strict_snoc; [done|done|]. by intros.
Qed.

(** A handler of context [x]. *)
Lemma after_inv w x s h r w' :
  inv w → ended x w = end_ s → (end_ s = true → end_ r.1 = true) → touches x s (view_of x w) h →
  step_ok x (view_of x w) h r → after x s h r w = Some w' → inv w'.
Proof.
  intros Hi He Hmono Ht [Hx Hc]. unfold after. intros (a & Ep & [= <-])%bind_Some.
  destruct (i_access _ Hi) as [m Hok]. destruct (puts_ok _ _ _ _ Hok Ep) as [Hok' Hinfo].
  set (h' := h ++ if negb (end_ s) && end_ r.1 then [HEnd x] else []).
  assert (∀ y, omap (touched_of y) h' = omap (touched_of y) h) as Hh'.
  { intros y. unfold h'. rewrite omap_app. destruct (_ && _); simpl; by rewrite app_nil_r. }
  assert (∀ y, y ≠ x → omap (lock_of y) (calls_of r.2) = [] ∧ omap (unlock_of y) (calls_of r.2) = [] ∧ omap (touched_of y) h = []) as Hy.
  { intros y Hne. destruct (others_calls x y _ Hc Hne). split_and!; [done|done|]. by eapply touches_hist. }
  destruct (extend_history w x s r.1 h Hi He Ht) as [Hcl Hst].
  split; [done| | | |exact Hcl|exact Hst].
  - intros y s' Es. simpl in Es. destruct (decide (y = x)) as [->|Hne].
    + rewrite lookup_insert_eq in Es. injection Es as <-.
      apply (same_view_ok x _ _ _ Hx); simpl; rewrite ?omap_app, ?Hh'; auto.
    + rewrite lookup_insert_ne in Es by done. destruct (Hy y Hne) as (Y1 & Y2 & Y3).
      apply (same_view_ok y _ _ _ (i_ctx _ Hi y s' Es)); simpl; rewrite ?omap_app, ?Hh', ?Y1, ?Y2, ?Y3, ?app_nil_r; auto.
  - intros y En. simpl in En. apply lookup_insert_None in En as [En Hne].
    destruct (Hy y ltac:(done)) as (Y1 & Y2 & Y3). destruct (i_none _ Hi y En) as (N1 & N2 & N3 & N4).
    split_and!; simpl in *; rewrite ?omap_app, ?Hh', ?Y1, ?Y2, ?Y3, ?app_nil_r; auto. intros q. by rewrite Hinfo.
  - intros y. unfold ended. simpl. rewrite !elem_of_app, (i_ended _ Hi).
    assert (HEnd y ∉ h) as Hnh. { destruct Ht as [->|(q & b & -> & _)]; set_solver. }
    destruct (decide (y = x)) as [->|Hne].
    + rewrite lookup_insert_eq, He. simpl. destruct (end_ s), (end_ r.1); simpl in *; set_solver.
    + rewrite lookup_insert_ne by done. unfold ended. destruct (negb _ && _); set_solver.
Qed.

(** No handler takes back the end of a transaction. *)
Lemma next_end get s : end_ s = true → end_ (handle_next_operation get DB_SN s).1 = true.
Proof.
  intros He. pose proof (settles_finish DB_SN s) as Hf. cbv beta in Hf. unfold handle_next_operation.
  destruct (state_ s); try done. destruct (EC_eqb (error_code_ s) EC_OK); [|by apply Hf].
  destruct (ops_ s) as [|op ops]; [by apply Hf|].
  destruct (handle_operation_starts get op s) as [k o m (_&_&K&_)|k s1 (_&_&K&_) _ _ [(_&_&_&_&A&_) _]|_ H].
  - congruence.
  - simpl in A. congruence.
  - by apply H.
Qed.

Lemma run_strand_end get s : end_ s = true → end_ (run_strand get DB_SN s).1 = true.
Proof.
  intros He. unfold run_strand. destruct (strand_ s) as [|[ec|ec] ts]; [done| |].
  - unfold run_lock_acquire. destruct (lock_acquire_ _) as [k|]; [|done].
    destruct (locked_answered get k ec (s <| strand_ := ts |> <| lock_acquire_ := None |>)) as [[(_&_&_&_&A&_) _] _].
    by rewrite A.
  - unfold op_done, and_then, modify. match goal with |- context [handle_next_operation get DB_SN ?s'] =>
      assert (end_ (handle_next_operation get DB_SN s').1 = true) as Hn by (by apply next_end) end.
    destruct (handle_next_operation _ _ _). exact Hn.
Qed.

Lemma storage_end oid ec t sh k tuple s : end_ (read_data_from_dsb_response oid ec t sh k tuple s).1 = end_ s.
Proof.
  unfold read_data_from_dsb_response, and_then, modify. destruct (ds_read_handler_ s !! oid) as [a|]; simpl.
  - destruct (dsb_completed a ec (default "" tuple) s) as ((_&_&_&_&A&_) & _).
    destruct (dsb_done a ec (default "" tuple) s). by destruct ec, tuple.
  - by destruct ec, tuple.
Qed.

Lemma on_ctx_inv x (h : tx_context → list happening) f w w' :
  inv w →
  (∀ s v, ctx_ok x s v → touches x s v (h s) ∧ step_ok x v (h s) (f s)) →
  (∀ s, end_ s = true → end_ (f s).1 = true) →
  on_ctx x h f w = Some w' → inv w'.
Proof.
  intros Hi Hf He. unfold on_ctx. intros (s & Es & Ha)%bind_Some. destruct (Hf s _ (i_ctx _ Hi x s Es)) as [Ht Hs].
  eapply after_inv; [done| |by apply He|done|done|exact Ha]. unfold ended. by rewrite Es.
Qed.

Lemma settles_inv x f w w' : inv w → settles f → on_ctx x (fun _ => []) f w = Some w' → inv w'.
Proof.
  intros Hi Hf. apply on_ctx_inv; [done| |intros s; apply Hf]. intros s v Hok. split; [by left|].
  by eapply settle_ok.
Qed.

(** ** The lock managers *)

Lemma lookup_deliver ev cs y : deliver ev cs !! y = posted (LockView.told y ev) <$> cs !! y.
Proof.
  assert (∀ s, posted [] s = s) as Hnil by (intros s; destruct s; unfold posted; simpl; by rewrite app_nil_r).
  revert cs. induction ev as [|c ev IH]; intros cs; simpl.
  { destruct (cs !! y) as [s|]; [|done]. simpl. by rewrite Hnil. }
  destruct c as [| |ec z o|]; try by rewrite IH. rewrite IH. unfold LockView.told. simpl.
  destruct (decide (z = y)) as [->|Hne].
  - rewrite lookup_alter_eq, bool_decide_eq_true_2 by done. destruct (cs !! y) as [s|]; [|done]. simpl. f_equal.
    unfold posted, async_lock_acquire, modify. simpl. by rewrite <- app_assoc.
  - by rewrite lookup_alter_ne, bool_decide_eq_false_2 by done.
Qed.

Lemma omap_delete {A B} (f : A → option B) (l : list A) i c :
  l !! i = Some c →
  ∃ l1 l2, omap f l = l1 ++ option_list (f c) ++ l2 ∧ omap f (delete i l) = l1 ++ l2.
Proof.
  intros Hi. exists (omap f (take i l)), (omap f (drop (S i) l)). rewrite delete_take_drop, omap_app. split; [|done].
  rewrite <- (take_drop_middle l i c Hi) at 1. rewrite omap_app. simpl. by destruct (f c).
Qed.

Lemma omap_delete_none {A B} (f : A → option B) (l : list A) i c :
  l !! i = Some c → f c = None → omap f (delete i l) = omap f l.
Proof. intros Hi Hf. destruct (omap_delete f l i c Hi) as (l1 & l2 & -> & ->). by rewrite Hf. Qed.

Lemma omap_delete_nil {A B} (f : A → option B) (l : list A) i c :
  l !! i = Some c → omap f l = [] → omap f (delete i l) = [].
Proof.
  intros Hi. destruct (omap_delete f l i c Hi) as (l1 & l2 & -> & ->). destruct (f c); simpl.
  - intros E. by destruct l1.
  - done.
Qed.

(** The context of a call is there, and with a lock call it has no other. *)
Lemma lock_call_ctx w i x o m r :
  inv w → calls w !! i = Some (CLock x o m r) →
  ∃ s, ctxs w !! x = Some s ∧ v_locks (view_of x w) = [(m, r)] ∧ omap (lock_of x) (delete i (calls w)) = [] ∧
       no_wait (view_of x w) ∧ LockSlot.row_mode m = true.
Proof.
  intros Hi Hc. destruct (omap_delete (lock_of x) _ _ _ Hc) as (l1 & l2 & E1 & E2). simpl in E1.
  rewrite bool_decide_eq_true_2 in E1 by done. simpl in E1.
  destruct (ctxs w !! x) as [s|] eqn:Es.
  2: { destruct (i_none _ Hi x Es) as (_ & E & _). simpl in E. rewrite E in E1. by destruct l1. }
  pose proof (co_pending _ _ _ (i_ctx _ Hi x s Es)) as Hp. unfold pending in Hp. simpl in Hp. rewrite E1 in Hp.
  destruct (lock_acquire_ s) as [k|]; [|destruct Hp as (_ & E & _); by destruct l1].
  destruct Hp as [(_ & E & _)|[(_ & Hn & m' & E & Hm & _)|(_ & E & _)]]; [by destruct l1| |by destruct l1].
  destruct l1 as [|? l1]; [|by destruct l1]. injection E as -> -> ->. exists s. simpl. rewrite E1, E2. by split_and!.
Qed.

Lemma unlock_call_ctx w i x m r :
  inv w → calls w !! i = Some (CUnlock x m r) → ∃ s, ctxs w !! x = Some s ∧ end_ s = true.
Proof.
  intros Hi Hc. destruct (omap_delete (unlock_of x) _ _ _ Hc) as (l1 & l2 & E1 & _). simpl in E1.
  rewrite bool_decide_eq_true_2 in E1 by done. simpl in E1. destruct (ctxs w !! x) as [s|] eqn:Es.
  - exists s. split; [done|]. destruct (end_ s) eqn:He; [done|].
    pose proof (co_unlocks _ _ _ (i_ctx _ Hi x s Es) He) as E. simpl in E. rewrite E in E1. by destruct l1.
  - destruct (i_none _ Hi x Es) as (_ & _ & E & _). simpl in E. rewrite E in E1. by destruct l1.
Qed.

(** A call [c] of [x] ran: enough that every context agrees with its new view. *)
Lemma ran_inv w a ev i :
  inv w → (∃ m, LockMgr.access_ok true (e_shards e) (e_max_table e) a m) →
  let w' := mk_world (deliver ev (ctxs w)) a (delete i (calls w)) (hist w) in
  (∀ y s, ctxs w !! y = Some s → ctx_ok y (posted (LockView.told y ev) s) (view_of y w')) →
  (∀ y, ctxs w !! y = None → empty_view (view_of y w')) → inv w'.
Proof.
  intros Hi Ha w' Hc Hn. split; [done| | | |apply Hi|apply Hi]; simpl.
  - intros y s. rewrite lookup_deliver. destruct (ctxs w !! y) as [s0|] eqn:Es; [|done]. intros [= <-]. by apply Hc.
  - intros y. rewrite lookup_deliver. destruct (ctxs w !! y) eqn:Es; [done|]. intros _. by apply Hn.
  - intros y. rewrite (i_ended _ Hi). unfold ended. simpl. rewrite lookup_deliver. by destruct (ctxs w !! y).
Qed.

Lemma posted_nil s : posted [] s = s.
Proof. destruct s. unfold posted. simpl. by rewrite app_nil_r. Qed.

Lemma lock_call_inv w i x o m r a ev :
  inv w → calls w !! i = Some (CLock x o m r) → has_room r (acc w) = true →
  LockMgr.lock_row true x o m r.1.1 r.1.2 r.2 (acc w) = Some (a, ev) →
  inv (mk_world (deliver ev (ctxs w)) a (delete i (calls w)) (hist w)).
Proof.
  intros Hi Hc Hroom E. destruct (lock_call_ctx w i x o m r Hi Hc) as (sx & Ex & El & Ed & Hnw & Hm).
  destruct (i_access _ Hi) as [d Hok]. destruct r as [[t sh] k]. simpl in *.
  destruct (LockView.lock_row_records _ _ _ _ _ Hok x o m t sh k a ev Hm) as (Hok' & Hinfo & Htold & Hx); [|done|].
  { intros q Hq. unfold has_room in Hroom. simpl in Hroom. rewrite Hq in Hroom. simpl in Hroom.
    apply Z.ltb_lt in Hroom. split; [|done]. intros j Hj. apply (Hnw (t, sh, k)). simpl. unfold LockView.info_at. simpl.
    by rewrite Hq. }
  assert (∀ y, omap (unlock_of y) (delete i (calls w)) = omap (unlock_of y) (calls w)) as Hu.
  { intros y. by eapply omap_delete_none. }
  assert (∀ y, y ≠ x → omap (lock_of y) (delete i (calls w)) = omap (lock_of y) (calls w)) as Hl.
  { intros y Hne. eapply omap_delete_none; [done|]. simpl. by rewrite bool_decide_eq_false_2. }
  apply ran_inv; [done|by eauto| |].
  - intros y s Es. destruct (decide (y = x)) as [->|Hne].
    + rewrite Ex in Es. injection Es as <-.
      eapply (lock_call_ok x sx (view_of x w) _ m (t, sh, k) o); [by apply Hi|done| |exact Hx|done|apply Hu|done].
      intros r' Hr'. apply Hinfo. by left.
    + rewrite Htold, posted_nil by done. apply (same_view_ok y s (view_of y w)); [by apply Hi| |by apply Hl|simpl; by rewrite Hu|done].
      intros r'. apply Hinfo. by right.
  - intros y En. assert (y ≠ x) as Hne by congruence. destruct (i_none _ Hi y En) as (N1 & N2 & N3 & N4).
    split_and!; simpl in *; rewrite ?Hl, ?Hu by done; auto. intros r'. rewrite Hinfo; auto.
Qed.

Lemma unlock_call_inv w i x m r a ev :
  inv w → calls w !! i = Some (CUnlock x m r) →
  LockMgr.unlock_row x m r.1.1 r.1.2 r.2 (acc w) = Some (a, ev) →
  inv (mk_world (deliver ev (ctxs w)) a (delete i (calls w)) (hist w)).
Proof.
  intros Hi Hc E. destruct (unlock_call_ctx w i x m r Hi Hc) as (sx & Ex & He).
  destruct (i_access _ Hi) as [d Hok]. destruct r as [[t sh] k]. simpl in *.
  destruct (LockView.unlock_row_records _ _ _ _ _ Hok x m t sh k a ev E) as (Hok' & Hinfo & Htold & Hx & Hy).
  assert (∀ y, omap (lock_of y) (delete i (calls w)) = omap (lock_of y) (calls w)) as Hl.
  { intros y. by eapply omap_delete_none. }
  assert (∀ y, y ≠ x → omap (unlock_of y) (delete i (calls w)) = omap (unlock_of y) (calls w)) as Hu.
  { intros y Hne. eapply omap_delete_none; [done|]. simpl. by rewrite bool_decide_eq_false_2. }
  apply ran_inv; [done|by eauto| |].
  - intros y s Es. destruct (decide (y = x)) as [->|Hne].
    + rewrite Ex in Es. injection Es as <-. rewrite Htold, posted_nil.
      apply (forgotten_ok x sx (view_of x w)); [by apply Hi|done| |apply Hl|done]. simpl.
      intros r' j. destruct (decide (r' = (t, sh, k))) as [->|Hr']; [|by rewrite Hinfo].
      destruct Hx as [->| ->]; done.
    + apply (granted_ok y s (view_of y w) _ (t, sh, k)); [by apply Hi| |by apply Hy|apply Hl|by apply Hu|done].
      intros r' Hr'. by apply Hinfo.
  - intros y En. assert (y ≠ x) as Hne by congruence. destruct (i_none _ Hi y En) as (N1 & N2 & N3 & N4).
    split_and!; simpl in *; rewrite ?Hl, ?Hu by done; auto. intros r'.
    destruct (decide (r' = (t, sh, k))) as [->|Hr']; [|by rewrite Hinfo].
    destruct (Hy y Hne) as [[-> _]|(j & Hj & _)]; [done|]. by rewrite N1 in Hj.
Qed.

Lemma exec_inv l w w' : inv w → exec e l w = Some w' → inv w'.
Proof.
  intros Hi. destruct l as [x req|x|x oid ec t sh k tuple|x type|x ec|x|x|i]; simpl.
  - case_match eqn:G; [|done]. apply andb_true_iff in G as [En%bool_decide_eq_true Hu].
    apply (after_inv w x _ []); [done|unfold ended; by rewrite En|done|by left|].
    apply process_tx_ok; [by apply (i_none _ Hi)|done].
  - apply on_ctx_inv; [done| |apply run_strand_end]. intros s v Hok. split; [by apply strand_touches|by apply run_strand_ok].
  - apply on_ctx_inv; [done| |intros s; by rewrite storage_end].
    intros s v Hok. split; [by apply answer_touches|by apply storage_ok].
  - apply settles_inv; [done|apply settles_logged].
  - apply settles_inv; [done|apply settles_abort].
  - apply settles_inv; [done|apply settles_tm_commit].
  - apply settles_inv; [done|apply settles_tm_abort].
  - intros (c & Hc & E)%bind_Some. destruct (first_of_manager i c (calls w)); [|done].
    apply bind_Some in E as ([a ev] & E & [= <-]). destruct c as [x o m r|x m r]; simpl in E.
    + destruct (has_room r (acc w)) eqn:Hr; [|done]. by eapply lock_call_inv.
    + by eapply unlock_call_inv.
Qed.

Lemma new_inv : inv (new_world e).
Proof.
  split; simpl.
  - exists ∅. apply LockMgr.new_access_ok.
  - by intros x s.
  - intros x _. split_and!; try done. intros r. apply LockView.info_at_new.
  - intros x. unfold ended. simpl. rewrite elem_of_nil. done.
  - intros h1 x h2 E. by destruct h1.
  - intros h1 x r b h2 y b' h3 E. by destruct h1.
Qed.

Lemma run_inv ls w w' : inv w → run e ls w = Some w' → inv w'.
Proof.
  revert w. induction ls as [|l ls IH]; intros w Hi; simpl; [by intros [= <-]|].
  intros (w1 & E & Hr)%bind_Some. eapply IH; [|done]. by eapply exec_inv.
Qed.

End invariant.

(** ** The tuple cache *)

Definition is_put (ev : ctx_event) : bool := match ev with CachePut _ _ _ _ => true | _ => false end.
Definition any_state (s s' : tx_context) : Prop := True.
#[local] Instance any_refl : Reflexive any_state.
Proof. done. Qed.
#[local] Instance any_trans : Transitive any_state.
Proof. done. Qed.

(** The handler [h] puts nothing into the cache. *)
Abbreviation puts_nothing := (respects any_state (fun ev => is_put ev = false)).

Lemma no_put_at h s : puts_nothing h → any_state s (h s).1 ∧ Forall (fun ev => is_put ev = false) (h s).2.
Proof. intros H. apply H. Qed.

(** A handler that branches on its state. *)
Ltac no_put_cases :=
  intros ?; repeat case_match; (split; [done|by repeat constructor]) || (apply no_put_at; auto 8 with respects).

Lemma no_put_fetch k : puts_nothing (read_data_from_dsb k).
Proof. unfold read_data_from_dsb. no_put_cases. Qed.

Lemma no_put_append op : puts_nothing (append_operation op).
Proof. intros s. split; [done|]. unfold append_operation. simpl. case_match; by repeat constructor. Qed.
#[local] Hint Resolve no_put_fetch no_put_append : respects.

Lemma no_put_locked get k ec : puts_nothing (locked get k ec).
Proof.
  unfold locked, read_locked, update_locked, insert_locked, remove_locked, read_done, update_done, insert_done, invoke_done.
  repeat case_match; auto with respects.
Qed.

Lemma no_put_begin kd m t sh k o : puts_nothing (begin_access kd m t sh k o).
Proof.
  unfold begin_access. repeat apply respects_then; try apply _; auto with respects; unfold add_lock.
  - intros s. unfold when. case_match; (split; [done|by repeat constructor]).
  - intros s. by split; [|constructor].
Qed.
#[local] Hint Resolve no_put_locked no_put_begin : respects.

Lemma no_put_operation get op : puts_nothing (handle_operation get op).
Proof.
  unfold handle_operation, async_read, async_update, async_insert. destruct (op_type op); auto with respects;
    intros s; apply no_put_at; repeat case_match; auto with respects.
Qed.
#[local] Hint Resolve no_put_operation : respects.

Lemma no_put_respond : puts_nothing send_tx_response.
Proof. unfold send_tx_response. no_put_cases. Qed.

Lemma no_put_ended : puts_nothing tx_ended.
Proof. unfold tx_ended. no_put_cases. Qed.
#[local] Hint Resolve no_put_respond no_put_ended : respects.

Lemma no_put_release : puts_nothing release_lock.
Proof. intros s. unfold release_lock. apply no_put_at. auto 10 with respects. Qed.

Lemma no_put_force_log : puts_nothing async_force_log.
Proof. unfold async_force_log. no_put_cases. Qed.

Lemma no_put_cmd t : puts_nothing (set_tx_cmd_type t).
Proof. unfold set_tx_cmd_type. auto with respects. Qed.

Lemma no_put_ack c : puts_nothing (send_ack_message c).
Proof. unfold send_ack_message. no_put_cases. Qed.

Lemma no_put_vote c : puts_nothing (send_prepare_message c).
Proof. unfold send_prepare_message. no_put_cases. Qed.
#[local] Hint Resolve no_put_release no_put_force_log no_put_cmd no_put_ack no_put_vote : respects.

Lemma no_put_committed db : puts_nothing (tx_committed db).
Proof. unfold tx_committed. no_put_cases. Qed.

Lemma no_put_aborted db : puts_nothing (tx_aborted db).
Proof. unfold tx_aborted. no_put_cases. Qed.

Lemma no_put_abort_1p : puts_nothing abort_tx_1p.
Proof. unfold abort_tx_1p. no_put_cases. Qed.
#[local] Hint Resolve no_put_committed no_put_aborted no_put_abort_1p : respects.

Lemma no_put_logged db t : puts_nothing (on_log_entry_commit db t).
Proof.
  unfold on_log_entry_commit, on_committed_log_commit, on_aborted_log_commit, on_prepare_committed_log_commit,
    on_prepare_aborted_log_commit. destruct t; auto with respects.
Qed.

Lemma no_put_next get : puts_nothing (handle_next_operation get DB_SN).
Proof.
  assert (puts_nothing prepare_commit_tx) as H1 by (unfold prepare_commit_tx; no_put_cases).
  assert (puts_nothing (handle_finish_tx_phase1_commit DB_SN)) as H2.
  { unfold handle_finish_tx_phase1_commit, on_committed_log_commit. no_put_cases. }
  unfold handle_next_operation, handle_finish_tx_phase1_prepare_commit, handle_finish_tx_phase1_prepare_abort,
    prepare_abort_tx, handle_finish_tx_phase1_abort. no_put_cases.
Qed.
#[local] Hint Resolve no_put_next : respects.

Lemma no_put_run get : puts_nothing (run_strand get DB_SN).
Proof.
  intros s. unfold run_strand. destruct (strand_ s) as [|[ec|ec] ts]; [split; [done|constructor]| |].
  - unfold run_lock_acquire. destruct (lock_acquire_ _); [|split; [done|by repeat constructor]].
    split; [done|]. by apply no_put_at, no_put_locked.
  - split; [done|]. apply no_put_at. unfold op_done. auto with respects.
Qed.

Lemma no_put_process get req : puts_nothing (process_tx_request get DB_SN req).
Proof. unfold process_tx_request. auto 8 with respects. Qed.

Lemma no_put_abort ec : puts_nothing (abort ec).
Proof.
  intros s. unfold abort. set (s0 := match ec with EC_VICTIM => _ | _ => _ end). split; [done|].
  case_match; [|by repeat constructor]. case_match; try constructor. by apply no_put_at, no_put_abort_1p.
Qed.

Lemma no_put_tm_commit x : puts_nothing (handle_tx_tm_commit x).
Proof. unfold handle_tx_tm_commit, handle_finish_tx_phase2_commit. no_put_cases. Qed.

Lemma no_put_tm_abort x : puts_nothing (handle_tx_tm_abort x).
Proof. unfold handle_tx_tm_abort, abort_tx_2p. no_put_cases. Qed.

Definition put_elsewhere (r : row) (ev : ctx_event) : Prop :=
  match ev with CachePut t sh k _ => row_of t sh k ≠ r | _ => True end.

Definition row_get (r : row) (a : LockMgr.access_mgr) : option (option string) := LockMgr.get r.1.1 r.1.2 r.2 a.

Lemma put_other t sh k v a a' r : LockMgr.put t sh k v a = Some a' → (t, sh, k) ≠ r → row_get r a' = row_get r a.
Proof.
  destruct r as [[t' sh'] k']. unfold LockMgr.put, row_get, LockMgr.get. simpl. destruct (is_tuple_nil v); [done|].
  intros (dm & Ed & E)%bind_Some Hne.
  assert (∀ x, LockMgr.at_shard t sh (LockMgr.set_shard t sh x (LockMgr.data_table_ a)) = Some x) as Hset.
  { intros x. apply LockMgr.at_set_eq. by eapply LockMgr.at_shard_lt. }
  destruct (decide ((t', sh') = (t, sh))) as [[= -> ->]|Hn].
  - rewrite Ed. assert (k' ≠ k) as Hk by congruence. destruct dm as [d|]; injection E as <-; simpl; rewrite Hset; [|done].
    simpl. unfold LockMgr.dm_put, LockMgr.dm_get, HashTable.find, HashTable.find_or_insert, LockMgr.data_mgr in *.
    destruct (d !! k); simpl; by rewrite !lookup_insert_ne by done.
  - destruct dm as [d|]; injection E as <-; simpl; by rewrite LockMgr.at_set_ne.
Qed.

Lemma puts_elsewhere r ev a a' : Forall (put_elsewhere r) ev → puts ev a = Some a' → row_get r a' = row_get r a.
Proof.
  intros H. revert a. induction H as [|c ev Hc _ IH]; intros a; simpl; [by intros [= ->]|].
  destruct c; try apply IH. intros (a1 & E & Hp)%bind_Some. etrans; [by eapply IH|]. by eapply put_other.
Qed.

Lemma nothing_elsewhere r ev : Forall (fun c => is_put c = false) ev → Forall (put_elsewhere r) ev.
Proof. intros H. eapply Forall_impl; [exact H|]. by intros []. Qed.

Lemma storage_puts oid ec t sh k tuple s r :
  row_of t sh k ≠ r → Forall (put_elsewhere r) (read_data_from_dsb_response oid ec t sh k tuple s).2.
Proof.
  intros Hne.
  assert (∀ a t s, Forall (put_elsewhere r) (dsb_done a ec t s).2) as Hd.
  { intros a t' s'. apply nothing_elsewhere, no_put_at. unfold dsb_done, insert_read_done, read_done, update_done, insert_done, invoke_done.
    repeat case_match; auto with respects. }
  unfold read_data_from_dsb_response, and_then, modify. destruct (ds_read_handler_ s !! oid) as [a|]; simpl.
  - specialize (Hd a (default "" tuple) s). destruct (dsb_done a ec (default "" tuple) s). simpl in *.
    destruct ec, tuple; simpl; rewrite ?app_nil_r; try done; apply Forall_app; split; try done; by repeat constructor.
  - destruct ec, tuple; by repeat constructor.
Qed.

(** The rows that storage answers bring. *)
Definition answered_row (l : label) : option row :=
  match l with LStorage _ _ _ t sh k _ => Some (row_of t sh k) | _ => None end.

Lemma lock_row_data nd x o m t sh k a a' ev :
  LockMgr.lock_row nd x o m t sh k a = Some (a', ev) → LockMgr.data_table_ a' = LockMgr.data_table_ a.
Proof.
  intros (lm & _ & E)%bind_Some. destruct lm; [|by injection E as <-].
  by apply bind_Some in E as ([l' e'] & _ & [= <- _]).
Qed.

Lemma unlock_row_data x m t sh k a a' ev :
  LockMgr.unlock_row x m t sh k a = Some (a', ev) → LockMgr.data_table_ a' = LockMgr.data_table_ a.
Proof.
  intros (lm & _ & E)%bind_Some. destruct lm; [|by injection E as <-].
  by apply bind_Some in E as ([l' e'] & _ & [= <- _]).
Qed.

Lemma after_cache x s h res w w' r :
  Forall (put_elsewhere r) res.2 → after x s h res w = Some w' → row_get r (acc w') = row_get r (acc w).
Proof. intros H (a & E & [= <-])%bind_Some. by eapply puts_elsewhere. Qed.

Lemma on_ctx_cache x h f w w' r :
  (∀ s, Forall (put_elsewhere r) (f s).2) → on_ctx x h f w = Some w' → row_get r (acc w') = row_get r (acc w).
Proof. intros H (s & _ & E)%bind_Some. by eapply after_cache. Qed.

Lemma exec_cache e l w w' r :
  exec e l w = Some w' → answered_row l ≠ Some r → row_get r (acc w') = row_get r (acc w).
Proof.
  destruct l as [x req|x|x oid ec t sh k tuple|x type|x ec|x|x|i]; simpl.
  - case_match; [|done]. intros E _. eapply after_cache; [|exact E]. apply nothing_elsewhere, no_put_at, no_put_process.
  - intros E _. eapply on_ctx_cache; [|exact E]. intros s. apply nothing_elsewhere, no_put_at, no_put_run.
  - intros E Hne. eapply on_ctx_cache; [|exact E]. intros s. apply storage_puts. congruence.
  - intros E _. eapply on_ctx_cache; [|exact E]. intros s. apply nothing_elsewhere, no_put_at, no_put_logged.
  - intros E _. eapply on_ctx_cache; [|exact E]. intros s. apply nothing_elsewhere, no_put_at, no_put_abort.
  - intros E _. eapply on_ctx_cache; [|exact E]. intros s. apply nothing_elsewhere, no_put_at, no_put_tm_commit.
  - intros E _. eapply on_ctx_cache; [|exact E]. intros s. apply nothing_elsewhere, no_put_at, no_put_tm_abort.
  - intros (c & _ & E)%bind_Some _. case_match; [|done]. apply bind_Some in E as ([a ev] & E & [= <-]).
    unfold row_get, LockMgr.get. simpl. destruct c as [x o m q|x m q]; simpl in E.
    + case_match; [|done]. by rewrite (lock_row_data _ _ _ _ _ _ _ _ _ _ E).
    + by rewrite (unlock_row_data _ _ _ _ _ _ _ _ E).
Qed.

Lemma run_cache e ls w w' r :
  run e ls w = Some w' → Some r ∉ map answered_row ls → row_get r (acc w') = row_get r (acc w).
Proof.
  revert w. induction ls as [|l ls IH]; intros w; simpl; [by intros [= ->]|].
  intros (w1 & E & Hr)%bind_Some Hn. apply not_elem_of_cons in Hn as [Hn1 Hn2].
  etrans; [by eapply IH|]. by eapply exec_cache.
Qed.

(** ** The theorems *)


(** C33: The tuple cache changes with storage answers only.  Along any run without
    a storage answer for a row, its cached tuple stays as it was, whatever
    transactions update the row, commit and end meanwhile: later readers of the
    block are given the tuple from before the updates. *)
Theorem cached_row_not_refreshed e ls w w' t sh k :
  run e ls w = Some w' → Some (row_of t sh k) ∉ map answered_row ls →
  cache (acc w') t sh k = cache (acc w) t sh k.
Proof. intros Hr Hn. unfold cache. f_equal. exact (run_cache e ls w w' (row_of t sh k) Hr Hn). Qed.

(** ** A run

    Transaction 1 updates row 5 of table 0 on shard 7 and transaction 2 reads it;
    the reader is queued until the writer has ended. *)

Definition demo_env : env := mk_env [7] 1 false false 65537 (Some 65540) ∅ 1.
Definition demo_op (type : tx_op_type) (tuple : string) : tx_operation := mk_op type 0 0 0 7 5 tuple 0.
Definition demo_req (op : tx_operation) : tx_request :=
  new_request <| req_oneshot := true |> <| req_operations := [op] |>.

(** The row comes from storage while both are under way. *)
Definition demo_load : list label :=
  [LStart 1 (demo_req (demo_op TX_OP_UPDATE "new")); LCall 0; LRun 1;
   LStart 2 (demo_req (demo_op TX_OP_READ "")); LCall 0; LStorage 1 1 EC_OK 0 7 5 (Some "old"%string)].
(** The writer commits, its end wakes the reader. *)
Definition demo_rest : list label :=
  [LRun 1; LLogged 1 TX_CMD_RM_COMMIT; LCall 0; LRun 2; LRun 2; LLogged 2 TX_CMD_RM_COMMIT].

Definition demo_loaded : world := default (new_world demo_env) (run demo_env demo_load (new_world demo_env)).
Definition demo_end : world := default (new_world demo_env) (run demo_env (demo_load ++ demo_rest) (new_world demo_env)).

Lemma default_run {A} (d : A) (o : option A) : is_Some o → o = Some (default d o).
Proof. by intros [x ->]. Qed.


(** The reader is answered with the tuple from before the committed update. *)
Lemma cached_row_not_refreshed_witness :
  cache (acc demo_end) 0 7 5 = cache (acc demo_loaded) 0 7 5 ∧
  cache (acc demo_loaded) 0 7 5 = Some "old"%string ∧
  (response_ <$> ctxs demo_end !! 2) = Some ["old"%string] ∧ ends (hist demo_end) = [1; 2].
Proof.
  split; [|split_and!; vm_compute; reflexivity].
  apply (cached_row_not_refreshed demo_env demo_rest); [|vm_compute; set_solver].
  etrans; [|apply (default_run (new_world demo_env)); vm_compute; eexists; reflexivity].
  vm_compute. reflexivity.
Defined.

End Isolation.
