(* ===== verification/CalvinSequencer.v ===== *)
(** * Calvin: the sequencer

    [src/concurrency/calvin_sequencer.cpp], the deterministic build's front end.
    Time is cut into epochs.  The sequencer of each shard's leader collects the
    clients' transactions, splits each by shard, and at the end of its epoch
    sends every shard's leader the part that concerns it.  A leader that has the
    parts of all shards sorts them by transaction id and gives them to its
    scheduler; the scheduler acknowledges to all leaders, and a sequencer starts
    its next epoch when all have acknowledged.

    - [split_by_shard]: an epoch's message to a shard holds each transaction
      that concerns the shard, with exactly its operations there, in order. *)

From stdpp Require Import sorting.
From S2P Require Import Prelude Common.
#[local] Open Scope Z_scope.

Module CalvinSequencer.
Import NodeId.

(* @src include/concurrency/calvin_sequencer.h 17 20 epoch_state *)
Inductive epoch_state := EPOCH_IDLE | EPOCH_PENDING.
#[export] Instance epoch_state_eq_dec : EqDecision epoch_state.
Proof. solve_decision. Defined.

(* @src src/proto/calvin.proto 6 11 calvin_epoch *)
Record calvin_epoch := mk_epoch { ep_source : Z; ep_dest : Z; ep_epoch : Z; ep_request : list tx_request }.
(* @src src/proto/calvin.proto 13 17 calvin_epoch_ack *)
Record calvin_epoch_ack := mk_ack { ack_source : Z; ack_dest : Z; ack_epoch : Z }.

(* @src include/concurrency/calvin_epoch_ops.h 12 17 calvin_epoch_ops *)
Record calvin_epoch_ops := mk_ops {
  eo_epoch_ : Z;
  shard_ids_ : gset Z;
  node_ids_ : gset Z;
  reqs_ : list tx_request;
}.
#[export] Instance eta_ops : Eta calvin_epoch_ops := fun o =>
  mk_ops (eo_epoch_ o) (shard_ids_ o) (node_ids_ o) (reqs_ o).

(** [conf_] as the three values the code reads; [local_epoch_] keeps the
    acknowledgements of each epoch in progress. *)
(* @src include/concurrency/calvin_sequencer.h 27 52 calvin_sequencer *)
Record calvin_sequencer := mk_seq {
  conf_node_id : Z;
  conf_num_rg : Z;
  conf_epoch_ms : Z;
  epoch_ : Z;
  state_ : epoch_state;
  tx_request_next_epoch_ : gmap Z (gmap Z tx_request);
  local_epoch_ : gmap Z (gset Z);
  node_id_ : gmap Z Z;
  epoch_ctx_receive_ : gmap Z calvin_epoch_ops;
  is_lead_ : bool;
  is_priority_leader_ : bool;
  start_ : bool;
}.
#[export] Instance eta_seq : Eta calvin_sequencer := fun s =>
  mk_seq (conf_node_id s) (conf_num_rg s) (conf_epoch_ms s) (epoch_ s) (state_ s) (tx_request_next_epoch_ s)
    (local_epoch_ s) (node_id_ s) (epoch_ctx_receive_ s) (is_lead_ s) (is_priority_leader_ s) (start_ s).

Inductive event :=
| SendEpoch (m : calvin_epoch)
| Schedule (ops : calvin_epoch_ops)
| ArmTick (ms : Z)
| AssertFailed.

(** ** Operations *)

(** [lead_nodes] is [conf_.priority_lead_nodes()]. *)
(* @src src/concurrency/calvin_sequencer.cpp 17 32 calvin_sequencer::calvin_sequencer *)
Definition new_sequencer (node_id num_rg epoch_ms : Z) (lead_nodes : gmap Z Z) : calvin_sequencer * list event :=
  (mk_seq node_id num_rg epoch_ms 1 EPOCH_IDLE ∅ ∅ lead_nodes ∅ false
     (bool_decide (lead_nodes !! TO_RG_ID node_id = Some node_id)) false,
   if Z.of_nat (size lead_nodes) =? num_rg then [] else [AssertFailed]).

(** One turn of the loop of [handle_tx_request]. *)
(* @src src/concurrency/calvin_sequencer.cpp 40 62 calvin_sequencer::handle_tx_request *)
Definition add_operation (source : Z) (tx : tx_request) (next : gmap Z (gmap Z tx_request)) (o : tx_operation)
    : gmap Z (gmap Z tx_request) :=
  let t := new_request <| req_terminal_id := req_terminal_id tx |> <| req_xid := req_xid tx |>
             <| req_source := source |> <| req_operations := [o] |> in
  match next !! op_sd_id o with
  | None => <[op_sd_id o := {[req_xid tx := t]}]> next
  | Some reqs =>
      match reqs !! req_xid tx with
      | None => <[op_sd_id o := <[req_xid tx := t]> reqs]> next
      | Some t => <[op_sd_id o := <[req_xid tx := t <| req_operations := req_operations t ++ [o] |>]> reqs]> next
      end
  end.

(* @src src/concurrency/calvin_sequencer.cpp 34 63 calvin_sequencer::handle_tx_request *)
Definition handle_tx_request (tx : tx_request) : act calvin_sequencer event :=
  modify (fun s => s <| tx_request_next_epoch_ :=
    foldl (add_operation (conf_node_id s) tx) (tx_request_next_epoch_ s) (req_operations tx) |>).

(* @src src/concurrency/calvin_sequencer.cpp 65 68 calvin_sequencer::start *)
Definition start : act calvin_sequencer event := modify (fun s => s <| start_ := true |>).

(* @src src/concurrency/calvin_sequencer.cpp 93 93 calvin_sequencer::update_local_lead_state *)
Definition update_local_lead_state (lead : bool) : act calvin_sequencer event := modify (fun s => s <| is_lead_ := lead |>).

Definition key_le {A} (p q : Z * A) : Prop := p.1 ≤ q.1.
#[export] Instance key_le_dec {A} : RelDecision (key_le (A := A)).
Proof. intros p q. unfold key_le. apply _. Defined.

(** The requests collected for a shard, in the order of the [std::map]. *)
Definition requests_for (sid : Z) (next : gmap Z (gmap Z tx_request)) : list tx_request :=
  match next !! sid with
  | Some reqs => map snd (merge_sort key_le (map_to_list reqs))
  | None => []
  end.

(** One turn of the loop over the leaders; [ack] is the set of
    acknowledgements of the new epoch. *)
(* @src src/concurrency/calvin_sequencer.cpp 119 154 calvin_sequencer::epoch_broadcast_request *)
Definition send_epoch (epoch : Z) (ack : gset Z) (kv : Z * Z) : act calvin_sequencer event := fun s =>
  if bool_decide (TO_RG_ID kv.1 ∈ ack) then emit AssertFailed s
  else emit (SendEpoch (mk_epoch (conf_node_id s) kv.2 epoch (requests_for (TO_RG_ID kv.2) (tx_request_next_epoch_ s)))) s.

(* @src src/concurrency/calvin_sequencer.cpp 95 158 calvin_sequencer::epoch_broadcast_request *)
Definition epoch_broadcast_request : act calvin_sequencer event := fun s =>
  if negb (start_ s) then skip s
  else if negb (Z.of_nat (size (node_id_ s)) =? conf_num_rg s) then skip s
  else if negb (is_lead_ s) || negb (is_priority_leader_ s) then skip s
  else match state_ s with
       | EPOCH_IDLE =>
           (modify (fun s => s <| local_epoch_ := match local_epoch_ s !! epoch_ s with
                                                   | None => <[epoch_ s := ∅]> (local_epoch_ s)
                                                   | Some _ => local_epoch_ s
                                                   end |>
                               <| state_ := EPOCH_PENDING |>) ;;
            each (send_epoch (epoch_ s) ∅) (map_to_list (node_id_ s)) ;;
            modify (fun s => s <| tx_request_next_epoch_ := ∅ |> <| epoch_ := u64 (epoch_ s + 1) |>))%act s
       | EPOCH_PENDING => skip s
       end.

(* @src src/concurrency/calvin_sequencer.cpp 70 91 calvin_sequencer::tick *)
Definition tick : act calvin_sequencer event := fun s =>
  (emit (ArmTick (if negb (is_lead_ s) || negb (is_priority_leader_ s) then u32 (conf_epoch_ms s * 10) else conf_epoch_ms s)) ;;
   epoch_broadcast_request)%act s.

(** [std::sort] by transaction id. *)
Definition xid_le (a b : tx_request) : Prop := req_xid a ≤ req_xid b.
#[export] Instance xid_le_dec : RelDecision xid_le.
Proof. intros a b. unfold xid_le. apply _. Defined.
#[export] Instance xid_le_total : Total xid_le.
Proof. intros a b. unfold xid_le. lia. Qed.
#[export] Instance xid_le_trans : Transitive xid_le.
Proof. intros a b c. unfold xid_le. lia. Qed.

(* @src src/concurrency/calvin_sequencer.cpp 225 249 calvin_sequencer::reorder_request *)
Definition reorder_request (lead_nodes : gmap Z Z) (ctx : calvin_epoch_ops) : calvin_epoch_ops :=
  ctx <| node_ids_ := list_to_set (map snd (map_to_list lead_nodes)) ∪ node_ids_ ctx |>
      <| reqs_ := merge_sort xid_le (reqs_ ctx) |>.

(* @src src/concurrency/calvin_sequencer.cpp 160 194 calvin_sequencer::handle_epoch *)
Definition handle_epoch (msg : calvin_epoch) : act calvin_sequencer event := fun s =>
  let epoch := ep_epoch msg in
  let shard := TO_RG_ID (ep_source msg) in
  let ctx := default (mk_ops epoch ∅ ∅ []) (epoch_ctx_receive_ s !! epoch) in
  let store ctx := s <| epoch_ctx_receive_ := <[epoch := ctx]> (epoch_ctx_receive_ s) |> in
  let asserts := (if conf_node_id s =? ep_dest msg then [] else [AssertFailed])
              ++ (if negb (shard =? 0) then [] else [AssertFailed]) in
  if bool_decide (shard ∈ shard_ids_ ctx) then (store ctx, asserts)
  else
    let ctx := ctx <| shard_ids_ := {[shard]} ∪ shard_ids_ ctx |> <| node_ids_ := {[ep_source msg]} ∪ node_ids_ ctx |>
                   <| reqs_ := reqs_ ctx ++ ep_request msg |> in
    if Z.of_nat (size (shard_ids_ ctx)) =? conf_num_rg s
    then let ctx := reorder_request (node_id_ s) ctx in (store ctx, asserts ++ [Schedule ctx])
    else (store ctx, asserts).

(* @src src/concurrency/calvin_sequencer.cpp 196 223 calvin_sequencer::handle_epoch_ack *)
Definition handle_epoch_ack (msg : calvin_epoch_ack) : act calvin_sequencer event := fun s =>
  let asserts := if ack_dest msg =? conf_node_id s then [] else [AssertFailed] in
  match local_epoch_ s !! ack_epoch msg with
  | None => (s, asserts)
  | Some ack =>
      let ack := {[TO_RG_ID (ack_source msg)]} ∪ ack in
      let s := s <| local_epoch_ := <[ack_epoch msg := ack]> (local_epoch_ s) |> in
      if (size ack =? size (node_id_ s))%nat
      then (s <| local_epoch_ := delete (ack_epoch msg) (local_epoch_ s) |>
              <| epoch_ctx_receive_ := delete (ack_epoch msg) (epoch_ctx_receive_ s) |>
              <| state_ := EPOCH_IDLE |>, asserts)
      else (s, asserts)
  end.

(** ** Splitting by shard *)

(** What a shard's part of a transaction is to be. *)
Definition part (source : Z) (tx : tx_request) (sid : Z) : option tx_request :=
  match filter (fun o => op_sd_id o = sid) (req_operations tx) with
  | [] => None
  | ops => Some (new_request <| req_terminal_id := req_terminal_id tx |> <| req_xid := req_xid tx |>
                   <| req_source := source |> <| req_operations := ops |>)
  end.

Definition collected (next : gmap Z (gmap Z tx_request)) (sid xid : Z) : option tx_request := next !! sid ≫= (.!! xid).

Lemma collected_add source tx next o sid xid :
  collected (add_operation source tx next o) sid xid =
  if decide (sid = op_sd_id o ∧ xid = req_xid tx) then
    Some (match collected next sid xid with
          | Some t => t <| req_operations := req_operations t ++ [o] |>
          | None => new_request <| req_terminal_id := req_terminal_id tx |> <| req_xid := req_xid tx |>
                      <| req_source := source |> <| req_operations := [o] |>
          end)
  else collected next sid xid.
Proof.
  unfold collected, add_operation. destruct (decide (sid = op_sd_id o)) as [->|Hs].
  - destruct (next !! op_sd_id o) as [reqs|] eqn:E; simpl.
    + destruct (reqs !! req_xid tx) as [t|] eqn:Et; rewrite lookup_insert_eq; simpl;
        destruct (decide (xid = req_xid tx)) as [->|Hx].
      * rewrite lookup_insert_eq, Et. by rewrite decide_True.
      * rewrite lookup_insert_ne by done. by rewrite decide_False by naive_solver.
      * rewrite lookup_insert_eq, Et. by rewrite decide_True.
      * rewrite lookup_insert_ne by done. by rewrite decide_False by naive_solver.
    + rewrite lookup_insert_eq. simpl. destruct (decide (xid = req_xid tx)) as [->|Hx].
      * rewrite lookup_singleton_eq. by rewrite decide_True.
      * rewrite lookup_singleton_ne by done. by rewrite decide_False by naive_solver.
  - rewrite decide_False by naive_solver.
    destruct (next !! op_sd_id o) as [reqs|]; [destruct (reqs !! req_xid tx)|]; by rewrite lookup_insert_ne.
Qed.

Lemma collected_request source tx ops next sid xid :
  collected (foldl (add_operation source tx) next ops) sid xid =
  if decide (xid = req_xid tx) then
    match collected next sid xid, filter (fun o => op_sd_id o = sid) ops with
    | r, [] => r
    | Some t, ops => Some (t <| req_operations := req_operations t ++ ops |>)
    | None, ops => Some (new_request <| req_terminal_id := req_terminal_id tx |> <| req_xid := req_xid tx |>
                           <| req_source := source |> <| req_operations := ops |>)
    end
  else collected next sid xid.
Proof.
  revert next. induction ops as [|o ops IH]; intros next; simpl.
  - case_decide; [|done]. by destruct (collected next sid xid).
  - rewrite IH, collected_add, filter_cons. destruct (decide (xid = req_xid tx)) as [->|Hx].
    + destruct (decide (sid = op_sd_id o)) as [->|Hs].
      * rewrite (decide_True (P := op_sd_id o = op_sd_id o)), decide_True by done. simpl.
        destruct (collected next _ _) as [t|]; destruct (filter _ ops); simpl; try done. by rewrite <- app_assoc.
      * by rewrite (decide_False (P := op_sd_id o = sid)), decide_False by naive_solver.
    + by rewrite decide_False by naive_solver.
Qed.

(** The transactions of an epoch. *)
Definition collect (source : Z) (txs : list tx_request) : gmap Z (gmap Z tx_request) :=
  foldl (fun next tx => foldl (add_operation source tx) next (req_operations tx)) ∅ txs.

Lemma collected_collect source txs sid xid :
  NoDup (map req_xid txs) →
  collected (collect source txs) sid xid =
  list_find (fun tx => req_xid tx = xid) txs ≫= fun itx => part source itx.2 sid.
Proof.
  intros Hnd. unfold collect. induction txs as [|tx txs IH] using rev_ind; [done|].
  rewrite foldl_app. simpl. rewrite collected_request, IH.
  2: { rewrite map_app in Hnd. by apply NoDup_app in Hnd as [? _]. }
  rewrite map_app in Hnd. apply NoDup_app in Hnd as (_ & Hnew & _).
  destruct (decide (xid = req_xid tx)) as [->|Hx].
  - assert (list_find (fun t => req_xid t = req_xid tx) txs = None) as E.
    { apply list_find_None, Forall_forall. intros t Ht Heq. apply (Hnew (req_xid t)).
      - apply list_elem_of_In, in_map. by apply list_elem_of_In.
      - rewrite Heq. simpl. set_solver. }
    rewrite list_find_app_r by done. rewrite E. simpl. rewrite decide_True by done. simpl.
    unfold part. by destruct (filter _ _).
  - destruct (list_find (fun t => req_xid t = xid) txs) as [[i t]|] eqn:E.
    + by erewrite list_find_app_l.
    + rewrite list_find_app_r by done. simpl. by rewrite decide_False by congruence.
Qed.

#[export] Instance key_le_total {A} : Total (key_le (A := A)).
Proof. intros p q. unfold key_le. lia. Qed.

(** The requests of a [std::map] keyed by their ids. *)
Lemma map_requests (m : gmap Z tx_request) :
  (∀ x r, m !! x = Some r → req_xid r = x) →
  let rs := map snd (merge_sort key_le (map_to_list m)) in
  Sorted xid_le rs ∧ NoDup (map req_xid rs) ∧ ∀ r, r ∈ rs ↔ m !! req_xid r = Some r.
Proof.
  intros Hm. pose proof (merge_sort_Permutation key_le (map_to_list m)) as Hp.
  pose proof (Sorted_merge_sort key_le (map_to_list m)) as Hs.
  assert (∀ p, p ∈ merge_sort key_le (map_to_list m) ↔ m !! p.1 = Some p.2) as Hin.
  { intros [x r]. rewrite Hp. apply elem_of_map_to_list. }
  assert (NoDup (map fst (merge_sort key_le (map_to_list m)))) as Hnd
    by (rewrite Hp; apply NoDup_fst_map_to_list).
  set (l := merge_sort key_le (map_to_list m)) in *.
  assert (∀ p, p ∈ l → req_xid p.2 = p.1) as Hk by (intros p Hpl; by apply Hm, Hin).
  cbn zeta. split_and!.
  - clear Hin Hnd Hp. induction Hs as [|p l Hs IH Hh]; simpl; constructor; [apply IH; set_solver|].
    destruct Hh as [|q l Hq]; simpl; constructor. unfold xid_le. rewrite !Hk by set_solver. exact Hq.
  - replace (map req_xid (map snd l)) with (map fst l); [done|]. rewrite map_map.
    apply map_ext_in. intros p Hpl. symmetry. apply Hk. by apply list_elem_of_In.
  - intros r. rewrite list_elem_of_In, in_map_iff. split.
    + intros (p & <- & Hpl%list_elem_of_In). rewrite Hk by done. by apply Hin.
    + intros Hr. exists (req_xid r, r). split; [done|]. apply list_elem_of_In, (Hin (_, _)), Hr.
Qed.

Lemma part_xid source tx sid r : part source tx sid = Some r → req_xid r = req_xid tx.
Proof. unfold part. destruct (filter _ _); [done|]. by intros [= <-]. Qed.

Lemma requests_collect source txs sid :
  NoDup (map req_xid txs) →
  let rs := requests_for sid (collect source txs) in
  Sorted xid_le rs ∧ NoDup (map req_xid rs) ∧ ∀ r, r ∈ rs ↔ ∃ tx, tx ∈ txs ∧ part source tx sid = Some r.
Proof.
  intros Hnd. pose proof (fun x => collected_collect source txs sid x Hnd) as Hc.
  assert (∀ r, collected (collect source txs) sid (req_xid r) = Some r ↔ ∃ tx, tx ∈ txs ∧ part source tx sid = Some r) as Hr.
  { intros r. rewrite Hc. split.
    - intros ([i tx] & Hf & Hpt)%bind_Some. apply list_find_Some in Hf as (Hi & _).
      exists tx. split; [by eapply list_elem_of_lookup_2|done].
    - intros (tx & Hin & Hpt). apply part_xid in Hpt as Hx. rewrite Hx.
      destruct (list_find (fun t => req_xid t = req_xid tx) txs) as [[i t]|] eqn:Hf; simpl.
      + apply list_find_Some in Hf as (Hi & Hxt & _).
        replace t with tx; [done|]. apply list_elem_of_lookup in Hin as [j Hj].
        assert (i = j) as <-; [|congruence].
        apply (NoDup_lookup (map req_xid txs) i j (req_xid tx) Hnd); rewrite list_lookup_fmap.
        * by rewrite Hi; simpl; rewrite Hxt.
        * by rewrite Hj.
      + apply list_find_None in Hf. rewrite Forall_forall in Hf. by destruct (Hf tx Hin). }
  unfold requests_for. destruct (collect source txs !! sid) as [m|] eqn:E.
  - assert (∀ x, collected (collect source txs) sid x = m !! x) as Em by (intros x; unfold collected; by rewrite E).
    destruct (map_requests m) as (H1 & H2 & H3).
    { intros x r Hx. rewrite <- Em, Hc in Hx. apply bind_Some in Hx as ([i tx] & Hf & Hpt).
      apply list_find_Some in Hf as (_ & Hxt & _). apply part_xid in Hpt. simpl in *. congruence. }
    split_and!; [done|done|]. intros r. by rewrite H3, <- Em.
  - split_and!; [constructor|constructor|]. intros r. rewrite <- Hr. unfold collected. rewrite E. simpl.
    split; [by intros ?%elem_of_nil|done].
Qed.

(** ** Broadcasting *)

Definition may_broadcast (s : calvin_sequencer) : Prop :=
  start_ s = true ∧ Z.of_nat (size (node_id_ s)) = conf_num_rg s ∧ is_lead_ s = true ∧
  is_priority_leader_ s = true ∧ state_ s = EPOCH_IDLE.

Definition epoch_message (s : calvin_sequencer) (kv : Z * Z) : calvin_epoch :=
  mk_epoch (conf_node_id s) kv.2 (epoch_ s) (requests_for (TO_RG_ID kv.2) (tx_request_next_epoch_ s)).

Definition broadcasted (s : calvin_sequencer) : calvin_sequencer :=
  s <| local_epoch_ := match local_epoch_ s !! epoch_ s with
                       | None => <[epoch_ s := ∅]> (local_epoch_ s)
                       | Some _ => local_epoch_ s
                       end |>
    <| state_ := EPOCH_PENDING |> <| tx_request_next_epoch_ := ∅ |> <| epoch_ := u64 (epoch_ s + 1) |>.

Lemma send_epochs e l s :
  each (send_epoch e ∅) l s =
  (s, map (fun kv => SendEpoch (mk_epoch (conf_node_id s) kv.2 e (requests_for (TO_RG_ID kv.2) (tx_request_next_epoch_ s)))) l).
Proof.
  induction l as [|kv l IH]; [done|]. simpl. rewrite and_then_eq.
  assert (∀ kv s, send_epoch e ∅ kv s = emit (SendEpoch (mk_epoch (conf_node_id s) kv.2 e
    (requests_for (TO_RG_ID kv.2) (tx_request_next_epoch_ s)))) s) as E.
  { intros kv' s'. unfold send_epoch. by rewrite bool_decide_eq_false_2 by set_solver. }
  rewrite E. simpl. by rewrite IH.
Qed.

Lemma may_broadcast_sends s :
  may_broadcast s → epoch_broadcast_request s
     = (broadcasted s, map (fun kv => SendEpoch (epoch_message s kv)) (map_to_list (node_id_ s))).
Proof.
  intros (H1 & H2 & H3 & H4 & H5). unfold epoch_broadcast_request. rewrite H1, H2, H3, H4, H5, Z.eqb_refl. simpl.
  rewrite modify_then, and_then_eq, send_epochs. simpl. by rewrite app_nil_r.
Qed.

Lemma broadcast_cases s : may_broadcast s ∨ epoch_broadcast_request s = (s, []).
Proof.
  unfold may_broadcast, epoch_broadcast_request. destruct (start_ s); [|by right]. simpl.
  destruct (Z.eqb_spec (Z.of_nat (size (node_id_ s))) (conf_num_rg s)) as [->|]; [|by right]. simpl.
  destruct (is_lead_ s); [|by right]. destruct (is_priority_leader_ s); [|by right]. simpl.
  destruct (state_ s); [by left|by right].
Qed.

Lemma collect_requests txs s :
  tx_request_next_epoch_ s = ∅ →
  each handle_tx_request txs s = (s <| tx_request_next_epoch_ := collect (conf_node_id s) txs |>, []).
Proof.
  intros H0. unfold collect. rewrite <- H0. clear H0. revert s.
  induction txs as [|tx txs IH]; intros s; simpl; [by destruct s|].
  unfold handle_tx_request at 1. rewrite modify_then, IH. simpl. done.
Qed.

(** C29: An epoch's messages split the transactions by shard.  A started leader
    that has collected the requests [txs], of different ids, since its last epoch
    sends one message to each leader, with its epoch number: the message holds
    one request for each transaction that has operations on the leader's shard,
    with exactly those operations in their order, sorted by transaction id, and
    nothing else.  It then waits, with nothing collected. *)
Theorem split_by_shard txs s :
  NoDup (map req_xid txs) → tx_request_next_epoch_ s = ∅ → may_broadcast s →
  ∃ s' evs, (each handle_tx_request txs ;; epoch_broadcast_request)%act s = (s', evs) ∧
    state_ s' = EPOCH_PENDING ∧ tx_request_next_epoch_ s' = ∅ ∧
    (∀ m, SendEpoch m ∈ evs ↔ ∃ shard n, node_id_ s !! shard = Some n ∧
       m = mk_epoch (conf_node_id s) n (epoch_ s) (requests_for (TO_RG_ID n) (collect (conf_node_id s) txs))) ∧
    ∀ sid, let rs := requests_for sid (collect (conf_node_id s) txs) in
      Sorted xid_le rs ∧ NoDup (map req_xid rs) ∧
      ∀ r, r ∈ rs ↔ ∃ tx, tx ∈ txs ∧ part (conf_node_id s) tx sid = Some r.
Proof.
  intros Hnd H0 Hb. rewrite and_then_eq, collect_requests by done. simpl.
  rewrite may_broadcast_sends by done. simpl. eexists _, _. split; [done|]. split; [done|]. split; [done|].
  split; [|intros sid; by apply requests_collect].
  intros m. rewrite list_elem_of_In, in_map_iff. split.
  - intros ([sh n] & [= <-] & Hkv%list_elem_of_In%elem_of_map_to_list). by exists sh, n.
  - intros (sh & n & Hn & ->). exists (sh, n). split; [done|]. by apply list_elem_of_In, elem_of_map_to_list.
Qed.

Definition demo_tx (xid : Z) (sds : list Z) : tx_request :=
  new_request <| req_xid := xid |> <| req_operations := map (fun sd => mk_op TX_OP_UPDATE xid sd 1 sd 7 "row" sd) sds |>.

Definition demo_sequencer : calvin_sequencer :=
  (new_sequencer 0x10001 2 10 {[1 := 0x10001; 2 := 0x20001]}).1 <| start_ := true |> <| is_lead_ := true |>.

Lemma split_by_shard_witness :
  ∃ s' evs, (each handle_tx_request [demo_tx 9 [1; 2; 1]; demo_tx 4 [2]] ;; epoch_broadcast_request)%act demo_sequencer = (s', evs) ∧
    ∃ r1 r2, SendEpoch (mk_epoch 0x10001 0x20001 1 [r1; r2]) ∈ evs ∧ req_xid r1 = 4 ∧ req_xid r2 = 9.
Proof.
  destruct (split_by_shard [demo_tx 9 [1; 2; 1]; demo_tx 4 [2]] demo_sequencer) as (s' & evs & E & _ & _ & H & _).
  - apply NoDup_cons. split; [set_solver|]. apply NoDup_singleton.
  - reflexivity.
  - split_and!; vm_compute; reflexivity.
  - exists s', evs. split; [exact E|]. do 2 eexists. split.
    + apply H. exists 2, 0x20001. split; [reflexivity|]. vm_compute. reflexivity.
    + split; reflexivity.
Defined.

End CalvinSequencer.
