(* ===== verification/CalvinEpochs.v ===== *)
(** * Calvin: the epochs of all sequencers

    The sequencers of [CalvinSequencer] and the network between them.  A message
    is delivered at most once, in any order, or lost; the scheduler of a leader
    acknowledges an epoch it was given at any later time, and more than once if
    it likes.

    - [lockstep]: in every run, whatever the order of the messages and whichever
      are lost, each leader schedules the epochs 1, 2, 3, ... in order, the
      requests of an epoch sorted by transaction id and exactly those the leaders
      sent for it, one message from each; no leader is more than one epoch ahead
      of another. *)

From stdpp Require Import sorting functions.
From S2P Require Import Prelude Common.
From S2P Require Import CalvinSequencer.
#[local] Open Scope Z_scope.

Module CalvinEpochs.
Import NodeId CalvinSequencer.CalvinSequencer.

(** The sequencers and what their schedulers were given, by shard; the messages
    in flight; all epoch messages ever sent; whether an assertion failed. *)
Record world := mk_world {
  seqs : Z → calvin_sequencer;
  sched : Z → list calvin_epoch_ops;
  net : list calvin_epoch;
  acks : list calvin_epoch_ack;
  hist : list calvin_epoch;
  failed : bool;
}.

Definition sends (evs : list event) : list calvin_epoch :=
  omap (fun e => match e with SendEpoch m => Some m | _ => None end) evs.
Definition schedules (evs : list event) : list calvin_epoch_ops :=
  omap (fun e => match e with Schedule o => Some o | _ => None end) evs.
Definition asserted (evs : list event) : bool :=
  existsb (fun e => match e with AssertFailed => true | _ => false end) evs.

(** The handler [h] runs at shard [s], with [ms] and [xs] in flight. *)
Definition perform (s : Z) (h : act calvin_sequencer event) (ms : list calvin_epoch) (xs : list calvin_epoch_ack) (w : world) : world :=
  let '(q, evs) := h (seqs w s) in
  mk_world (<[s := q]> (seqs w)) (<[s := sched w s ++ schedules evs]> (sched w)) (ms ++ sends evs) xs
    (hist w ++ sends evs) (failed w || asserted evs).

Section system.
(** The leader of each shard, as every node's configuration has it. *)
Context (nodes : gmap Z Z) (epoch_ms : Z).

Definition initial : world :=
  mk_world (fun s => (new_sequencer (default 0 (nodes !! s)) (Z.of_nat (size nodes)) epoch_ms nodes).1) (fun _ => []) [] [] [] false.

(** The epoch counter does not reach the end of its 64 bits. *)
Inductive step : world → world → Prop :=
| step_request w s n tx : nodes !! s = Some n → step w (perform s (handle_tx_request tx) (net w) (acks w) w)
| step_start w s n : nodes !! s = Some n → step w (perform s start (net w) (acks w) w)
| step_lead w s n b : nodes !! s = Some n → step w (perform s (update_local_lead_state b) (net w) (acks w) w)
| step_tick w s n :
    nodes !! s = Some n → epoch_ (seqs w s) + 1 < 2 ^ 64 → step w (perform s tick (net w) (acks w) w)
| step_epoch w s m l1 l2 :
    nodes !! s = Some (ep_dest m) → net w = l1 ++ m :: l2 → step w (perform s (handle_epoch m) (l1 ++ l2) (acks w) w)
| step_ack w s m l1 l2 :
    nodes !! s = Some (ack_dest m) → acks w = l1 ++ m :: l2 → step w (perform s (handle_epoch_ack m) (net w) (l1 ++ l2) w)
| step_send_ack w s n ops :
    nodes !! s = Some n → ops ∈ sched w s →
    step w (mk_world (seqs w) (sched w) (net w) (acks w ++ map (fun d => mk_ack n d (eo_epoch_ ops)) (elements (node_ids_ ops)))
              (hist w) (failed w))
| step_lose w m l1 l2 :
    net w = l1 ++ m :: l2 → step w (mk_world (seqs w) (sched w) (l1 ++ l2) (acks w) (hist w) (failed w))
| step_lose_ack w m l1 l2 :
    acks w = l1 ++ m :: l2 → step w (mk_world (seqs w) (sched w) (net w) (l1 ++ l2) (hist w) (failed w)).

Definition reachable : world → Prop := rtc step initial.

(** ** The invariant *)

Definition given (w : world) (s : Z) : Z := Z.of_nat (length (sched w s)).
Definition key (m : calvin_epoch) : Z * Z * Z := (ep_source m, ep_dest m, ep_epoch m).

(** A shard's own epoch: it waits for acknowledgements, or has them all. *)
Definition epoch_ok (k : Z → Z) (q : calvin_sequencer) : Prop :=
  match state_ q with
  | EPOCH_IDLE => local_epoch_ q = ∅ ∧ ∀ t, t ∈ dom nodes → epoch_ q - 1 ≤ k t
  | EPOCH_PENDING => ∃ A, local_epoch_ q = {[epoch_ q - 1 := A]} ∧ A ⊆ dom nodes ∧
      (∀ t, t ∈ A → epoch_ q - 1 ≤ k t) ∧ ∀ t, t ∈ dom nodes → epoch_ q - 2 ≤ k t
  end.

(** The messages [ms] of epoch [e] to node [n] make up [o]. *)
Record made_of (H : list calvin_epoch) (n e : Z) (o : calvin_epoch_ops) (ms : list calvin_epoch) : Prop := {
  mo_epoch : eo_epoch_ o = e;
  mo_reqs : reqs_ o ≡ₚ concat (map ep_request ms);
  mo_shards : shard_ids_ o = list_to_set (map (fun m => TO_RG_ID (ep_source m)) ms);
  mo_nodup : NoDup (map ep_source ms);
  mo_sent : ∀ m, m ∈ ms → m ∈ H ∧ ep_dest m = n ∧ ep_epoch m = e;
}.

Record inv (w : world) : Prop := {
  i_conf : ∀ s n, nodes !! s = Some n →
    conf_node_id (seqs w s) = n ∧ conf_num_rg (seqs w s) = Z.of_nat (size nodes) ∧ node_id_ (seqs w s) = nodes;
  i_epoch : ∀ s n, nodes !! s = Some n → 1 ≤ epoch_ (seqs w s) ∧ epoch_ok (given w) (seqs w s);
  i_ack : ∀ m, m ∈ acks w → ∃ t n, nodes !! t = Some n ∧ ack_source m = n ∧ ack_epoch m ≤ given w t;
  i_order : ∀ s n, nodes !! s = Some n → map eo_epoch_ (sched w s) = seqZ 1 (given w s);
  i_ops : ∀ s n o, nodes !! s = Some n → o ∈ sched w s →
    Sorted xid_le (reqs_ o) ∧ shard_ids_ o = dom nodes ∧ ∃ ms, made_of (hist w) n (eo_epoch_ o) o ms;
  i_behind : ∀ s t n n', nodes !! s = Some n → nodes !! t = Some n' → given w t ≤ epoch_ (seqs w s) - 1;
  i_hist : ∀ m, m ∈ hist w → ∃ s t, nodes !! s = Some (ep_source m) ∧ nodes !! t = Some (ep_dest m) ∧
    1 ≤ ep_epoch m < epoch_ (seqs w s);
  i_keys : NoDup (map key (hist w));
  i_net : net w ⊆+ hist w;
  i_recv : ∀ s n e o, nodes !! s = Some n → epoch_ctx_receive_ (seqs w s) !! e = Some o → given w s < e →
    ∃ ms, made_of (hist w) n e o ms;
  i_new : ∀ s m, nodes !! s = Some (ep_dest m) → m ∈ net w → given w s < ep_epoch m ∧
    ∀ o, epoch_ctx_receive_ (seqs w s) !! ep_epoch m = Some o → TO_RG_ID (ep_source m) ∉ shard_ids_ o;
  i_failed : failed w = false;
}.

Hypothesis shard_of_node : ∀ s n, nodes !! s = Some n → TO_RG_ID n = s ∧ s ≠ 0.

Lemma node_shard s t n : nodes !! s = Some n → nodes !! t = Some n → s = t.
Proof. intros [Hs _]%shard_of_node [Ht _]%shard_of_node. congruence. Qed.

Lemma elem_of_middle {A} (x y : A) l1 l2 : x ∈ l1 ++ l2 → x ∈ l1 ++ y :: l2.
Proof. rewrite !elem_of_app, elem_of_cons. naive_solver. Qed.

Lemma inv_initial : inv initial.
Proof.
  split; simpl; try done; try (intros; by constructor); try (by intros m ?%elem_of_nil).
  - intros s n Hs. by rewrite Hs.
  - by intros s n o _ ?%elem_of_nil.
  - by intros s m _ ?%elem_of_nil.
Qed.

(** Only lower bounds. *)
Lemma epoch_ok_mono (k k' : Z → Z) q : (∀ t, k t ≤ k' t) → epoch_ok k q → epoch_ok k' q.
Proof.
  intros Hk. unfold epoch_ok. destruct (state_ q).
  - intros [? H]. split; [done|]. intros t Ht. etrans; [by apply H|done].
  - intros (A & ? & ? & H1 & H2). exists A. split_and!; [done|done|..]; intros t Ht; (etrans; [|apply Hk]); auto.
Qed.

(** ** Steps that give no scheduler anything and send no epoch *)

Definition same_conf (q q' : calvin_sequencer) : Prop :=
  conf_node_id q' = conf_node_id q ∧ conf_num_rg q' = conf_num_rg q ∧ node_id_ q' = node_id_ q.

Record quiet (k : Z → Z) (q q' : calvin_sequencer) : Prop := {
  q_conf : same_conf q q';
  q_epoch : epoch_ q' = epoch_ q;
  q_ok : epoch_ok k q → epoch_ok k q';
  q_recv : ∀ e o, epoch_ctx_receive_ q' !! e = Some o → epoch_ctx_receive_ q !! e = Some o;
}.

Lemma quiet_refl k q : quiet k q q.
Proof. by split. Qed.

Lemma inv_quiet w w' :
  inv w → (∀ s n, nodes !! s = Some n → quiet (given w) (seqs w s) (seqs w' s)) →
  (∀ s, sched w' s = sched w s) → net w' ⊆+ net w →
  (∀ m, m ∈ acks w' → m ∈ acks w ∨ ∃ t n, nodes !! t = Some n ∧ ack_source m = n ∧ ack_epoch m ≤ given w t) →
  hist w' = hist w → failed w' = false → inv w'.
Proof.
  intros H Hq Hsch Hnet Hack Hh Hf.
  assert (∀ s, given w' s = given w s) as Hg by (intros s; unfold given; by rewrite Hsch).
  split; rewrite ?Hh; try done.
  - intros s n Hs. destruct (i_conf _ H s n Hs) as (? & ? & ?), (q_conf _ _ _ (Hq s n Hs)) as (? & ? & ?).
    split_and!; congruence.
  - intros s n Hs. destruct (i_epoch _ H s n Hs) as [H1 H2], (Hq s n Hs) as [_ He Hok _].
    rewrite He. split; [done|]. 
    apply (epoch_ok_mono (given w)); [|by apply Hok]. intros u. by rewrite Hg.
  - intros m Hm. setoid_rewrite Hg. destruct (Hack m Hm) as [Hin|Hn]; [by apply H|done].
  - intros s n Hs. rewrite Hsch, Hg. by eapply i_order.
  - intros s n o Hs Ho. rewrite Hsch in Ho. by eapply i_ops.
  - intros s t n n' Hs Ht. rewrite Hg, (q_epoch _ _ _ (Hq s n Hs)). by eapply i_behind.
  - intros m Hm. destruct (i_hist _ H m Hm) as (s & t & Hs & Ht & He). exists s, t.
    by rewrite (q_epoch _ _ _ (Hq s _ Hs)).
  - apply H.
  - etrans; [done|apply H].
  - intros s n e o Hs Ho. rewrite Hg. apply (i_recv _ H); [done|]. by apply (q_recv _ _ _ (Hq s n Hs)).
  - intros s m Hs Hm. rewrite Hg. destruct (i_new _ H s m Hs) as [Hlt Hno]; [by eapply elem_of_submseteq|].
    split; [done|]. intros o Ho. apply Hno. by apply (q_recv _ _ _ (Hq s _ Hs)).
Qed.

(** A handler that makes no calls. *)
Lemma inv_silent w s h ms xs q :
  inv w → h (seqs w s) = (q, []) → quiet (given w) (seqs w s) q → ms ⊆+ net w → xs ⊆ acks w →
  inv (perform s h ms xs w).
Proof.
  intros H Eh Hq Hms Hxs. unfold perform. rewrite Eh. apply (inv_quiet w); simpl; try done.
  - intros t n Ht. destruct (decide (t = s)) as [->|Hne].
    + by rewrite fn_lookup_insert.
    + rewrite fn_lookup_insert_ne by done. apply quiet_refl.
  - intros t. destruct (decide (t = s)) as [->|Hne].
    + by rewrite fn_lookup_insert, app_nil_r.
    + by rewrite fn_lookup_insert_ne by done.
  - by rewrite app_nil_r.
  - intros m Hm. left. by apply Hxs.
  - by rewrite app_nil_r.
  - by rewrite (i_failed _ H).
Qed.

Lemma handle_epoch_ack_quiet w s m :
  inv w → nodes !! s = Some (ack_dest m) → m ∈ acks w →
  ∃ q, handle_epoch_ack m (seqs w s) = (q, []) ∧ quiet (given w) (seqs w s) q.
Proof.
  intros H Hs Hm. destruct (i_conf _ H s _ Hs) as (Hc1 & Hc2 & Hc3), (i_epoch _ H s _ Hs) as [He Hok].
  unfold handle_epoch_ack. rewrite Hc1, Z.eqb_refl.
  destruct (local_epoch_ (seqs w s) !! ack_epoch m) as [A|] eqn:EA.
  2: { eexists. split; [reflexivity|apply quiet_refl]. }
  unfold epoch_ok in Hok. destruct (state_ (seqs w s)) eqn:Est.
  { destruct Hok as [Hl _]. rewrite Hl, lookup_empty in EA. done. }
  destruct Hok as (A' & Hl & Hsub & HA & Hk). rewrite Hl in EA.
  apply lookup_singleton_Some in EA as [Hem ->].
  destruct (i_ack _ H m Hm) as (t & nt & Ht & Hsrc & Hkt). rewrite Hsrc.
  destruct (shard_of_node t nt Ht) as [-> _].
  assert (t ∈ dom nodes) as Htd by (by apply elem_of_dom_2 in Ht).
  assert (∀ u, u ∈ {[t]} ∪ A → epoch_ (seqs w s) - 1 ≤ given w u) as HA'.
  { intros u [->%elem_of_singleton|Hu]%elem_of_union; [lia|by apply HA]. }
  simpl. rewrite Hc3. destruct (Nat.eqb_spec (size ({[t]} ∪ A)) (size nodes)) as [Hsz|Hsz]; eexists; (split; [reflexivity|]); split; try done.
  - intros _. unfold epoch_ok. simpl. split.
    + rewrite Hl, <- Hem, insert_singleton_eq. apply delete_singleton_eq.
    + intros u Hu. apply HA'. rewrite <- size_dom in Hsz.
      assert ({[t]} ∪ A = dom nodes) as ->; [|done]. apply set_subseteq_size_eq; [set_solver|lia].
  - simpl. intros e o. rewrite lookup_delete_Some. by intros [_ ?].
  - intros _. unfold epoch_ok. simpl. rewrite Est. exists ({[t]} ∪ A). split_and!; [|set_solver|done|done].
    rewrite Hl, <- Hem. apply insert_singleton_eq.
Qed.

(** ** A broadcast *)

Definition new_messages (q : calvin_sequencer) : list calvin_epoch := map (epoch_message q) (map_to_list nodes).

Lemma elem_of_new q m :
  m ∈ new_messages q → ∃ t n, nodes !! t = Some n ∧ m = epoch_message q (t, n).
Proof.
  intros Hm%list_elem_of_In. apply in_map_iff in Hm as ([t n] & <- & Hm%list_elem_of_In%elem_of_map_to_list). by exists t, n.
Qed.

Lemma new_keys q : NoDup (map key (new_messages q)).
Proof.
  unfold new_messages. rewrite map_map.
  apply (NoDup_fmap_2_strong (fun kv : Z * Z => key (epoch_message q kv))); [|apply NoDup_map_to_list].
  intros [s n] [t n'] Hs%elem_of_map_to_list Ht%elem_of_map_to_list [= E]. simpl in *. subst n'.
  by rewrite (node_shard s t n Hs Ht).
Qed.

Lemma tick_events q :
  node_id_ q = nodes → may_broadcast q →
  ∃ ms, tick q = (broadcasted q, ArmTick ms :: map SendEpoch (new_messages q)).
Proof.
  intros Hn Hb. unfold tick. rewrite and_then_eq. simpl. rewrite may_broadcast_sends by done. simpl.
  eexists. unfold new_messages. by rewrite map_map, Hn.
Qed.

Lemma sends_messages ms : sends (map SendEpoch ms) = ms.
Proof. induction ms as [|m ms IH]; [done|]. unfold sends in *. simpl. by f_equal. Qed.

Lemma sends_quiet ms : schedules (map SendEpoch ms) = [] ∧ asserted (map SendEpoch ms) = false.
Proof. by induction ms as [|m ms [IH1 IH2]]. Qed.

Lemma made_of_more H H' n e o ms : made_of H n e o ms → made_of (H ++ H') n e o ms.
Proof. intros [? ? ? ? Hs]. split; try done. intros m Hm. destruct (Hs m Hm) as (? & ? & ?). set_solver. Qed.

(** No message of a broadcast was sent before. *)
Lemma broadcast_keys w s n : inv w → nodes !! s = Some n → NoDup (map key (hist w ++ new_messages (seqs w s))).
Proof.
  intros H Hs. destruct (i_conf _ H s n Hs) as (Hc1 & _). rewrite map_app. apply NoDup_app. split_and!; [apply H| |apply new_keys].
  intros k Hk1 Hk2. apply list_elem_of_In, in_map_iff in Hk1 as (m & <- & Hm%list_elem_of_In).
  apply list_elem_of_In, in_map_iff in Hk2 as (m' & Ek & Hm'%list_elem_of_In).
  apply elem_of_new in Hm' as (t & nt & Ht & ->). injection Ek as E1 E2 E3.
  destruct (i_hist _ H m Hm) as (u & t' & Hu & _ & Hm'). rewrite <- E1, Hc1 in Hu.
  rewrite (node_shard u s n Hu Hs) in Hm'. lia.
Qed.

(** Nor has its receiver anything of it. *)
Lemma broadcast_new w s n t m :
  inv w → nodes !! s = Some n → nodes !! t = Some (ep_dest m) → m ∈ new_messages (seqs w s) →
  given w t < ep_epoch m ∧
  ∀ o, epoch_ctx_receive_ (seqs w t) !! ep_epoch m = Some o → TO_RG_ID (ep_source m) ∉ shard_ids_ o.
Proof.
  intros H Hs Ht Hm. destruct (i_conf _ H s n Hs) as (Hc1 & _). apply elem_of_new in Hm as (u & nu & Hu & ->). simpl in *.
  assert (given w t < epoch_ (seqs w s)) as Hgt by (pose proof (i_behind _ H s t _ _ Hs Ht); lia).
  split; [done|]. intros o Ho Hin. destruct (i_recv _ H t _ _ o Ht Ho Hgt) as (ms' & [_ _ Hsh _ Hsent]).
  rewrite Hsh in Hin. apply elem_of_list_to_set, list_elem_of_In, in_map_iff in Hin as (m & Em & Hm%list_elem_of_In).
  destruct (Hsent m Hm) as (Hh & _ & Hme). destruct (i_hist _ H m Hh) as (v & v' & Hv & _ & Hve).
  rewrite Hc1 in Em. rewrite (proj1 (shard_of_node v _ Hv)), (proj1 (shard_of_node s _ Hs)) in Em. subst v. lia.
Qed.

Lemma inv_broadcast w s n ms :
  inv w → nodes !! s = Some n → epoch_ (seqs w s) + 1 < 2 ^ 64 → may_broadcast (seqs w s) →
  tick (seqs w s) = (broadcasted (seqs w s), ArmTick ms :: map SendEpoch (new_messages (seqs w s))) →
  inv (perform s tick (net w) (acks w) w).
Proof.
  intros H Hs Hlt Hb E. unfold perform. rewrite E. set (q := seqs w s) in *.
  destruct (i_conf _ H s n Hs) as (Hc1 & Hc2 & Hc3), (i_epoch _ H s n Hs) as [He Hok]. fold q in Hc1, Hc2, Hc3, He, Hok.
  assert (epoch_ (broadcasted q) = epoch_ q + 1) as He'.
  { unfold broadcasted. simpl. apply wrap_small. unfold fits. lia. }
  assert (state_ q = EPOCH_IDLE) as Hst by apply Hb. unfold epoch_ok in Hok. rewrite Hst in Hok. destruct Hok as [Hl Hk].
  assert (sends (ArmTick ms :: map SendEpoch (new_messages q)) = new_messages q) as -> by apply sends_messages.
  destruct (sends_quiet (new_messages q)) as [Hs1 Hs2].
  assert (schedules (ArmTick ms :: map SendEpoch (new_messages q)) = []) as -> by exact Hs1.
  set (w' := mk_world _ _ _ _ _ _).
  assert (∀ t, sched w' t = sched w t) as Hsch.
  { intros t. simpl. destruct (decide (t = s)) as [->|Hne]; [by rewrite fn_lookup_insert, app_nil_r|by rewrite fn_lookup_insert_ne]. }
  assert (∀ t, given w' t = given w t) as Hg by (intros t; unfold given; by rewrite Hsch).
  assert (∀ t, t ≠ s → seqs w' t = seqs w t) as Hother by (intros t Ht; simpl; by rewrite fn_lookup_insert_ne).
  assert (seqs w' s = broadcasted q) as Hself by (simpl; by rewrite fn_lookup_insert).
  assert (∀ t, epoch_ (seqs w t) ≤ epoch_ (seqs w' t)) as Hmono.
  { intros t. destruct (decide (t = s)) as [->|Ht]; [rewrite Hself; fold q; lia|by rewrite Hother]. }
  assert (∀ t, epoch_ctx_receive_ (seqs w' t) = epoch_ctx_receive_ (seqs w t)) as Hrecv.
  { intros t. destruct (decide (t = s)) as [->|Ht]; [by rewrite Hself|by rewrite Hother]. }
  split.
  - intros t nt Ht. destruct (decide (t = s)) as [->|Hne]; [rewrite Hself|rewrite Hother by done]; by apply (i_conf _ H).
  - intros t nt Ht. destruct (decide (t = s)) as [->|Hne].
    + rewrite Hself, He'. split; [lia|]. unfold epoch_ok. rewrite He'. simpl. rewrite Hl, lookup_empty. exists ∅.
      split_and!; [by rewrite Z.add_simpl_r|set_solver|set_solver|]. intros u Hu. rewrite Hg. specialize (Hk u Hu). lia.
    + rewrite Hother by done. destruct (i_epoch _ H t nt Ht) as [H1 H2]. split; [done|].
      apply (epoch_ok_mono (given w)); [|done]. intros u. by rewrite Hg.
  - simpl. setoid_rewrite Hg. apply H.
  - intros t nt Ht. rewrite Hsch, Hg. by apply (i_order _ H t nt).
  - intros t nt o Ht Ho. rewrite Hsch in Ho. destruct (i_ops _ H t nt o Ht Ho) as (? & ? & ms' & Hm).
    split_and!; [done|done|]. exists ms'. by apply made_of_more.
  - intros u t nu nt Hu Ht. rewrite Hg. etrans; [apply (i_behind _ H u t nu nt Hu Ht)|]. specialize (Hmono u). lia.
  - simpl. intros m [Hm|Hm]%elem_of_app.
    + destruct (i_hist _ H m Hm) as (u & t & Hu & Ht & Hm'). exists u, t. split_and!; try done; [lia|].
      specialize (Hmono u). simpl in Hmono. lia.
    + apply elem_of_new in Hm as (t & nt & Ht & ->). exists s, t. simpl in Hself. rewrite Hself. simpl.
      rewrite Hc1. split_and!; [done|done|lia|]. change (epoch_ q < epoch_ (broadcasted q)). lia.
  - by eapply broadcast_keys.
  - simpl. apply submseteq_app; [apply H|done].
  - intros t nt e o Ht. rewrite Hrecv, Hg. intros Ho Hlt'. destruct (i_recv _ H t nt e o Ht Ho Hlt') as (ms' & Hm). exists ms'. by apply made_of_more.
  - intros t m Ht. rewrite Hrecv, Hg. simpl. intros [Hm|Hm]%elem_of_app; [by apply H|].
    exact (broadcast_new w s n t m H Hs Ht Hm).
  - simpl. rewrite (i_failed _ H). exact Hs2.
Qed.

(** ** A delivery *)

(** The parts of epoch [e] with the message [m] added. *)
Definition with_message (m : calvin_epoch) (o : calvin_epoch_ops) : calvin_epoch_ops :=
  o <| shard_ids_ := {[TO_RG_ID (ep_source m)]} ∪ shard_ids_ o |> <| node_ids_ := {[ep_source m]} ∪ node_ids_ o |>
    <| reqs_ := reqs_ o ++ ep_request m |>.

Definition parts (e : Z) (q : calvin_sequencer) : calvin_epoch_ops := default (mk_ops e ∅ ∅ []) (epoch_ctx_receive_ q !! e).

Lemma made_of_add H n e o ms m :
  made_of H n e o ms → m ∈ H → ep_dest m = n → ep_epoch m = e → TO_RG_ID (ep_source m) ∉ shard_ids_ o →
  made_of H n e (with_message m o) (ms ++ [m]).
Proof.
  intros [He0 Hr Hsh Hnd Hs] Hm Hd He Hnew. split; simpl; [done|..].
  - by rewrite map_app, concat_app, Hr; simpl; rewrite app_nil_r.
  - rewrite Hsh, map_app, list_to_set_app_L. simpl. set_solver.
  - rewrite map_app. apply NoDup_app. split_and!; [done| |apply NoDup_singleton].
    intros x Hx1 ->%list_elem_of_singleton. apply Hnew. rewrite Hsh. apply elem_of_list_to_set.
    apply list_elem_of_In, in_map_iff in Hx1 as (m' & Em & Hm'). apply list_elem_of_In, in_map_iff. exists m'. by rewrite Em.
  - intros m' [Hm'| ->%list_elem_of_singleton]%elem_of_app; [by apply Hs|done].
Qed.

Lemma made_of_reorder H n e o ms : made_of H n e o ms → made_of H n e (reorder_request nodes o) ms.
Proof. intros [He Hr Hsh Hnd Hs]. split; try done. simpl. by rewrite merge_sort_Permutation. Qed.

(** No epoch is more than two past what a leader has given its scheduler. *)
Lemma epoch_bound w u t n : inv w → nodes !! u = Some n → t ∈ dom nodes → epoch_ (seqs w u) - 2 ≤ given w t.
Proof.
  intros H Hu Ht. destruct (i_epoch _ H u _ Hu) as [_ Hok]. unfold epoch_ok in Hok. destruct (state_ _).
  - destruct Hok as [_ Hok]. specialize (Hok t Ht). lia.
  - destruct Hok as (A & _ & _ & _ & Hok). by apply Hok.
Qed.

(** What is known when the message [m] arrives at shard [s]. *)
Lemma arrival w s m :
  inv w → nodes !! s = Some (ep_dest m) → m ∈ net w →
  ep_epoch m = given w s + 1 ∧ nodes !! TO_RG_ID (ep_source m) = Some (ep_source m) ∧
  TO_RG_ID (ep_source m) ∉ shard_ids_ (parts (ep_epoch m) (seqs w s)) ∧
  ∃ ms, made_of (hist w) (ep_dest m) (ep_epoch m) (with_message m (parts (ep_epoch m) (seqs w s))) (ms ++ [m]).
Proof.
  intros H Hs Hm. destruct (i_new _ H s m Hs Hm) as [Hlt Hnew].
  assert (m ∈ hist w) as Hh by (eapply elem_of_submseteq; [done|apply H]).
  destruct (i_hist _ H m Hh) as (u & t & Hu & _ & He). destruct (shard_of_node u _ Hu) as [Eu _]. rewrite Eu.
  assert (s ∈ dom nodes) as Hsd by (by apply elem_of_dom_2 in Hs).
  pose proof (epoch_bound w u s _ H Hu Hsd) as Hk.
  assert (TO_RG_ID (ep_source m) ∉ shard_ids_ (parts (ep_epoch m) (seqs w s))) as Hno.
  { unfold parts. destruct (epoch_ctx_receive_ (seqs w s) !! ep_epoch m) as [o|] eqn:Eo; simpl; [by apply Hnew|apply not_elem_of_empty]. }
  split_and!; [lia|done|by rewrite <- Eu|].
  assert (∃ ms, made_of (hist w) (ep_dest m) (ep_epoch m) (parts (ep_epoch m) (seqs w s)) ms) as [ms Hms].
  { unfold parts. destruct (epoch_ctx_receive_ (seqs w s) !! ep_epoch m) as [o|] eqn:Eo; simpl.
    - by destruct (i_recv _ H s _ _ o Hs Eo Hlt) as (ms & Hms); exists ms.
    - exists []. split; try done; [constructor|by intros ? ?%elem_of_nil]. }
  exists ms. by apply made_of_add.
Qed.

(** The shards that contributed are shards of the system, each one past epoch [e]. *)
Lemma made_of_shards w n e o ms :
  inv w → made_of (hist w) n e o ms →
  shard_ids_ o ⊆ dom nodes ∧ ∀ v, v ∈ shard_ids_ o → e < epoch_ (seqs w v).
Proof.
  intros H [_ _ Hsh _ Hsent].
  assert (∀ v, v ∈ shard_ids_ o → v ∈ dom nodes ∧ e < epoch_ (seqs w v)) as Hv.
  { intros v. rewrite Hsh, elem_of_list_to_set, list_elem_of_In, in_map_iff. intros (m & <- & Hm%list_elem_of_In).
    destruct (Hsent m Hm) as (Hh & _ & <-). destruct (i_hist _ H m Hh) as (u & t & Hu & _ & He).
    destruct (shard_of_node u _ Hu) as [-> _]. split; [by apply elem_of_dom_2 in Hu|lia]. }
  split; [intros v; by apply Hv|apply Hv].
Qed.

Lemma handle_epoch_eq w s m :
  inv w → nodes !! s = Some (ep_dest m) → m ∈ net w →
  let q := seqs w s in
  let o := with_message m (parts (ep_epoch m) q) in
  let full := (size (shard_ids_ o) =? size nodes)%nat in
  let o' := if full then reorder_request nodes o else o in
  handle_epoch m q = (q <| epoch_ctx_receive_ := <[ep_epoch m := o']> (epoch_ctx_receive_ q) |>, if full then [Schedule o'] else []).
Proof.
  intros H Hs Hm. destruct (arrival w s m H Hs Hm) as (_ & Hsrc & Hno & _).
  destruct (i_conf _ H s _ Hs) as (Hc1 & Hc2 & Hc3), (shard_of_node _ _ Hsrc) as [_ H0].
  cbn zeta. unfold handle_epoch. fold (parts (ep_epoch m) (seqs w s)). rewrite Hc1, Z.eqb_refl, Hc2, Hc3.
  rewrite bool_decide_eq_false_2 by done. destruct (Z.eqb_spec (TO_RG_ID (ep_source m)) 0); [done|]. cbn [negb app].
  fold (with_message m (parts (ep_epoch m) (seqs w s))). set (o := with_message _ _).
  destruct (Nat.eqb_spec (size (shard_ids_ o)) (size nodes)) as [->|Hne]; [by rewrite Z.eqb_refl|].
  destruct (Z.eqb_spec (Z.of_nat (size (shard_ids_ o))) (Z.of_nat (size nodes))); [lia|done].
Qed.

(** Another message to the same shard comes from another one. *)
Lemma other_source w s m m' l1 l2 :
  inv w → net w = l1 ++ m :: l2 → m' ∈ l1 ++ l2 →
  nodes !! s = Some (ep_dest m) → nodes !! s = Some (ep_dest m') →
  ep_epoch m' = given w s + 1 ∧ TO_RG_ID (ep_source m') ≠ TO_RG_ID (ep_source m) ∧
  TO_RG_ID (ep_source m') ∈ dom nodes ∧ TO_RG_ID (ep_source m') ∉ shard_ids_ (parts (ep_epoch m) (seqs w s)).
Proof.
  intros H En Hm' Hs Hs'.
  assert (m ∈ net w) as Hm by (rewrite En; set_solver). assert (m' ∈ net w) as Hm1 by (rewrite En; set_solver).
  destruct (arrival w s m H Hs Hm) as (He & Hsrc & _), (arrival w s m' H Hs' Hm1) as (He' & Hsrc' & Hno' & _).
  split_and!; [done| |by apply elem_of_dom_2 in Hsrc'|congruence].
  intros Eq. rewrite Eq in Hsrc'. assert (key m' = key m) as Ek by (unfold key; congruence).
  assert (NoDup (map key (net w))) as Hnd.
  { destruct (submseteq_Permutation _ _ (i_net _ H)) as [k Hk]. pose proof (i_keys _ H) as Hnd.
    rewrite Hk, map_app in Hnd. by apply NoDup_app in Hnd as [? _]. }
  rewrite En in Hnd. rewrite <- Permutation_middle in Hnd. simpl in Hnd. apply NoDup_cons in Hnd as [Hnd _].
  apply Hnd. rewrite <- Ek. apply list_elem_of_In, in_map. by apply list_elem_of_In.
Qed.

(** What a delivery changes: the parts [o] of the epoch at the receiver, which are
    scheduled when they are [full]. *)
Record delivered (w : world) (s e : Z) (o : calvin_epoch_ops) (full : bool) (w' : world) : Prop := {
  dv_sched : ∀ t, t ≠ s → sched w' t = sched w t;
  dv_given : sched w' s = sched w s ++ if full then [o] else [];
  dv_other : ∀ t, t ≠ s → seqs w' t = seqs w t;
  dv_self : seqs w' s = (seqs w s) <| epoch_ctx_receive_ := <[e := o]> (epoch_ctx_receive_ (seqs w s)) |>;
  dv_acks : acks w' = acks w;
  dv_hist : hist w' = hist w;
  dv_failed : failed w' = failed w;
}.

(** What the parts are: those of messages that were sent, of all shards and in
    order when they are full. *)
Record parts_ok (w : world) (n e : Z) (o : calvin_epoch_ops) (full : bool) : Prop := {
  po_made : ∃ ms, made_of (hist w) n e o ms;
  po_full : full = true → shard_ids_ o = dom nodes ∧ Sorted xid_le (reqs_ o) ∧ ∀ v, v ∈ dom nodes → e < epoch_ (seqs w v);
}.

Lemma handle_epoch_delivers w s m l1 l2 :
  inv w → nodes !! s = Some (ep_dest m) → net w = l1 ++ m :: l2 →
  ∃ o full, let w' := perform s (handle_epoch m) (l1 ++ l2) (acks w) w in
    delivered w s (ep_epoch m) o full w' ∧ net w' = l1 ++ l2 ∧ parts_ok w (ep_dest m) (ep_epoch m) o full ∧
    shard_ids_ o = {[TO_RG_ID (ep_source m)]} ∪ shard_ids_ (parts (ep_epoch m) (seqs w s)).
Proof.
  intros H Hs En. assert (m ∈ net w) as Hm by (rewrite En; set_solver).
  pose proof (handle_epoch_eq w s m H Hs Hm) as Eh. cbn zeta in Eh.
  destruct (arrival w s m H Hs Hm) as (He & Hsrc & Hno & ms & Hmo).
  set (o := with_message m (parts (ep_epoch m) (seqs w s))) in *.
  set (full := (size (shard_ids_ o) =? size nodes)%nat) in *. set (o' := if full then reorder_request nodes o else o) in *.
  destruct (made_of_shards w _ _ _ _ H Hmo) as [Hsub Hpast].
  exists o', full. cbn zeta. unfold perform. rewrite Eh. split_and!.
  - split; simpl.
    + intros t Ht. by rewrite fn_lookup_insert_ne.
    + rewrite fn_lookup_insert. by destruct full.
    + intros t Ht. by rewrite fn_lookup_insert_ne.
    + by rewrite fn_lookup_insert.
    + done.
    + by destruct full; rewrite app_nil_r.
    + destruct full; apply orb_false_r.
  - simpl. destruct full; apply app_nil_r.
  - split; [exists (ms ++ [m]); unfold o'; destruct full; [by apply made_of_reorder|done]|].
    intros Hf. assert (shard_ids_ o = dom nodes) as Hsh.
    { apply Nat.eqb_eq in Hf. apply set_subseteq_size_eq; [done|]. rewrite size_dom. lia. }
    unfold o'. rewrite Hf. split_and!; [done|apply Sorted_merge_sort, _|by rewrite <- Hsh].
  - unfold o'. by destruct full.
Qed.

Section Delivery.
Context (w w' : world) (s e : Z) (o : calvin_epoch_ops) (full : bool) (Hd : delivered w s e o full w').

Lemma dv_given_other t : t ≠ s → given w' t = given w t.
Proof. intros Ht. unfold given. by rewrite (dv_sched _ _ _ _ _ _ Hd). Qed.

Lemma dv_given_self : given w' s = given w s + if full then 1 else 0.
Proof. unfold given. rewrite (dv_given _ _ _ _ _ _ Hd), length_app. destruct full; simpl; lia. Qed.

Lemma dv_mono t : given w t ≤ given w' t.
Proof. destruct (decide (t = s)) as [->|]; [rewrite dv_given_self; destruct full; lia|by rewrite dv_given_other]. Qed.

Lemma dv_seq t : ∃ r, seqs w' t = (seqs w t) <| epoch_ctx_receive_ := r |>.
Proof.
  destruct (decide (t = s)) as [->|Ht]; [rewrite (dv_self _ _ _ _ _ _ Hd)|rewrite (dv_other _ _ _ _ _ _ Hd) by done].
  - by eexists.
  - exists (epoch_ctx_receive_ (seqs w t)). by destruct (seqs w t).
Qed.

Lemma dv_epoch t : epoch_ (seqs w' t) = epoch_ (seqs w t).
Proof. by destruct (dv_seq t) as [r ->]. Qed.

Context (n : Z) (H : inv w) (Hs : nodes !! s = Some n) (He : e = given w s + 1) (Hp : parts_ok w n e o full).

(** The epochs stay in order. *)
Lemma dv_order t nt : nodes !! t = Some nt → map eo_epoch_ (sched w' t) = seqZ 1 (given w' t).
Proof.
  intros Ht. destruct (decide (t = s)) as [->|]; [|rewrite (dv_sched _ _ _ _ _ _ Hd), dv_given_other by done; by apply (i_order _ H t nt)].
  rewrite (dv_given _ _ _ _ _ _ Hd), dv_given_self, map_app, (i_order _ H s nt Ht).
  destruct full; simpl; [|by rewrite Z.add_0_r, app_nil_r].
  destruct (po_made _ _ _ _ _ Hp) as [ms Hms]. rewrite seqZ_app by (unfold given; lia). f_equal.
  rewrite (mo_epoch _ _ _ _ _ Hms), He. replace (1 + given w s) with (given w s + 1) by lia. reflexivity.
Qed.

(** The parts that wait at the receiver. *)
Lemma dv_recv t nt e' x :
  nodes !! t = Some nt → epoch_ctx_receive_ (seqs w' t) !! e' = Some x → given w' t < e' →
  ∃ ms, made_of (hist w) nt e' x ms.
Proof.
  intros Ht. destruct (decide (t = s)) as [->|]; [|rewrite (dv_other _ _ _ _ _ _ Hd), dv_given_other by done; by apply (i_recv _ H)].
  rewrite (dv_self _ _ _ _ _ _ Hd), dv_given_self. simpl. intros Hx Hlt. rewrite Hs in Ht. injection Ht as <-.
  destruct (decide (e' = e)) as [->|Hne].
  - rewrite lookup_insert_eq in Hx. injection Hx as <-. apply Hp.
  - rewrite lookup_insert_ne in Hx by done. apply (i_recv _ H s); [done|done|]. destruct full; lia.
Qed.

(** What was given to the scheduler. *)
Lemma dv_ops t nt x :
  nodes !! t = Some nt → x ∈ sched w' t →
  Sorted xid_le (reqs_ x) ∧ shard_ids_ x = dom nodes ∧ ∃ ms, made_of (hist w) nt (eo_epoch_ x) x ms.
Proof.
  intros Ht Hx. destruct (decide (t = s)) as [->|]; [|rewrite (dv_sched _ _ _ _ _ _ Hd) in Hx by done; by apply (i_ops _ H t nt)].
  rewrite (dv_given _ _ _ _ _ _ Hd) in Hx. apply elem_of_app in Hx as [Hx|Hx]; [by apply (i_ops _ H s nt)|].
  destruct (po_made _ _ _ _ _ Hp) as [ms Hms].
  destruct full eqn:Ef; [|by apply elem_of_nil in Hx]. apply list_elem_of_singleton in Hx as ->.
  destruct (po_full _ _ _ _ _ Hp eq_refl) as (? & ? & _). rewrite Hs in Ht. injection Ht as <-.
  split_and!; [done|done|]. exists ms. by rewrite (mo_epoch _ _ _ _ _ Hms).
Qed.

(** Nobody is given an epoch that a sequencer has not reached. *)
Lemma dv_behind u t nu nt : nodes !! u = Some nu → nodes !! t = Some nt → given w' t ≤ epoch_ (seqs w' u) - 1.
Proof.
  intros Hu Ht. rewrite dv_epoch. destruct (decide (t = s)) as [->|]; [|rewrite dv_given_other by done; by apply (i_behind _ H u t nu nt)].
  rewrite dv_given_self. pose proof (i_behind _ H u s nu nt Hu Ht) as Hb. destruct full eqn:Ef; [|lia].
  assert (e < epoch_ (seqs w u)); [|lia]. apply (po_full _ _ _ _ _ Hp eq_refl). by apply elem_of_dom_2 in Hu.
Qed.

End Delivery.

Lemma inv_deliver w s m l1 l2 :
  inv w → nodes !! s = Some (ep_dest m) → net w = l1 ++ m :: l2 → inv (perform s (handle_epoch m) (l1 ++ l2) (acks w) w).
Proof.
  intros H Hs En. destruct (handle_epoch_delivers w s m l1 l2 H Hs En) as (o & full & Hdv). cbn zeta in Hdv.
  destruct (arrival w s m H Hs) as (He & _ & _ & _); [rewrite En; set_solver|].
  set (w' := perform _ _ _ _ _) in *. clearbody w'. destruct Hdv as (Hd & Hnet & Hp & Hsh).
  split; rewrite ?(dv_hist _ _ _ _ _ _ Hd).
  - intros t nt Ht. destruct (dv_seq w w' s _ o full Hd t) as [r ->]. by apply (i_conf _ H).
  - intros t nt Ht. destruct (i_epoch _ H t nt Ht) as [H1 H2]. split; [by rewrite (dv_epoch w w' s _ o full Hd)|].
    apply (epoch_ok_mono (given w)); [by eapply dv_mono|]. by destruct (dv_seq w w' s _ o full Hd t) as [r ->].
  - rewrite (dv_acks _ _ _ _ _ _ Hd). intros a Ha. destruct (i_ack _ H a Ha) as (t & nt & Ht & Hsa & Hle). exists t, nt.
    pose proof (dv_mono w w' s _ o full Hd t). split_and!; [done|done|lia].
  - by eapply dv_order.
  - by eapply dv_ops.
  - by eapply dv_behind.
  - intros x Hx. setoid_rewrite (dv_epoch w w' s _ o full Hd). by apply H.
  - apply H.
  - rewrite Hnet. etrans; [|apply (i_net _ H)]. rewrite En. apply submseteq_app; [done|by apply submseteq_cons].
  - by eapply dv_recv.
  - intros t x Ht Hx. rewrite Hnet in Hx. destruct (decide (t = s)) as [->|].
    2: { rewrite (dv_other _ _ _ _ _ _ Hd), (dv_given_other w w' s _ o full Hd) by done.
         apply (i_new _ H); [done|]. rewrite En. by apply elem_of_middle. }
    destruct (other_source w s m x l1 l2 H En Hx Hs Ht) as (Hxe & Hne & Hdm & Hnx).
    rewrite (dv_self _ _ _ _ _ _ Hd), (dv_given_self w w' s _ o full Hd).
    assert (TO_RG_ID (ep_source x) ∉ shard_ids_ o) as Hno by (rewrite Hsh; by rewrite not_elem_of_union, not_elem_of_singleton).
    destruct full; [by rewrite (proj1 (po_full _ _ _ _ _ Hp eq_refl)) in Hno|].
    split; [lia|]. simpl. rewrite Hxe, <- He, lookup_insert_eq. by intros y [= <-].
  - rewrite (dv_failed _ _ _ _ _ _ Hd). apply H.
Qed.

(** ** Every run *)

Lemma inv_step w w' : inv w → step w w' → inv w'.
Proof.
  intros H Hst. destruct Hst as [w s n tx Hs|w s n Hs|w s n b Hs|w s n Hs Hlt|w s m l1 l2 Hs En|w s m l1 l2 Hs Ea
    |w s n o Hs Ho|w m l1 l2 En|w m l1 l2 Ea].
  - by eapply inv_silent; [done|reflexivity|split|..].
  - by eapply inv_silent; [done|reflexivity|split|..].
  - by eapply inv_silent; [done|reflexivity|split|..].
  - destruct (i_conf _ H s n Hs) as (_ & _ & Hn). destruct (broadcast_cases (seqs w s)) as [Hb|Hb].
    + destruct (tick_events _ Hn Hb) as [ms E]. by eapply inv_broadcast.
    + eapply (inv_quiet w); unfold perform, tick; rewrite ?and_then_eq; simpl; rewrite ?Hb; simpl; try done.
      * intros t nt Ht. destruct (decide (t = s)) as [->|]; [rewrite fn_lookup_insert|rewrite fn_lookup_insert_ne by done]; apply quiet_refl.
      * intros t. destruct (decide (t = s)) as [->|]; [by rewrite fn_lookup_insert, app_nil_r|by rewrite fn_lookup_insert_ne].
      * by rewrite app_nil_r.
      * by left.
      * by rewrite app_nil_r.
      * by rewrite (i_failed _ H).
  - by apply inv_deliver.
  - destruct (handle_epoch_ack_quiet w s m H Hs) as (q & E & Hq); [rewrite Ea; set_solver|].
    eapply inv_silent; [done|done|done|done|]. rewrite Ea. set_solver.
  - apply (inv_quiet w); simpl; try done; [|apply H].
    intros a [Ha|Ha]%elem_of_app; [by left|]. right. apply list_elem_of_In, in_map_iff in Ha as (d & <- & _). simpl.
    exists s, n. split_and!; try done. assert (eo_epoch_ o ∈ map eo_epoch_ (sched w s)) as Hin
      by (apply list_elem_of_In, in_map; by apply list_elem_of_In).
    rewrite (i_order _ H s n Hs), elem_of_seqZ in Hin. lia.
  - apply (inv_quiet w); simpl; try done; [|by left|apply H].
    rewrite En. apply submseteq_app; [done|by apply submseteq_cons].
  - apply (inv_quiet w); simpl; try done; [|apply H].
    intros x Hx. left. rewrite Ea. by apply elem_of_middle.
Qed.

Lemma inv_reachable w : reachable w → inv w.
Proof.
  unfold reachable. generalize inv_initial. generalize initial. intros w0 H0 Hr.
  induction Hr as [|w0 w1 w2 Hst _ IH]; [done|]. by eapply IH, inv_step.
Qed.

(** A complete epoch has exactly one message from each leader. *)
Lemma sources_all w n o ms :
  inv w → made_of (hist w) n (eo_epoch_ o) o ms → shard_ids_ o = dom nodes →
  map ep_source ms ≡ₚ map snd (map_to_list nodes) ∧
  ∀ m, m ∈ ms ↔ m ∈ hist w ∧ ep_dest m = n ∧ ep_epoch m = eo_epoch_ o.
Proof.
  intros H [_ _ Hsh Hnd Hsent] Hall.
  assert (∀ m, m ∈ hist w → nodes !! TO_RG_ID (ep_source m) = Some (ep_source m)) as Hsrc.
  { intros m Hm. destruct (i_hist _ H m Hm) as (u & _ & Hu & _). by rewrite (proj1 (shard_of_node u _ Hu)). }
  assert (∀ v x, nodes !! v = Some x → ∃ m, m ∈ ms ∧ ep_source m = x) as Hcov.
  { intros v x Hv. assert (v ∈ shard_ids_ o) as Hin by (rewrite Hall; by apply elem_of_dom_2 in Hv).
    rewrite Hsh in Hin. apply elem_of_list_to_set, list_elem_of_In, in_map_iff in Hin as (m & <- & Hm%list_elem_of_In).
    exists m. split; [done|]. rewrite (Hsrc m) in Hv by by apply Hsent. congruence. }
  split.
  - apply NoDup_Permutation; [done| |].
    + apply (NoDup_fmap_2_strong (fun kv : Z * Z => kv.2)); [|apply NoDup_map_to_list].
      intros [a x] [b y] Ha%elem_of_map_to_list Hb%elem_of_map_to_list Exy. simpl in Exy. subst y. by rewrite (node_shard a b x).
    + intros x. rewrite !list_elem_of_In, !in_map_iff. split.
      * intros (m & <- & Hm%list_elem_of_In). exists (TO_RG_ID (ep_source m), ep_source m). split; [done|].
        apply list_elem_of_In, elem_of_map_to_list, Hsrc. by apply Hsent.
      * intros ([v y] & Ey & Hv%list_elem_of_In%elem_of_map_to_list). simpl in Ey. subst y. destruct (Hcov v x Hv) as (m & Hm & Em).
        exists m. split; [done|]. by apply list_elem_of_In.
  - intros m. split; [apply Hsent|]. intros (Hm & Hd & He). destruct (Hcov _ _ (Hsrc m Hm)) as (m' & Hm' & Em).
    destruct (Hsent m' Hm') as (Hh' & Hd' & He').
    assert (m = m') as ->; [|done]. apply list_elem_of_lookup in Hm as [i Hi]. apply list_elem_of_lookup in Hh' as [j Hj].
    assert (i = j) as ->; [|congruence]. apply (NoDup_lookup (map key (hist w)) i j (key m) (i_keys _ H));
      rewrite list_lookup_fmap; [by rewrite Hi|]. rewrite Hj. simpl. unfold key. congruence.
Qed.

(** C9: The epochs go in lockstep.  In every state the leaders can reach, no
    assertion has failed and each leader has given its scheduler the epochs 1,
    2, 3, ... in order.  The requests of an epoch are sorted by transaction id
    and are those of the messages the leaders sent it for that epoch, one from
    each; so all leaders order the transactions by epoch and id.  No leader is
    more than one epoch ahead of another. *)
Theorem lockstep w :
  reachable w →
  failed w = false ∧
  (∀ s n, nodes !! s = Some n →
     map eo_epoch_ (sched w s) = seqZ 1 (Z.of_nat (length (sched w s))) ∧
     ∀ o, o ∈ sched w s →
       Sorted xid_le (reqs_ o) ∧
       ∃ ms, reqs_ o ≡ₚ concat (map ep_request ms) ∧ map ep_source ms ≡ₚ map snd (map_to_list nodes) ∧
         ∀ m, m ∈ ms ↔ m ∈ hist w ∧ ep_dest m = n ∧ ep_epoch m = eo_epoch_ o) ∧
  ∀ s t, s ∈ dom nodes → t ∈ dom nodes → (length (sched w s) ≤ length (sched w t) + 1)%nat.
Proof.
  intros H%inv_reachable. split; [apply H|]. split.
  - intros s n Hs. split; [by apply (i_order _ H s n)|]. intros o Ho.
    destruct (i_ops _ H s n o Hs Ho) as (Hsort & Hall & ms & Hmo). split; [done|]. exists ms.
    split; [apply Hmo|]. by apply sources_all.
  - intros s t [n Hs]%elem_of_dom [n' Ht]%elem_of_dom. pose proof (i_behind _ H s s n n Hs Hs) as Hb.
    assert (t ∈ dom nodes) as Htd by (by apply elem_of_dom_2 in Ht).
    assert (epoch_ (seqs w s) - 2 ≤ given w t) as Hk; [|unfold given in *; lia].
    by apply (epoch_bound w s t n).
Qed.

End system.

(** ** A run

    Two leaders; transaction 9 comes to the first, transaction 4 to the second,
    both touch both shards.  Both leaders broadcast, and the messages arrive
    last first. *)

Definition demo_nodes : gmap Z Z := {[1 := 0x10001; 2 := 0x20001]}.

(** The [i]-th message in flight arrives. *)
Definition deliver (i : nat) (w : world) : world :=
  match net w !! i with
  | Some m => perform (TO_RG_ID (ep_dest m)) (handle_epoch m) (take i (net w) ++ drop (S i) (net w)) (acks w) w
  | None => w
  end.

Definition local (s : Z) (h : act calvin_sequencer event) (w : world) : world := perform s h (net w) (acks w) w.

Definition demo_ready : world :=
  local 2 (handle_tx_request (demo_tx 4 [2; 1])) (local 1 (handle_tx_request (demo_tx 9 [1; 2]))
    (local 2 (update_local_lead_state true) (local 1 (update_local_lead_state true)
      (local 2 start (local 1 start (initial demo_nodes 10)))))).

Definition demo_sent : world := local 2 tick (local 1 tick demo_ready).

Definition demo_world : world := deliver 0 (deliver 1 (deliver 2 (deliver 3 demo_sent))).

Lemma deliver_step i w :
  match net w !! i with Some m => bool_decide (demo_nodes !! TO_RG_ID (ep_dest m) = Some (ep_dest m)) = true | None => True end →
  rtc (step demo_nodes) w (deliver i w).
Proof.
  unfold deliver. destruct (net w !! i) as [m|] eqn:E; [|done]. intros Hn%bool_decide_eq_true.
  apply rtc_once, step_epoch; [done|]. by rewrite take_drop_middle.
Qed.

Lemma demo_world_reachable : reachable demo_nodes 10 demo_world.
Proof.
  unfold demo_world, reachable. do 4 (etrans; [|apply deliver_step; vm_compute; done]).
  unfold demo_sent, demo_ready.
  do 2 (eapply rtc_r; [|by eapply step_tick]). do 2 (eapply rtc_r; [|by eapply step_request]).
  do 2 (eapply rtc_r; [|by eapply step_lead]). do 2 (eapply rtc_r; [|by eapply step_start]). done.
Qed.

Lemma lockstep_witness :
  map (fun o => map req_xid (reqs_ o)) (sched demo_world 1) = [[4; 9]] ∧
  map eo_epoch_ (sched demo_world 1) = seqZ 1 (Z.of_nat (length (sched demo_world 1))).
Proof.
  split; [vm_compute; reflexivity|].
  apply (lockstep demo_nodes 10) with (n := 0x10001); [|exact demo_world_reachable|reflexivity].
  intros s n Hs. unfold demo_nodes in Hs.
  apply lookup_insert_Some in Hs as [[<- <-]|[_ [<- <-]%lookup_singleton_Some]]; by vm_compute.
Defined.

End CalvinEpochs.
