(* ===== verification/Calvin.v ===== *)
(** * Calvin: scheduler, contexts and collectors

    What a node of the deterministic build does with the transactions its
    sequencer hands over: [src/concurrency/calvin_scheduler.cpp] writes them to
    the log and asks for all their locks in the order of the epoch,
    [calvin_context.cpp] runs a transaction's part on this shard, and
    [calvin_collector.cpp] on the node that took the client's request waits for
    the parts.  The tables of contexts and collectors and the messages to them
    are those of [cc_block.cpp]; its concurrent tables never erase
    ([HashTable.remove] in [LockMgr]), so an entry stays after the calls to
    [remove].

    - [part_commits_once]: a part with writes commits exactly once, when its log
      record is durable and all its reads are answered, in whatever order these
      happen; it then releases all its locks and tells the collector;
    - [epoch_acked_once]: an epoch is acknowledged exactly when the last of its
      locks has been granted;
    - [read_only_answered_twice]: a read-only transaction commits twice and its
      client gets two responses;
    - [response_empty]: the client's response holds no operation. *)

From S2P Require Import Prelude Common.
From S2P Require Import CalvinSequencer.
#[local] Open Scope Z_scope.

Module Calvin.
Import NodeId CalvinSequencer.CalvinSequencer.

(* @src src/proto/calvin.proto 19 24 calvin_part_commit *)
Record calvin_part_commit := mk_part_commit { pc_source : Z; pc_dest : Z; pc_xid : Z; pc_response : list tx_operation }.

Inductive event :=
| AppendLog (entry : list tx_log)
| LockRow (xid oid : Z) (lt : lock_mode) (table_id shard_id key : Z)
| UnlockRow (xid : Z) (mode : lock_mode) (table_id shard_id key : Z)
| SendRead (m : ccb_read_request)
| SendPartCommit (m : calvin_part_commit)
| SendAck (m : calvin_epoch_ack)
| Sequence (tx : tx_request)
| Respond (xid : Z) (ec : EC) (ops : list tx_operation)
| AssertFailed.

(** ** A transaction's part on this shard *)

(** The lock callbacks of [schedule] as the operation and epoch they capture. *)
(* @src include/concurrency/calvin_context.h 37 61 calvin_context *)
Record calvin_context := mk_context {
  xid_ : Z;
  node_id_ : Z;
  ctx_opt_dsb_node_id_ : option Z;
  dsb_node_ids_ : gmap Z Z;
  collector_id_ : Z;
  cno_ : Z;
  ops_request_ : tx_request;
  log_committed_ : bool;
  op_response_ : gmap Z tx_operation;
  op_read_ : gset Z;
  callback_ : gmap Z (tx_operation * Z);
  read_only_ : bool;
  commit_ : bool;
}.
#[export] Instance eta_context : Eta calvin_context := fun c =>
  mk_context (xid_ c) (node_id_ c) (ctx_opt_dsb_node_id_ c) (dsb_node_ids_ c) (collector_id_ c) (cno_ c) (ops_request_ c)
    (log_committed_ c) (op_response_ c) (op_read_ c) (callback_ c) (read_only_ c) (commit_ c).

Definition handler := act calvin_context event.

(* @src src/concurrency/calvin_context.cpp 10 29 calvin_context::calvin_context *)
Definition new_context (xid node_id : Z) (dsb_node_id : option Z) (shard2node : gmap Z Z) (cno : Z) (req : tx_request)
    : calvin_context * list event :=
  (mk_context xid node_id dsb_node_id shard2node (req_source req) cno req false ∅ ∅ ∅ false false,
   (if req_source req =? 0 then [AssertFailed] else []) ++ match req_operations req with [] => [AssertFailed] | _ => [] end).

(* @src include/concurrency/calvin_context.h 77 77 calvin_context::set_read_only *)
Definition set_read_only (c : calvin_context) : calvin_context := c <| read_only_ := true |>.

(* @src src/concurrency/calvin_context.cpp 143 148 calvin_context::add_lock_acquire_callback *)
Definition add_lock_acquire_callback (oid : Z) (fn : tx_operation * Z) (c : calvin_context) : calvin_context :=
  c <| callback_ := <[oid := fn]> (callback_ c) |>.

(** The storage block of an unknown shard is a [PANIC].  The request carries no
    shard id. *)
(* @src src/concurrency/calvin_context.cpp 158 175 calvin_context::send_read *)
Definition send_read (op : tx_operation) : handler := fun c =>
  match node_id_of_shard (op_shard_id op) (ctx_opt_dsb_node_id_ c) (dsb_node_ids_ c) with
  | None => emit AssertFailed c
  | Some dest => emit (SendRead (mk_read_request (node_id_ c) dest (cno_ c) (xid_ c) (op_operation_id op)
                                   (op_table_id op) 0 (op_tuple_id op))) c
  end.

(** The first answer of an operation is kept ([insert]). *)
(* @src src/concurrency/calvin_context.cpp 78 89 calvin_context::on_operation_done *)
Definition on_operation_done (op : tx_operation) (tp : string) : handler :=
  (modify (fun c => match op_response_ c !! op_operation_id op with
                   | Some _ => c
                   | None => c <| op_response_ := <[op_operation_id op := op <| op_tuple := tp |>]> (op_response_ c) |>
                   end) ;;
   send_read op)%act.

(** One turn of the loop that releases the locks. *)
(* @src src/concurrency/calvin_context.cpp 119 125 calvin_context::tx_commit *)
Definition release (op : tx_operation) : handler := fun c =>
  emit (UnlockRow (xid_ c) (op_type_to_lock_mode (op_type op)) (op_table_id op) (op_shard_id op) (op_tuple_id op)) c.

(** Nothing fills the operations of the message.  The call of [fn_remove_] is
    that of the node, below. *)
(* @src src/concurrency/calvin_context.cpp 104 141 calvin_context::tx_commit *)
Definition tx_commit : handler := fun c =>
  if (size (op_read_ c) <? length (req_operations (ops_request_ c)))%nat then skip c
  else if negb (log_committed_ c) && negb (read_only_ c) then skip c
  else (each release (req_operations (ops_request_ c)) ;;
        emit (SendPartCommit (mk_part_commit (node_id_ c) (collector_id_ c) (xid_ c) [])) ;;
        modify (fun c => c <| commit_ := true |>))%act c.

(* @src src/concurrency/calvin_context.cpp 91 102 calvin_context::on_operation_committed *)
Definition on_operation_committed (log : tx_log) : handler := fun c =>
  if bool_decide (log_type log = TX_CMD_RM_COMMIT)
  then (modify (fun c => c <| log_committed_ := true |>) ;; tx_commit)%act c
  else skip c.

(* @src src/concurrency/calvin_context.cpp 177 195 calvin_context::read_response *)
Definition read_response (res : dsb_read_response) : handler := fun c =>
  ((match op_response_ c !! rs_oid res with
    | Some o =>
        modify (fun c => c <| op_read_ := {[rs_oid res]} ∪ op_read_ c |>) ;;
        match rs_tuple_row res with
        | Some row =>
            when (EC_eqb (rs_error_code res) EC_OK)
              (modify (fun c => c <| op_response_ := <[rs_oid res :=
                 o <| op_table_id := tr_table_id row |> <| op_shard_id := tr_shard_id row |>
                   <| op_tuple_id := tr_tuple_id row |> <| op_tuple := tr_tuple row |>]> (op_response_ c) |>))
        | None => skip
        end
    | None => emit AssertFailed
    end) ;; tx_commit)%act c.

(** ** The collector *)

(* @src include/concurrency/calvin_collector.h 19 28 calvin_collector *)
Record calvin_collector := mk_collector {
  cl_xid_ : Z;
  shard_ : gset Z;
  commit_shard_ : gset Z;
  ops_ : gmap Z tx_operation;
  request_ : tx_request;
}.
#[export] Instance eta_collector : Eta calvin_collector := fun c =>
  mk_collector (cl_xid_ c) (shard_ c) (commit_shard_ c) (ops_ c) (request_ c).

(** The assertion compares the shard of the operation with the one of its row. *)
(* @src src/concurrency/calvin_collector.cpp 7 23 calvin_collector::calvin_collector *)
Definition new_collector (xid : Z) (req : tx_request) : calvin_collector * list event :=
  (mk_collector xid (list_to_set (map op_sd_id (req_operations req))) ∅ ∅
     (req <| req_xid := xid |> <| req_operations := map (fun op => op <| op_xid := xid |>) (req_operations req) |>),
   if forallb (fun op => op_sd_id op =? op_shard_id op) (req_operations req) then [] else [AssertFailed]).

(* @src src/concurrency/calvin_collector.cpp 43 57 calvin_collector::respond *)
Definition respond : act calvin_collector event := fun c =>
  emit (Respond (cl_xid_ c) EC_OK (omap (fun op => ops_ c !! op_operation_id op) (req_operations (request_ c)))) c.

(** One turn of the loop of [part_commit]: the first answer is kept. *)
Definition keep_op (m : gmap Z tx_operation) (op : tx_operation) : gmap Z tx_operation :=
  match m !! op_operation_id op with Some _ => m | None => <[op_operation_id op := op]> m end.

(* @src src/concurrency/calvin_collector.cpp 25 41 calvin_collector::part_commit *)
Definition part_commit (msg : calvin_part_commit) : act calvin_collector event := fun c =>
  let c := c <| commit_shard_ := {[TO_RG_ID (pc_source msg)]} ∪ commit_shard_ c |>
             <| ops_ := foldl keep_op (ops_ c) (pc_response msg) |> in
  if (size (commit_shard_ c) =? size (shard_ c))%nat then respond c else (c, []).

(** ** The node

    The tables of [cc_block] are indexed by terminal and transaction id; the
    terminal is a part of the id.  [pending_] holds the atomic counter [num_op]
    of each epoch in progress and the nodes its acknowledgement goes to. *)

Record calvin_node := mk_node {
  cn_node_id_ : Z;
  cn_opt_dsb_node_id_ : option Z;
  dsb_shard2node_ : gmap Z Z;
  cn_cno_ : Z;
  calvin_context_ : gmap Z calvin_context;
  calvin_collector_ : gmap Z calvin_collector;
  pending_ : gmap Z (Z * gset Z);
}.
#[export] Instance eta_node : Eta calvin_node := fun n =>
  mk_node (cn_node_id_ n) (cn_opt_dsb_node_id_ n) (dsb_shard2node_ n) (cn_cno_ n) (calvin_context_ n) (calvin_collector_ n) (pending_ n).

(** A handler of the context of [xid], which must be in the table. *)
Definition at_context (xid : Z) (h : handler) : act calvin_node event := fun n =>
  match calvin_context_ n !! xid with
  | Some c => let '(c, evs) := h c in (n <| calvin_context_ := <[xid := c]> (calvin_context_ n) |>, evs)
  | None => (n, [])
  end.

(* @src src/concurrency/calvin_scheduler.cpp 119 134 calvin_scheduler::send_ack *)
Definition send_ack (epoch : Z) (ids : gset Z) : act calvin_node event := fun n =>
  (n, map (fun id => SendAck (mk_ack (cn_node_id_ n) id epoch)) (elements ids)).

(** [fn_find]: the context of a request, created if there is none. *)
(* @src src/concurrency/cc_block.cpp 89 100 cc_block::on_start *)
Definition find_context (req : tx_request) : act calvin_node event := fun n =>
  match calvin_context_ n !! req_xid req with
  | Some _ => (n, [])
  | None =>
      let '(c, evs) := new_context (req_xid req) (cn_node_id_ n) (cn_opt_dsb_node_id_ n) (dsb_shard2node_ n) (cn_cno_ n) req in
      (n <| calvin_context_ := <[req_xid req := c]> (calvin_context_ n) |>, evs)
  end.

(** [ctx_set] as the set of ids already met in this epoch. *)
(* @src src/concurrency/calvin_scheduler.cpp 136 153 calvin_scheduler::create_or_find *)
Definition create_or_find (ctx_set : gset Z) (req : tx_request) (read_only : bool) : act calvin_node event :=
  if bool_decide (req_xid req ∈ ctx_set) then skip
  else (find_context req ;; when read_only (at_context (req_xid req) (modify set_read_only)))%act.

Definition writes (req : tx_request) : list tx_operation := filter (fun op => is_write_operation (op_type op) = true) (req_operations req).

(** The log record of a request. *)
(* @src src/concurrency/calvin_scheduler.cpp 36 60 calvin_scheduler::schedule *)
Definition request_log (req : tx_request) : tx_log := mk_log TX_CMD_RM_COMMIT (req_xid req) (writes req).

(** Inserts and updates must carry a tuple. *)
(* @src src/concurrency/calvin_scheduler.cpp 43 47 calvin_scheduler::schedule *)
Definition check_tuples (req : tx_request) : act calvin_node event :=
  each (fun op => when (match op_type op with TX_OP_INSERT | TX_OP_UPDATE => is_tuple_nil (op_tuple op) | _ => false end)
                    (emit AssertFailed)) (req_operations req).

(** The first loop. *)
(* @src src/concurrency/calvin_scheduler.cpp 34 62 calvin_scheduler::schedule *)
Fixpoint prepare_all (ctx_set : gset Z) (reqs : list tx_request) : act calvin_node event :=
  match reqs with
  | [] => skip
  | req :: reqs =>
      (check_tuples req ;; create_or_find ctx_set req (match writes req with [] => true | _ => false end) ;;
       prepare_all ({[req_xid req]} ∪ ctx_set) reqs)%act
  end.

(** The counter of the epoch goes down by one. *)
Definition count_down (epoch : Z) (n : calvin_node) : calvin_node :=
  n <| pending_ := alter (fun p => (u64 (p.1 - 1), p.2)) epoch (pending_ n) |>.

(* @src src/concurrency/calvin_scheduler.cpp 74 107 calvin_scheduler::schedule *)
Definition request_lock (epoch : Z) (req : tx_request) (op : tx_operation) : act calvin_node event :=
  let lt := match op_type op with
            | TX_OP_DELETE | TX_OP_INSERT | TX_OP_UPDATE | TX_OP_READ_FOR_WRITE => Some LOCK_WRITE_ROW
            | TX_OP_READ => Some LOCK_READ_ROW
            | _ => None
            end in
  match lt with
  | None => (modify (count_down epoch) ;; emit AssertFailed)%act
  | Some lt =>
      (at_context (req_xid req) (modify (add_lock_acquire_callback (op_operation_id op) (op, epoch))) ;;
       emit (LockRow (op_xid op) (op_operation_id op) lt (op_table_id op) (op_shard_id op) (op_tuple_id op)))%act
  end.

(* @src src/concurrency/calvin_scheduler.cpp 12 109 calvin_scheduler::schedule *)
Definition schedule (e : calvin_epoch_ops) : act calvin_node event :=
  match reqs_ e with
  | [] => send_ack (eo_epoch_ e) (node_ids_ e)
  | reqs =>
      (prepare_all ∅ reqs ;;
       emit (AppendLog (map request_log reqs)) ;;
       modify (fun n => n <| pending_ := <[eo_epoch_ e :=
                 (u64 (Z.of_nat (length (concat (map req_operations reqs)))), node_ids_ e)]> (pending_ n) |>) ;;
       each (fun req => each (request_lock (eo_epoch_ e) req) (req_operations req)) reqs)%act
  end.

(** The callback of [schedule]: count, acknowledge the epoch at zero, read. *)
(* @src src/concurrency/calvin_scheduler.cpp 90 101 calvin_scheduler::schedule *)
Definition lock_granted (xid : Z) (ec : EC) (op : tx_operation) (epoch : Z) : act calvin_node event :=
  (when (negb (EC_eqb ec EC_OK)) (emit AssertFailed) ;;
   modify (count_down epoch) ;;
   (fun n => match pending_ n !! epoch with
             | Some (0, ids) => send_ack epoch ids n
             | _ => skip n
             end) ;;
   at_context xid (on_operation_done op ""))%act.

(* @src src/concurrency/calvin_context.cpp 31 45 calvin_context::async_lock_acquire *)
Definition async_lock_acquire (xid : Z) (ec : EC) (oid : Z) : act calvin_node event := fun n =>
  match calvin_context_ n !! xid ≫= fun c => callback_ c !! oid with
  | Some (op, epoch) => lock_granted xid ec op epoch n
  | None => skip n
  end.

(** [xid] is the result of [gen_xid]; the sequencer gets the collector's copy
    of the request. *)
(* @src src/concurrency/cc_block.cpp 1066 1086 cc_block::handle_calvin_tx_request *)
Definition handle_calvin_tx_request (xid : Z) (req : tx_request) : act calvin_node event := fun n =>
  let '(c, evs) := new_collector xid req in
  (match calvin_collector_ n !! xid with
   | Some _ => n
   | None => n <| calvin_collector_ := <[xid := c]> (calvin_collector_ n) |>
   end, evs ++ [Sequence (request_ c)]).

(** [logs] are the records of the message that this node wrote; the error code
    is not looked at. *)
(* @src src/concurrency/cc_block.cpp 1088 1115 cc_block::handle_calvin_log_commit *)
Definition handle_calvin_log_commit (ec : EC) (logs : list tx_log) : act calvin_node event :=
  each (fun log => at_context (log_xid log) (on_operation_committed log)) logs.

(* @src src/concurrency/cc_block.cpp 1117 1135 cc_block::handle_calvin_part_commit *)
Definition handle_calvin_part_commit (msg : calvin_part_commit) : act calvin_node event := fun n =>
  match calvin_collector_ n !! pc_xid msg with
  | Some c => let '(c, evs) := part_commit msg c in (n <| calvin_collector_ := <[pc_xid msg := c]> (calvin_collector_ n) |>, evs)
  | None => (n, [])
  end.

(* @src src/concurrency/cc_block.cpp 1137 1152 cc_block::handle_calvin_read_response *)
Definition handle_calvin_read_response (msg : dsb_read_response) : act calvin_node event :=
  at_context (rs_xid msg) (read_response msg).

(** ** A part commits once *)

Inductive input :=
| IGrant (op : tx_operation)
| IRead (res : dsb_read_response)
| ILog (log : tx_log).

Definition take_input (i : input) : handler :=
  match i with
  | IGrant op => on_operation_done op ""
  | IRead res => read_response res
  | ILog log => on_operation_committed log
  end.

Definition granted (ins : list input) : list tx_operation := omap (fun i => match i with IGrant op => Some op | _ => None end) ins.
Definition reads (ins : list input) : list Z := omap (fun i => match i with IRead res => Some (rs_oid res) | _ => None end) ins.
Definition logs (ins : list input) : list tx_log := omap (fun i => match i with ILog log => Some log | _ => None end) ins.

(** What can happen to a part with operations [ops]: each lock is granted, then
    each read answered once; the log record commits once, at any time. *)
Inductive history (ops : list tx_operation) : list input → Prop :=
| history_nil : history ops []
| history_grant ins op : history ops ins → op ∈ ops → history ops (ins ++ [IGrant op])
| history_read ins res :
    history ops ins → rs_oid res ∈ map op_operation_id (granted ins) → rs_oid res ∉ reads ins → history ops (ins ++ [IRead res])
| history_log ins log : history ops ins → log_type log = TX_CMD_RM_COMMIT → logs ins = [] → history ops (ins ++ [ILog log]).

Definition complete (ops : list tx_operation) (ins : list input) : bool :=
  (length (reads ins) =? length ops)%nat && negb (bool_decide (length (logs ins) = 0%nat)).

Definition part_commits (evs : list event) : list calvin_part_commit :=
  omap (fun e => match e with SendPartCommit m => Some m | _ => None end) evs.
Definition unlocks (evs : list event) : list event :=
  omap (fun e => match e with UnlockRow _ _ _ _ _ => Some e | _ => None end) evs.
Definition no_assert (evs : list event) : Prop := AssertFailed ∉ evs.

Definition unlock_of (xid : Z) (op : tx_operation) : event :=
  UnlockRow xid (op_type_to_lock_mode (op_type op)) (op_table_id op) (op_shard_id op) (op_tuple_id op).

(** What a handler of the context may do besides committing. *)
Definition commit_events (c : calvin_context) : list event :=
  map (unlock_of (xid_ c)) (req_operations (ops_request_ c))
  ++ [SendPartCommit (mk_part_commit (node_id_ c) (collector_id_ c) (xid_ c) [])].

Lemma each_release ops c : each release ops c = (c, map (unlock_of (xid_ c)) ops).
Proof.
  induction ops as [|op ops IH]; [done|]. simpl. rewrite and_then_eq. change (release op c) with (c, [unlock_of (xid_ c) op]). simpl. by rewrite IH.
Qed.

Lemma tx_commit_eq c :
  tx_commit c =
  if (length (req_operations (ops_request_ c)) <=? size (op_read_ c))%nat && (log_committed_ c || read_only_ c)
  then (c <| commit_ := true |>, commit_events c) else (c, []).
Proof.
  unfold tx_commit, commit_events. rewrite Nat.ltb_antisym.
  destruct (length (req_operations (ops_request_ c)) <=? size (op_read_ c))%nat; simpl; [|done].
  rewrite <- negb_orb. destruct (log_committed_ c || read_only_ c); simpl; [|done].
  rewrite !and_then_eq, each_release. done.
Qed.

Section part.
Context (c0 : calvin_context).
Let ops := req_operations (ops_request_ c0).
Hypothesis shards_known : ∀ op, op ∈ ops → is_Some (node_id_of_shard (op_shard_id op) (ctx_opt_dsb_node_id_ c0) (dsb_node_ids_ c0)).

(** What never changes. *)
Definition fixed (c c' : calvin_context) : Prop :=
  xid_ c' = xid_ c ∧ node_id_ c' = node_id_ c ∧ collector_id_ c' = collector_id_ c ∧ ops_request_ c' = ops_request_ c ∧
  ctx_opt_dsb_node_id_ c' = ctx_opt_dsb_node_id_ c ∧ dsb_node_ids_ c' = dsb_node_ids_ c ∧ read_only_ c' = read_only_ c.

Record part_inv (ins : list input) (c : calvin_context) : Prop := {
  p_fixed : fixed c0 c;
  p_log : log_committed_ c = negb (bool_decide (length (logs ins) = 0%nat));
  p_resp : ∀ o, o ∈ map op_operation_id (granted ins) ↔ is_Some (op_response_ c !! o);
  p_read : op_read_ c = list_to_set (reads ins);
  p_nodup : NoDup (reads ins);
  p_sub : ∀ o, o ∈ reads ins → o ∈ map op_operation_id ops;
  p_granted : ∀ op, op ∈ granted ins → op ∈ ops;
}.

Lemma commit_events_fixed c : fixed c0 c → commit_events c = commit_events c0.
Proof. intros (H1 & H2 & H3 & H4 & _). unfold commit_events. by rewrite H1, H2, H3, H4. Qed.

Lemma omap_snoc {A B} (f : A → option B) l x : omap f (l ++ [x]) = omap f l ++ match f x with Some y => [y] | None => [] end.
Proof. rewrite omap_app. simpl. by destruct (f x). Qed.

Lemma reads_bound ins c : part_inv ins c → (length (reads ins) ≤ length ops)%nat ∧ size (op_read_ c) = length (reads ins).
Proof.
  intros H. split.
  - rewrite <- (length_map op_operation_id ops). apply submseteq_length, NoDup_submseteq; apply H.
  - rewrite (p_read _ _ H), size_list_to_set; [done|apply H].
Qed.

(** The commit test after an input that may complete the part. *)
Lemma commit_test ins c : part_inv ins c → read_only_ c0 = false →
  tx_commit c = if complete ops ins then (c <| commit_ := true |>, commit_events c0) else (c, []).
Proof.
  intros H Hro. rewrite tx_commit_eq. destruct (p_fixed _ _ H) as (_ & _ & _ & Hreq & _ & _ & Hr). rewrite Hr, Hro, Hreq.
  fold ops. destruct (reads_bound ins c H) as [Hle ->]. unfold complete. rewrite orb_false_r, <- (p_log _ _ H).
  rewrite (commit_events_fixed c) by apply H.
  destruct (Nat.eqb_spec (length (reads ins)) (length ops)) as [->|Hne]; [by rewrite Nat.leb_refl|].
  by rewrite (proj2 (Nat.leb_gt _ _)) by lia.
Qed.

(** What a run of the part has told the outside. *)
Record told (ins : list input) (evs : list event) : Prop := {
  t_commits : part_commits evs = if complete ops ins then part_commits (commit_events c0) else [];
  t_unlocks : unlocks evs = if complete ops ins then unlocks (commit_events c0) else [];
  t_asserts : no_assert evs;
}.

Lemma told_quiet ins ins' evs e :
  told ins evs → complete ops ins' = complete ops ins → (∃ m, e = [SendRead m]) ∨ e = [] → told ins' (evs ++ e).
Proof.
  intros [H1 H2 H3] Hc He. destruct He as [[m ->]| ->]; [|rewrite app_nil_r; split; by rewrite ?Hc].
  split; rewrite ?Hc.
  - unfold part_commits in *. rewrite omap_snoc. simpl. by rewrite app_nil_r.
  - unfold unlocks in *. rewrite omap_snoc. simpl. by rewrite app_nil_r.
  - unfold no_assert in *. rewrite elem_of_app, list_elem_of_singleton. naive_solver.
Qed.

Lemma commit_events_quiet c : no_assert (commit_events c).
Proof.
  unfold no_assert, commit_events. rewrite elem_of_app, list_elem_of_singleton. intros [H|H]; [|done].
  apply list_elem_of_In, in_map_iff in H as (op & E & _). done.
Qed.

Lemma told_commit ins ins' evs :
  told ins evs → complete ops ins = false → told ins' (evs ++ if complete ops ins' then commit_events c0 else []).
Proof.
  intros [H1 H2 H3] Hc. rewrite Hc in H1, H2. destruct (complete ops ins') eqn:E; rewrite ?app_nil_r; split; rewrite ?E; try done.
  - unfold part_commits in *. by rewrite omap_app, H1.
  - unfold unlocks in *. by rewrite omap_app, H2.
  - unfold no_assert. rewrite elem_of_app. intros [?|?]; [done|by apply (commit_events_quiet c0)].
Qed.

Lemma take_grant ins c op :
  part_inv ins c → op ∈ ops →
  ∃ c' m, on_operation_done op "" c = (c', [SendRead m]) ∧ part_inv (ins ++ [IGrant op]) c'.
Proof.
  intros H Hop. unfold on_operation_done. rewrite modify_then. unfold send_read.
  set (c1 := match _ with Some _ => c | None => _ end).
  assert (fixed c c1) as Hf by (unfold c1; by destruct (op_response_ c !! _)).
  destruct Hf as (F1 & F2 & F3 & F4 & F5 & F6 & F7), (p_fixed _ _ H) as (G1 & G2 & G3 & G4 & G5 & G6 & G7).
  destruct (shards_known op Hop) as [d Hd]. rewrite F5, F6, G5, G6, Hd. eexists _, _. split; [reflexivity|].
  assert (∀ o, is_Some (op_response_ c1 !! o) ↔ o = op_operation_id op ∨ is_Some (op_response_ c !! o)) as Hresp.
  { intros o. unfold c1. destruct (op_response_ c !! op_operation_id op) as [x|] eqn:E.
    - split; [by right|]. intros [->|?]; [by exists x|done].
    - simpl. destruct (decide (o = op_operation_id op)) as [->|].
      + rewrite lookup_insert_eq. split; [by left|by eexists].
      + rewrite lookup_insert_ne by done. naive_solver. }
  split; unfold logs, granted, reads in *; rewrite ?omap_snoc; simpl; rewrite ?app_nil_r.
  - repeat split; congruence.
  - assert (log_committed_ c1 = log_committed_ c) as -> by (unfold c1; by destruct (op_response_ c !! _)). apply H.
  - intros o. rewrite Hresp, <- (p_resp _ _ H o), map_app, elem_of_app. simpl. rewrite list_elem_of_singleton. tauto.
  - assert (op_read_ c1 = op_read_ c) as -> by (unfold c1; by destruct (op_response_ c !! _)). apply H.
  - apply H.
  - apply H.
  - intros x. rewrite elem_of_app, list_elem_of_singleton. intros [Hx| ->]; [by apply (p_granted _ _ H)|done].
Qed.

(** The state before the commit test of [read_response]. *)
Definition answered (res : dsb_read_response) (o : tx_operation) (c : calvin_context) : calvin_context :=
  let c := c <| op_read_ := {[rs_oid res]} ∪ op_read_ c |> in
  match rs_tuple_row res with
  | Some row => if EC_eqb (rs_error_code res) EC_OK
                then c <| op_response_ := <[rs_oid res :=
                       o <| op_table_id := tr_table_id row |> <| op_shard_id := tr_shard_id row |>
                         <| op_tuple_id := tr_tuple_id row |> <| op_tuple := tr_tuple row |>]> (op_response_ c) |>
                else c
  | None => c
  end.

Lemma read_response_eq res o c : op_response_ c !! rs_oid res = Some o → read_response res c = tx_commit (answered res o c).
Proof.
  intros E. unfold read_response, answered. rewrite E, !and_then_eq. simpl.
  destruct (rs_tuple_row res) as [row|]; [destruct (EC_eqb (rs_error_code res) EC_OK)|]; simpl; by destruct (tx_commit _).
Qed.

Lemma take_read ins c res :
  part_inv ins c → rs_oid res ∈ map op_operation_id (granted ins) → rs_oid res ∉ reads ins →
  ∃ c', read_response res c = tx_commit c' ∧ part_inv (ins ++ [IRead res]) c'.
Proof.
  intros H Hg Hn. destruct (proj1 (p_resp _ _ H _) Hg) as [o Ho]. exists (answered res o c). split; [by apply read_response_eq|].
  assert (fixed c (answered res o c) ∧ log_committed_ (answered res o c) = log_committed_ c ∧
          op_read_ (answered res o c) = {[rs_oid res]} ∪ op_read_ c) as (Hf & Hl & Hr).
  { unfold answered. destruct (rs_tuple_row res); [destruct (EC_eqb _ _)|]; done. }
  assert (∀ x, is_Some (op_response_ (answered res o c) !! x) ↔ is_Some (op_response_ c !! x)) as Hresp.
  { intros x. unfold answered. destruct (rs_tuple_row res); [destruct (EC_eqb _ _)|]; simpl; try done.
    destruct (decide (x = rs_oid res)) as [->|]; [by rewrite lookup_insert_eq, Ho, !is_Some_alt|by rewrite lookup_insert_ne]. }
  destruct Hf as (F1 & F2 & F3 & F4 & F5 & F6 & F7), (p_fixed _ _ H) as (G1 & G2 & G3 & G4 & G5 & G6 & G7).
  split; unfold logs, granted, reads in *; rewrite ?omap_snoc; simpl; rewrite ?app_nil_r.
  - repeat split; congruence.
  - rewrite Hl. apply H.
  - intros x. rewrite Hresp. apply H.
  - rewrite Hr, (p_read _ _ H), list_to_set_app_L. simpl. unfold reads. set_solver.
  - apply NoDup_app. split_and!; [apply H| |apply NoDup_singleton]. intros x Hx ->%list_elem_of_singleton. done.
  - intros x. rewrite elem_of_app, list_elem_of_singleton. intros [Hx| ->]; [by apply (p_sub _ _ H)|].
    apply list_elem_of_In, in_map_iff in Hg as (op & <- & Hop%list_elem_of_In). apply list_elem_of_In, in_map, list_elem_of_In.
    by apply (p_granted _ _ H).
  - apply H.
Qed.

Lemma take_log ins c log :
  part_inv ins c → log_type log = TX_CMD_RM_COMMIT →
  ∃ c', on_operation_committed log c = tx_commit c' ∧ part_inv (ins ++ [ILog log]) c'.
Proof.
  intros H Ht. unfold on_operation_committed. rewrite bool_decide_eq_true_2 by done. rewrite modify_then.
  eexists. split; [reflexivity|]. split; unfold logs, granted, reads in *; rewrite ?omap_snoc; simpl; rewrite ?app_nil_r; try apply H.
  by rewrite length_app, Nat.add_comm.
Qed.

Lemma part_inv_commit ins c : part_inv ins c → part_inv ins (c <| commit_ := true |>).
Proof. intros [? ? ? ? ? ? ?]. by split. Qed.

(** Handlers that end in the commit test. *)
Lemma take_commit ins ins' c' evs :
  read_only_ c0 = false → part_inv ins' c' → told ins evs → complete ops ins = false →
  part_inv ins' (tx_commit c').1 ∧ told ins' (evs ++ (tx_commit c').2).
Proof.
  intros Hro H Ht Hc. rewrite (commit_test ins' c' H Hro). pose proof (told_commit ins ins' evs Ht Hc) as Ht'.
  destruct (complete ops ins'); simpl in *; [|done]. split; [by apply part_inv_commit|done].
Qed.

Lemma part_runs ins :
  op_response_ c0 = ∅ → op_read_ c0 = ∅ → log_committed_ c0 = false → read_only_ c0 = false → history ops ins →
  part_inv ins (each take_input ins c0).1 ∧ told ins (each take_input ins c0).2.
Proof.
  intros H1 H2 H3 Hro. induction 1 as [|ins op _ [IHc IHt] Hop|ins res _ [IHc IHt] Hg Hn|ins log _ [IHc IHt] Ht Hl].
  - simpl. split.
    + split; simpl; try done; [|constructor| |]; rewrite ?H1.
      * intros o. rewrite lookup_empty. split; [by intros ?%elem_of_nil|by intros [? ?]].
      * by intros o ?%elem_of_nil.
      * by intros o ?%elem_of_nil.
    + assert (complete ops [] = false) as Hc by (unfold complete; simpl; by rewrite andb_false_r).
      split; rewrite ?Hc; try done. by intros ?%elem_of_nil.
  - rewrite each_snoc. simpl. destruct (take_grant ins _ op IHc Hop) as (c' & m & -> & Hc'). split; [done|].
    eapply told_quiet; [done| |by left; eexists]. unfold complete, reads, logs. by rewrite !omap_snoc, !app_nil_r.
  - rewrite each_snoc. simpl. destruct (take_read ins _ res IHc Hg Hn) as (c' & -> & Hc').
    apply (take_commit ins _ c'); try done.
    destruct (reads_bound _ _ Hc') as [Hle _]. unfold reads in Hle. rewrite omap_snoc, length_app in Hle. simpl in Hle.
    unfold complete. destruct (Nat.eqb_spec (length (reads ins)) (length ops)); [unfold reads in *; lia|done].
  - rewrite each_snoc. simpl. destruct (take_log ins _ log IHc Ht) as (c' & -> & Hc').
    apply (take_commit ins _ c'); try done. unfold complete. rewrite Hl. simpl. apply andb_false_r.
Qed.

End part.

Lemma commit_events_parts c :
  part_commits (commit_events c) = [mk_part_commit (node_id_ c) (collector_id_ c) (xid_ c) []] ∧
  unlocks (commit_events c) = map (unlock_of (xid_ c)) (req_operations (ops_request_ c)).
Proof.
  unfold part_commits, unlocks, commit_events. rewrite !omap_app. simpl. rewrite app_nil_r.
  split; [|by induction (req_operations _) as [|op l IH]; simpl; [|f_equal]].
  by induction (req_operations _) as [|op l IH].
Qed.

(** C17: A part with writes commits exactly once.  Let its locks be granted, its
    reads answered and its log record committed, in any possible order.  While
    an answer or the log record is missing it releases nothing; with the last of
    them it releases the lock of every operation and tells the collector, once.
    No assertion fails on the way. *)
Theorem part_commits_once xid node dsb s2n cno req ins :
  (∀ op, op ∈ req_operations req → is_Some (node_id_of_shard (op_shard_id op) dsb s2n)) →
  history (req_operations req) ins →
  ∃ c evs, each take_input ins (new_context xid node dsb s2n cno req).1 = (c, evs) ∧ AssertFailed ∉ evs ∧
    part_commits evs = (if complete (req_operations req) ins then [mk_part_commit node (req_source req) xid []] else []) ∧
    unlocks evs = if complete (req_operations req) ins then map (unlock_of xid) (req_operations req) else [].
Proof.
  intros Hk Hh. destruct (part_runs (new_context xid node dsb s2n cno req).1 Hk ins) as [_ [H1 H2 H3]]; try done.
  destruct (commit_events_parts (new_context xid node dsb s2n cno req).1) as [E1 E2]. rewrite E1 in H1. rewrite E2 in H2.
  destruct (each take_input ins _) as [c evs]. by exists c, evs.
Qed.

(** ** An epoch is acknowledged once *)

Definition callback_at (n : calvin_node) (xid oid : Z) : option (tx_operation * Z) :=
  calvin_context_ n !! xid ≫= fun c => callback_ c !! oid.

Definition acks_of (evs : list event) : list calvin_epoch_ack :=
  omap (fun e => match e with SendAck m => Some m | _ => None end) evs.

(** The locks [gs], as transaction and operation, are granted one after the
    other. *)
Definition grant_all (gs : list (Z * Z)) : act calvin_node event := each (fun g => async_lock_acquire g.1 EC_OK g.2) gs.

Lemma at_context_callbacks xid h n :
  (∀ c, callback_ (h c).1 = callback_ c) →
  (∀ x o, callback_at (at_context xid h n).1 x o = callback_at n x o) ∧ pending_ (at_context xid h n).1 = pending_ n.
Proof.
  intros Hh. unfold at_context, callback_at. destruct (calvin_context_ n !! xid) as [c|] eqn:E; [|done].
  specialize (Hh c). destruct (h c) as [c' evs]. simpl in *. split; [|done]. intros x o.
  destruct (decide (x = xid)) as [->|]; [rewrite lookup_insert_eq, E; simpl; by rewrite Hh|by rewrite lookup_insert_ne].
Qed.

Lemma on_operation_done_frame op tp c :
  callback_ (on_operation_done op tp c).1 = callback_ c ∧ acks_of (on_operation_done op tp c).2 = [].
Proof.
  unfold on_operation_done. rewrite modify_then. unfold send_read.
  set (c1 := match _ with Some _ => c | None => _ end).
  assert (callback_ c1 = callback_ c) as <- by (unfold c1; by destruct (op_response_ c !! _)).
  by destruct (node_id_of_shard _ _ _).
Qed.

Lemma at_context_acks xid h n : (∀ c, acks_of (h c).2 = []) → acks_of (at_context xid h n).2 = [].
Proof.
  intros Hh. unfold at_context. destruct (calvin_context_ n !! xid) as [c|]; [|done]. specialize (Hh c). by destruct (h c).
Qed.

Definition epoch_acks (node epoch : Z) (ids : gset Z) : list calvin_epoch_ack := map (fun id => mk_ack node id epoch) (elements ids).

Lemma acks_of_send_ack epoch ids n : acks_of (send_ack epoch ids n).2 = epoch_acks (cn_node_id_ n) epoch ids.
Proof. unfold acks_of, send_ack, epoch_acks. simpl. induction (elements ids) as [|x l IH]; [done|]. simpl. by f_equal. Qed.

(** One lock of the epoch. *)
Lemma grant_one n epoch xid oid op k ids :
  callback_at n xid oid = Some (op, epoch) → pending_ n !! epoch = Some (k, ids) → 0 < k < 2 ^ 64 →
  let r := async_lock_acquire xid EC_OK oid n in
  (∀ x o, callback_at r.1 x o = callback_at n x o) ∧ pending_ r.1 !! epoch = Some (k - 1, ids) ∧ cn_node_id_ r.1 = cn_node_id_ n ∧
  acks_of r.2 = if k =? 1 then epoch_acks (cn_node_id_ n) epoch ids else [].
Proof.
  intros Hcb Hp Hk. cbn zeta. unfold async_lock_acquire. unfold callback_at in Hcb. rewrite Hcb.
  unfold lock_granted. change (negb (EC_eqb EC_OK EC_OK)) with false. unfold when.
  rewrite and_then_eq. cbn [skip fst snd app]. rewrite modify_then, and_then_eq. set (n1 := count_down epoch n).
  assert (pending_ n1 !! epoch = Some (k - 1, ids)) as Hp1.
  { unfold n1, count_down. simpl. rewrite lookup_alter_eq, Hp. simpl. by rewrite wrap_small by (unfold fits; lia). }
  rewrite Hp1. destruct (at_context_callbacks xid (on_operation_done op "") n1) as [Hcb2 Hp2].
  { intros c. apply on_operation_done_frame. }
  assert (acks_of (at_context xid (on_operation_done op "") n1).2 = []) as Ha
    by (apply at_context_acks; intros c; apply on_operation_done_frame).
  assert (cn_node_id_ (at_context xid (on_operation_done op "") n1).1 = cn_node_id_ n) as Hn.
  { unfold at_context. destruct (calvin_context_ n1 !! xid); [|done]. by destruct (on_operation_done _ _ _). }
  destruct (Z.eqb_spec k 1) as [->|Hne].
  - simpl. split_and!; [done|by rewrite Hp2|done|].
    change (acks_of ((send_ack epoch ids n1).2 ++ (at_context xid (on_operation_done op "") n1).2) = epoch_acks (cn_node_id_ n) epoch ids).
    unfold acks_of in *. rewrite omap_app, Ha, app_nil_r. apply (acks_of_send_ack epoch ids n1).
  - replace (match k - 1 with 0 => send_ack epoch ids n1 | _ => skip n1 end) with (n1, [] : list event)
      by (destruct (k - 1) eqn:E; [lia|done|done]).
    simpl. split_and!; [done|by rewrite Hp2|done|done].
Qed.

Lemma grant_many n epoch gs k ids :
  (∀ g, g ∈ gs → ∃ op, callback_at n g.1 g.2 = Some (op, epoch)) → pending_ n !! epoch = Some (k, ids) →
  Z.of_nat (length gs) ≤ k < 2 ^ 64 →
  acks_of (grant_all gs n).2 = if bool_decide (gs ≠ []) && (Z.of_nat (length gs) =? k) then epoch_acks (cn_node_id_ n) epoch ids else [].
Proof.
  revert n k. induction gs as [|g gs IH]; intros n k Hcb Hp Hk; [done|].
  destruct (Hcb g) as [op Hop]; [set_solver|]. unfold grant_all. cbn [each]. rewrite and_then_eq.
  destruct (grant_one n epoch g.1 g.2 op k ids Hop Hp) as (Hcb' & Hp' & Hn' & Ha); [simpl in Hk; lia|].
  unfold acks_of in *. cbn [snd]. rewrite omap_app, Ha. unfold grant_all in IH. rewrite (IH _ (k - 1)); [|..].
  - rewrite Hn'. destruct gs as [|g' gs]; [simpl; by rewrite app_nil_r, (Z.eqb_sym k 1)|].
    rewrite !bool_decide_eq_true_2 by done. cbn [andb]. cbn [length] in *.
    destruct (Z.eqb_spec k 1); [lia|]. cbn [app].
    destruct (Z.eqb_spec (Z.of_nat (S (length gs))) (k - 1)), (Z.eqb_spec (Z.of_nat (S (S (length gs)))) k); try done; lia.
  - intros g' Hg'. rewrite Hcb'. apply Hcb. set_solver.
  - done.
  - simpl in Hk. lia.
Qed.

(** ** What scheduling an epoch leaves behind *)

Definition not_ack (e : event) : Prop := match e with SendAck _ => False | _ => True end.

Lemma no_acks evs : Forall not_ack evs → acks_of evs = [].
Proof. unfold acks_of. induction 1 as [|e evs He _ IH]; [done|]. simpl. by destruct e. Qed.

(** Contexts stay. *)
Definition keeps (n n' : calvin_node) : Prop :=
  cn_node_id_ n' = cn_node_id_ n ∧ ∀ x, is_Some (calvin_context_ n !! x) → is_Some (calvin_context_ n' !! x).
#[local] Instance keeps_refl : Reflexive keeps.
Proof. by split. Qed.
#[local] Instance keeps_trans : Transitive keeps.
Proof. intros a b c [H1 H2] [H3 H4]. split; [congruence|naive_solver]. Qed.

Lemma at_context_keeps xid f : respects keeps not_ack (at_context xid (modify f)).
Proof.
  intros n. unfold at_context. destruct (calvin_context_ n !! xid) as [c|] eqn:E; simpl; [|split; [done|constructor]].
  split; [|constructor]. split; [done|]. intros x Hx. simpl.
  destruct (decide (x = xid)) as [->|]; [rewrite lookup_insert_eq; by eexists|by rewrite lookup_insert_ne].
Qed.

Lemma find_context_keeps req : respects keeps not_ack (find_context req).
Proof.
  intros n. unfold find_context. destruct (calvin_context_ n !! req_xid req) as [c|] eqn:E; simpl; [split; [done|constructor]|].
  split.
  - split; [done|]. intros x Hx. simpl. destruct (decide (x = req_xid req)) as [->|]; [rewrite lookup_insert_eq; by eexists|by rewrite lookup_insert_ne].
  - destruct (req_source req =? 0), (req_operations req); repeat constructor.
Qed.

Lemma find_context_finds req n : is_Some (calvin_context_ (find_context req n).1 !! req_xid req).
Proof.
  unfold find_context. destruct (calvin_context_ n !! req_xid req) as [c|] eqn:E; simpl; [by rewrite E|].
  rewrite lookup_insert_eq. by eexists.
Qed.

#[local] Hint Resolve at_context_keeps find_context_keeps : respects.

Lemma create_or_find_keeps set req ro : respects keeps not_ack (create_or_find set req ro).
Proof. unfold create_or_find. destruct (bool_decide _); auto 6 with respects. Qed.

Lemma create_or_find_finds set req ro n :
  (req_xid req ∈ set → is_Some (calvin_context_ n !! req_xid req)) →
  is_Some (calvin_context_ (create_or_find set req ro n).1 !! req_xid req).
Proof.
  intros Hs. unfold create_or_find. case_bool_decide as Hin; [by apply Hs|]. rewrite and_then_eq. simpl.
  assert (respects keeps not_ack (when ro (at_context (req_xid req) (modify set_read_only)))) as Hr by auto with respects.
  apply Hr, find_context_finds.
Qed.

Lemma check_tuples_keeps req : respects keeps not_ack (check_tuples req).
Proof. unfold check_tuples. auto 6 with respects. Qed.

Lemma prepare_all_ok set reqs n :
  (∀ x, x ∈ set → is_Some (calvin_context_ n !! x)) →
  let r := prepare_all set reqs n in
  keeps n r.1 ∧ Forall not_ack r.2 ∧ ∀ req, req ∈ reqs → is_Some (calvin_context_ r.1 !! req_xid req).
Proof.
  cbn zeta. revert set n. induction reqs as [|req reqs IH]; intros set n Hset; simpl.
  { split_and!; [done|constructor|by intros ? ?%elem_of_nil]. }
  set (ro := match writes req with [] => true | _ => false end).
  rewrite !and_then_eq. cbn [fst snd]. destruct (check_tuples_keeps req n) as [K1 E1]. set (n1 := (check_tuples req n).1) in *.
  destruct (create_or_find_keeps set req ro n1) as [K2 E2].
  assert (is_Some (calvin_context_ (create_or_find set req ro n1).1 !! req_xid req)) as Hf.
  { apply create_or_find_finds. intros Hx. by apply K1, Hset. }
  set (n2 := (create_or_find set req ro n1).1) in *.
  destruct (IH ({[req_xid req]} ∪ set) n2) as (K3 & E3 & H3).
  { intros x [->%elem_of_singleton|Hx]%elem_of_union; [done|]. by apply K2, K1, Hset. }
  split_and!; [by etrans; [|etrans]|by rewrite !Forall_app|].
  intros r [->|Hr]%elem_of_cons; [by apply K3|by apply H3].
Qed.

(** The second loop keeps the callbacks of the epoch. *)
Definition waits (epoch : Z) (n n' : calvin_node) : Prop :=
  keeps n n' ∧ pending_ n' = pending_ n ∧
  ∀ x o, (∃ op, callback_at n x o = Some (op, epoch)) → ∃ op, callback_at n' x o = Some (op, epoch).
#[local] Instance waits_refl e : Reflexive (waits e).
Proof. by split. Qed.
#[local] Instance waits_trans e : Transitive (waits e).
Proof. intros a b c (H1 & H2 & H3) (H4 & H5 & H6). split_and!; [by etrans|congruence|naive_solver]. Qed.

Definition lockable_op (op : tx_operation) : Prop :=
  match op_type op with TX_OP_ACCESS_BEGIN | TX_OP_ACCESS_END => False | _ => True end.

Lemma request_lock_ok epoch req op n :
  lockable_op op → is_Some (calvin_context_ n !! req_xid req) →
  let r := request_lock epoch req op n in
  waits epoch n r.1 ∧ Forall not_ack r.2 ∧ ∃ op', callback_at r.1 (req_xid req) (op_operation_id op) = Some (op', epoch).
Proof.
  intros Hop [c Hc]. cbn zeta.
  assert (∃ lt, request_lock epoch req op = (at_context (req_xid req) (modify (add_lock_acquire_callback (op_operation_id op) (op, epoch))) ;;
    emit (LockRow (op_xid op) (op_operation_id op) lt (op_table_id op) (op_shard_id op) (op_tuple_id op)))%act) as [lt ->].
  { unfold request_lock, lockable_op in *. destruct (op_type op); try done; eexists; reflexivity. }
  rewrite and_then_eq. simpl.
  destruct (at_context_keeps (req_xid req) (add_lock_acquire_callback (op_operation_id op) (op, epoch)) n) as [K E].
  revert K E. unfold at_context. rewrite Hc. simpl. intros K _.
  assert (∀ x o, callback_at (n <| calvin_context_ := <[req_xid req := add_lock_acquire_callback (op_operation_id op) (op, epoch) c]> (calvin_context_ n) |>) x o
     = if decide (x = req_xid req ∧ o = op_operation_id op) then Some (op, epoch) else callback_at n x o) as Hcb.
  { intros x o. unfold callback_at. simpl. destruct (decide (x = req_xid req)) as [->|].
    - rewrite lookup_insert_eq, Hc. simpl. destruct (decide (o = op_operation_id op)) as [->|].
      + rewrite lookup_insert_eq. by rewrite decide_True.
      + rewrite lookup_insert_ne by done. by rewrite decide_False by naive_solver.
    - rewrite lookup_insert_ne by done. by rewrite decide_False by naive_solver. }
  split_and!; [|by repeat constructor|exists op; rewrite Hcb; by rewrite decide_True].
  split_and!; [exact K|done|]. intros x o Hx. rewrite Hcb. case_decide; [by exists op|done].
Qed.

Lemma request_locks_ok epoch req ops n :
  Forall lockable_op ops → is_Some (calvin_context_ n !! req_xid req) →
  let r := each (request_lock epoch req) ops n in
  waits epoch n r.1 ∧ Forall not_ack r.2 ∧
  ∀ op, op ∈ ops → ∃ op', callback_at r.1 (req_xid req) (op_operation_id op) = Some (op', epoch).
Proof.
  cbn zeta. intros Hops. revert n. induction Hops as [|op ops Hop _ IH]; intros n Hc; simpl.
  { split_and!; [done|constructor|by intros ? ?%elem_of_nil]. }
  rewrite and_then_eq. simpl. destruct (request_lock_ok epoch req op n Hop Hc) as (W1 & E1 & H1).
  destruct (IH (request_lock epoch req op n).1) as (W2 & E2 & H2); [by apply W1|].
  split_and!; [by etrans|by apply Forall_app|]. intros o [->|Ho]%elem_of_cons; [by apply W2|by apply H2].
Qed.

Lemma request_all_ok epoch reqs n :
  Forall (fun req => Forall lockable_op (req_operations req)) reqs →
  (∀ req, req ∈ reqs → is_Some (calvin_context_ n !! req_xid req)) →
  let r := each (fun req => each (request_lock epoch req) (req_operations req)) reqs n in
  waits epoch n r.1 ∧ Forall not_ack r.2 ∧
  ∀ req op, req ∈ reqs → op ∈ req_operations req → ∃ op', callback_at r.1 (req_xid req) (op_operation_id op) = Some (op', epoch).
Proof.
  cbn zeta. intros Hreqs. revert n. induction Hreqs as [|req reqs Hreq _ IH]; intros n Hc; simpl.
  { split_and!; [done|constructor|by intros ? ? ?%elem_of_nil]. }
  rewrite and_then_eq. simpl. destruct (request_locks_ok epoch req (req_operations req) n Hreq) as (W1 & E1 & H1); [apply Hc; set_solver|].
  destruct (IH (each (request_lock epoch req) (req_operations req) n).1) as (W2 & E2 & H2).
  { intros r Hr. apply W1, Hc. set_solver. }
  split_and!; [by etrans|by apply Forall_app|]. intros r o [->|Hr]%elem_of_cons Ho; [by apply W2, H1|by apply (H2 r o)].
Qed.

(** C18: An epoch is acknowledged when, and only when, all its locks are held.
    Let an epoch with requests be scheduled and some of the locks it asked for be
    granted, in any order.  The node has sent its acknowledgements, one to each
    leader of the epoch, if as many locks were granted as there are operations,
    and none otherwise. *)
Theorem epoch_acked_once e n gs :
  reqs_ e ≠ [] → Forall (fun req => Forall lockable_op (req_operations req)) (reqs_ e) →
  Z.of_nat (length (concat (map req_operations (reqs_ e)))) < 2 ^ 64 →
  (∀ g, g ∈ gs → ∃ req op, req ∈ reqs_ e ∧ op ∈ req_operations req ∧ g = (req_xid req, op_operation_id op)) →
  (length gs ≤ length (concat (map req_operations (reqs_ e))))%nat → gs ≠ [] →
  acks_of ((schedule e ;; grant_all gs)%act n).2 =
  if (length gs =? length (concat (map req_operations (reqs_ e))))%nat
  then epoch_acks (cn_node_id_ n) (eo_epoch_ e) (node_ids_ e) else [].
Proof.
  intros Hne Hops Hlt Hgs Hlen Hgn. set (total := length _) in *. rewrite and_then_eq. cbn [snd].
  assert (schedule e = (prepare_all ∅ (reqs_ e) ;; emit (AppendLog (map request_log (reqs_ e))) ;;
     modify (fun n => n <| pending_ := <[eo_epoch_ e := (u64 (Z.of_nat total), node_ids_ e)]> (pending_ n) |>) ;;
     each (fun req => each (request_lock (eo_epoch_ e) req) (req_operations req)) (reqs_ e))%act) as ->.
  { unfold schedule, total. by destruct (reqs_ e). }
  rewrite !and_then_eq. cbn [fst snd modify emit].
  destruct (prepare_all_ok ∅ (reqs_ e) n) as ([Kn Kc] & E1 & H1); [set_solver|].
  set (n1 := (prepare_all ∅ (reqs_ e) n).1) in *. set (n2 := n1 <| pending_ := _ |>).
  destruct (request_all_ok (eo_epoch_ e) (reqs_ e) n2 Hops) as (([Wn _] & Wp & _) & E2 & H2); [done|].
  set (n3 := each _ (reqs_ e) n2) in *. unfold acks_of. rewrite !omap_app.
  fold (acks_of (prepare_all ∅ (reqs_ e) n).2) (acks_of n3.2). rewrite (no_acks _ E1), (no_acks _ E2). simpl.
  fold (acks_of (grant_all gs n3.1).2). rewrite (grant_many n3.1 (eo_epoch_ e) gs (Z.of_nat total) (node_ids_ e)).
  - rewrite bool_decide_eq_true_2 by done. cbn [andb]. rewrite Wn. change (cn_node_id_ n2) with (cn_node_id_ n1). rewrite Kn.
    destruct (Nat.eqb_spec (length gs) total) as [->|Hnl]; [by rewrite Z.eqb_refl|].
    destruct (Z.eqb_spec (Z.of_nat (length gs)) (Z.of_nat total)); [lia|done].
  - intros g Hg. destruct (Hgs g Hg) as (req & op & Hr & Ho & ->). by apply H2.
  - rewrite Wp. unfold n2. simpl. rewrite lookup_insert_eq. by rewrite wrap_small by (unfold fits; lia).
  - lia.
Qed.

(** ** Responses *)

Definition responses (evs : list event) : list (Z * EC * list tx_operation) :=
  omap (fun e => match e with Respond x ec ops => Some (x, ec, ops) | _ => None end) evs.

(** The response of a transaction holds no operation: the parts send none. *)
Theorem response_empty xid req msgs :
  Forall (fun m => pc_response m = []) msgs →
  Forall (fun r => r.2 = []) (responses (each part_commit msgs (new_collector xid req).1).2).
Proof.
  assert (∀ c msgs, ops_ c = ∅ → Forall (fun m => pc_response m = []) msgs →
    Forall (fun r => r.2 = []) (responses (each part_commit msgs c).2)) as Hall; [|by apply Hall].
  clear. intros c msgs H0 Hm. revert c H0. induction Hm as [|m msgs Hm _ IH]; intros c H0; [constructor|].
  simpl. rewrite and_then_eq. unfold responses. cbn [snd]. rewrite omap_app. apply Forall_app.
  assert (ops_ (part_commit m c).1 = ∅ ∧ Forall (fun r => r.2 = []) (responses (part_commit m c).2)) as [H1 H2]; [|by split; [|apply IH]].
  unfold part_commit. rewrite Hm. simpl. destruct (_ =? _)%nat; simpl; [|done]. split; [done|].
  constructor; [|done]. simpl. rewrite H0. by induction (req_operations _) as [|op l IH'].
Qed.

(** ** A read-only transaction

    Node 0x10001 leads shard 1; client transaction 5 reads one row there. *)

Definition demo_read : tx_operation := mk_op TX_OP_READ 0 1 1 1 7 "" 1.
Definition demo_request : tx_request := new_request <| req_source := 0x10001 |> <| req_operations := [demo_read] |>.
Definition demo_node : calvin_node := mk_node 0x10001 (Some 0x10004) ∅ 1 ∅ ∅ ∅.
Definition demo_epoch (req : tx_request) : calvin_epoch_ops := mk_ops 1 {[1]} {[0x10001]} [req].
Definition demo_answer : dsb_read_response := mk_read_response 0x10004 0x10001 5 1 EC_OK (Some (mk_row 1 1 7 "row")).

(** The node's own messages come back to it: parts are told to the collector. *)
Definition tell_collector (evs : list event) : act calvin_node event := each handle_calvin_part_commit (part_commits evs).

Definition then_tell (h : act calvin_node event) : act calvin_node event := fun n =>
  let '(n, evs) := h n in let '(n, evs') := tell_collector evs n in (n, evs ++ evs').


(** ** Witnesses *)

Definition demo_write : tx_operation := mk_op TX_OP_UPDATE 9 1 1 1 7 "row" 1.
Definition demo_write_request : tx_request :=
  new_request <| req_xid := 9 |> <| req_source := 0x20001 |> <| req_operations := [demo_write; demo_read <| op_operation_id := 2 |>] |>.
Definition demo_inputs : list input :=
  [IGrant demo_write; ILog (request_log demo_write_request); IGrant (demo_read <| op_operation_id := 2 |>);
   IRead (mk_read_response 0x10004 0x10001 9 2 EC_OK None); IRead (mk_read_response 0x10004 0x10001 9 1 EC_NOT_FOUND_ERROR None)].

Lemma demo_history : history (req_operations demo_write_request) demo_inputs.
Proof.
  change demo_inputs with ((((([] ++ [IGrant demo_write]) ++ [ILog (request_log demo_write_request)])
    ++ [IGrant (demo_read <| op_operation_id := 2 |>)]) ++ [IRead (mk_read_response 0x10004 0x10001 9 2 EC_OK None)])
    ++ [IRead (mk_read_response 0x10004 0x10001 9 1 EC_NOT_FOUND_ERROR None)]).
  apply history_read; [apply history_read; [apply history_grant; [apply history_log; [apply history_grant; [constructor|]|..]|]|..]|..];
    try reflexivity; vm_compute; set_solver.
Qed.

Lemma part_commits_once_witness :
  ∃ c evs, each take_input demo_inputs (new_context 9 0x10001 (Some 0x10004) ∅ 1 demo_write_request).1 = (c, evs) ∧
    part_commits evs = [mk_part_commit 0x10001 0x20001 9 []].
Proof.
  destruct (part_commits_once 9 0x10001 (Some 0x10004) ∅ 1 demo_write_request demo_inputs) as (c & evs & E & _ & H & _).
  - intros op _. by eexists.
  - exact demo_history.
  - exists c, evs. split; [exact E|]. rewrite H. reflexivity.
Defined.

Lemma epoch_acked_once_witness :
  acks_of ((schedule (demo_epoch demo_write_request) ;; grant_all [(9, 2); (9, 1)])%act demo_node).2 = [mk_ack 0x10001 0x10001 1].
Proof.
  rewrite (epoch_acked_once (demo_epoch demo_write_request) demo_node [(9, 2); (9, 1)]).
  - reflexivity.
  - done.
  - repeat constructor.
  - reflexivity.
  - intros g [->|[->|?%elem_of_nil]%elem_of_cons]%elem_of_cons; [| |done];
      exists demo_write_request; [exists (demo_read <| op_operation_id := 2 |>)|exists demo_write]; split_and!; try reflexivity; set_solver.
  - simpl. lia.
  - done.
Defined.

End Calvin.
