(* ===== verification/Store.v ===== *)
(** * The storage engines

    [include/store/store.h], the interface of the storage block to its engine,
    and the two engines behind it: [src/store/rocks_store.cpp] over RocksDB and
    [src/store/tkrzw_store.cpp] over Tkrzw.  The databases themselves are
    interfaces: a class of operations, and a class of what is relied on.

    - [rocks_laws]: the RocksDB engine does what the storage block needs
      ([StoreLaws]): a replay that succeeds applies all operations in order, and
      a read never gives a wrong row;
    - [key128_order]: the comparator orders the keys of rows by table and tuple;
    - [tkrzw_null_row]: the Tkrzw engine answers a missing row with success and
      a null pointer;
    - [equal_assert_fails]: the assertion of [Equal] fails on every two keys. *)

From S2P Require Import Prelude Common.
From S2P Require Import Bytes.
#[local] Open Scope Z_scope.

Module Store.

(* @src include/common/table_id.h 7 7 TPCC_CUSTOMER *)
Definition TPCC_CUSTOMER : Z := 1.
(* @src include/common/table_id.h 8 8 TPCC_STOCK *)
Definition TPCC_STOCK : Z := 2.
(* @src include/common/table_id.h 9 9 TPCC_WAREHOUSE *)
Definition TPCC_WAREHOUSE : Z := 3.
(* @src include/common/table_id.h 10 10 TPCC_ITEM *)
Definition TPCC_ITEM : Z := 4.
(* @src include/common/table_id.h 11 11 TPCC_DISTRICT *)
Definition TPCC_DISTRICT : Z := 5.
(* @src include/common/table_id.h 12 12 TPCC_ORDER *)
Definition TPCC_ORDER : Z := 6.
(* @src include/common/table_id.h 13 13 TPCC_NEW_ORDER *)
Definition TPCC_NEW_ORDER : Z := 7.
(* @src include/common/table_id.h 14 14 TPCC_ORDER_LINE *)
Definition TPCC_ORDER_LINE : Z := 8.
(* @src include/common/table_id.h 19 19 MAX_TABLES *)
Definition MAX_TABLES : Z := 13.
(* @src include/common/variable.h 11 11 NUM_ORDER_MAX *)
Definition NUM_ORDER_MAX : Z := 100000000.

(** ** The interface

    A failed assertion is [None]; a row is [Some tuple] or the null pointer. *)

(* @src include/store/store.h 8 23 store *)
Class Store := {
  store : Type;
  s_replay : list tx_operation → store → option (result unit * store);
  s_put : Z → Z → string → store → option (result unit * store);
  s_get : Z → Z → store → option (result (option string));
  s_sync : store → result unit * store;
}.

(** One operation as a row sees it. *)
Definition apply_op (t k : Z) (v : option string) (op : tx_operation) : option string :=
  if (op_table_id op =? t) && (op_tuple_id op =? k) then
    match op_type op with
    | TX_OP_DELETE => None
    | TX_OP_INSERT | TX_OP_UPDATE => Some (op_tuple op)
    | _ => v
    end
  else v.

(** A row's address on the widths of [table_id_t] and [tuple_id_t]. *)
Definition address (t k : Z) : Prop := fits 32 t ∧ fits 64 k.

(** An operation that can be replayed: a write carries a tuple. *)
Definition replayable (op : tx_operation) : Prop :=
  address (op_table_id op) (op_tuple_id op) ∧
  match op_type op with TX_OP_INSERT | TX_OP_UPDATE => is_tuple_nil (op_tuple op) = false | _ => True end.

(** What the storage block relies on: [row] is what the store holds.  A call may
    fail, but does what it says when it succeeds. *)
Class StoreLaws `{Store} := {
  row : store → Z → Z → option string;
  rows_full : store → Prop;
  replay_row ops s : rows_full s → Forall replayable ops → ∃ r s', s_replay ops s = Some (r, s') ∧
    (r = inl tt → rows_full s' ∧ ∀ t k, address t k → row s' t k = foldl (apply_op t k) (row s t k) ops);
  put_row t k v s : rows_full s → address t k → is_tuple_nil v = false → ∃ r s', s_put t k v s = Some (r, s') ∧
    (r = inl tt → rows_full s' ∧ ∀ t' k', address t' k' → row s' t' k' = if decide (t' = t ∧ k' = k) then Some v else row s t' k');
  get_row t k s : rows_full s → address t k → ∃ r, s_get t k s = Some r ∧
    match r with
    | inl x => ∃ v, x = Some v ∧ row s t k = Some v ∧ is_tuple_nil v = false
    | inr EC_NOT_FOUND_ERROR => row s t k = None
    | inr ec => ec ≠ EC_OK
    end;
}.

(** ** Keys of 128 bits *)

(* @src include/common/key128.h 53 71 key128 *)
Definition key128 (ul1 ul2 : Z) : list Z := le 8 ul1 ++ le 8 ul2.
(* @src include/common/key128.h 58 58 key128::long1 *)
Definition long1 (k : list Z) : Z := le_val (slice 0 8 k).
(* @src include/common/key128.h 60 60 key128::long2 *)
Definition long2 (k : list Z) : Z := le_val (slice 8 8 k).

(** [None]: the assertion fails. *)
(* @src include/common/key128.h 11 28 key128_comparator::Compare *)
Definition Compare (a b : list Z) : option Z :=
  if negb ((zlen a =? 16) || (zlen b =? 16)) then None
  else if long1 a =? long1 b then
         if long2 a =? long2 b then Some 0 else if long2 a <? long2 b then Some (-1) else Some 1
       else if long1 a <? long1 b then Some (-1) else Some 1.

(* @src include/common/key128.h 30 35 key128_comparator::Equal *)
Definition Equal (a b : list Z) : option bool :=
  if negb (negb (zlen a =? 16) || negb (zlen b =? 16)) then None
  else Some ((long1 a =? long1 b) && (long2 a =? long2 b)).

Lemma long1_key a b : fits 64 a → long1 (key128 a b) = a.
Proof.
  intros Ha. unfold long1, key128, slice. rewrite zdrop_0, ztake_app_len by (rewrite zlen_le; done).
  apply le_val_small. exact Ha.
Qed.

Lemma long2_key a b : fits 64 b → long2 (key128 a b) = b.
Proof.
  intros Hb. unfold long2, key128, slice. rewrite zdrop_app_len by (rewrite zlen_le; done).
  rewrite ztake_all by (rewrite zlen_le; lia). apply le_val_small. exact Hb.
Qed.

Lemma zlen_key a b : zlen (key128 a b) = 16.
Proof. unfold key128. by rewrite zlen_app, !zlen_le. Qed.

Lemma key128_inj a b c d : fits 64 a → fits 64 b → fits 64 c → fits 64 d → key128 a b = key128 c d → a = c ∧ b = d.
Proof. intros Ha Hb Hc Hd E. split; [rewrite <- (long1_key a b), E|rewrite <- (long2_key a b), E]; auto using long1_key, long2_key. Qed.

(** The comparator orders rows by table and then by tuple. *)
Theorem key128_order a b c d :
  fits 64 a → fits 64 b → fits 64 c → fits 64 d →
  Compare (key128 a b) (key128 c d) = Some (match a ?= c with Lt => -1 | Gt => 1 | Eq => match b ?= d with Lt => -1 | Gt => 1 | Eq => 0 end end).
Proof.
  intros Ha Hb Hc Hd. unfold Compare. rewrite !zlen_key, !long1_key, !long2_key by done. simpl.
  destruct (Z.compare_spec a c), (Z.eqb_spec a c); try lia; destruct (Z.ltb_spec a c); try lia; try done.
  destruct (Z.compare_spec b d), (Z.eqb_spec b d); try lia; destruct (Z.ltb_spec b d); try lia; done.
Qed.

(** The assertion of [Equal] asks for a key that is not 16 bytes long. *)
Theorem equal_assert_fails a b c d : Equal (key128 a b) (key128 c d) = None.
Proof. unfold Equal. by rewrite !zlen_key. Qed.

(** ** RocksDB *)

(** The codes the map of [rocks_store.cpp] names, and any other. *)
Inductive rocks_code :=
| kOk | kNotFound | kCorruption | kNotSupported | kInvalidArgument | kIOError | kMergeInProgress | kIncomplete
| kShutdownInProgress | kTimedOut | kAborted | kBusy | kExpired | kTryAgain | kCompactionTooLarge | kColumnFamilyDropped
| kOther.

(** A code outside the map fails an assertion and is [EC_UNKNOWN]. *)
(* @src src/store/rocks_store.cpp 9 36 rocks_to_ec *)
Definition rocks_to_ec (c : rocks_code) : EC :=
  match c with
  | kOk => EC_OK
  | kNotFound => EC_NOT_FOUND_ERROR
  | kNotSupported => EC_NOT_IMPLEMENTED
  | kInvalidArgument => EC_INVALID_ARGUMENT
  | kOther => EC_UNKNOWN
  | _ => EC_IO_ERROR
  end.

Inductive batch_op := BPut (k : list Z) (v : string) | BDelete (k : list Z).

Class Rocks := {
  rdb : Type;
  r_get : list Z → rdb → rocks_code * string;
  r_put : list Z → string → rdb → rocks_code * rdb;
  r_write : list batch_op → rdb → rocks_code * rdb;
  r_sync : rdb → rocks_code * rdb;
}.

Definition apply_batch (m : gmap (list Z) string) (b : batch_op) : gmap (list Z) string :=
  match b with BPut k v => <[k := v]> m | BDelete k => delete k m end.

(** A write that reports success is done, a batch as a whole and in order. *)
Class RocksLaws `{Rocks} := {
  contents : rdb → gmap (list Z) string;
  get_ok k d v : r_get k d = (kOk, v) → contents d !! k = Some v;
  get_not_found k d v : r_get k d = (kNotFound, v) → contents d !! k = None;
  put_ok k v d d' : r_put k v d = (kOk, d') → contents d' = <[k := v]> (contents d);
  write_ok b d d' : r_write b d = (kOk, d') → contents d' = foldl apply_batch (contents d) b;
  sync_same d : contents (r_sync d).2 = contents d;
}.

Section rocks.
Context `{RocksLaws}.

(** One turn of the loop of [replay]; [None]: the tuple of a write is nil. *)
(* @src src/store/rocks_store.cpp 73 107 rocks_store::replay *)
Definition to_batch (op : tx_operation) : option (list batch_op) :=
  match op_type op with
  | TX_OP_DELETE => Some [BDelete (key128 (op_table_id op) (op_tuple_id op))]
  | TX_OP_INSERT | TX_OP_UPDATE =>
      if is_tuple_nil (op_tuple op) then None
      else Some [BPut (key128 (op_table_id op) (op_tuple_id op)) (op_tuple op)]
  | _ => Some []
  end.

(* @src src/store/rocks_store.cpp 70 121 rocks_store::replay *)
Definition rocks_replay (ops : list tx_operation) (d : rdb) : option (result unit * rdb) :=
  batch ← mapM to_batch ops;
  let '(sw, d) := r_write (concat batch) d in
  if negb (EC_eqb (rocks_to_ec sw) EC_OK) then Some (inr (rocks_to_ec sw), d)
  else let '(ss, d) := r_sync d in
       if negb (EC_eqb (rocks_to_ec ss) EC_OK) then Some (inr (rocks_to_ec ss), d) else Some (inl tt, d).

(* @src src/store/rocks_store.cpp 122 139 rocks_store::put *)
Definition rocks_put (table_id key : Z) (tuple : string) (d : rdb) : option (result unit * rdb) :=
  if MAX_TABLES <=? table_id then Some (inr EC_UNKNOWN_TABLE_ID, d)
  else if is_tuple_nil tuple then None
  else let '(sw, d) := r_put (key128 table_id key) tuple d in
       if negb (EC_eqb (rocks_to_ec sw) EC_OK) then Some (inr (rocks_to_ec sw), d) else Some (inl tt, d).

(* @src src/store/rocks_store.cpp 141 152 rocks_store::sync *)
Definition rocks_sync (d : rdb) : result unit * rdb :=
  let '(ss, d) := r_sync d in
  (if negb (EC_eqb (rocks_to_ec ss) EC_OK) then inr (rocks_to_ec ss) else inl tt, d).

(* @src src/store/rocks_store.cpp 154 175 rocks_store::get *)
Definition rocks_get (table_id key : Z) (d : rdb) : option (result (option string)) :=
  if MAX_TABLES <=? table_id then Some (inr EC_UNKNOWN_TABLE_ID)
  else
    let '(s, tuple) := r_get (key128 table_id key) d in
    if EC_eqb (rocks_to_ec s) EC_OK then if is_tuple_nil tuple then None else Some (inl (Some tuple))
    else Some (inr (rocks_to_ec s)).

#[export] Instance rocks_store : Store := {|
  store := rdb; s_replay := rocks_replay; s_put := rocks_put; s_get := rocks_get; s_sync := rocks_sync |}.

Definition rocks_row (d : rdb) (t k : Z) : option string := contents d !! key128 t k.

(** No nil tuple is stored. *)
Definition rocks_full (d : rdb) : Prop := map_Forall (fun _ v => is_tuple_nil v = false) (contents d).

Lemma ec_ok c : EC_eqb (rocks_to_ec c) EC_OK = true ↔ c = kOk.
Proof. unfold EC_eqb. rewrite bool_decide_eq_true. by destruct c. Qed.

Lemma address_fits t k : address t k → fits 64 t ∧ fits 64 k.
Proof. intros [[H1 H2] H3]. split; [|done]. split; [done|]. etrans; [exact H2|done]. Qed.

Lemma key_eq t k t' k' : address t k → address t' k' → key128 t k = key128 t' k' ↔ t = t' ∧ k = k'.
Proof.
  intros [H1 H2]%address_fits [H3 H4]%address_fits. split; [|by intros [-> ->]]. by apply key128_inj.
Qed.

(** The batch of one operation, on the contents. *)
Lemma to_batch_ok op m :
  replayable op → ∃ b, to_batch op = Some b ∧
    (map_Forall (fun _ v => is_tuple_nil v = false) m → map_Forall (fun _ v => is_tuple_nil v = false) (foldl apply_batch m b)) ∧
    ∀ t k, address t k → foldl apply_batch m b !! key128 t k = apply_op t k (m !! key128 t k) op.
Proof.
  intros [Ha Hnil]. unfold to_batch, apply_op.
  assert (∀ t k, address t k → (op_table_id op =? t) && (op_tuple_id op =? k) = bool_decide (key128 (op_table_id op) (op_tuple_id op) = key128 t k)) as Hk.
  { intros t k Htk. apply eq_bool_prop_intro. rewrite bool_decide_spec, key_eq by done.
    rewrite andb_True, !Is_true_true, !Z.eqb_eq. done. }
  destruct (op_type op); try rewrite Hnil; eexists; (split; [reflexivity|]); (split; [|intros t k Htk; rewrite (Hk t k Htk)]); simpl; try done;
    try (by destruct (bool_decide _)).
  - intros Hm. by apply map_Forall_insert_2.
  - case_bool_decide as E; [by rewrite <- E, lookup_insert_eq|by rewrite lookup_insert_ne].
  - intros Hm. by apply map_Forall_insert_2.
  - case_bool_decide as E; [by rewrite <- E, lookup_insert_eq|by rewrite lookup_insert_ne].
  - intros Hm. by apply map_Forall_delete.
  - case_bool_decide as E; [by rewrite <- E, lookup_delete_eq|by rewrite lookup_delete_ne].
Qed.

Lemma batches_ok ops m :
  Forall replayable ops → ∃ bs, mapM to_batch ops = Some bs ∧
    (map_Forall (fun _ v => is_tuple_nil v = false) m → map_Forall (fun _ v => is_tuple_nil v = false) (foldl apply_batch m (concat bs))) ∧
    ∀ t k, address t k → foldl apply_batch m (concat bs) !! key128 t k = foldl (apply_op t k) (m !! key128 t k) ops.
Proof.
  intros Hops. revert m. induction Hops as [|op ops Hop _ IH]; intros m.
  { exists []. split_and!; done. }
  destruct (to_batch_ok op m Hop) as (b & Eb & Hb1 & Hb2). destruct (IH (foldl apply_batch m b)) as (bs & Ebs & H1 & H2).
  exists (b :: bs). simpl. rewrite Eb. simpl. rewrite Ebs. split_and!; [done|..].
  - intros Hm. rewrite foldl_app. auto.
  - intros t k Htk. rewrite foldl_app, H2, Hb2 by done. done.
Qed.

#[export] Instance rocks_laws : StoreLaws.
Proof.
  refine {| row := rocks_row; rows_full := rocks_full |}; unfold s_replay, s_put, s_get, rocks_store, store, rocks_row, rocks_full.
  - intros ops d Hd Hops. destruct (batches_ok ops (contents d) Hops) as (bs & Eb & Hf & Hrow).
    unfold rocks_replay. rewrite Eb. simpl. destruct (r_write (concat bs) d) as [sw d1] eqn:Ew.
    destruct (EC_eqb (rocks_to_ec sw) EC_OK) eqn:E1; simpl; [|by eexists _, _].
    pose proof (sync_same d1) as Hsync. destruct (r_sync d1) as [ss d2]. simpl in Hsync.
    destruct (EC_eqb (rocks_to_ec ss) EC_OK) eqn:E2; simpl; [|by eexists _, _].
    eexists _, _. split; [done|]. intros _. apply ec_ok in E1 as ->. rewrite Hsync, (write_ok _ _ _ Ew). auto.
  - intros t k v d Hd Hk Hv. unfold rocks_put. destruct (MAX_TABLES <=? t); [by eexists _, _|]. rewrite Hv.
    destruct (r_put (key128 t k) v d) as [sw d1] eqn:Ew. destruct (EC_eqb (rocks_to_ec sw) EC_OK) eqn:E1; simpl; [|by eexists _, _].
    eexists _, _. split; [done|]. intros _. apply ec_ok in E1 as ->. rewrite (put_ok _ _ _ _ Ew). split; [by apply map_Forall_insert_2|].
    intros t' k' Hk'. case_decide as E; [destruct E as [-> ->]; by rewrite lookup_insert_eq|].
    rewrite lookup_insert_ne; [done|]. rewrite key_eq by done. naive_solver.
  - intros t k d Hd Hk. unfold rocks_get. destruct (MAX_TABLES <=? t); [by eexists|].
    destruct (r_get (key128 t k) d) as [c v] eqn:Eg. destruct (EC_eqb (rocks_to_ec c) EC_OK) eqn:E1; simpl.
    + apply ec_ok in E1 as ->. apply get_ok in Eg. pose proof (Hd _ _ Eg) as Hv. simpl in Hv. rewrite Hv.
      eexists. split; [done|]. by exists v.
    + eexists. split; [done|]. destruct c; try done; by apply get_not_found in Eg.
Defined.

End rocks.

(** A database in memory that never fails. *)
#[export] Instance memory_rocks : Rocks := {|
  rdb := gmap (list Z) string;
  r_get k d := match d !! k with Some v => (kOk, v) | None => (kNotFound, ""%string) end;
  r_put k v d := (kOk, <[k := v]> d);
  r_write b d := (kOk, foldl apply_batch d b);
  r_sync d := (kOk, d) |}.

#[export] Instance memory_laws : RocksLaws.
Proof.
  refine {| contents := (fun d : @rdb memory_rocks => d : gmap (list Z) string) |}; simpl; intros *.
  - destruct (_ !! _); congruence.
  - destruct (_ !! _); congruence.
  - congruence.
  - congruence.
  - done.
Defined.

(** ** Tkrzw *)

Inductive tkrzw_code :=
| SUCCESS | UNKNOWN_ERROR | SYSTEM_ERROR | NOT_IMPLEMENTED_ERROR | PRECONDITION_ERROR | INVALID_ARGUMENT_ERROR | CANCELED_ERROR
| NOT_FOUND_ERROR | PERMISSION_ERROR | INFEASIBLE_ERROR | DUPLICATION_ERROR | BROKEN_DATA_ERROR | NETWORK_ERROR
| APPLICATION_ERROR | OTHER_CODE.

(* @src src/store/tkrzw_store.cpp 9 34 status_to_ec *)
Definition status_to_ec (c : tkrzw_code) : EC :=
  match c with
  | SUCCESS => EC_OK
  | UNKNOWN_ERROR => EC_UNKNOWN
  | SYSTEM_ERROR => EC_SYSTEM_ERROR
  | NOT_IMPLEMENTED_ERROR => EC_NOT_IMPLEMENTED
  | PRECONDITION_ERROR => EC_PRECONDITION_ERROR
  | INVALID_ARGUMENT_ERROR => EC_INVALID_ARGUMENT
  | CANCELED_ERROR => EC_CANCELED_ERROR
  | NOT_FOUND_ERROR => EC_NOT_FOUND_ERROR
  | PERMISSION_ERROR => EC_PERMISSION_ERROR
  | INFEASIBLE_ERROR => EC_INFEASIBLE_ERROR
  | DUPLICATION_ERROR => EC_DUPLICATION_ERROR
  | BROKEN_DATA_ERROR => EC_BROKEN_DATA_ERROR
  | NETWORK_ERROR => EC_NETWORK_ERROR
  | APPLICATION_ERROR => EC_APPLICATION_ERROR
  | OTHER_CODE => EC_UNKNOWN
  end.

Class Tkrzw := {
  dbm : Type;
  t_get : list Z → dbm → tkrzw_code * string;
  t_set : list Z → string → bool → dbm → tkrzw_code * dbm;
  t_remove : list Z → dbm → tkrzw_code * dbm;
}.

Definition is_ok (c : tkrzw_code) : bool := match c with SUCCESS => true | _ => false end.

Section tkrzw.
Context `{Tkrzw}.

(** One database for each table; an index past the array is undefined ([None]). *)
(* @src include/kv/tkrzw_store.h 12 18 tkrzw_store *)
Definition tkrzw_store : Type := list dbm.

(* @src include/common/tuple.h 18 20 tupleid2binary *)
Definition tupleid2binary (i : Z) : list Z := le 8 i.

(** One turn of the loop of [replay]: the first failure ends it. *)
(* @src src/store/tkrzw_store.cpp 67 101 tkrzw_store::replay *)
Fixpoint tkrzw_replay (ops : list tx_operation) (s : tkrzw_store) : option (result unit * tkrzw_store) :=
  match ops with
  | [] => Some (inl tt, s)
  | op :: ops =>
      let t := Z.to_nat (op_table_id op) in
      match op_type op with
      | TX_OP_DELETE =>
          d ← s !! t;
          let '(c, d) := t_remove (tupleid2binary (op_tuple_id op)) d in
          if negb (is_ok c) then Some (inr (status_to_ec c), <[t := d]> s) else tkrzw_replay ops (<[t := d]> s)
      | TX_OP_INSERT | TX_OP_UPDATE =>
          d ← s !! t;
          let '(c, d) := t_set (tupleid2binary (op_tuple_id op)) (op_tuple op) (bool_decide (op_type op = TX_OP_UPDATE)) d in
          if negb (is_ok c) then Some (inr (status_to_ec c), <[t := d]> s) else tkrzw_replay ops (<[t := d]> s)
      | _ => tkrzw_replay ops s
      end
  end.

(* @src src/store/tkrzw_store.cpp 112 130 tkrzw_store::put *)
Definition tkrzw_put (table_id key : Z) (tuple : string) (s : tkrzw_store) : option (result unit * tkrzw_store) :=
  if MAX_TABLES <=? table_id then Some (inr EC_UNKNOWN_TABLE_ID, s)
  else
    d ← s !! Z.to_nat table_id;
    let '(c, d) := t_set (tupleid2binary key) tuple true d in
    Some (if is_ok c then inl tt else inr (status_to_ec c), <[Z.to_nat table_id := d]> s).

(** Any failure but that of the table id is [outcome::success()], with a null
    pointer. *)
(* @src src/store/tkrzw_store.cpp 132 151 tkrzw_store::get *)
Definition tkrzw_get (table_id key : Z) (s : tkrzw_store) : option (result (option string)) :=
  if MAX_TABLES <=? table_id then Some (inr EC_UNKNOWN_TABLE_ID)
  else
    d ← s !! Z.to_nat table_id;
    let '(c, tuple) := t_get (tupleid2binary key) d in
    if EC_eqb (status_to_ec c) EC_OK then if is_tuple_nil tuple then None else Some (inl (Some tuple))
    else Some (inl None).

(* @src src/store/tkrzw_store.cpp 153 153 tkrzw_store::sync *)
Definition tkrzw_sync (s : tkrzw_store) : result unit * tkrzw_store := (inl tt, s).

(** A missing row, or any error of the database, is answered with success and
    the null pointer. *)
Theorem tkrzw_null_row t k s d c v :
  0 ≤ t < MAX_TABLES → s !! Z.to_nat t = Some d → t_get (tupleid2binary k) d = (c, v) → c ≠ SUCCESS →
  tkrzw_get t k s = Some (inl None).
Proof.
  intros Ht Hd Hg Hc. unfold tkrzw_get. rewrite (proj2 (Z.leb_gt MAX_TABLES t)) by lia. rewrite Hd. simpl. rewrite Hg.
  by destruct c.
Qed.

(** A replay stops at the first insert of a row that is there already: the
    operations after it are lost. *)
Theorem tkrzw_replay_stops op ops s d d' :
  op_type op = TX_OP_INSERT → s !! Z.to_nat (op_table_id op) = Some d →
  t_set (tupleid2binary (op_tuple_id op)) (op_tuple op) false d = (DUPLICATION_ERROR, d') →
  tkrzw_replay (op :: ops) s = Some (inr EC_DUPLICATION_ERROR, <[Z.to_nat (op_table_id op) := d']> s).
Proof. intros Ht Hd Hs. simpl. rewrite Ht, Hd. simpl. by rewrite Hs. Qed.

End tkrzw.

End Store.
