(* ===== verification/DsBlock.v ===== *)
(** * The storage block

    [src/store/ds_block.cpp]: the block that keeps the rows.  It registers with
    the replication block, applies the records that block replays to it, answers
    the reads of the concurrency blocks and loads the initial TPC-C tables.  The
    engine is the interface of [Store].

    - [committed_visible]: what the replication block sends of the committed log
      is applied in order; a later read of any row gives what the last committed
      operation on the row left there;
    - [aborted_writes_stored]: the record of an aborted transaction carries its
      writes, and the storage block applies them;
    - [read_answered]: a read is answered with the row, an error code or, for
      another term, an error of consistency. *)

From S2P Require Import Prelude Common.
From S2P Require Import Bytes.
From S2P Require Import TxLogFormat.
From S2P Require Import RlBlock.
From S2P Require Import Store.
From S2P Require Import TxContext.
#[local] Open Scope Z_scope.

Module DsBlock.
Import Store.Store TxLogFormat.TxLogFormat.

Section block.
Context `{Store}.

(** [conf_.shard_ids()] is [conf_shard_ids]; [cno_] has 32 bits. *)
(* @src include/store/ds_block.h 18 34 ds_block *)
Record ds_block := mk_dsb {
  conf_shard_ids : list Z;
  ds_node_id_ : Z;
  ds_rlb_node_id_ : Z;
  registered_ : bool;
  ds_cno_ : Z;
  store_ : store;
  wid_ : list Z;
}.
#[export] Instance eta_dsb : Eta ds_block := fun b =>
  mk_dsb (conf_shard_ids b) (ds_node_id_ b) (ds_rlb_node_id_ b) (registered_ b) (ds_cno_ b) (store_ b) (wid_ b).

Inductive event :=
| RegisterRequest (source dest cno : Z) (shard_ids : list Z)
| ErrorConsistency (dest cno : Z)
| ReadResponse (m : dsb_read_response)
| ReplayResponse (dest : Z)
| WarmUpResponse (dest term_id : Z) (rows : list tuple_row)
| LoadDone.

(* @src src/store/ds_block.cpp 12 16 ds_block::ds_block *)
Definition new_dsb (shard_ids : list Z) (node_id rlb_node_id : Z) (s : store) : ds_block :=
  mk_dsb shard_ids node_id rlb_node_id false 0 s [].

(* @src src/store/ds_block.cpp 56 89 ds_block::send_register *)
Definition send_register : act ds_block event := fun b =>
  let '(b, ids) := if negb (registered_ b) then (b <| ds_cno_ := 0 |>, conf_shard_ids b) else (b, []) in
  emit (RegisterRequest (ds_node_id_ b) (ds_rlb_node_id_ b) (ds_cno_ b) ids) b.

(* @src src/store/ds_block.cpp 174 189 ds_block::handle_register_dsb_response *)
Definition handle_register_dsb_response (cno : Z) (ok : bool) : act ds_block event :=
  when ok (modify (fun b => b <| ds_cno_ := u32 cno |> <| registered_ := true |>)).

(* @src src/store/ds_block.cpp 414 425 ds_block::send_error_consistency *)
Definition send_error_consistency (dest : Z) : act ds_block event := fun b => emit (ErrorConsistency dest (ds_cno_ b)) b.

(** A handler with [None] failed an assertion or followed a null pointer. *)
Definition reply (e : event) (b : ds_block) : option (ds_block * list event) := Some (b, [e]).

(* @src src/store/ds_block.cpp 328 374 ds_block::handle_read_data *)
Definition handle_read_data (request : ccb_read_request) (b : ds_block) : option (ds_block * list event) :=
  if negb (rq_cno request =? ds_cno_ b) then Some (send_error_consistency (rq_source request) b)
  else
    r ← s_get (rq_table_id request) (rq_tuple_id request) (store_ b);
    '(ec, tuple) ← match r with
                   | inr ec => Some (ec, ""%string)
                   | inl (Some t) => if is_tuple_nil t then None else Some (EC_OK, t)
                   | inl None => None
                   end;
    reply (ReadResponse (mk_read_response (rq_dest request) (rq_source request) (rq_xid request) (rq_oid request) ec
             (Some (mk_row (rq_table_id request) (rq_shard_id request) (rq_tuple_id request) tuple)))) b.

Section replay.
(** Protobuf's [ParseFromArray] for [tx_log]. *)
Context (parse : list Z → option tx_log).

(* @src src/store/ds_block.cpp 383 398 ds_block::handle_replay_to_dsb *)
Definition replay_operations (m : RlBlock.RlBlock.replay_to_dsb_request) : option (list tx_operation) :=
  match RlBlock.RlBlock.re_operations m with
  | [] => logs ← handle_repeated_tx_logs_to_proto parse (RlBlock.RlBlock.re_logs m); Some (concat (map log_operations logs))
  | ops => Some ops
  end.

(** A failed replay is not answered. *)
(* @src src/store/ds_block.cpp 380 412 ds_block::handle_replay_to_dsb *)
Definition handle_replay_to_dsb (m : RlBlock.RlBlock.replay_to_dsb_request) (b : ds_block) : option (ds_block * list event) :=
  ops ← replay_operations m;
  '(r, s) ← s_replay ops (store_ b);
  let b := b <| store_ := s |> in
  match r with
  | inl _ => reply (ReplayResponse (RlBlock.RlBlock.re_source m)) b
  | inr _ => Some (b, [])
  end.
End replay.

(** The rows found; a missing row is left out. *)
(* @src src/store/ds_block.cpp 99 113 ds_block::dsb_handle_message *)
Fixpoint warm_rows (keys : list (Z * Z * Z)) (s : store) : option (list tuple_row) :=
  match keys with
  | [] => Some []
  | (t, sh, k) :: keys =>
      r ← s_get t k s;
      rows ← warm_rows keys s;
      match r with
      | inl (Some v) => Some (mk_row t sh k v :: rows)
      | inl None => None
      | inr _ => Some rows
      end
  end.

(* @src src/store/ds_block.cpp 91 121 ds_block::dsb_handle_message *)
Definition handle_warm_up (source term_id : Z) (keys : list (Z * Z * Z)) (b : ds_block) : option (ds_block * list event) :=
  rows ← warm_rows keys (store_ b); reply (WarmUpResponse source term_id rows) b.

(** ** Loading the TPC-C tables

    The rows in the order they are put.  The generated tuples and the number of
    lines of an order are parameters (they are random); a failed [put] is only
    logged.  Keys are cut to 32 bits. *)

Section load.
Context (num_item num_district_per_warehouse num_customer_per_district num_warehouse num_order_initialize_per_district : Z).
Context (gen_tuple : Z → Z → string) (order_lines : Z → Z → Z → Z).

(* @src src/store/ds_block.cpp 212 222 ds_block::load_item *)
Definition load_item : list (Z * Z) := map (fun i => (TPCC_ITEM, i)) (seqZ 1 num_item).

(* @src src/store/ds_block.cpp 223 243 ds_block::load_customer *)
Definition load_customer (wids : list Z) : list (Z * Z) :=
  wid ← wids; did ← seqZ 1 num_district_per_warehouse; cid ← seqZ 1 num_customer_per_district;
  [(TPCC_CUSTOMER, u32 (Keys.make_customer_key wid did cid num_warehouse num_district_per_warehouse))].

(* @src src/store/ds_block.cpp 244 257 ds_block::load_stock *)
Definition load_stock (wids : list Z) : list (Z * Z) :=
  wid ← wids; iid ← seqZ 1 num_item; [(TPCC_STOCK, u32 (Keys.make_stock_key wid iid num_warehouse))].

(* @src src/store/ds_block.cpp 258 268 ds_block::load_warehouse *)
Definition load_warehouse (wids : list Z) : list (Z * Z) := map (fun wid => (TPCC_WAREHOUSE, wid)) wids.

(* @src src/store/ds_block.cpp 270 283 ds_block::load_district *)
Definition load_district (wids : list Z) : list (Z * Z) :=
  wid ← wids; did ← seqZ 1 num_district_per_warehouse;
  [(TPCC_DISTRICT, u32 (Keys.make_district_key wid did num_warehouse))].

(** The loop over order ids, from [oid] in steps of the number of warehouses. *)
(* @src src/store/ds_block.cpp 295 295 ds_block::load_order *)
Fixpoint order_ids (fuel : nat) (oid max : Z) : list Z :=
  match fuel with
  | O => []
  | S fuel => if oid <=? max then oid :: order_ids fuel (oid + num_warehouse) max else []
  end.

(** The loop over districts stops before the last. *)
(* @src src/store/ds_block.cpp 285 326 ds_block::load_order *)
Definition load_order (wids : list Z) : list (Z * Z) :=
  let max := num_order_initialize_per_district in
  wid ← wids; oid ← order_ids (Z.to_nat max) (max mod wid + 1) max; did ← seqZ 1 (num_district_per_warehouse - 1);
  let okey := u32 (Keys.make_order_key wid did oid num_warehouse num_district_per_warehouse) in
  [(TPCC_ORDER, okey)]
  ++ map (fun oliid => (TPCC_ORDER_LINE, u32 (Keys.make_order_line_key wid did oid oliid num_warehouse num_district_per_warehouse NUM_ORDER_MAX)))
       (seqZ 1 (order_lines wid did oid))
  ++ (if 2100 <? oid then [(TPCC_NEW_ORDER, okey)] else []).

Fixpoint put_all (rows : list (Z * Z)) (s : store) : option store :=
  match rows with
  | [] => Some s
  | (t, k) :: rows => '(_, s) ← s_put t k (gen_tuple t k) s; put_all rows s
  end.

(* @src src/store/ds_block.cpp 191 210 ds_block::load_data *)
Definition load_data (b : ds_block) : option ds_block :=
  s ← put_all (load_item ++ load_customer (wid_ b) ++ load_stock (wid_ b) ++ load_warehouse (wid_ b)
                 ++ load_district (wid_ b) ++ load_order (wid_ b)) (store_ b);
  Some (b <| store_ := (s_sync s).2 |>).

(** The assertion asks for two warehouses, though both bounds are loaded. *)
(* @src src/store/ds_block.cpp 149 173 ds_block::handle_load_data_request *)
Definition handle_load_data_request (wid_lower wid_upper : Z) (b : ds_block) : option (ds_block * list event) :=
  if negb (wid_lower <? wid_upper) then None
  else b ← load_data (b <| wid_ := wid_ b ++ seqZ wid_lower (wid_upper - wid_lower + 1) |>); reply LoadDone b.

End load.

End block.

(** ** The theorems *)

Section theorems.
Context `{StoreLaws}.

(** A read of the current term is answered: with the row, that there is none, or
    the error of the engine. *)
Lemma read_answered rq b :
  rows_full (store_ b) → address (rq_table_id rq) (rq_tuple_id rq) → rq_cno rq = ds_cno_ b →
  ∃ ec v, handle_read_data rq b = Some (b, [ReadResponse (mk_read_response (rq_dest rq) (rq_source rq) (rq_xid rq) (rq_oid rq) ec
        (Some (mk_row (rq_table_id rq) (rq_shard_id rq) (rq_tuple_id rq) v)))]) ∧
    match ec with
    | EC_OK => row (store_ b) (rq_table_id rq) (rq_tuple_id rq) = Some v
    | EC_NOT_FOUND_ERROR => row (store_ b) (rq_table_id rq) (rq_tuple_id rq) = None
    | _ => True
    end.
Proof.
  intros Hf Ha Hc. unfold handle_read_data. rewrite Hc, Z.eqb_refl. cbn [negb].
  destruct (get_row _ _ _ Hf Ha) as (r & -> & Hr). cbn [mbind option_bind]. destruct r as [x|ec].
  - destruct Hr as (v & -> & Hrow & Hnil). rewrite Hnil. by exists EC_OK, v.
  - exists ec, ""%string. split; [done|]. by destruct ec.
Qed.

Section replaying.
Context (parse : list Z → option tx_log).

(** The logs of records sent whole. *)
Lemma records_logs rs logs :
  Forall wf_record rs → mapM parse (map r_payload rs) = Some logs →
  handle_repeated_tx_logs_to_proto parse (RlBlock.RlBlock.bytes_of rs) = Some logs.
Proof.
  intros Hrs Hp. unfold handle_repeated_tx_logs_to_proto.
  rewrite (split_records rs Hrs : handle_repeated_tx_logs_to_buffer (RlBlock.RlBlock.bytes_of rs) = _). cbn [mbind option_bind].
  revert logs Hp. induction Hrs as [|r rs Hr _ IH]; intros logs Hp; [done|]. cbn [map mapM] in *.
  rewrite payload_encode by done. cbn [mbind option_bind]. destruct (parse (r_payload r)) as [l|]; [|done]. cbn [mbind option_bind] in *.
  destruct (mapM parse (map r_payload rs)) as [ls|]; [|done]. injection Hp as <-. by rewrite (IH ls eq_refl).
Qed.

(** Replaying whole records. *)
Lemma replay_records cur rs logs src cno b :
  Forall wf_record rs → mapM parse (map r_payload rs) = Some logs →
  Forall replayable (concat (map log_operations logs)) → rows_full (store_ b) →
  ∃ b' evs, handle_replay_to_dsb parse
      (RlBlock.RlBlock.mk_replay src cno (RlBlock.RlBlock.bytes_of (RlBlock.RlBlock.restamped cur 0 rs)) []) b = Some (b', evs) ∧
    ds_cno_ b' = ds_cno_ b ∧
    (ReplayResponse src ∈ evs → rows_full (store_ b') ∧ ∀ t k, address t k →
       row (store_ b') t k = foldl (apply_op t k) (row (store_ b) t k) (concat (map log_operations logs))).
Proof.
  intros Hrs Hp Hops Hf. destruct (RlBlock.RlBlock.restamped_ok cur 0 rs Hrs) as [Hw Hpl]; [by unfold fits|].
  unfold handle_replay_to_dsb, replay_operations. cbn [RlBlock.RlBlock.re_operations RlBlock.RlBlock.re_logs RlBlock.RlBlock.re_source].
  rewrite (records_logs _ logs Hw) by by rewrite Hpl. cbn [mbind option_bind].
  destruct (replay_row _ _ Hf Hops) as (r & s' & -> & Hr). cbn [mbind option_bind].
  destruct r as [[]|ec].
  - eexists _, _. split; [reflexivity|]. split; [done|]. intros _. by apply Hr.
  - eexists _, _. split; [reflexivity|]. split; [done|]. by intros ?%elem_of_nil.
Qed.

(** C10: What is committed is visible.  Let all shards be on one storage block and
    let the log records [rss] commit.  The replication block sends that block one
    message.  The block takes it without failing, and once it has answered, a
    read of any row in its term is told what the operations of the records, in
    log order, make of the row, or an error of the engine. *)
Theorem committed_visible ec cur rss rb d logs b rq :
  Forall (Forall wf_record) rss → concat rss ≠ [] →
  size (RlBlock.RlBlock.dsb_shards_ rb) = 1%nat → RlBlock.RlBlock.dsb_node_id_ rb = Some d →
  mapM parse (map r_payload (concat rss)) = Some logs → Forall replayable (concat (map log_operations logs)) →
  rows_full (store_ b) → rq_cno rq = ds_cno_ b → address (rq_table_id rq) (rq_tuple_id rq) →
  ∃ evs m b' evs', RlBlock.RlBlock.response_commit_log parse ec cur (map RlBlock.RlBlock.bytes_of rss) rb = Some evs ∧
    (∀ k m', RlBlock.RlBlock.SendReplay k m' ∈ evs ↔ k = d ∧ m' = m) ∧
    handle_replay_to_dsb parse m b = Some (b', evs') ∧
    (ReplayResponse (RlBlock.RlBlock.node_id_ rb) ∈ evs' →
     ∃ rec v, handle_read_data rq b' = Some (b', [ReadResponse (mk_read_response (rq_dest rq) (rq_source rq) (rq_xid rq) (rq_oid rq) rec
          (Some (mk_row (rq_table_id rq) (rq_shard_id rq) (rq_tuple_id rq) v)))]) ∧
       let now := foldl (apply_op (rq_table_id rq) (rq_tuple_id rq)) (row (store_ b) (rq_table_id rq) (rq_tuple_id rq))
                    (concat (map log_operations logs)) in
       match rec with EC_OK => now = Some v | EC_NOT_FOUND_ERROR => now = None | _ => True end).
Proof.
  intros Hrss Hne Hsz Hd Hp Hops Hf Hc Ha.
  assert (Forall wf_record (concat rss)) as Hrs by by apply Forall_concat.
  destruct (replay_records cur (concat rss) logs (RlBlock.RlBlock.node_id_ rb) (RlBlock.RlBlock.cno_ rb) b Hrs Hp Hops Hf)
    as (b' & evs' & Eh & Hcno & Hrow).
  set (m := RlBlock.RlBlock.mk_replay _ _ _ _) in Eh.
  destruct (RlBlock.RlBlock.replay_message parse ec cur rss rb d m Hrss Hne Hsz Hd) as (evs & Ee & _).
  exists evs, m, b', evs'. split; [exact Ee|]. split; [|split; [exact Eh|]].
  - intros k m'. destruct (RlBlock.RlBlock.replay_message parse ec cur rss rb d m' Hrss Hne Hsz Hd) as (evs2 & Ee2 & H2).
    rewrite Ee in Ee2. injection Ee2 as <-. apply H2.
  - intros Hack. destruct (Hrow Hack) as [Hf' Hnow]. rewrite <- Hcno in Hc.
    destruct (read_answered rq b' Hf' Ha Hc) as (rec & v & E & Hr). exists rec, v. split; [done|]. cbn zeta.
    rewrite <- (Hnow _ _ Ha). done.
Qed.

(** Protobuf's serializer. *)
Context (serialize : tx_log → list Z).

(** The records the write-ahead log makes of the logs of a transaction. *)
Definition records_of (node : Z) (ls : list tx_log) : list log_record := map (fun l => wal_record node (serialize l)) ls.

Lemma parse_records node ls : Forall (fun l => parse (serialize l) = Some l) ls → mapM parse (map r_payload (records_of node ls)) = Some ls.
Proof. induction 1 as [|l ls Hps _ IH]; [done|]. unfold records_of in *.
  cbn [map mapM r_payload wal_record]. rewrite Hps. cbn [mbind option_bind]. by rewrite IH. Qed.

(** C34: The writes of an aborted transaction are stored.  A transaction that
    aborts in one phase writes what it has collected, its operations included, as
    an abort record.  When the record commits, the storage block of the shard
    applies the operations: every row is left as if the transaction had
    committed. *)
Theorem aborted_writes_stored s l ec cur rb d b :
  TxContext.TxContext.state_ s = TxContext.TxContext.RM_IDLE → TxContext.TxContext.log_entry_ s = [l] →
  Forall replayable (log_operations l) → rows_full (store_ b) →
  size (RlBlock.RlBlock.dsb_shards_ rb) = 1%nat → RlBlock.RlBlock.dsb_node_id_ rb = Some d →
  ∃ s' l', TxContext.TxContext.abort_tx_1p s = (s', [TxContext.TxContext.WalAppend [l']]) ∧
    log_type l' = TX_CMD_RM_ABORT ∧ log_operations l' = log_operations l ∧
    (Forall wf_record (records_of (TxContext.TxContext.node_id_ s) [l']) → parse (serialize l') = Some l' →
     ∃ evs m b' evs',
       RlBlock.RlBlock.response_commit_log parse ec cur [RlBlock.RlBlock.bytes_of (records_of (TxContext.TxContext.node_id_ s) [l'])] rb = Some evs ∧
       RlBlock.RlBlock.SendReplay d m ∈ evs ∧ handle_replay_to_dsb parse m b = Some (b', evs') ∧
       (ReplayResponse (RlBlock.RlBlock.node_id_ rb) ∈ evs' → ∀ t k, address t k →
          row (store_ b') t k = foldl (apply_op t k) (row (store_ b) t k) (log_operations l))).
Proof.
  intros Hst Hl Hops Hf Hsz Hd. unfold TxContext.TxContext.abort_tx_1p. rewrite Hst. eexists _, _.
  split; [rewrite modify_then; unfold TxContext.TxContext.set_tx_cmd_type; rewrite modify_then;
          unfold TxContext.TxContext.async_force_log; cbn; rewrite Hl; reflexivity|].
  split; [done|]. split; [done|]. intros Hw Hps. set (l' := mk_log _ _ _) in *.
  set (rs := records_of _ _) in *.
  destruct (replay_records cur rs [l'] (RlBlock.RlBlock.node_id_ rb) (RlBlock.RlBlock.cno_ rb) b Hw) as (b' & evs' & Eh & _ & Hrow).
  - apply parse_records. by constructor.
  - cbn. by rewrite app_nil_r.
  - done.
  - set (m := RlBlock.RlBlock.mk_replay _ _ _ _) in Eh.
    destruct (RlBlock.RlBlock.replay_message parse ec cur [rs] rb d m) as (evs & Ee & Hin); [by constructor|done|done|done|].
    exists evs, m, b', evs'. split; [exact Ee|]. split; [|split; [exact Eh|]].
    + apply Hin. split; [done|]. change (concat [rs]) with (rs ++ []). by rewrite app_nil_r.
    + intros Hack t k Ha. rewrite (proj2 (Hrow Hack) t k Ha). cbn. by rewrite app_nil_r.
Qed.

End replaying.

End theorems.

(** ** Witnesses

    One update of row 7 of table 1, on the engine in memory; the parser knows
    one log. *)

Definition demo_log (t : tx_cmd_type) : tx_log := mk_log t 5 [mk_op TX_OP_UPDATE 5 1 1 1 7 "new" 1].
Definition demo_bytes (l : tx_log) : list Z := le 8 (if bool_decide (log_type l = TX_CMD_RM_ABORT) then 1 else 0).
Definition demo_parse (b : list Z) : option tx_log := Some (demo_log (if le_val b =? 1 then TX_CMD_RM_ABORT else TX_CMD_RM_COMMIT)).
Definition demo_rlb : RlBlock.RlBlock.rl_block := RlBlock.RlBlock.mk_rlb 3 100 ∅ {[1 := 200]} None (Some 200) ∅.
Definition demo_dsb : ds_block := mk_dsb [1] 200 100 true 3 (∅ : @rdb memory_rocks) [].
Definition demo_rq : ccb_read_request := mk_read_request 300 200 3 6 1 1 1 7.

Lemma demo_full : rows_full (store_ demo_dsb).
Proof.
  change (map_Forall (fun (_ : list Z) v => is_tuple_nil v = false) (∅ : gmap (list Z) string)). apply map_Forall_empty.
Qed.

Lemma demo_replayable t : Forall replayable (log_operations (demo_log t)).
Proof. repeat constructor; vm_compute; done. Qed.

Lemma committed_visible_witness :
  ∃ evs m b' evs',
    RlBlock.RlBlock.response_commit_log demo_parse EC_OK 25 [RlBlock.RlBlock.bytes_of [mk_record (le 8 0) 10 300]] demo_rlb = Some evs ∧
    RlBlock.RlBlock.SendReplay 200 m ∈ evs ∧ handle_replay_to_dsb demo_parse m demo_dsb = Some (b', evs') ∧
    (ReplayResponse 100 ∈ evs' → ∃ rec v, handle_read_data demo_rq b' = Some (b', [ReadResponse (mk_read_response 200 300 6 1 rec (Some (mk_row 1 1 7 v)))]) ∧
       match rec with EC_OK => Some "new"%string = Some v | EC_NOT_FOUND_ERROR => False | _ => True end).
Proof.
  destruct (committed_visible demo_parse EC_OK 25 [[mk_record (le 8 0) 10 300]] demo_rlb 200 [demo_log TX_CMD_RM_COMMIT] demo_dsb demo_rq)
    as (evs & m & b' & evs' & E & Hm & Eh & Hr).
  - repeat constructor; vm_compute; congruence.
  - done.
  - reflexivity.
  - reflexivity.
  - reflexivity.
  - exact (demo_replayable TX_CMD_RM_COMMIT).
  - exact demo_full.
  - reflexivity.
  - split; vm_compute; split; congruence.
  - exists evs, m, b', evs'. split; [exact E|]. split; [by apply Hm|]. split; [exact Eh|]. intros Hack.
    destruct (Hr Hack) as (rec & v & Er & Hv). exists rec, v. split; [exact Er|]. by destruct rec.
Defined.

(** A transaction of the resource manager that has one update behind it. *)
Definition demo_context : TxContext.TxContext.tx_context :=
  TxContext.TxContext.mk_ctx 3 300 (Some 200) ∅ 5 false 0 1 1 [] [] EC_OK TxContext.TxContext.RM_IDLE ∅ None ∅
    [mk_log TX_CMD_RM_READ 0 [mk_op TX_OP_UPDATE 5 1 1 1 7 "new" 1]] false false false false false 1 false false [].

Lemma aborted_writes_stored_witness :
  ∃ s' l', TxContext.TxContext.abort_tx_1p demo_context = (s', [TxContext.TxContext.WalAppend [l']]) ∧ log_type l' = TX_CMD_RM_ABORT ∧
    ∃ evs m b' evs', RlBlock.RlBlock.response_commit_log demo_parse EC_OK 25 [RlBlock.RlBlock.bytes_of (records_of demo_bytes 300 [l'])] demo_rlb = Some evs ∧
      RlBlock.RlBlock.SendReplay 200 m ∈ evs ∧ handle_replay_to_dsb demo_parse m demo_dsb = Some (b', evs') ∧
      (ReplayResponse 100 ∈ evs' → row (store_ b') 1 7 = Some "new"%string).
Proof.
  destruct (aborted_writes_stored demo_parse demo_bytes demo_context (mk_log TX_CMD_RM_READ 0 [mk_op TX_OP_UPDATE 5 1 1 1 7 "new" 1])
    EC_OK 25 demo_rlb 200 demo_dsb) as (s' & l' & E & Ht & Ho & H).
  - reflexivity.
  - reflexivity.
  - apply (demo_replayable TX_CMD_RM_READ).
  - exact demo_full.
  - reflexivity.
  - reflexivity.
  - exists s', l'. split; [exact E|]. split; [exact Ht|]. vm_compute in E. injection E as _ <-.
    destruct H as (evs & m & b' & evs' & E1 & E2 & E3 & H); [repeat constructor; vm_compute; congruence|reflexivity|].
    exists evs, m, b', evs'. split; [exact E1|]. split; [exact E2|]. split; [exact E3|]. intros Hack.
    rewrite (H Hack 1 7); [reflexivity|]. split; vm_compute; split; congruence.
Defined.

End DsBlock.
