(* ===== verification/TxStamp.v ===== *)
(** * The ids and records of a transaction's calls

    What the composition of many transactions relies on: the calls of a context
    and of a coordinator name their own transaction ([stamped], [signed]), and a
    coordinator writes each of its log records at most once ([orderly]). *)

From S2P Require Import Prelude Common.
From S2P Require Import TxContext TxCoordinator.
#[local] Open Scope Z_scope.
#[local] Open Scope act_scope.

(** ** Handlers that keep an invariant

    Like [respects], for handlers that need the invariant to begin with. *)

Section guards.
Context {S E : Type} (I : S → Prop) (P : E → Prop).

Definition guards (h : act S E) : Prop := ∀ s, I s → I (h s).1 ∧ Forall P (h s).2.

Lemma guards_then a b : guards a → guards b → guards (and_then a b).
Proof.
  intros Ha Hb s Hs. rewrite and_then_eq. destruct (Ha s Hs) as [I1 E1]. destruct (Hb _ I1) as [I2 E2].
  split; [done|by apply Forall_app].
Qed.

Lemma guards_modify f : (∀ s, I s → I (f s)) → guards (modify f).
Proof. intros Hf s Hs. split; [by apply Hf|constructor]. Qed.

Lemma guards_emit e : P e → guards (emit e).
Proof. intros He s Hs. split; [done|by repeat constructor]. Qed.

Lemma guards_skip : guards skip.
Proof. intros s Hs. split; [done|constructor]. Qed.

Lemma guards_when b a : guards a → guards (when b a).
Proof. intros Ha. destruct b; [done|apply guards_skip]. Qed.

Lemma guards_read (h : S → act S E) : (∀ t, I t → guards (h t)) → guards (fun s => h s s).
Proof. intros Hh s Hs. by apply Hh. Qed.

Lemma guards_each {A} (f : A → act S E) l : (∀ x, guards (f x)) → guards (each f l).
Proof. intros Hf. induction l as [|x l IH]; [apply guards_skip|]. by apply guards_then. Qed.
End guards.

Create HintDb guards.
#[export] Hint Resolve guards_skip guards_then guards_when : guards.
#[export] Hint Extern 2 (guards _ _ (emit _)) => apply guards_emit; solve [done] : guards.
#[export] Hint Extern 2 (guards _ _ (modify _)) => apply guards_modify; solve [intros ? []; done] : guards.

(** The records of a coordinator; the others are a context's. *)
Definition is_tm (t : tx_cmd_type) : bool :=
  match t with TX_CMD_TM_BEGIN | TX_CMD_TM_COMMIT | TX_CMD_TM_ABORT | TX_CMD_TM_END => true | _ => false end.

(** ** Contexts *)

Module CtxStamp.
Import TxContext.TxContext.

Section stamp.
Context (x : Z).

(** The context is [x]'s, and its pending log has at most one record. *)
Definition stamp (c : tx_context) : Prop := xid_ c = x ∧ (length (log_entry_ c) ≤ 1)%nat.
Definition stamp_event (e : ctx_event) : Prop :=
  match e with WalAppend l => Forall (fun r => log_xid r = x ∧ is_tm (log_type r) = false) l | _ => True end.
Abbreviation stamped := (guards stamp stamp_event).

Lemma quiet_stamped h : quiet h → stamped h.
Proof.
  intros Hq c [Hx Hl]. destruct (Hq c) as [(_&_&_&Hx'&Hl') E]. split.
  - split; [by rewrite Hx'|auto].
  - eapply Forall_impl; [exact E|]. intros e. by destruct e.
Qed.
#[local] Hint Resolve quiet_stamped : guards.
#[local] Hint Resolve quiet_handle_operation quiet_run_lock_acquire quiet_dsb_response : guards.

(** The record gets the id just before it is written. *)
Lemma stamped_write t : is_tm t = false → stamped (set_tx_cmd_type t ;; async_force_log).
Proof.
  intros Ht c [Hx Hl]. rewrite and_then_eq. simpl. split; [split; [done|simpl; lia]|].
  constructor; [|constructor]. unfold last_entry. simpl.
  destruct (log_entry_ c) as [|a [|b l]]; simpl in *; try lia; by repeat constructor.
Qed.
#[local] Hint Resolve stamped_write : guards.

Lemma stamped_set t : stamped (set_tx_cmd_type t).
Proof. intros c [Hx Hl]. split; [|constructor]. split; [done|]. simpl. by apply last_entry_le. Qed.

Lemma stamped_release : stamped release_lock.
Proof.
  intros c Hc. rewrite release_lock_eq. split; [by destruct Hc|].
  repeat (apply Forall_app; split); try by repeat case_test; repeat constructor.
  destruct (read_only_ c); [constructor|]. apply Forall_map, Forall_true. done.
Qed.

Lemma stamped_response : stamped send_tx_response.
Proof. intros c Hc. unfold send_tx_response. case_test; (split; [by destruct Hc|by repeat constructor]). Qed.
#[local] Hint Resolve stamped_set stamped_release stamped_response : guards.

Lemma stamped_ack b : stamped (send_ack_message b).
Proof. intros c Hc. split; [done|by repeat constructor]. Qed.
Lemma stamped_prepare b : stamped (send_prepare_message b).
Proof. intros c Hc. split; [done|by repeat constructor]. Qed.
#[local] Hint Resolve stamped_ack stamped_prepare : guards.

Lemma stamped_committed : stamped (tx_committed DB_SN).
Proof. apply (guards_read _ _ (fun s => if negb (distributed_ s) then _ else _)). intros t _. case_test; auto with guards. Qed.

Lemma stamped_aborted : stamped (tx_aborted DB_SN).
Proof.
  apply (guards_read _ _ (fun s => if negb (distributed_ s) then _ else _)). intros t _. case_test; auto with guards.
  apply guards_then; [|auto with guards]. apply guards_modify. intros s []. by case_test.
Qed.
#[local] Hint Resolve stamped_committed stamped_aborted : guards.

Lemma stamped_log_commit t : stamped (on_log_entry_commit DB_SN t).
Proof.
  unfold on_log_entry_commit, on_committed_log_commit, on_aborted_log_commit, on_prepare_aborted_log_commit,
    on_prepare_committed_log_commit.
  apply guards_then; [apply guards_modify; intros s []; split; [done|simpl; lia]|].
  case_match; auto with guards.
Qed.

Lemma stamped_abort_1p : stamped abort_tx_1p.
Proof.
  intros c Hc. unfold abort_tx_1p. destruct (state_ c); try by (split; [done|by repeat constructor]).
  - by apply (guards_then _ _ (modify _)); auto with guards.
  - by apply stamped_response.
Qed.

Lemma stamped_abort_2p : stamped abort_tx_2p.
Proof.
  intros c Hc. unfold abort_tx_2p. destruct (state_ c); try by (split; [done|by repeat constructor]).
  all: by apply (guards_then _ _ (modify _)); auto with guards.
Qed.

Lemma stamped_phase2_commit : stamped handle_finish_tx_phase2_commit.
Proof.
  intros c Hc. unfold handle_finish_tx_phase2_commit. destruct (state_ c); try by (split; [done|by repeat constructor]).
  by apply (guards_then _ _ (modify _)); auto with guards.
Qed.

Lemma stamped_phase1_commit : stamped (handle_finish_tx_phase1_commit DB_SN).
Proof.
  intros c Hc. unfold handle_finish_tx_phase1_commit, on_committed_log_commit.
  destruct (state_ c); try (by split; [done|by repeat constructor]); try (by apply stamped_response).
  all: apply (guards_then stamp stamp_event (modify _)); [auto with guards| |done].
  all: destruct (read_only_ c); auto with guards.
Qed.
#[local] Hint Resolve stamped_abort_1p stamped_abort_2p stamped_phase2_commit stamped_phase1_commit : guards.

Lemma stamped_next get : stamped (handle_next_operation get DB_SN).
Proof.
  intros c Hc. unfold handle_next_operation, handle_finish_tx_phase1_abort.
  destruct (state_ c) eqn:Es; try by (split; [done|constructor]).
  destruct (EC_eqb (error_code_ c) EC_OK); [destruct (ops_ c) as [|op ops]|].
  - rewrite and_then_eq.
    assert ((when (negb (oid_ c =? max_ops_ c + 1)) (emit AssertFailed) c).1 = c) as -> by by destruct (negb _).
    assert (Forall stamp_event (when (negb (oid_ c =? max_ops_ c + 1)) (emit AssertFailed) c).2)
      by by destruct (negb _); repeat constructor.
    destruct (distributed_ c).
    + unfold when at 2. cbn [is_shared_nothing]. rewrite prepare_commit_eq by done.
      destruct (stamped_write TX_CMD_RM_PREPARE_COMMIT eq_refl (c <| state_ := RM_PREPARE_COMMITTING |>)) as [H1 H2]; [by destruct Hc|].
      split; [done|]. simpl. by apply Forall_app.
    + destruct (stamped_phase1_commit c Hc) as [H1 H2]. split; [done|]. simpl. by apply Forall_app.
  - apply quiet_stamped; [apply quiet_handle_operation|done].
  - destruct (distributed_ c); [|by apply stamped_abort_1p].
    destruct (stamped_write TX_CMD_RM_PREPARE_ABORT eq_refl (c <| state_ := RM_PREPARE_ABORTING |>)) as [H1 H2]; [by destruct Hc|].
    by split.
Qed.
#[local] Hint Resolve stamped_next : guards.

Lemma stamped_process get req : stamped (process_tx_request get DB_SN req).
Proof.
  unfold process_tx_request. repeat apply guards_then; auto with guards.
  apply guards_modify. intros s []. by case_test.
Qed.

Lemma stamped_run_strand get : stamped (run_strand get DB_SN).
Proof.
  intros c Hc. unfold run_strand. destruct (strand_ c) as [|t ts]; [split; [done|constructor]|].
  assert (stamp (c <| strand_ := ts |>)) as Hc' by by destruct Hc. destruct t as [ec|ec].
  - by apply quiet_stamped; [apply quiet_run_lock_acquire|].
  - revert Hc'. apply (guards_then stamp stamp_event (modify _)); auto with guards.
Qed.

Lemma stamped_abort ec : stamped (abort ec).
Proof.
  intros c Hc. unfold abort. set (c1 := match ec with EC_VICTIM => _ | _ => c end).
  assert (stamp c1) as H1 by (unfold c1; destruct ec, Hc; try done; by case_test).
  clearbody c1. destruct (distributed_ c1); cbn [negb].
  - split; [done|by repeat constructor].
  - destruct (state_ c1); try by (split; [done|constructor]). apply stamped_abort_1p. by destruct H1.
Qed.

Lemma stamped_tm_commit y : stamped (handle_tx_tm_commit y).
Proof. intros c Hc. unfold handle_tx_tm_commit. case_test; [by apply stamped_phase2_commit|split; [done|by repeat constructor]]. Qed.

Lemma stamped_tm_abort y : stamped (handle_tx_tm_abort y).
Proof. intros c Hc. unfold handle_tx_tm_abort. case_test; [by apply stamped_abort_2p|split; [done|by repeat constructor]]. Qed.

Lemma stamped_ended : stamped tx_ended.
Proof. intros c Hc. split; [by destruct Hc|by repeat constructor]. Qed.

Lemma stamped_read oid ec t sh key row : stamped (read_data_from_dsb_response oid ec t sh key row).
Proof. apply quiet_stamped, quiet_dsb_response. Qed.

Lemma stamped_lock ec : stamped (async_lock_acquire ec).
Proof. apply quiet_stamped. apply quiet_async_lock_acquire. Qed.
End stamp.
End CtxStamp.

(** ** Coordinators *)

Module TmStamp.
Import TxCoordinator.TxCoordinator.

Definition written (ev : list tm_event) : list tx_cmd_type :=
  omap (fun e => match e with WalAppend t => Some t | _ => None end) ev.

Arguments written : simpl never.

Lemma written_app l k : written (l ++ k) = written l ++ written k.
Proof. apply omap_app. Qed.

(** Whether the record was written. *)
Definition flag (t : tx_cmd_type) (c : tx_coordinator) : bool :=
  match t with
  | TX_CMD_TM_BEGIN => write_begin_log_ c
  | TX_CMD_TM_COMMIT => write_commit_log_ c
  | TX_CMD_TM_ABORT => write_abort_log_ c
  | TX_CMD_TM_END => write_end_done_ c
  | _ => false
  end.

(** The identity of a coordinator: its transaction, its node, and what it may
    say. *)
Definition sign (x n : Z) (c : tx_coordinator) : Prop := xid_ c = x ∧ node_id_ c = n.
Definition sign_event (x : Z) (e : tm_event) : Prop :=
  match e with SendRequest _ q => req_xid q = x | SendEnd _ => False | _ => True end.

Record orderly_at (c : tx_coordinator) (r : tx_coordinator * list tm_event) : Prop := mk_orderly {
  o_sign : sign (xid_ c) (node_id_ c) r.1;
  o_events : Forall (sign_event (xid_ c)) r.2;
  o_flags : ∀ t, flag t c = true → flag t r.1 = true;
  o_nodup : NoDup (written r.2);
  o_new : ∀ t, t ∈ written r.2 → flag t c = false ∧ flag t r.1 = true;
}.
Definition orderly (h : handler) : Prop := ∀ c, orderly_at c (h c).

(** Calls that are not log records. *)
Lemma written_silent ev : Forall (fun e => ∀ t, e ≠ WalAppend t) ev → written ev = [].
Proof. induction 1 as [|e ev He _ IH]; [done|]. cbn. destruct e; try exact IH. by edestruct He. Qed.

Lemma orderly_silent c c' ev :
  sign (xid_ c) (node_id_ c) c' → (∀ t, flag t c' = flag t c) → Forall (sign_event (xid_ c)) ev →
  written ev = [] → orderly_at c (c', ev).
Proof.
  intros Hs Hf He Hw. constructor; simpl; [done|done| | |]; rewrite ?Hw.
  - intros t. by rewrite Hf.
  - constructor.
  - by intros t ?%elem_of_nil.
Qed.

Lemma orderly_both c r1 r2 : orderly_at c r1 → orderly_at r1.1 r2 → orderly_at c (r2.1, r1.2 ++ r2.2).
Proof.
  intros [[Sx Sn] Ea Fa Na Wa] [[Tx Tn] Eb Fb Nb Wb]. rewrite Sx, Sn in *. constructor; simpl; rewrite ?written_app.
  - by split.
  - by apply Forall_app.
  - auto.
  - apply NoDup_app. split_and!; [done| |done].
    intros t Ht Ht'. destruct (Wa t Ht) as [_ E1], (Wb t Ht') as [E2 _]. congruence.
  - intros t [Ht|Ht]%elem_of_app.
    + destruct (Wa t Ht). auto.
    + destruct (Wb t Ht) as [E1 E2]. split; [|done]. destruct (flag t c) eqn:E; [|done]. by rewrite (Fa t E) in E1.
Qed.

Lemma orderly_then a b : orderly a → orderly b → orderly (a ;; b).
Proof. intros Ha Hb c. rewrite and_then_eq. by apply orderly_both. Qed.

Lemma orderly_modify f :
  (∀ c, xid_ (f c) = xid_ c ∧ node_id_ (f c) = node_id_ c ∧ ∀ t, flag t (f c) = flag t c) → orderly (modify f).
Proof. intros Hf c. destruct (Hf c) as (?&?&?). by apply orderly_silent. Qed.

(** A handler that first changes other fields. *)
Lemma orderly_after h c c' :
  orderly h → xid_ c' = xid_ c → node_id_ c' = node_id_ c → (∀ t, flag t c' = flag t c) → orderly_at c (h c').
Proof.
  intros Hh Hx Hn Hf. destruct (Hh c') as [Hs He Ho Hd Hw]. rewrite Hx, Hn in *. constructor; try done.
  - intros t. rewrite <- Hf. apply Ho.
  - intros t. rewrite <- Hf. apply Hw.
Qed.

Lemma orderly_refl c ev : Forall (sign_event (xid_ c)) ev → written ev = [] → orderly_at c (c, ev).
Proof. by apply orderly_silent. Qed.

Ltac orderly_log :=
  intros c; cbv beta delta [write_begin_log write_commit_log write_abort_log write_end_log]; case_test;
    [|by apply orderly_refl]; constructor; cbn;
    [by split|by repeat constructor|by intros []|by repeat constructor; apply not_elem_of_nil
    |intros t ->%list_elem_of_singleton; split; [|done]; cbn;
     repeat match goal with H : _ && _ = true |- _ => apply andb_prop in H as [? ?] end; by apply negb_true_iff].

Lemma orderly_begin : orderly write_begin_log.
Proof. orderly_log. Qed.
Lemma orderly_commit : orderly write_commit_log.
Proof. orderly_log. Qed.
Lemma orderly_abort_log : orderly write_abort_log.
Proof. orderly_log. Qed.
Lemma orderly_end : orderly write_end_log.
Proof. orderly_log. Qed.

Lemma orderly_response : orderly send_tx_response.
Proof. intros c. unfold send_tx_response. case_test; apply orderly_silent; try done; by repeat constructor. Qed.

Lemma written_sends (f : Z * tx_rm_tracer → tm_event) l :
  (∀ kv t, f kv ≠ WalAppend t) → written (map f l) = [].
Proof. intros Hf. apply written_silent, Forall_map, Forall_true. auto. Qed.

Lemma orderly_send_commit : orderly send_commit.
Proof. intros c. apply orderly_refl; [apply Forall_map, Forall_true; done|by apply written_sends]. Qed.
Lemma orderly_send_abort : orderly send_abort.
Proof. intros c. apply orderly_refl; [apply Forall_map, Forall_true; done|by apply written_sends]. Qed.

Create HintDb orderly.
#[export] Hint Resolve orderly_then orderly_begin orderly_commit orderly_abort_log orderly_end orderly_response
  orderly_send_commit orderly_send_abort : orderly.
#[export] Hint Extern 2 (orderly (modify _)) => apply orderly_modify; intros; split_and!; [done|done|by intros []] : orderly.

Lemma send_requests_orderly send_ok ks c : orderly_at c ((send_requests send_ok ks c).1.2, (send_requests send_ok ks c).2)
  ∧ written (send_requests send_ok ks c).2 = [] ∧ ∀ t, flag t (send_requests send_ok ks c).1.2 = flag t c.
Proof.
  revert c. induction ks as [|k ks IH]; intros c; cbn [send_requests]; [by split; [apply orderly_refl|]|].
  destruct (rm_tracer_ c !! k) as [u|]; [|apply IH].
  set (m := (message_ u) <| req_xid := xid_ c |> <| req_client_request := false |>).
  set (c1 := c <| rm_tracer_ := _ |>). destruct (send_ok (lead_ u)).
  - destruct (send_requests send_ok ks c1) as [[ok s] ev] eqn:E. destruct (IH c1) as ([Hs He _ _ _]&Hw&Hf). rewrite E in *.
    cbn in *. assert (∀ t, flag t s = flag t c) as Hfc by (intros t; rewrite Hf; by destruct t).
    split_and!; [|done|done]. apply orderly_silent; [done|done| |done]. by constructor.
  - split_and!; [|done|by intros []]. by apply orderly_silent; [split|intros []|constructor|].
Qed.

Lemma orderly_on_begin send_ok : orderly (on_begin send_ok).
Proof.
  intros c. unfold on_begin, send_rm_request.
  destruct (send_requests_orderly send_ok (map fst (tracers c)) c) as (Ho&Hw&Hf).
  destruct (send_requests send_ok (map fst (tracers c)) c) as [[ok s] ev]. cbn in *. destruct ok; [done|].
  assert (orderly_at s (send_tx_response (s <| error_code_ := EC_TX_ABORT |>))) as Hr
    by (apply orderly_after; [apply orderly_response|done|done|by intros []]).
  destruct (send_tx_response _) as [s' ev']. by apply (orderly_both c (s, ev) (s', ev')).
Qed.

Lemma orderly_log_commit send_ok t : orderly (on_log_entry_commit send_ok t).
Proof.
  unfold on_log_entry_commit, on_committed, on_aborted. destruct t; auto with orderly; try (by intros c; apply orderly_refl).
  - apply orderly_on_begin.
  - intros c. by apply orderly_silent; [split|intros []|repeat constructor|].
Qed.

Lemma orderly_advance : orderly step_tm_state_advance.
Proof.
  intros c. destruct (advance_cases c); [by apply orderly_refl| | | |].
  1, 2: by apply orderly_then; auto with orderly.
  - apply orderly_commit.
  - apply orderly_abort_log.
Qed.

Lemma orderly_prepare rg b st : orderly (handle_tx_rm_prepare rg b st).
Proof.
  intros c. unfold handle_tx_rm_prepare. destruct (rm_tracer_ c !! rg) as [u|]; [|by apply orderly_refl; [repeat constructor|]].
  destruct (rm_state_ u); try (by apply orderly_refl); try (case_test; by apply orderly_refl; [repeat constructor|]).
  apply orderly_after; [apply orderly_advance|by destruct b..|by intros []; destruct b].
Qed.

Lemma orderly_ack rg b : orderly (handle_tx_rm_ack rg b).
Proof.
  intros c. unfold handle_tx_rm_ack. destruct (rm_tracer_ c !! rg) as [u|]; [|by apply orderly_refl; [repeat constructor|]].
  destruct b, (rm_state_ u); try (by apply orderly_refl; [repeat constructor|]).
  all: try (apply orderly_after; [apply orderly_advance|done|done|by intros []]).
  apply orderly_then; [|apply orderly_advance]. intros c'. by apply orderly_refl; [repeat constructor|].
Qed.

Lemma orderly_abort ec : orderly (abort ec).
Proof.
  intros c. unfold abort. set (c1 := if EC_eqb ec EC_VICTIM && _ && _ then _ else c).
  assert (xid_ c1 = xid_ c ∧ node_id_ c1 = node_id_ c ∧ ∀ t, flag t c1 = flag t c) as (Hx&Hn&Hf)
    by (unfold c1; case_test; split_and!; done || by intros []).
  clearbody c1. destruct (write_commit_log_ c1); [by apply orderly_silent; [split|..]|].
  destruct (tm_state_ c1); try (by apply orderly_silent; [split|..]).
  all: apply (orderly_after (_ ;; _)); [|done..]; auto with orderly.
Qed.

(** A new coordinator. *)
Lemma add_operations_sign oneshot ops c :
  xid_ (add_operations oneshot ops c).1 = xid_ c ∧ node_id_ (add_operations oneshot ops c).1 = node_id_ c ∧
  ∀ t, flag t (add_operations oneshot ops c).1 = flag t c.
Proof.
  revert c. induction ops as [|op ops IH]; intros c; [done|]. cbn [add_operations].
  assert (xid_ (add_operation oneshot op c).1 = xid_ c ∧ node_id_ (add_operation oneshot op c).1 = node_id_ c ∧
    ∀ t, flag t (add_operation oneshot op c).1 = flag t c) as (Hx&Hn&Hf)
    by (unfold add_operation; destruct (lead_node_ c !! op_sd_id op); split_and!; done || by intros []).
  destruct (add_operation oneshot op c) as [c1 [|]]; [|done]. cbn in *.
  destruct (IH c1) as (Hx'&Hn'&Hf'). split_and!; [congruence|congruence|]. intros t. by rewrite Hf'.
Qed.

Lemma orderly_request req c :
  orderly_at c ((handle_tx_request req c).1.2, (handle_tx_request req c).2).
Proof.
  unfold handle_tx_request. destruct (add_operations_sign (req_oneshot req) (req_operations req) c) as (Hx&Hn&Hf).
  destruct (add_operations _ _ c) as [c1 ok]. cbn in *. destruct ok.
  - pose proof (orderly_after _ c c1 orderly_begin Hx Hn Hf) as Ho. by destruct (write_begin_log c1).
  - by apply orderly_silent; [split|..].
Qed.

(** Only a new request writes the first record. *)
Definition began_same (c c' : tx_coordinator) : Prop := write_begin_log_ c' = write_begin_log_ c.
#[local] Instance began_refl : Reflexive began_same.
Proof. by intros c. Qed.
#[local] Instance began_trans : Transitive began_same.
Proof. intros a b c. unfold began_same. congruence. Qed.
Abbreviation late := (respects began_same (fun _ : tm_event => True)).

Ltac late_now :=
  intros ?; split; [|by apply Forall_true];
  cbv beta delta [began_same write_commit_log write_abort_log write_end_log send_tx_response send_commit send_abort];
  repeat case_match; done.

Lemma late_commit : late write_commit_log.
Proof. late_now. Qed.
Lemma late_abort_log : late write_abort_log.
Proof. late_now. Qed.
Lemma late_end : late write_end_log.
Proof. late_now. Qed.
Lemma late_response : late send_tx_response.
Proof. late_now. Qed.
Lemma late_send_commit : late send_commit.
Proof. late_now. Qed.
Lemma late_send_abort : late send_abort.
Proof. late_now. Qed.
#[local] Hint Resolve late_commit late_abort_log late_end late_response late_send_commit late_send_abort : respects.

Lemma late_advance : late step_tm_state_advance.
Proof.
  intros c. destruct (advance_cases c); [by split|..].
  1, 2: by apply (respects_then _ _ send_tx_response write_end_log); auto with respects.
  - apply late_commit.
  - apply late_abort_log.
Qed.

Lemma late_after h c c' : late h → write_begin_log_ c' = write_begin_log_ c → write_begin_log_ (h c').1 = write_begin_log_ c.
Proof. intros Hh <-. apply Hh. Qed.

Lemma late_requests send_ok ks c : write_begin_log_ (send_requests send_ok ks c).1.2 = write_begin_log_ c.
Proof. apply (proj2 (proj2 (send_requests_orderly send_ok ks c)) TX_CMD_TM_BEGIN). Qed.

Lemma late_log_commit send_ok t c : write_begin_log_ (on_log_entry_commit send_ok t c).1 = write_begin_log_ c.
Proof.
  destruct t; try done.
  - cbn [on_log_entry_commit]. unfold on_begin, send_rm_request. pose proof (late_requests send_ok (map fst (tracers c)) c) as Hr.
    destruct (send_requests send_ok (map fst (tracers c)) c) as [[ok c1] ev]. destruct ok; [done|].
    cbn [fst snd] in Hr. rewrite <- Hr. unfold send_tx_response. by case_test.
  - cbn [on_log_entry_commit]. unfold on_aborted. rewrite modify_then. apply late_after; [|done].
    apply respects_then; auto with respects. apply _.
Qed.

Lemma late_prepare rg b st c : write_begin_log_ (handle_tx_rm_prepare rg b st c).1 = write_begin_log_ c.
Proof.
  unfold handle_tx_rm_prepare. destruct (rm_tracer_ c !! rg) as [u|]; [|done]. destruct (rm_state_ u); try done.
  apply late_after; [apply late_advance|by destruct b].
Qed.

Lemma late_ack rg b c : write_begin_log_ (handle_tx_rm_ack rg b c).1 = write_begin_log_ c.
Proof.
  unfold handle_tx_rm_ack. destruct (rm_tracer_ c !! rg) as [u|]; [|done].
  destruct b, (rm_state_ u); try done; try (by apply late_after; [apply late_advance|]).
  rewrite and_then_eq. by apply late_after; [apply late_advance|].
Qed.

Lemma late_abort ec c : write_begin_log_ (abort ec c).1 = write_begin_log_ c.
Proof.
  unfold abort. set (c1 := if EC_eqb ec EC_VICTIM && _ && _ then _ else c).
  assert (write_begin_log_ c1 = write_begin_log_ c) as <- by (unfold c1; by case_test). clearbody c1.
  destruct (write_commit_log_ c1); [done|]. destruct (tm_state_ c1); try done.
  all: rewrite modify_then; apply late_after; [|done]; apply respects_then; auto with respects; apply _.
Qed.
End TmStamp.
