(* ===== verification/CcBlock.v ===== *)
(** * The concurrency block

    [src/concurrency/cc_block.cpp], [include/concurrency/cc_block.h], in the
    shared-nothing build; the deterministic build's handlers are in [Calvin].
    The block registers with its replication block, gives each client request a
    transaction id, creates the contexts and coordinators, and hands every
    message and every committed log record to the transaction it names.

    The handlers of contexts and coordinators run on their own strands: the
    block posts a closure, [ctx_task] or [tm_task], to the strand of the
    transaction, and [run_ctx], [run_tm] run the oldest one.  A closure keeps a
    pointer to its context; the tables neither drop nor replace an entry, so
    that the context is the one the table has under the id.  An assertion that
    fails, a [PANIC] and an index beyond the tables is the event [AssertFailed].
    [fn_schedule_after_] is a hook of the tests and not set otherwise. *)

From stdpp Require Import sorting.
From S2P Require Import Prelude Common.
From S2P Require Import TxContext TxCoordinator Raft TxLogFormat RlBlock LockMgr WaitPath.
#[local] Open Scope Z_scope.
#[local] Open Scope act_scope.

Module CcBlock.
Import (hints) TxContext.TxContext TxCoordinator.TxCoordinator.

(** ** Transaction ids *)

(* @src src/concurrency/cc_block.cpp 532 535 cc_block::xid_to_terminal_id *)
Definition xid_to_terminal_id (xid : Z) : Z := u32 (Z.land xid 0xffffffff).

(** An id is its sequence number and its terminal. *)
Lemma make_uint64_eq a b : fits 32 a → fits 32 b → make_uint64 a b = a * 2 ^ 32 + b.
Proof.
  unfold fits, make_uint64. intros Ha Hb. rewrite Z.shiftl_mul_pow2 by lia. rewrite (wrap_small 64) by (unfold fits; nia).
  rewrite <- Z.lxor_lor, <- Z.add_nocarry_lxor; [done|..].
  all: apply Z.bits_inj'; intros i Hi; rewrite Z.land_spec, Z.bits_0; destruct (Z.ltb_spec i 32).
  1, 3: by rewrite Z.mul_pow2_bits_low.
  all: rewrite (Z.bits_above_log2 b i), andb_false_r; [done|lia|].
  all: destruct (decide (b = 0)) as [->|]; [simpl; lia|]; apply Z.log2_lt_pow2; [lia|].
  all: eapply Z.lt_le_trans; [apply Hb|apply Z.pow_le_mono_r; lia].
Qed.

Lemma xid_terminal a b : fits 32 a → fits 32 b → xid_to_terminal_id (make_uint64 a b) = b.
Proof.
  intros Ha Hb. rewrite make_uint64_eq by done. unfold xid_to_terminal_id. change 0xffffffff with (Z.ones 32).
  rewrite Z.land_ones by lia. rewrite Z.add_comm, Z.mod_add, Z.mod_small by (done || lia). by apply wrap_small.
Qed.

Lemma xid_sequence a b : fits 32 a → fits 32 b → higher_uint32 (make_uint64 a b) = a.
Proof.
  intros Ha Hb. rewrite make_uint64_eq by done. unfold higher_uint32. rewrite Z.shiftr_div_pow2 by lia.
  rewrite Z.add_comm, Z.div_add, Z.div_small by (done || lia). by apply wrap_small.
Qed.

(** ** Tables, one per terminal *)

Section tables.
Context {V : Type}.
Implicit Types (ts : list (gmap Z V)).

Definition table_of (xid : Z) : nat := Z.to_nat (xid_to_terminal_id xid).

Definition find_in (xid : Z) (ts : list (gmap Z V)) : option V := t ← ts !! table_of xid; HashTable.find xid t.

Definition insert_in (xid : Z) (v : V) (ts : list (gmap Z V)) : bool * list (gmap Z V) :=
  match ts !! table_of xid with
  | Some t => let '(ok, t) := HashTable.insert xid v t in (ok, <[table_of xid := t]> ts)
  | None => (false, ts)
  end.

(** The object behind the pointer changes. *)
Definition store_in (xid : Z) (v : V) (ts : list (gmap Z V)) : list (gmap Z V) := alter (<[xid := v]>) (table_of xid) ts.

Definition remove_in (xid : Z) (ts : list (gmap Z V)) : list (gmap Z V) := alter (fun t => (HashTable.remove xid t).2) (table_of xid) ts.
End tables.

Section table_lemmas.
Context {V : Type}.
Implicit Types (ts : list (gmap Z V)).

Lemma find_in_store xid v ts y :
  find_in y (store_in xid v ts) = if decide (y = xid) then (fun _ => v) <$> ts !! table_of xid else find_in y ts.
Proof.
  unfold find_in, store_in, HashTable.find. destruct (decide (y = xid)) as [->|Hne].
  - rewrite list_lookup_alter_eq. destruct (ts !! table_of xid) as [t|]; [|done]. cbn. apply lookup_insert_eq.
  - destruct (decide (table_of y = table_of xid)) as [E|E].
    + rewrite E, list_lookup_alter_eq. destruct (ts !! table_of xid) as [t|]; [|done]. cbn. by apply lookup_insert_ne.
    + by rewrite list_lookup_alter_ne.
Qed.

Lemma find_in_insert xid v ts y :
  find_in y (insert_in xid v ts).2 =
    if decide (y = xid ∧ (insert_in xid v ts).1 = true) then Some v else find_in y ts.
Proof.
  unfold find_in, insert_in, HashTable.insert, HashTable.find. destruct (ts !! table_of xid) as [t|] eqn:Et; cbn; [|by rewrite decide_False by naive_solver].
  destruct (t !! xid) as [u|] eqn:Eu; cbn.
  { rewrite decide_False by naive_solver. by rewrite list_insert_id. }
  destruct (decide (y = xid ∧ true = true)) as [[-> _]|Hne].
  - rewrite list_lookup_insert_eq by by eapply lookup_lt_Some. cbn. apply lookup_insert_eq.
  - destruct (decide (table_of y = table_of xid)) as [E|E].
    + rewrite E, list_lookup_insert_eq by by eapply lookup_lt_Some. rewrite Et. cbn. apply lookup_insert_ne. naive_solver.
    + by rewrite list_lookup_insert_ne.
Qed.

(** A new entry is possible if there is a table and none for the id. *)
Lemma insert_in_ok xid v ts :
  (insert_in xid v ts).1 = true ↔ (table_of xid < length ts)%nat ∧ find_in xid ts = None.
Proof.
  unfold insert_in, find_in, HashTable.insert, HashTable.find. destruct (ts !! table_of xid) as [t|] eqn:Et; cbn.
  - apply lookup_lt_Some in Et as ?. destruct (t !! xid); naive_solver.
  - apply lookup_ge_None in Et. split; [done|lia].
Qed.

Lemma insert_in_length xid v ts : length (insert_in xid v ts).2 = length ts.
Proof. unfold insert_in. repeat case_match; simpl; by rewrite ?length_insert. Qed.

(** Nothing is ever removed. *)
Lemma remove_in_id xid ts : remove_in xid ts = ts.
Proof.
  unfold remove_in. apply list_eq. intros i. destruct (decide (i = table_of xid)) as [->|?].
  - rewrite list_lookup_alter_eq. destruct (ts !! table_of xid) as [t|]; [|done]. cbn. unfold HashTable.remove. by case_match.
  - by rewrite list_lookup_alter_ne.
Qed.
End table_lemmas.

(** ** State *)

(** Closures posted to the strand of a context, of a coordinator. *)
Inductive ctx_task :=
| CProcess (req : tx_request)
| CLog (type : tx_cmd_type)
| CRead (m : dsb_read_response)
| CTmCommit (xid : Z)
| CTmAbort (xid : Z)
| CEnded
| CAbort (ec : EC).

Inductive tm_task :=
| TLog (type : tx_cmd_type)
| TPrepare (source_rg : Z) (commit : bool) (st : TxCoordinator.stats)
| TAck (source_rg : Z) (commit : bool)
| TAbort (ec : EC).

(** [shard_ids_] is [conf_.shard_ids()]; a connection is a number. *)
(* @src include/concurrency/cc_block.h 41 90 cc_block *)
Record cc_block := mk_ccb {
  shard_ids_ : list Z;
  cno_ : Z;
  leader_ : bool;
  node_id_ : Z;
  rlb_node_id_ : Z;
  cc_opt_dsb_node_id_ : option Z;
  dsb_shard2node_ : gmap Z Z;
  registered_ : bool;
  sequence_ : Z;
  wal_ : TxLogFormat.write_ahead_log;
  rg_lead_ : gmap Z Z;
  tx_context_ : list (gmap Z TxContext.tx_context);
  tx_coordinator_ : list (gmap Z TxCoordinator.tx_coordinator);
  ctx_strand_ : gmap Z (list ctx_task);
  tm_strand_ : gmap Z (list tm_task);
  term_connection_table_ : gmap Z Z;
}.
#[export] Instance eta_ccb : Eta cc_block := fun b =>
  mk_ccb (shard_ids_ b) (cno_ b) (leader_ b) (node_id_ b) (rlb_node_id_ b) (cc_opt_dsb_node_id_ b) (dsb_shard2node_ b)
    (registered_ b) (sequence_ b) (wal_ b) (rg_lead_ b) (tx_context_ b) (tx_coordinator_ b) (ctx_strand_ b)
    (tm_strand_ b) (term_connection_table_ b).

(** [num_max_terminal] is [conf_.final_num_terminal() + 10]. *)
(* @src src/concurrency/cc_block.cpp 13 62 cc_block::cc_block *)
Definition new_block (node rlb_node : Z) (shard_ids : list Z) (rg_lead : gmap Z Z) (num_max_terminal : nat) : cc_block :=
  mk_ccb shard_ids 0 false node rlb_node None ∅ false 0 (TxLogFormat.new_wal node rlb_node) rg_lead
    (replicate num_max_terminal ∅) (replicate num_max_terminal ∅) ∅ ∅ ∅.

Inductive event :=
| SendRegister (dest source cno : Z) (shard_ids : list Z)
| SendWarmUp (dest source term_id : Z) (keys : list (Z * Z * Z))
| WarmUpAnswer (conn term_id : Z) (ok : bool)
| CachePut (table_id shard_id key : Z) (tuple : string)
| LeadStatus (conn : Z) (leads : list Z) (rg_lead : Z)
| CcbState (conn cno : Z) (lead : bool) (node term_id shard_id : Z)
| EmptyAnswer (conn : Z) (ec : EC)
| RecvDependency (ds : WaitPath.dependency_set)
| CtxEvent (e : TxContext.ctx_event) (xid : Z)
| TmEvent (e : TxCoordinator.tm_event) (xid : Z)
| AssertFailed.

Abbreviation handler := (act cc_block event).

(** [tx_context_[terminal_id]] and [tx_coordinator_[terminal_id]]. *)
Definition indexed (xid : Z) (h : handler) : handler := fun b =>
  if (table_of xid <? length (tx_context_ b))%nat then h b else (b, [AssertFailed]).

(** ** Registration *)

(* @src src/concurrency/cc_block.cpp 191 213 cc_block::send_register *)
Definition send_register : handler := fun b =>
  let shards := if registered_ b then [] else shard_ids_ b in
  let b := if registered_ b then b else b <| cno_ := 0 |> <| wal_ ::= TxLogFormat.set_cno 0 |> in
  (b, [SendRegister (rlb_node_id_ b) (node_id_ b) (cno_ b) shards]).

(** [unordered_map::insert] keeps the node it has for a shard. *)
Definition add_dsb (m : gmap Z Z) (s : Z * Z) : gmap Z Z := match m !! s.1 with Some _ => m | None => <[s.1 := s.2]> m end.

(* @src src/concurrency/cc_block.cpp 215 258 cc_block::strand_ccb_handle_register_ccb_response *)
Definition strand_ccb_handle_register_ccb_response (cno : Z) (is_lead : bool) (shards : list (Z * Z)) : handler := fun b =>
  if cno_ b =? cno then (b, [])
  else
    let b := b <| leader_ := is_lead |> <| cno_ := cno |> <| wal_ ::= TxLogFormat.set_cno cno |>
               <| dsb_shard2node_ := foldl add_dsb (dsb_shard2node_ b) shards |> in
    let b := match map_to_list (dsb_shard2node_ b) with
             | [(_, node)] => b <| cc_opt_dsb_node_id_ := Some node |>
             | _ => b
             end in
    (b <| registered_ := true |>, []).

(* @src src/concurrency/cc_block.cpp 1184 1189 cc_block::ccb_handle_message *)
Definition handle_error_consistency : handler := modify (fun b => b <| registered_ := false |>).

(** ** Warm-up and status *)

(** The first request of a terminal fixes the connection its answers go to. *)
(* @src src/concurrency/cc_block.cpp 320 365 cc_block::ccb_handle_message *)
Definition handle_warm_up_req (c term_id : Z) (keys : list (Z * Z * Z)) : handler := fun b =>
  let '(conn, b) := match HashTable.find term_id (term_connection_table_ b) with
                    | Some conn => (conn, b)
                    | None => (c, b <| term_connection_table_ := (HashTable.insert term_id c (term_connection_table_ b)).2 |>)
                    end in
  let bad := if term_id =? 0 then [AssertFailed] else [] in
  if negb (registered_ b) then (b, bad ++ [WarmUpAnswer conn term_id false])
  else match keys with
       | [] => (b, bad ++ [AssertFailed])
       | (_, shard_id, _) :: _ =>
           match dsb_shard2node_ b !! shard_id with
           | None => (b, bad ++ [AssertFailed])
           | Some dest => (b, bad ++ [SendWarmUp dest (node_id_ b) term_id keys])
           end
       end.

(* @src src/concurrency/cc_block.cpp 367 391 cc_block::ccb_handle_message *)
Definition handle_warm_up_resp (term_id : Z) (rows : list tuple_row) : handler :=
  each (fun r => emit (CachePut (tr_table_id r) (tr_shard_id r) (tr_tuple_id r) (tr_tuple r))) rows ;;
  fun b => match HashTable.find term_id (term_connection_table_ b) with
           | Some conn => (b, [WarmUpAnswer conn term_id true])
           | None => (b, [])
           end.

(** The last leader of the block's own replica group is [rg_lead]. *)
(* @src src/concurrency/cc_block.cpp 559 571 cc_block::handle_lead_status_request *)
Definition handle_lead_status_request (conn : Z) : handler := fun b =>
  let leads := (map_to_list (rg_lead_ b)).*2 in
  let own := filter (fun n => NodeId.TO_RG_ID n = NodeId.TO_RG_ID (node_id_ b)) leads in
  (b, [LeadStatus conn leads (List.last own 0)]).

(* @src src/concurrency/cc_block.cpp 1161 1182 cc_block::strand_ccb_handle_state *)
Definition strand_ccb_handle_state (conn term_id shard_id : Z) : handler := fun b =>
  (b, [CcbState conn (u32 (cno_ b)) (leader_ b) (node_id_ b) term_id shard_id]).

(** ** New transactions *)

(* @src src/concurrency/cc_block.cpp 525 530 cc_block::gen_xid *)
Definition gen_xid (terminal_id : Z) (b : cc_block) : Z * cc_block :=
  let seq := u32 (sequence_ b + 1) in (make_uint64 seq terminal_id, b <| sequence_ := seq |>).

Definition post_ctx (xid : Z) (t : ctx_task) (b : cc_block) : cc_block :=
  b <| ctx_strand_ := <[xid := default [] (ctx_strand_ b !! xid) ++ [t]]> (ctx_strand_ b) |>.

Definition post_tm (xid : Z) (t : tm_task) (b : cc_block) : cc_block :=
  b <| tm_strand_ := <[xid := default [] (tm_strand_ b !! xid) ++ [t]]> (tm_strand_ b) |>.

(* @src src/concurrency/cc_block.cpp 575 602 cc_block::create_tx_context_gut *)
Definition create_tx_context_gut (xid : Z) (distributed : bool) (b : cc_block) : TxContext.tx_context :=
  TxContext.new_ctx xid (node_id_ b) (cc_opt_dsb_node_id_ b) (dsb_shard2node_ b) (cno_ b) distributed true.

(* @src src/concurrency/cc_block.cpp 603 619 cc_block::create_tx_context *)
Definition create_tx_context (req : tx_request) : handler := indexed (req_xid req) (fun b =>
  let ctx := create_tx_context_gut (req_xid req) (req_distributed req) b in
  let '(ok, ts) := insert_in (req_xid req) ctx (tx_context_ b) in
  let bad := if bool_decide (cc_opt_dsb_node_id_ b = Some 0) then [AssertFailed] else [] in
  if ok then (post_ctx (req_xid req) (CProcess req) (b <| tx_context_ := ts |>), bad) else (b, bad)).

(** The result of [handle_tx_request] is only logged. *)
(* @src src/concurrency/cc_block.cpp 783 801 cc_block::create_tx_coordinator *)
Definition create_tx_coordinator (req : tx_request) : handler := indexed (req_xid req) (fun b =>
  let xid := req_xid req in
  let '(ok, ts) := insert_in xid (TxCoordinator.new_tm xid (node_id_ b) (rg_lead_ b)) (tx_coordinator_ b) in
  if ok then
    let '(_, c, ev) := TxCoordinator.handle_tx_request req (TxCoordinator.new_tm xid (node_id_ b) (rg_lead_ b)) in
    (b <| tx_coordinator_ := store_in xid c ts |>, map (fun e => TmEvent e xid) ev)
  else (b, [])).

(* @src src/concurrency/cc_block.cpp 730 745 cc_block::handle_non_deterministic_tx_request *)
Definition handle_non_deterministic_tx_request (request : tx_request) : handler := fun b =>
  let bad := if req_terminal_id request =? 0 then [AssertFailed] else [] in
  let '(xid, b) := gen_xid (req_terminal_id request) b in
  let request := request <| req_xid := xid |> in
  let '(b, ev) := (if req_distributed request then create_tx_coordinator request else create_tx_context request) b in
  (b, bad ++ ev).

(* @src src/concurrency/cc_block.cpp 260 294 cc_block::handle_client_tx_request *)
Definition handle_client_tx_request (conn : Z) (request : tx_request) : handler :=
  when (negb (req_client_request request)) (emit AssertFailed) ;;
  match req_operations request with
  | [] => emit (EmptyAnswer conn EC_OK)
  | _ => if req_oneshot request then handle_non_deterministic_tx_request request else emit AssertFailed
  end.

(* @src src/concurrency/cc_block.cpp 749 763 cc_block::handle_tx_tm_request *)
Definition handle_tx_tm_request (request : tx_request) : handler :=
  when (match req_operations request with [] => true | _ => negb (req_distributed request) || req_client_request request end)
    (emit AssertFailed) ;;
  if req_oneshot request then
    when (req_xid request =? 0) (emit AssertFailed) ;; create_tx_context request
  else emit AssertFailed.

(** ** Messages to transactions *)

Definition to_context (xid : Z) (t : ctx_task) : handler := indexed xid (fun b =>
  match find_in xid (tx_context_ b) with Some _ => (post_ctx xid t b, []) | None => (b, []) end).

Definition to_coordinator (xid : Z) (t : tm_task) : handler := indexed xid (fun b =>
  match find_in xid (tx_coordinator_ b) with Some _ => (post_tm xid t b, []) | None => (b, []) end).

(* @src src/concurrency/cc_block.cpp 803 822 cc_block::handle_tx_rm_prepare *)
Definition handle_tx_rm_prepare (xid source_rg : Z) (commit : bool) (st : TxCoordinator.stats) : handler :=
  to_coordinator xid (TPrepare source_rg commit st).

(* @src src/concurrency/cc_block.cpp 824 842 cc_block::handle_tx_rm_ack *)
Definition handle_tx_rm_ack (xid source_rg : Z) (commit : bool) : handler := to_coordinator xid (TAck source_rg commit).

(* @src src/concurrency/cc_block.cpp 844 857 cc_block::handle_tx_tm_commit *)
Definition handle_tx_tm_commit (xid : Z) : handler := to_context xid (CTmCommit xid).

(* @src src/concurrency/cc_block.cpp 859 872 cc_block::handle_tx_tm_abort *)
Definition handle_tx_tm_abort (xid : Z) : handler := to_context xid (CTmAbort xid).

(* @src src/concurrency/cc_block.cpp 880 892 cc_block::handle_tx_tm_end *)
Definition handle_tx_tm_end (xid : Z) : handler := to_context xid CEnded.

(* @src src/concurrency/cc_block.cpp 713 728 cc_block::handle_read_data_response *)
Definition handle_read_data_response (m : dsb_read_response) : handler := to_context (rs_xid m) (CRead m).

(* @src src/concurrency/cc_block.cpp 931 963 cc_block::abort_tx *)
Definition abort_tx (xid : Z) (ec : EC) : handler := to_context xid (CAbort ec) ;; to_coordinator xid (TAbort ec).

(* @src src/concurrency/cc_block.cpp 874 878 cc_block::handle_dependency_set *)
Definition handle_dependency_set (ds : WaitPath.dependency_set) : handler := emit (RecvDependency ds).

(** ** Committed log records *)

Section commit.
Context (parse : list Z → option tx_log).

(** The records this node wrote; the timestamps only feed statistics. *)
(* @src src/concurrency/cc_block.cpp 621 638 rlb_commit_entries_to_proto_set *)
Definition rlb_commit_entries_to_proto_set (node : Z) (m : RlBlock.rlb_commit_entries) : option (list tx_log) :=
  rs ← TxLogFormat.handle_repeated_tx_logs_to_proto_and_timestamp parse (RlBlock.ce_logs m);
  Some (map (fun r => r.1.1) (filter (fun r : tx_log * Z * Z => r.2 = node) rs)).

(** One turn of the loop over the records. *)
(* @src src/concurrency/cc_block.cpp 652 710 cc_block::handle_append_log_response *)
Definition commit_record (xl : tx_log) : handler :=
  match log_type xl with
  | TX_CMD_TM_ABORT | TX_CMD_TM_COMMIT | TX_CMD_TM_BEGIN | TX_CMD_TM_END => to_coordinator (log_xid xl) (TLog (log_type xl))
  | TX_CMD_RM_PREPARE_ABORT | TX_CMD_RM_PREPARE_COMMIT | TX_CMD_RM_ABORT | TX_CMD_RM_COMMIT | TX_CMD_RM_BEGIN =>
      to_context (log_xid xl) (CLog (log_type xl))
  | _ => skip
  end.

(** [xid_], an ordered set. *)
Definition xids_of (logs : list tx_log) : list Z := merge_sort Z.le (remove_dups (map log_xid logs)).

(* @src src/concurrency/cc_block.cpp 640 711 cc_block::handle_append_log_response *)
Definition handle_append_log_response (m : RlBlock.rlb_commit_entries) : handler := fun b =>
  match rlb_commit_entries_to_proto_set (node_id_ b) m with
  | None => (b, [AssertFailed])
  | Some logs =>
      (if EC_eqb (RlBlock.ce_error_code m) EC_OK then each commit_record logs
       else each (fun xid => abort_tx xid EC_APPEND_LOG_ERROR) (xids_of logs)) b
  end.
End commit.

(** ** The strands *)

(** The tuple and row of a read response as the context takes them. *)
Definition read_handler (m : dsb_read_response) : TxContext.handler :=
  match rs_tuple_row m with
  | Some r => TxContext.read_data_from_dsb_response (rs_oid m) (rs_error_code m) (tr_table_id r) (tr_shard_id r) (tr_tuple_id r)
                (if is_tuple_nil (tr_tuple r) then None else Some (tr_tuple r))
  | None => TxContext.read_data_from_dsb_response (rs_oid m) (rs_error_code m) 0 0 0 None
  end.

(** [get] is the tuple cache while the closure runs. *)
Definition ctx_handler (get : Z → Z → Z → option string) (t : ctx_task) : TxContext.handler :=
  match t with
  | CProcess req => TxContext.process_tx_request get DB_SN req
  | CLog type => TxContext.on_log_entry_commit DB_SN type
  | CRead m => read_handler m
  | CTmCommit xid => TxContext.handle_tx_tm_commit xid
  | CTmAbort xid => TxContext.handle_tx_tm_abort xid
  | CEnded => TxContext.tx_ended
  | CAbort ec => TxContext.abort ec
  end.

Definition tm_handler (send_ok : Z → bool) (t : tm_task) : TxCoordinator.handler :=
  match t with
  | TLog type => TxCoordinator.on_log_entry_commit send_ok type
  | TPrepare rg commit st => TxCoordinator.handle_tx_rm_prepare rg commit st
  | TAck rg commit => TxCoordinator.handle_tx_rm_ack rg commit
  | TAbort ec => TxCoordinator.abort ec
  end.

(** [fn_remove] of a context: the call of [tx_state] for a transaction that is
    over. *)
(* @src src/concurrency/cc_block.cpp 581 590 cc_block::create_tx_context_gut *)
Definition remove_ctx (e : TxContext.ctx_event) (b : cc_block) : cc_block :=
  match e with
  | TxContext.TxState xid (TxContext.RM_ABORTING | TxContext.RM_COMMITTING | TxContext.RM_ENDED) =>
      b <| tx_context_ ::= remove_in xid |>
  | _ => b
  end.

(* @src src/concurrency/cc_block.cpp 770 775 cc_block::create_tx_coordinator_gut *)
Definition remove_tm (e : TxCoordinator.tm_event) (b : cc_block) : cc_block :=
  match e with
  | TxCoordinator.TmState xid TxCoordinator.TM_DONE => b <| tx_coordinator_ ::= remove_in xid |>
  | _ => b
  end.

(** A handler of the context in the table; its calls carry the context's id. *)
Definition at_ctx (xid : Z) (h : TxContext.handler) : handler := fun b =>
  match find_in xid (tx_context_ b) with
  | None => (b, [])
  | Some c =>
      let '(c', ev) := h c in
      (foldl (fun b e => remove_ctx e b) (b <| tx_context_ ::= store_in xid c' |>) ev,
       map (fun e => CtxEvent e (TxContext.xid_ c)) ev)
  end.

Definition at_tm (xid : Z) (h : TxCoordinator.handler) : handler := fun b =>
  match find_in xid (tx_coordinator_ b) with
  | None => (b, [])
  | Some c =>
      let '(c', ev) := h c in
      (foldl (fun b e => remove_tm e b) (b <| tx_coordinator_ ::= store_in xid c' |>) ev,
       map (fun e => TmEvent e (TxCoordinator.xid_ c)) ev)
  end.

(** Run the oldest closure. *)
(* @src src/concurrency/cc_block.cpp 1156 1159 cc_block::async_run_tx_routine *)
Definition run_ctx (get : Z → Z → Z → option string) (xid : Z) : handler := fun b =>
  match ctx_strand_ b !! xid with
  | Some (t :: ts) => at_ctx xid (ctx_handler get t) (b <| ctx_strand_ := <[xid := ts]> (ctx_strand_ b) |>)
  | _ => (b, [])
  end.

Definition run_tm (send_ok : Z → bool) (xid : Z) : handler := fun b =>
  match tm_strand_ b !! xid with
  | Some (t :: ts) => at_tm xid (tm_handler send_ok t) (b <| tm_strand_ := <[xid := ts]> (tm_strand_ b) |>)
  | _ => (b, [])
  end.

(** ** Dispatch *)

Inductive message :=
| ClientTxReq (conn : Z) (req : tx_request)
| TxTmRequest (req : tx_request)
| RmPrepare (xid source_rg : Z) (commit : bool) (st : TxCoordinator.stats)
| RmAck (xid source_rg : Z) (commit : bool)
| TmCommit (xid : Z)
| TmAbort (xid : Z)
| TmEnd (xid : Z)
| TxVictim (xid : Z)
| ReadResponse (m : dsb_read_response)
| CommitEntries (m : RlBlock.rlb_commit_entries)
| RegisterResponse (cno : Z) (is_lead : bool) (shards : list (Z * Z))
| ErrorConsistency
| WarmUpReq (conn term_id : Z) (keys : list (Z * Z * Z))
| WarmUpResp (term_id : Z) (rows : list tuple_row)
| LeadStatusReq (conn : Z)
| StateReq (conn term_id shard_id : Z)
| DependencySet (ds : WaitPath.dependency_set).

(** What [strand_ccb_tick_] runs counts from the time it runs. *)
(* @src src/concurrency/cc_block.cpp 393 523 cc_block::ccb_handle_message *)
Definition ccb_handle_message (parse : list Z → option tx_log) (m : message) : handler :=
  match m with
  | ClientTxReq conn req => handle_client_tx_request conn req
  | TxTmRequest req => handle_tx_tm_request req
  | RmPrepare xid rg commit st => handle_tx_rm_prepare xid rg commit st
  | RmAck xid rg commit => handle_tx_rm_ack xid rg commit
  | TmCommit xid => handle_tx_tm_commit xid
  | TmAbort xid => handle_tx_tm_abort xid
  | TmEnd xid => handle_tx_tm_end xid
  | TxVictim xid => abort_tx xid EC_VICTIM
  | ReadResponse m => handle_read_data_response m
  | CommitEntries m => handle_append_log_response parse m
  | RegisterResponse cno is_lead shards => strand_ccb_handle_register_ccb_response cno is_lead shards
  | ErrorConsistency => handle_error_consistency
  | WarmUpReq conn term_id keys => handle_warm_up_req conn term_id keys
  | WarmUpResp term_id rows => handle_warm_up_resp term_id rows
  | LeadStatusReq conn => handle_lead_status_request conn
  | StateReq conn term_id shard_id => strand_ccb_handle_state conn term_id shard_id
  | DependencySet ds => handle_dependency_set ds
  end.

(** ** What a handler changes, by transaction *)

Record tx_view := mk_view {
  v_ctx : option TxContext.tx_context;
  v_ctx_tasks : list ctx_task;
  v_tm : option TxCoordinator.tx_coordinator;
  v_tm_tasks : list tm_task;
}.
#[export] Instance eta_view : Eta tx_view := fun v => mk_view (v_ctx v) (v_ctx_tasks v) (v_tm v) (v_tm_tasks v).

Definition view (x : Z) (b : cc_block) : tx_view :=
  mk_view (find_in x (tx_context_ b)) (default [] (ctx_strand_ b !! x)) (find_in x (tx_coordinator_ b)) (default [] (tm_strand_ b !! x)).

(** What no handler but those of registration and of new requests changes, and
    the sizes. *)
Definition same_shape (b b' : cc_block) : Prop :=
  node_id_ b' = node_id_ b ∧ rg_lead_ b' = rg_lead_ b ∧ sequence_ b' = sequence_ b ∧
  length (tx_context_ b') = length (tx_context_ b) ∧ length (tx_coordinator_ b') = length (tx_coordinator_ b).

#[export] Instance same_shape_refl : Reflexive same_shape.
Proof. by intros b. Qed.
#[export] Instance same_shape_trans : Transitive same_shape.
Proof. intros a b c (?&?&?&?&?) (?&?&?&?&?). split_and!; congruence. Qed.

Lemma view_post_ctx x y t b :
  view x (post_ctx y t b) = if decide (x = y) then (view x b) <| v_ctx_tasks := v_ctx_tasks (view x b) ++ [t] |> else view x b.
Proof.
  unfold view, post_ctx. simpl. case_decide as E; [subst; by rewrite lookup_insert_eq|by rewrite lookup_insert_ne].
Qed.

Lemma view_post_tm x y t b :
  view x (post_tm y t b) = if decide (x = y) then (view x b) <| v_tm_tasks := v_tm_tasks (view x b) ++ [t] |> else view x b.
Proof.
  unfold view, post_tm. simpl. case_decide as E; [subst; by rewrite lookup_insert_eq|by rewrite lookup_insert_ne].
Qed.

(** Calls that are not a transaction's. *)
Definition block_event (e : event) : Prop := match e with CtxEvent _ _ | TmEvent _ _ => False | _ => True end.

(** The handler changes the view of [y] along [R] and nothing of the other
    transactions. *)
Definition touches (y : Z) (R : relation tx_view) (h : handler) : Prop := ∀ b,
  same_shape b (h b).1 ∧ Forall block_event (h b).2 ∧
  R (view y b) (view y (h b).1) ∧ ∀ x, x ≠ y → view x (h b).1 = view x b.

(** A handler that touches no transaction. *)
Definition aside (h : handler) : Prop := ∀ b,
  same_shape b (h b).1 ∧ Forall block_event (h b).2 ∧ ∀ x, view x (h b).1 = view x b.

Lemma aside_then g h : aside g → aside h → aside (g ;; h).
Proof.
  intros Hg Hh b. rewrite and_then_eq. destruct (Hg b) as (S1&E1&V1), (Hh (g b).1) as (S2&E2&V2).
  split_and!; [by etrans|by apply Forall_app|]. intros x. by rewrite <- V1, <- V2.
Qed.

Lemma aside_emit e : block_event e → aside (emit e).
Proof. intros He b. by split_and!; [|repeat constructor|]. Qed.

Lemma aside_when c h : aside h → aside (when c h).
Proof. intros Hh. destruct c; [done|]. by intros b. Qed.

Lemma touches_aside y (R : relation tx_view) g h : aside g → touches y R h → touches y R (g ;; h).
Proof.
  intros Hg Hh b. rewrite and_then_eq. destruct (Hg b) as (S1&E1&V1), (Hh (g b).1) as (S2&E2&R2&V2).
  split_and!; [by etrans|by apply Forall_app|by rewrite <- V1|]. intros x Hx. by rewrite <- V1, <- V2.
Qed.

Lemma touches_none y (R : relation tx_view) `{!Reflexive R} h : aside h → touches y R h.
Proof. intros Hh b. destruct (Hh b) as (?&?&HV). split_and!; [done|done|by rewrite HV|auto]. Qed.

Lemma touches_then y (R S T : relation tx_view) g h :
  touches y R g → touches y S h → (∀ u v w, R u v → S v w → T u w) → touches y T (g ;; h).
Proof.
  intros Hg Hh HT b. rewrite and_then_eq. destruct (Hg b) as (S1&E1&R1&V1), (Hh (g b).1) as (S2&E2&R2&V2).
  split_and!; [by etrans|by apply Forall_app|eauto|]. intros x Hx. rewrite V2 by done. by rewrite V1.
Qed.

(** A closure is posted to the transaction's strand if the table has it. *)
Inductive gets_ctx (t : ctx_task) : relation tx_view :=
| gets_no_ctx v : gets_ctx t v v
| gets_ctx_task v c : v_ctx v = Some c → gets_ctx t v (v <| v_ctx_tasks := v_ctx_tasks v ++ [t] |>).
Inductive gets_tm (t : tm_task) : relation tx_view :=
| gets_no_tm v : gets_tm t v v
| gets_tm_task v c : v_tm v = Some c → gets_tm t v (v <| v_tm_tasks := v_tm_tasks v ++ [t] |>).

Lemma to_context_touches y t : touches y (gets_ctx t) (to_context y t).
Proof.
  intros b. unfold to_context, indexed. case_test; cbn [fst snd]; [|by split_and!; [|repeat constructor|constructor|]].
  destruct (find_in y (tx_context_ b)) as [c|] eqn:Ec; cbn [fst snd]; [|by split_and!; [|constructor|constructor|]].
  split_and!; [done|constructor| |].
  - rewrite view_post_ctx, decide_True by done. by apply (gets_ctx_task t _ c).
  - intros x Hx. by rewrite view_post_ctx, decide_False.
Qed.

Lemma to_coordinator_touches y t : touches y (gets_tm t) (to_coordinator y t).
Proof.
  intros b. unfold to_coordinator, indexed. case_test; cbn [fst snd]; [|by split_and!; [|repeat constructor|constructor|]].
  destruct (find_in y (tx_coordinator_ b)) as [c|] eqn:Ec; cbn [fst snd]; [|by split_and!; [|constructor|constructor|]].
  split_and!; [done|constructor| |].
  - rewrite view_post_tm, decide_True by done. by apply (gets_tm_task t _ c).
  - intros x Hx. by rewrite view_post_tm, decide_False.
Qed.

(** ** The handlers that run on a strand *)

Lemma remove_ctx_id e b : remove_ctx e b = b.
Proof. unfold remove_ctx. repeat case_match; try done. all: simpl; rewrite remove_in_id; by destruct b. Qed.

Lemma remove_tm_id e b : remove_tm e b = b.
Proof. unfold remove_tm. repeat case_match; try done. simpl. rewrite remove_in_id. by destruct b. Qed.

Lemma foldl_id {A B} (f : B → A → B) l b : (∀ b x, f b x = b) → foldl f b l = b.
Proof. intros Hf. induction l as [|x l IH] in b |- *; [done|]. cbn. by rewrite Hf. Qed.

Lemma at_ctx_eq y h b c :
  find_in y (tx_context_ b) = Some c →
  at_ctx y h b = (b <| tx_context_ ::= store_in y (h c).1 |>, map (fun e => CtxEvent e (TxContext.xid_ c)) (h c).2).
Proof.
  intros Hc. unfold at_ctx. rewrite Hc. destruct (h c) as [c' ev]. f_equal. apply foldl_id. intros. apply remove_ctx_id.
Qed.

Lemma at_tm_eq y h b c :
  find_in y (tx_coordinator_ b) = Some c →
  at_tm y h b = (b <| tx_coordinator_ ::= store_in y (h c).1 |>, map (fun e => TmEvent e (TxCoordinator.xid_ c)) (h c).2).
Proof.
  intros Hc. unfold at_tm. rewrite Hc. destruct (h c) as [c' ev]. f_equal. apply foldl_id. intros. apply remove_tm_id.
Qed.

Lemma find_in_table {V} y (ts : list (gmap Z V)) c : find_in y ts = Some c → is_Some (ts !! table_of y).
Proof. unfold find_in. destruct (ts !! table_of y); [by eexists|done]. Qed.

Lemma view_store_ctx x y c b :
  is_Some (tx_context_ b !! table_of y) →
  view x (b <| tx_context_ ::= store_in y c |>) = if decide (x = y) then (view x b) <| v_ctx := Some c |> else view x b.
Proof. intros [t Ht]. unfold view. simpl. rewrite find_in_store. case_decide; [|done]. by rewrite Ht. Qed.

Lemma view_store_tm x y c b :
  is_Some (tx_coordinator_ b !! table_of y) →
  view x (b <| tx_coordinator_ ::= store_in y c |>) = if decide (x = y) then (view x b) <| v_tm := Some c |> else view x b.
Proof. intros [t Ht]. unfold view. simpl. rewrite find_in_store. case_decide; [|done]. by rewrite Ht. Qed.

Lemma same_shape_ctx y c b : same_shape b (b <| tx_context_ ::= store_in y c |>).
Proof. split_and!; try done. simpl. unfold store_in. by rewrite length_alter. Qed.
Lemma same_shape_tm y c b : same_shape b (b <| tx_coordinator_ ::= store_in y c |>).
Proof. split_and!; try done. simpl. unfold store_in. by rewrite length_alter. Qed.

(** A handler that runs [h] on [y]'s context, after [f] has changed the queue of
    its strand. *)
Record ran_ctx (y : Z) (c : TxContext.tx_context) (ts : list ctx_task) (h : TxContext.handler) (b : cc_block)
    (r : cc_block * list event) : Prop := mk_ran_ctx {
  rc_shape : same_shape b r.1;
  rc_events : r.2 = map (fun e => CtxEvent e (TxContext.xid_ c)) (h c).2;
  rc_view : view y r.1 = (view y b) <| v_ctx := Some (h c).1 |> <| v_ctx_tasks := ts |>;
  rc_other : ∀ x, x ≠ y → view x r.1 = view x b;
}.
Record ran_tm (y : Z) (c : TxCoordinator.tx_coordinator) (ts : list tm_task) (h : TxCoordinator.handler) (b : cc_block)
    (r : cc_block * list event) : Prop := mk_ran_tm {
  rt_shape : same_shape b r.1;
  rt_events : r.2 = map (fun e => TmEvent e (TxCoordinator.xid_ c)) (h c).2;
  rt_view : view y r.1 = (view y b) <| v_tm := Some (h c).1 |> <| v_tm_tasks := ts |>;
  rt_other : ∀ x, x ≠ y → view x r.1 = view x b;
}.

Lemma at_ctx_ran y c h b : v_ctx (view y b) = Some c → ran_ctx y c (v_ctx_tasks (view y b)) h b (at_ctx y h b).
Proof.
  intros Hc. rewrite (at_ctx_eq y h b c Hc). assert (is_Some (tx_context_ b !! table_of y)) by by eapply find_in_table.
  constructor; cbn [fst snd].
  - apply same_shape_ctx.
  - done.
  - by rewrite view_store_ctx, decide_True.
  - intros x Hx. by rewrite view_store_ctx, decide_False.
Qed.

Lemma run_ctx_ran get y c t ts b :
  v_ctx (view y b) = Some c → v_ctx_tasks (view y b) = t :: ts → ran_ctx y c ts (ctx_handler get t) b (run_ctx get y b).
Proof.
  intros Hc Ht. unfold run_ctx. cbn in Ht. destruct (ctx_strand_ b !! y) as [l|] eqn:El; [|done]. cbn in Ht. subst l.
  set (b1 := b <| ctx_strand_ := _ |>).
  assert (view y b1 = (view y b) <| v_ctx_tasks := ts |>) as Hv by (unfold view, b1; simpl; by rewrite lookup_insert_eq).
  destruct (at_ctx_ran y c (ctx_handler get t) b1) as [H1 H2 H3 H4]; [by rewrite Hv|].
  constructor; [done|done|by rewrite H3, Hv|]. intros x Hx. rewrite H4 by done. unfold view, b1. simpl.
  by rewrite lookup_insert_ne.
Qed.

Lemma run_ctx_idle get y b : v_ctx_tasks (view y b) = [] → run_ctx get y b = (b, []).
Proof. unfold run_ctx. cbn. destruct (ctx_strand_ b !! y) as [[|]|]; done. Qed.

Lemma at_tm_ran y c h b : v_tm (view y b) = Some c → ran_tm y c (v_tm_tasks (view y b)) h b (at_tm y h b).
Proof.
  intros Hc. rewrite (at_tm_eq y h b c Hc). assert (is_Some (tx_coordinator_ b !! table_of y)) by by eapply find_in_table.
  constructor; cbn [fst snd].
  - apply same_shape_tm.
  - done.
  - by rewrite view_store_tm, decide_True.
  - intros x Hx. by rewrite view_store_tm, decide_False.
Qed.

Lemma run_tm_ran send_ok y c t ts b :
  v_tm (view y b) = Some c → v_tm_tasks (view y b) = t :: ts → ran_tm y c ts (tm_handler send_ok t) b (run_tm send_ok y b).
Proof.
  intros Hc Ht. unfold run_tm. cbn in Ht. destruct (tm_strand_ b !! y) as [l|] eqn:El; [|done]. cbn in Ht. subst l.
  set (b1 := b <| tm_strand_ := _ |>).
  assert (view y b1 = (view y b) <| v_tm_tasks := ts |>) as Hv by (unfold view, b1; simpl; by rewrite lookup_insert_eq).
  destruct (at_tm_ran y c (tm_handler send_ok t) b1) as [H1 H2 H3 H4]; [by rewrite Hv|].
  constructor; [done|done|by rewrite H3, Hv|]. intros x Hx. rewrite H4 by done. unfold view, b1. simpl.
  by rewrite lookup_insert_ne.
Qed.

Lemma run_tm_idle send_ok y b : v_tm_tasks (view y b) = [] → run_tm send_ok y b = (b, []).
Proof. unfold run_tm. cbn. destruct (tm_strand_ b !! y) as [[|]|]; done. Qed.

(** ** New contexts and coordinators *)

Inductive new_context (req : tx_request) (node : Z) : relation tx_view :=
| nc_none v : new_context req node v v
| nc_new v dsb shard2node cno : v_ctx v = None →
    new_context req node v
      (v <| v_ctx := Some (TxContext.new_ctx (req_xid req) node dsb shard2node cno (req_distributed req) true) |>
         <| v_ctx_tasks := v_ctx_tasks v ++ [CProcess req] |>).

Definition makes_context (req : tx_request) (b : cc_block) (r : cc_block * list event) : Prop :=
  same_shape b r.1 ∧ Forall block_event r.2 ∧ (∀ x, x ≠ req_xid req → view x r.1 = view x b) ∧
  new_context req (node_id_ b) (view (req_xid req) b) (view (req_xid req) r.1).

Lemma create_tx_context_makes req b : makes_context req b (create_tx_context req b).
Proof.
  unfold makes_context, create_tx_context, indexed. case_test; cbn [fst snd]; [|by split_and!; [|repeat constructor| |constructor]].
  set (ctx := create_tx_context_gut _ _ b). pose proof (find_in_insert (req_xid req) ctx (tx_context_ b)) as Hf.
  pose proof (insert_in_length (req_xid req) ctx (tx_context_ b)) as Hl.
  pose proof (insert_in_ok (req_xid req) ctx (tx_context_ b)) as Ho.
  assert (Forall block_event (if bool_decide (cc_opt_dsb_node_id_ b = Some 0) then [AssertFailed] else [])) as Hb
    by by case_test; repeat constructor.
  destruct (insert_in (req_xid req) ctx (tx_context_ b)) as [ok ts]. cbn [fst snd] in *.
  destruct ok; cbn [fst snd]; [|by split_and!; [| | |constructor]].
  assert (∀ x, view x (b <| tx_context_ := ts |>) =
    if decide (x = req_xid req) then (view x b) <| v_ctx := Some ctx |> else view x b) as Hv.
  { intros x. unfold view. simpl. rewrite Hf. destruct (decide (x = req_xid req)); [by rewrite decide_True|].
    by rewrite decide_False by naive_solver. }
  split_and!; [by split_and!|done| |].
  - intros x Hx. by rewrite view_post_ctx, decide_False, Hv, decide_False.
  - rewrite view_post_ctx, decide_True, Hv, decide_True by done. apply (nc_new req (node_id_ b) (view (req_xid req) b)). by apply Ho.
Qed.

Lemma makes_context_after req b c r ev :
  same_shape b c → (∀ x, view x c = view x b) → Forall block_event ev → makes_context req c r → makes_context req b (r.1, ev ++ r.2).
Proof.
  intros Hs Hv He (H1&H2&H3&H4). unfold makes_context. cbn [fst snd]. rewrite <- (proj1 Hs), <- !Hv.
  split_and!; [by etrans|by apply Forall_app| |done]. intros x Hx. by rewrite <- Hv, H3.
Qed.

Lemma tm_request_makes req b : makes_context req b (handle_tx_tm_request req b).
Proof.
  unfold handle_tx_tm_request. rewrite and_then_eq.
  set (pre := when (match req_operations req with [] => _ | _ => _ end) _). assert (aside pre) as Hp by (apply aside_when, aside_emit; exact I).
  destruct (Hp b) as (Hs&He&Hv). apply (makes_context_after req b (pre b).1); [done..|].
  destruct (req_oneshot req); [|by split_and!; [|repeat constructor| |constructor]].
  rewrite and_then_eq. set (pre' := when _ _). assert (aside pre') as Hp' by (apply aside_when, aside_emit; exact I).
  destruct (Hp' (pre b).1) as (Hs'&He'&Hv'). apply (makes_context_after req _ (pre' (pre b).1).1); [done..|].
  apply create_tx_context_makes.
Qed.

Lemma create_tx_coordinator_touches req b :
  length (tx_coordinator_ b) = length (tx_context_ b) →
  let x := req_xid req in
  let r := create_tx_coordinator req b in
  same_shape b r.1 ∧ (∀ y, y ≠ x → view y r.1 = view y b) ∧
  ((view x r.1 = view x b ∧ Forall block_event r.2) ∨
   ∃ res c ev, v_tm (view x b) = None ∧
     TxCoordinator.handle_tx_request req (TxCoordinator.new_tm x (node_id_ b) (rg_lead_ b)) = (res, c, ev) ∧
     view x r.1 = (view x b) <| v_tm := Some c |> ∧ r.2 = map (fun e => TmEvent e x) ev).
Proof.
  intros Hlen. cbv zeta. unfold create_tx_coordinator, indexed. destruct (table_of (req_xid req) <? _)%nat eqn:El; cbn [fst snd];
    [|by split_and!; [| |left; split; [|repeat constructor]]].
  set (tm := TxCoordinator.new_tm _ _ _). pose proof (find_in_insert (req_xid req) tm (tx_coordinator_ b)) as Hf.
  pose proof (insert_in_length (req_xid req) tm (tx_coordinator_ b)) as Hl.
  pose proof (insert_in_ok (req_xid req) tm (tx_coordinator_ b)) as Ho.
  destruct (insert_in (req_xid req) tm (tx_coordinator_ b)) as [ok ts]. cbn [fst snd] in *.
  destruct ok; cbn [fst snd]; [|by split_and!; [| |left; split; [|constructor]]].
  destruct (TxCoordinator.handle_tx_request req tm) as [[res c] ev] eqn:E. cbn [fst snd].
  assert (is_Some (ts !! table_of (req_xid req))) as [t Ht].
  { apply lookup_lt_is_Some. rewrite Hl, Hlen. by apply Nat.ltb_lt in El. }
  assert (∀ x, view x (b <| tx_coordinator_ := store_in (req_xid req) c ts |>) =
    if decide (x = req_xid req) then (view x b) <| v_tm := Some c |> else view x b) as Hv.
  { intros x. unfold view. simpl. rewrite find_in_store. destruct (decide (x = req_xid req)); [by rewrite Ht|].
    rewrite Hf. by rewrite decide_False by naive_solver. }
  split_and!; [split_and!; try done; simpl; unfold store_in; by rewrite length_alter| |].
  - intros y Hy. by rewrite Hv, decide_False.
  - right. exists res, c, ev. split_and!; [by apply Ho|done|by rewrite Hv, decide_True|done].
Qed.

(** A client's request either concerns no transaction (it is empty, or fails an
    assertion) or becomes one with a new id. *)
Lemma client_cases conn req b :
  let r := handle_client_tx_request conn req b in
  (same_shape b r.1 ∧ Forall block_event r.2 ∧ ∀ x, view x r.1 = view x b) ∨
  ∃ xid b1 ev0, req_operations req ≠ [] ∧ gen_xid (req_terminal_id req) b = (xid, b1) ∧ Forall block_event ev0 ∧
    let q := req <| req_xid := xid |> in
    let r' := (if req_distributed req then create_tx_coordinator q else create_tx_context q) b1 in
    r = (r'.1, ev0 ++ r'.2).
Proof.
  cbv zeta. unfold handle_client_tx_request. rewrite and_then_eq.
  set (pre := when (negb (req_client_request req)) (emit AssertFailed)).
  assert ((pre b).1 = b ∧ Forall block_event (pre b).2) as [Hp He]
    by (unfold pre; by destruct (req_client_request req); split; repeat constructor).
  rewrite Hp. destruct (req_operations req) as [|op ops]; [left|].
  { split_and!; [done|by apply Forall_app; split; [|repeat constructor]|done]. }
  destruct (req_oneshot req); [right|left]; last first.
  { split_and!; [done|by apply Forall_app; split; [|repeat constructor]|done]. }
  unfold handle_non_deterministic_tx_request. destruct (gen_xid (req_terminal_id req) b) as [xid b1] eqn:Eg.
  set (bad := if req_terminal_id req =? 0 then [AssertFailed] else []).
  assert (Forall block_event bad) by (unfold bad; by case_test; repeat constructor).
  exists xid, b1, ((pre b).2 ++ bad). split_and!; [done|done|by apply Forall_app|].
  change (req_distributed (req <| req_xid := xid |>)) with (req_distributed req).
  destruct (req_distributed req); [destruct (create_tx_coordinator _ b1)|destruct (create_tx_context _ b1)]; cbn; by rewrite app_assoc.
Qed.

(** ** Messages that concern no transaction *)

Definition is_admin (m : message) : bool :=
  match m with
  | RegisterResponse _ _ _ | ErrorConsistency | WarmUpReq _ _ _ | WarmUpResp _ _ | LeadStatusReq _ | StateReq _ _ _ | DependencySet _ => true
  | _ => false
  end.

Lemma register_response_aside cno is_lead shards : aside (strand_ccb_handle_register_ccb_response cno is_lead shards).
Proof.
  intros b. unfold strand_ccb_handle_register_ccb_response. case_test; [by split_and!|].
  destruct (map_to_list _) as [|[? ?] [|]]; by split_and!.
Qed.

Lemma send_register_aside : aside send_register.
Proof. intros b. unfold send_register. destruct (registered_ b); by split_and!; [|repeat constructor|]. Qed.

Lemma warm_up_req_aside conn term_id keys : aside (handle_warm_up_req conn term_id keys).
Proof.
  intros b. unfold handle_warm_up_req.
  set (p := match HashTable.find term_id _ with Some _ => _ | None => _ end).
  assert (same_shape b p.2 ∧ ∀ x, view x p.2 = view x b) as [Hs Hv] by (unfold p; by case_match).
  destruct p as [c b1]. cbn [fst snd] in *.
  destruct (registered_ b1); cbn [negb]; [destruct keys as [|[[? sh] ?] ?]; [|destruct (dsb_shard2node_ b1 !! sh)]|];
    (split_and!; [done| |done]); cbn [snd]; apply Forall_app; split; by repeat case_test; repeat constructor.
Qed.

Lemma admin_aside parse m : is_admin m = true → aside (ccb_handle_message parse m).
Proof.
  destruct m; intros Hm; try discriminate Hm; cbn [ccb_handle_message].
  - apply register_response_aside.
  - intros b. by split_and!; [|constructor|].
  - apply warm_up_req_aside.
  - apply aside_then; [|intros b; case_match; by split_and!; [|repeat constructor|]].
    induction rows as [|r rows IH]; cbn [each]; [intros b; by split_and!; [|constructor|]|]. apply aside_then; [by apply aside_emit|by apply IH].
  - intros b. by split_and!; [|repeat constructor|].
  - intros b. by split_and!; [|repeat constructor|].
  - by apply aside_emit.
Qed.

(** ** The ids of a block's requests *)

(** The ids of requests from terminals [ts], one after the other. *)
Fixpoint gen_xids (ts : list Z) (b : cc_block) : list Z * cc_block :=
  match ts with
  | [] => ([], b)
  | t :: ts => let '(x, b) := gen_xid t b in let '(xs, b) := gen_xids ts b in (x :: xs, b)
  end.

Lemma gen_xid_eq t b : gen_xid t b = (make_uint64 (u32 (sequence_ b + 1)) t, b <| sequence_ := u32 (sequence_ b + 1) |>).
Proof. done. Qed.

Lemma gen_xids_later ts b x : 0 ≤ sequence_ b → sequence_ b + Z.of_nat (length ts) < 2 ^ 32 → Forall (fits 32) ts →
  x ∈ (gen_xids ts b).1 → sequence_ b < higher_uint32 x.
Proof.
  revert b. induction ts as [|t ts IH]; intros b Hs Hl Ht; [by intros ?%elem_of_nil|]. inversion Ht; subst.
  cbn [length] in Hl. cbn [gen_xids]. rewrite gen_xid_eq, (wrap_small 32) by (unfold fits; lia).
  specialize (IH (b <| sequence_ := sequence_ b + 1 |>)). destruct (gen_xids ts _) as [xs b']. cbn [fst] in *.
  intros [->|Hx]%elem_of_cons; [rewrite xid_sequence by (done || unfold fits; lia); lia|].
  assert (sequence_ b + 1 < higher_uint32 x); [|lia]. apply IH; simpl; [lia|lia|done|done].
Qed.

Lemma gen_xids_sequence ts b : fits 32 (sequence_ b) → sequence_ (gen_xids ts b).2 = u32 (sequence_ b + Z.of_nat (length ts)).
Proof.
  revert b. induction ts as [|t ts IH]; intros b Hb; [cbn; by rewrite Z.add_0_r, (wrap_small 32)|]. cbn [gen_xids]. rewrite gen_xid_eq.
  specialize (IH (b <| sequence_ := u32 (sequence_ b + 1) |>) (wrap_fits 32 _ ltac:(lia))). destruct (gen_xids ts _) as [xs b'].
  cbn [snd] in *. rewrite IH. cbn [length]. simpl. unfold u32, wrap. rewrite Z.add_mod_idemp_l by lia. f_equal. lia.
Qed.

Lemma gen_xids_wrap us b t : fits 32 (sequence_ b) → Z.of_nat (length us) = 2 ^ 32 → (gen_xid t (gen_xids us b).2).1 = (gen_xid t b).1.
Proof.
  intros Hb Hl. rewrite !gen_xid_eq. cbn [fst]. rewrite gen_xids_sequence, Hl by done. f_equal. unfold u32, wrap.
  rewrite Z.add_mod_idemp_l by lia. replace (sequence_ b + 2 ^ 32 + 1) with (sequence_ b + 1 + 1 * 2 ^ 32) by lia. by rewrite Z.mod_add.
Qed.

(** C32: fewer than 2^32 requests of a block, from terminals in any order, get
    distinct 64-bit ids; each id names the terminal of its request, so that the
    block finds the transaction's tables by the id and no other block gives out
    the same one; then the ids repeat. *)
Theorem ids_unique ts b :
  0 ≤ sequence_ b → sequence_ b + Z.of_nat (length ts) < 2 ^ 32 → Forall (fits 32) ts →
  let '(xs, b') := gen_xids ts b in
  NoDup xs ∧ map xid_to_terminal_id xs = ts ∧ Forall (fits 64) xs ∧ sequence_ b' = sequence_ b + Z.of_nat (length ts) ∧
  ∀ us t, Z.of_nat (length us) = 2 ^ 32 → (gen_xid t (gen_xids us b').2).1 = (gen_xid t b').1.
Proof.
  intros Hs Hl Ht. revert b Hs Hl. induction ts as [|t ts IH]; intros b Hs Hl.
  { cbn in *. split_and!; [constructor|done|constructor|lia|]. intros us t. apply gen_xids_wrap. unfold fits. lia. }
  inversion Ht as [|? ? Ht1 Ht2]; subst. cbn [length] in Hl. cbn [gen_xids]. rewrite gen_xid_eq, (wrap_small 32) by (unfold fits; lia).
  set (b1 := b <| sequence_ := sequence_ b + 1 |>). assert (sequence_ b1 = sequence_ b + 1) as E1 by done.
  assert (fits 32 (sequence_ b + 1)) as Hf by (unfold fits; lia).
  pose proof (gen_xids_later ts b1 (make_uint64 (sequence_ b + 1) t)) as Hlater. rewrite xid_sequence, E1 in Hlater by done.
  specialize (IH Ht2 b1 ltac:(lia) ltac:(lia)). destruct (gen_xids ts b1) as [xs b']. destruct IH as (H1&H2&H3&H4&H5).
  cbn [map]. rewrite xid_terminal, H2 by done. split_and!; [|done| | |done].
  - constructor; [|done]. intros Hin. specialize (Hlater ltac:(lia) ltac:(lia) Ht2 Hin). lia.
  - constructor; [|done]. rewrite make_uint64_eq by done. unfold fits in *. lia.
  - rewrite H4, E1. cbn [length]. lia.
Qed.

Lemma ids_unique_witness :
  let '(xs, b') := gen_xids [5; 6; 5] (new_block 65537 65538 [1] ∅ 10) in
  NoDup xs ∧ map xid_to_terminal_id xs = [5; 6; 5] ∧ sequence_ b' = 3.
Proof.
  pose proof (ids_unique [5; 6; 5] (new_block 65537 65538 [1] ∅ 10)) as H.
  destruct (gen_xids _ _) as [xs b'] eqn:E. destruct H as (H1&H2&_&H4&_); [done|done|by repeat constructor|]. by split_and!.
Defined.

(** Nothing is ever taken out of the tables, so that once the ids repeat, a
    request whose id was used before is lost: no transaction is created and the
    client is not answered. *)
Theorem reused_id_unanswered conn req b c :
  req_client_request req = true → req_operations req ≠ [] → req_oneshot req = true → req_distributed req = false →
  req_terminal_id req ≠ 0 → cc_opt_dsb_node_id_ b ≠ Some 0 →
  let '(xid, b1) := gen_xid (req_terminal_id req) b in
  find_in xid (tx_context_ b) = Some c →
  handle_client_tx_request conn req b = (b1, []) ∧ ∀ x, view x b1 = view x b.
Proof.
  intros Hc Ho Hone Hd Ht Hdsb. rewrite gen_xid_eq. set (xid := make_uint64 _ _). intros Hf. split; [|done].
  unfold handle_client_tx_request. rewrite Hc. cbn [negb when]. rewrite and_then_eq. cbn [fst snd skip app].
  destruct (req_operations req) as [|op ops]; [done|]. rewrite Hone. unfold handle_non_deterministic_tx_request.
  destruct (Z.eqb_spec (req_terminal_id req) 0); [done|]. rewrite gen_xid_eq. fold xid. simpl. rewrite Hd.
  unfold create_tx_context, indexed. simpl. unfold find_in in Hf. destruct (tx_context_ b !! table_of xid) as [t|] eqn:Et; [|done].
  rewrite (proj2 (Nat.ltb_lt _ _)) by by eapply lookup_lt_Some. rewrite bool_decide_eq_false_2 by done.
  unfold insert_in. rewrite Et. cbn [mbind option_bind] in Hf. unfold HashTable.insert, HashTable.find in *. by rewrite Hf.
Qed.

(** Terminal 5 after 2^32 requests: its first transaction is still in the table. *)
Definition demo_full : cc_block :=
  (new_block 65537 65538 [1] ∅ 10) <| tx_context_ ::=
    fun ts => (insert_in (make_uint64 1 5) (TxContext.new_ctx (make_uint64 1 5) 65537 (Some 65540) ∅ 1 false true) ts).2 |>.
Definition demo_request : tx_request := mk_request 0 0 0 false true false true [mk_op TX_OP_READ 0 1 1 1 7 "" 0] 5.

Lemma reused_id_unanswered_witness : (handle_client_tx_request 3 demo_request demo_full).2 = [].
Proof.
  pose proof (reused_id_unanswered 3 demo_request demo_full
    (TxContext.new_ctx (make_uint64 1 5) 65537 (Some 65540) ∅ 1 false true)) as H. rewrite gen_xid_eq in H.
  destruct H as [H _]; [reflexivity|done|reflexivity|reflexivity|done|done|reflexivity|]. by rewrite H.
Defined.
End CcBlock.
