(* ===== verification/Blocks.v ===== *)
(** * Many transactions on many blocks

    The concurrency blocks ([CcBlock]) of all nodes, the network between them
    and the replicated log, with any number of transactions in progress at once.
    Messages are never removed, so that they may be lost, repeated, delayed and
    reordered; a log record is handed back to its block at most once, at any
    time after it was written; a strand runs its oldest closure at any time.

    [TwoPhase] is about one transaction, whose handlers run when their message
    arrives.  Here a message is looked up in the tables and posted to a strand,
    between the closures of all other transactions.  [Simulation] shows that
    what each distributed transaction does here is a run of [TwoPhase].

    - [blocks_well_formed]: the invariant [sound] of the state of all blocks. *)

From S2P Require Import Prelude Common.
From S2P Require Import LockMgr TxContext TxCoordinator TxStamp TwoPhase CcBlock.
#[local] Open Scope Z_scope.

#[export] Instance fits_dec w x : Decision (fits w x).
Proof. unfold fits. apply _. Defined.

Module Blocks.
Import CcBlock.CcBlock.
Import (hints) TwoPhase.
Import TwoPhase(msg, MRequest, MCommit, MAbort, MEnd, MPrepare, MAck, MVictim).

(** The outputs of a context's, of a coordinator's calls. *)
Abbreviation ctx_msgs n y evs := ((fun m => (y, m)) <$> omap (TwoPhase.rm_msg (NodeId.TO_RG_ID n)) evs).
Abbreviation ctx_logs n y evs := ((fun t => (n, y, t)) <$> TxContext.logged evs).
Abbreviation tm_msgs y evs := ((fun m => (y, m)) <$> omap TwoPhase.tm_msg evs).
Abbreviation tm_logs n y evs := ((fun t => (n, y, t)) <$> TmStamp.written evs).
Abbreviation tm_answers y evs := ((fun ec => (y, ec)) <$> omap TwoPhase.tm_answer evs).

Section system.
(** The block a terminal sends its requests to. *)
Context (home : Z → Z) (parse : list Z → option tx_log).

(** A message and a log record carry the id of their transaction.  [wlog] holds
    the node, the transaction and the type of each record written, [flushed] the
    positions of those handed back, [answers] what clients were told. *)
Record world := mk_world {
  blocks : gmap Z cc_block;
  net : list (Z * msg);
  wlog : list (Z * Z * tx_cmd_type);
  flushed : gset nat;
  answers : list (Z * EC);
}.

(** ** The calls of a block *)

Definition msg_of (n : Z) (e : event) : option (Z * msg) :=
  match e with
  | CtxEvent e x => (fun m => (x, m)) <$> TwoPhase.rm_msg (NodeId.TO_RG_ID n) e
  | TmEvent e x => (fun m => (x, m)) <$> TwoPhase.tm_msg e
  | _ => None
  end.

Definition log_of (n : Z) (e : event) : list (Z * Z * tx_cmd_type) :=
  match e with
  | CtxEvent (TxContext.WalAppend l) _ => map (fun r => (n, log_xid r, log_type r)) l
  | TmEvent (TxCoordinator.WalAppend t) x => [(n, x, t)]
  | _ => []
  end.

Definition answer_of (e : event) : option (Z * EC) :=
  match e with TmEvent (TxCoordinator.ClientResponse ec _ _) x => Some (x, ec) | _ => None end.

Definition perform (n : Z) (h : handler) (w : world) : option world :=
  b ← blocks w !! n;
  let '(b', ev) := h b in
  Some (mk_world (<[n := b']> (blocks w)) (net w ++ omap (msg_of n) ev) (wlog w ++ (ev ≫= log_of n)) (flushed w)
          (answers w ++ omap answer_of ev)).

(** ** Steps *)

Definition msg_dest (m : msg) : Z :=
  match m with
  | MRequest d _ | MCommit d | MAbort d | MEnd d | MPrepare d _ _ | MAck d _ _ | MVictim d => d
  end.

Definition block_message (x : Z) (m : msg) (st : TxCoordinator.stats) : message :=
  match m with
  | MRequest _ q => TxTmRequest q
  | MCommit _ => TmCommit x
  | MAbort _ => TmAbort x
  | MEnd _ => TmEnd x
  | MPrepare _ rg b => RmPrepare x rg b st
  | MAck _ rg b => RmAck x rg b
  | MVictim _ => TxVictim x
  end.

Definition starting (v : tx_view) : bool := match v_ctx_tasks v with CProcess _ :: _ => true | _ => false end.

Inductive label :=
| Client (n conn : Z) (req : tx_request)
| Deliver (n x : Z) (m : msg) (st : TxCoordinator.stats)
| Commit (i : nat)
| Fail (n x : Z) (ec : EC)
| Answer (n : Z) (m : dsb_read_response)
| RunCtx (n x : Z) (get : Z → Z → Z → option string)
| RunTm (n x : Z) (send_ok : Z → bool)
| Lock (n x : Z) (ec : EC)
| Turn (n x : Z) (get : Z → Z → Z → option string)
| Tick (n : Z)
| Admin (n : Z) (m : message).

(** A terminal sends its requests to one block, and a block numbers fewer than
    2^32 of them.  A message of several committed records is one step for each.
    [Fail] is the verdict of the deadlock detector or of the replicated log.
    The lock manager answers a context, and the context's own closures run,
    only after it has begun with its request. *)
Definition exec (l : label) (w : world) : option world :=
  match l with
  | Client n conn req =>
      b ← blocks w !! n;
      if decide (home (req_terminal_id req) = n ∧ fits 32 (req_terminal_id req) ∧ sequence_ b + 1 < 2 ^ 32)
      then perform n (ccb_handle_message parse (ClientTxReq conn req)) w else None
  | Deliver n x m st =>
      if decide ((x, m) ∈ net w ∧ msg_dest m = n) then perform n (ccb_handle_message parse (block_message x m st)) w else None
  | Commit i =>
      '(n, x, t) ← wlog w !! i;
      if decide (i ∉ flushed w)
      then perform n (commit_record (mk_log t x []))
             (mk_world (blocks w) (net w) (wlog w) ({[i]} ∪ flushed w) (answers w))
      else None
  | Fail n x ec => if decide (ec ≠ EC_OK) then perform n (abort_tx x ec) w else None
  | Answer n m => perform n (ccb_handle_message parse (ReadResponse m)) w
  | RunCtx n x get => perform n (run_ctx get x) w
  | RunTm n x send_ok => perform n (run_tm send_ok x) w
  | Lock n x ec =>
      b ← blocks w !! n;
      if starting (view x b) then None else perform n (at_ctx x (TxContext.async_lock_acquire ec)) w
  | Turn n x get =>
      b ← blocks w !! n;
      if starting (view x b) then None else perform n (at_ctx x (TxContext.run_strand get DB_SN)) w
  | Tick n => perform n send_register w
  | Admin n m => if is_admin m then perform n (ccb_handle_message parse m) w else None
  end.

Definition step (w w' : world) : Prop := ∃ l, exec l w = Some w'.

(** The leader the configuration names for a shard is a node of the shard. *)
Definition initial (w : world) : Prop :=
  net w = [] ∧ wlog w = [] ∧ flushed w = ∅ ∧ answers w = [] ∧
  ∀ n b, blocks w !! n = Some b → ∃ rlb shards lead k,
    b = new_block n rlb shards lead k ∧ ∀ sd m, lead !! sd = Some m → NodeId.TO_RG_ID m = sd.

Definition reachable (w : world) : Prop := ∃ w0, initial w0 ∧ rtc step w0 w.

(** ** Every id in use was given out *)

Definition generated (w : world) (x : Z) : Prop :=
  ∃ b, blocks w !! home (xid_to_terminal_id x) = Some b ∧ higher_uint32 x ≤ sequence_ b.

Definition own_task (x : Z) (t : ctx_task) : Prop :=
  match t with
  | CProcess q => req_xid q = x
  | CTmCommit y | CTmAbort y => y = x
  | CEnded => False
  | _ => True
  end.

(** What a block keeps of a transaction names that transaction. *)
Record own_view (n x : Z) (v : tx_view) : Prop := mk_own {
  ov_ctx : ∀ c, v_ctx v = Some c → CtxStamp.stamp x c;
  ov_ctx_tasks : v_ctx v = None → v_ctx_tasks v = [];
  ov_tasks : Forall (own_task x) (v_ctx_tasks v);
  ov_tm : ∀ c, v_tm v = Some c → TmStamp.sign x n c ∧ home (xid_to_terminal_id x) = n;
  ov_tm_tasks : v_tm v = None → v_tm_tasks v = [];
}.

Definition empty_view : tx_view := mk_view None [] None [].

Definition own_msg (p : Z * msg) : Prop :=
  match p.2 with MRequest _ q => req_xid q = p.1 | MEnd _ => False | _ => True end.

Record sound (w : world) : Prop := mk_sound {
  s_block : ∀ n b, blocks w !! n = Some b → node_id_ b = n ∧ 0 ≤ sequence_ b < 2 ^ 32 ∧
    length (tx_coordinator_ b) = length (tx_context_ b) ∧
    (∀ sd m, rg_lead_ b !! sd = Some m → NodeId.TO_RG_ID m = sd);
  s_view : ∀ n b x, blocks w !! n = Some b → own_view n x (view x b);
  s_new : ∀ n b x, blocks w !! n = Some b → view x b = empty_view ∨ generated w x;
  s_net : ∀ p, p ∈ net w → own_msg p ∧ generated w p.1;
  s_log : ∀ n x t, (n, x, t) ∈ wlog w → generated w x;
  s_answers : ∀ x ec, (x, ec) ∈ answers w → generated w x;
  s_flushed : ∀ i, i ∈ flushed w → (i < length (wlog w))%nat;
}.

(** ** Outputs of a handler *)

Lemma silent_outputs n ev :
  Forall block_event ev → omap (msg_of n) ev = [] ∧ ev ≫= log_of n = [] ∧ omap answer_of ev = [].
Proof. induction 1 as [|e ev He _ (IH1&IH2&IH3)]; [done|]. by destruct e. Qed.

Lemma perform_some n h w b :
  blocks w !! n = Some b →
  perform n h w = Some (mk_world (<[n := (h b).1]> (blocks w)) (net w ++ omap (msg_of n) (h b).2)
    (wlog w ++ ((h b).2 ≫= log_of n)) (flushed w) (answers w ++ omap answer_of (h b).2)).
Proof. intros Hb. unfold perform. rewrite Hb. cbn. by destruct (h b). Qed.

Lemma perform_inv n h w w' :
  perform n h w = Some w' → ∃ b, blocks w !! n = Some b ∧
    w' = mk_world (<[n := (h b).1]> (blocks w)) (net w ++ omap (msg_of n) (h b).2)
           (wlog w ++ ((h b).2 ≫= log_of n)) (flushed w) (answers w ++ omap answer_of (h b).2).
Proof.
  intros Hp. destruct (blocks w !! n) as [b|] eqn:Hb; [|unfold perform in Hp; by rewrite Hb in Hp].
  rewrite (perform_some _ _ _ _ Hb) in Hp. exists b. by simplify_eq.
Qed.

(** A change of block [n] that concerns transaction [y] only. *)
Record change (w w' : world) (n y : Z) (b b' : cc_block) (ms : list (Z * msg)) (ls : list (Z * Z * tx_cmd_type))
    (ans : list (Z * EC)) : Prop := mk_change {
  ch_block : blocks w !! n = Some b;
  ch_blocks : blocks w' = <[n := b']> (blocks w);
  ch_shape : same_shape b b';
  ch_other : ∀ x, x ≠ y → view x b' = view x b;
  ch_net : net w' = net w ++ ms;
  ch_msgs : ∀ p, p ∈ ms → p.1 = y ∧ own_msg p;
  ch_log : wlog w' = wlog w ++ ls;
  ch_logs : ∀ l, l ∈ ls → l.1 = (n, y);
  ch_ans : answers w' = answers w ++ ans;
  ch_answers : ∀ a, a ∈ ans → a.1 = y;
}.

Lemma generated_mono w w' n b b' x :
  blocks w !! n = Some b → blocks w' = <[n := b']> (blocks w) → sequence_ b ≤ sequence_ b' →
  generated w x → generated w' x.
Proof.
  intros Hb Hw Hs (b0&Hb0&Hx). unfold generated. rewrite Hw. destruct (decide (home (xid_to_terminal_id x) = n)) as [E|E].
  - rewrite E in *. rewrite lookup_insert_eq. exists b'. split; [done|]. simplify_eq. lia.
  - rewrite lookup_insert_ne by done. eauto.
Qed.

Lemma change_sound w w' n y b b' ms ls ans :
  sound w → change w w' n y b b' ms ls ans → own_view n y (view y b') →
  generated w y ∨ view y b' = view y b ∧ ms = [] ∧ ls = [] ∧ ans = [] →
  (∀ i, i ∈ flushed w' → (i < length (wlog w'))%nat) → sound w'.
Proof.
  intros [Hblk Hview Hnew Hnet Hlog Hans Hfl] [Hb Hw (Hn&Hr&Hs&Hl1&Hl2) Ho Hn' Hms Hl' Hls Ha' Has] Hv Hy Hf.
  assert (∀ x, generated w x → generated w' x) as Hg by (intros x; eapply generated_mono; [done|done|lia]).
  constructor.
  - intros m c. rewrite Hw. destruct (decide (m = n)) as [->|Hm].
    + rewrite lookup_insert_eq. intros [= <-]. destruct (Hblk _ _ Hb) as (?&?&?&?).
      rewrite Hn, Hr, Hs, Hl1, Hl2. done.
    + rewrite lookup_insert_ne by done. apply Hblk.
  - intros m c x. rewrite Hw. destruct (decide (m = n)) as [->|Hm].
    + rewrite lookup_insert_eq. intros [= <-]. destruct (decide (x = y)) as [->|Hx]; [done|]. rewrite Ho by done. eauto.
    + rewrite lookup_insert_ne by done. apply Hview.
  - intros m c x. rewrite Hw. destruct (decide (m = n)) as [->|Hm].
    + rewrite lookup_insert_eq. intros [= <-]. destruct (decide (x = y)) as [->|Hx].
      * destruct Hy as [Hy|(->&_)]; [by right; apply Hg|]. destruct (Hnew _ _ y Hb); auto.
      * rewrite Ho by done. destruct (Hnew _ _ x Hb); auto.
    + rewrite lookup_insert_ne by done. intros Hc. destruct (Hnew _ _ x Hc); auto.
  - intros p. rewrite Hn'. intros [Hp|Hp]%elem_of_app.
    + destruct (Hnet _ Hp). auto.
    + destruct (Hms _ Hp) as [E Hp']. rewrite E. destruct Hy as [Hy|(_&->&_)]; [auto|by apply elem_of_nil in Hp].
  - intros m x t. rewrite Hl'. intros [Hp|Hp]%elem_of_app; [by eapply Hg, Hlog|].
    destruct Hy as [Hy|(_&_&->&_)]; [|by apply elem_of_nil in Hp]. apply Hls in Hp. cbn in Hp. simplify_eq. auto.
  - intros x ec. rewrite Ha'. intros [Hp|Hp]%elem_of_app; [by eapply Hg, Hans|].
    destruct Hy as [Hy|(_&_&_&->)]; [|by apply elem_of_nil in Hp]. apply Has in Hp. cbn in Hp. simplify_eq. auto.
  - done.
Qed.


Lemma perform_touches n y R h w w' :
  touches y R h → perform n h w = Some w' →
  ∃ b, change w w' n y b (h b).1 [] [] [] ∧ flushed w' = flushed w ∧ R (view y b) (view y (h b).1).
Proof.
  intros Hh (b&Hb&->)%perform_inv. exists b. destruct (Hh b) as (Hs&He&HR&Ho).
  destruct (silent_outputs n _ He) as (->&->&->). split_and!; [|done|done].
  by constructor; try done; cbn; rewrite ?app_nil_r; try done; intros ? ?%elem_of_nil.
Qed.

Lemma perform_aside n h w w' :
  aside h → perform n h w = Some w' →
  ∃ b b', (∀ y, change w w' n y b b' [] [] []) ∧ flushed w' = flushed w ∧ ∀ x, view x b' = view x b.
Proof.
  intros Hh (b&Hb&->)%perform_inv. exists b, (h b).1. destruct (Hh b) as (Hs&He&Ho).
  destruct (silent_outputs n _ He) as (->&->&->). split_and!; [|done|done]. intros y.
  by constructor; try done; cbn; rewrite ?app_nil_r; try done; intros ? ?%elem_of_nil.
Qed.

(** The handlers of strands and contexts speak for their transaction. *)
Lemma stamped_task x get t : guards (CtxStamp.stamp x) (CtxStamp.stamp_event x) (ctx_handler get t).
Proof.
  destruct t; cbn [ctx_handler].
  - apply CtxStamp.stamped_process.
  - apply CtxStamp.stamped_log_commit.
  - unfold read_handler. case_match; apply CtxStamp.stamped_read.
  - apply CtxStamp.stamped_tm_commit.
  - apply CtxStamp.stamped_tm_abort.
  - apply CtxStamp.stamped_ended.
  - apply CtxStamp.stamped_abort.
Qed.

Lemma orderly_task send_ok t : TmStamp.orderly (tm_handler send_ok t).
Proof.
  destruct t; cbn [tm_handler]; [apply TmStamp.orderly_log_commit|apply TmStamp.orderly_prepare|apply TmStamp.orderly_ack
    |apply TmStamp.orderly_abort].
Qed.

Lemma ctx_outputs n y evs :
  Forall (CtxStamp.stamp_event y) evs →
  let ev := map (fun e => CtxEvent e y) evs in
  omap (msg_of n) ev = (fun m => (y, m)) <$> omap (TwoPhase.rm_msg (NodeId.TO_RG_ID n)) evs ∧
  ev ≫= log_of n = (fun t => (n, y, t)) <$> TxContext.logged evs ∧ omap answer_of ev = [].
Proof.
  cbv zeta. induction 1 as [|e evs He _ (IH1&IH2&IH3)]; [done|]. cbn [map]. split_and!.
  - cbn. rewrite IH1. by destruct (TwoPhase.rm_msg _ e).
  - unfold TxContext.logged in *. cbn [mbind list_bind]. rewrite fmap_app, <- IH2. f_equal. destruct e; try done. cbn in *.
    clear -He. induction He as [|r l [Hr _] _ IH]; [done|]. cbn. by rewrite Hr, IH.
  - cbn. by rewrite IH3.
Qed.

Lemma tm_outputs n y evs :
  let ev := map (fun e => TmEvent e y) evs in
  omap (msg_of n) ev = (fun m => (y, m)) <$> omap TwoPhase.tm_msg evs ∧
  ev ≫= log_of n = (fun t => (n, y, t)) <$> TmStamp.written evs ∧
  omap answer_of ev = (fun ec => (y, ec)) <$> omap TwoPhase.tm_answer evs.
Proof.
  cbv zeta. induction evs as [|e evs (IH1&IH2&IH3)]; [done|]. cbn [map]. split_and!.
  - cbn. rewrite IH1. by destruct (TwoPhase.tm_msg e).
  - unfold TmStamp.written in *. cbn [mbind list_bind omap list_omap]. rewrite IH2. by destruct e.
  - cbn. rewrite IH3. by destruct e.
Qed.



Lemma perform_ctx n y c ts h g w w' b :
  sound w → blocks w !! n = Some b → v_ctx (view y b) = Some c →
  guards (CtxStamp.stamp y) (CtxStamp.stamp_event y) h → ran_ctx y c ts h b (g b) → perform n g w = Some w' →
  change w w' n y b (g b).1 (ctx_msgs n y (h c).2) (ctx_logs n y (h c).2) [] ∧ flushed w' = flushed w ∧
  CtxStamp.stamp y (h c).1.
Proof.
  intros Hs Hb Hc Hh [R1 R2 R3 R4] Hp. rewrite (perform_some _ _ _ _ Hb) in Hp. injection Hp as <-.
  pose proof (ov_ctx _ _ _ (s_view _ Hs _ _ y Hb) _ Hc) as Hst. destruct (Hh c Hst) as [Hst' Hev].
  rewrite R2, (proj1 Hst). destruct (ctx_outputs n y (h c).2 Hev) as (->&->&->).
  split_and!; [|done|done]. constructor; try done.
  - intros p (m&->&Hm)%list_elem_of_fmap. split; [done|]. apply list_elem_of_omap in Hm as (e&_&He). by destruct e; cbn in He; simplify_eq.
  - by intros l (t&->&_)%list_elem_of_fmap.
  - by intros a ?%elem_of_nil.
Qed.

Lemma perform_tm n y c ts h g w w' b :
  sound w → blocks w !! n = Some b → v_tm (view y b) = Some c →
  TmStamp.orderly h → ran_tm y c ts h b (g b) → perform n g w = Some w' →
  change w w' n y b (g b).1 (tm_msgs y (h c).2) (tm_logs n y (h c).2) (tm_answers y (h c).2) ∧ flushed w' = flushed w ∧
  TmStamp.sign y n (h c).1.
Proof.
  intros Hs Hb Hc Hh [R1 R2 R3 R4] Hp. rewrite (perform_some _ _ _ _ Hb) in Hp. injection Hp as <-.
  destruct (ov_tm _ _ _ (s_view _ Hs _ _ y Hb) _ Hc) as [[Hx Hn] _]. destruct (Hh c) as [Hsg Hev _ _ _]. rewrite Hx, Hn in *.
  rewrite R2. destruct (tm_outputs n y (h c).2) as (->&->&->).
  split_and!; [|done|done]. constructor; try done.
  - intros p (m&->&Hm)%list_elem_of_fmap. split; [done|]. apply list_elem_of_omap in Hm as (e&He&Hm).
    rewrite Forall_forall in Hev. specialize (Hev e He). by destruct e; cbn in Hm; simplify_eq.
  - by intros l (t&->&_)%list_elem_of_fmap.
  - by intros a (?&->&_)%list_elem_of_fmap.
Qed.

(** ** The ids stay sound *)

Lemma own_gets_ctx n y t v v' : own_task y t → gets_ctx t v v' → own_view n y v → own_view n y v'.
Proof.
  intros Ht [u|u c Hc] [H1 H2 H3 H4 H5]; [done|]. constructor; simpl; try done; [congruence|].
  apply Forall_app. by split; [|constructor].
Qed.

Lemma own_gets_tm n y t v v' : gets_tm t v v' → own_view n y v → own_view n y v'.
Proof. intros [u|u c Hc] [H1 H2 H3 H4 H5]; [done|]. constructor; simpl; try done. congruence. Qed.

Lemma view_generated w n b y :
  sound w → blocks w !! n = Some b → view y b ≠ empty_view → generated w y.
Proof. intros Hs Hb Hv. by destruct (s_new _ Hs _ _ y Hb). Qed.

Lemma flushed_le w w' n y b b' ms ls ans :
  sound w → change w w' n y b b' ms ls ans → flushed w' = flushed w → ∀ i, i ∈ flushed w' → (i < length (wlog w'))%nat.
Proof. intros Hs Hc -> i Hi%(s_flushed _ Hs). rewrite (ch_log _ _ _ _ _ _ _ _ _ Hc), length_app. lia. Qed.

Lemma gets_ctx_known t v v' : gets_ctx t v v' → v' = v ∨ v ≠ empty_view.
Proof. intros [u|u c Hc]; [by left|right]. by intros ->. Qed.
Lemma gets_tm_known t v v' : gets_tm t v v' → v' = v ∨ v ≠ empty_view.
Proof. intros [u|u c Hc]; [by left|right]. by intros ->. Qed.

Lemma touch_ctx_sound n y t h w w' :
  sound w → perform n h w = Some w' → touches y (gets_ctx t) h → own_task y t → sound w'.
Proof.
  intros Hs Hp Hh Ht. destruct (perform_touches _ _ _ _ _ _ Hh Hp) as (b&Hc&Hf&HR). pose proof (ch_block _ _ _ _ _ _ _ _ _ Hc) as Hb.
  eapply change_sound; [done|done| | |by eapply flushed_le].
  - eapply own_gets_ctx; [done|done|]. by apply s_view with w.
  - destruct (gets_ctx_known _ _ _ HR) as [E|Hne]; [by right|left]. by eapply view_generated.
Qed.

Lemma touch_tm_sound n y t h w w' : sound w → perform n h w = Some w' → touches y (gets_tm t) h → sound w'.
Proof.
  intros Hs Hp Hh. destruct (perform_touches _ _ _ _ _ _ Hh Hp) as (b&Hc&Hf&HR). pose proof (ch_block _ _ _ _ _ _ _ _ _ Hc) as Hb.
  eapply change_sound; [done|done| | |by eapply flushed_le].
  - eapply own_gets_tm; [done|]. by apply s_view with w.
  - destruct (gets_tm_known _ _ _ HR) as [E|Hne]; [by right|left]. by eapply view_generated.
Qed.

Lemma aside_sound n h w w' : sound w → aside h → perform n h w = Some w' → sound w'.
Proof.
  intros Hs Hh Hp. destruct (perform_aside _ _ _ _ Hh Hp) as (b&b'&Hc&Hf&Hv). specialize (Hc 0). pose proof (ch_block _ _ _ _ _ _ _ _ _ Hc) as Hb.
  eapply change_sound; [done|done| |by right|by eapply flushed_le]. rewrite Hv. by apply s_view with w.
Qed.


Lemma ran_ctx_sound n y c ts h g w w' b :
  sound w → blocks w !! n = Some b → v_ctx (view y b) = Some c → ts `suffix_of` v_ctx_tasks (view y b) →
  guards (CtxStamp.stamp y) (CtxStamp.stamp_event y) h → ran_ctx y c ts h b (g b) → perform n g w = Some w' → sound w'.
Proof.
  intros Hs Hb Hc Hts Hh Hr Hp. destruct (perform_ctx _ _ _ _ _ _ _ _ _ Hs Hb Hc Hh Hr Hp) as (Hch&Hf&Hst).
  eapply change_sound; [done|done| | |by eapply flushed_le].
  - rewrite (rc_view _ _ _ _ _ _ Hr). destruct (s_view _ Hs _ _ y Hb) as [H1 H2 H3 H4 H5]. constructor; simpl; try done; [by intros ? [= <-]|].
    destruct Hts as [k Hk]. rewrite Hk in H3. by apply Forall_app in H3 as [_ ?].
  - left. eapply view_generated; [done|done|]. intros E. by rewrite E in Hc.
Qed.

Lemma ran_tm_sound n y c ts h g w w' b :
  sound w → blocks w !! n = Some b → v_tm (view y b) = Some c → TmStamp.orderly h → ran_tm y c ts h b (g b) →
  perform n g w = Some w' → sound w'.
Proof.
  intros Hs Hb Hc Hh Hr Hp. destruct (perform_tm _ _ _ _ _ _ _ _ _ Hs Hb Hc Hh Hr Hp) as (Hch&Hf&Hst).
  eapply change_sound; [done|done| | |by eapply flushed_le].
  - rewrite (rt_view _ _ _ _ _ _ Hr). destruct (s_view _ Hs _ _ y Hb) as [H1 H2 H3 H4 H5]. constructor; simpl; try done.
    intros ? [= <-]. split; [done|]. by destruct (H4 _ Hc).
  - left. eapply view_generated; [done|done|]. intros E. by rewrite E in Hc.
Qed.

Lemma own_new_context n q v v' : new_context q n v v' → own_view n (req_xid q) v → own_view n (req_xid q) v'.
Proof.
  intros [u|u dsb s2n cno Hc] [H1 H2 H3 H4 H5]; [done|]. constructor; simpl; try done.
  - intros c [= <-]. split; [done|simpl; lia].
  - apply Forall_app. by split; [|repeat constructor].
Qed.

(** What [makes_context] changes. *)
Lemma makes_change n q h w w' b :
  blocks w !! n = Some b → makes_context q b (h b) → perform n h w = Some w' →
  change w w' n (req_xid q) b (h b).1 [] [] [] ∧ flushed w' = flushed w.
Proof.
  intros Hb (Hs&He&Ho&Hn) Hp. rewrite (perform_some _ _ _ _ Hb) in Hp. injection Hp as <-.
  destruct (silent_outputs n _ He) as (->&->&->).
  split; [|done]. by constructor; try done; cbn; rewrite ?app_nil_r; try done; intros ? ?%elem_of_nil.
Qed.

Lemma makes_sound n q h w w' b :
  sound w → blocks w !! n = Some b → generated w (req_xid q) → makes_context q b (h b) → perform n h w = Some w' → sound w'.
Proof.
  intros Hs Hb Hg Hm Hp. destruct (makes_change _ _ _ _ _ _ Hb Hm Hp) as [Hch Hf]. destruct Hm as (_&_&_&Hn).
  rewrite (proj1 (s_block _ Hs _ _ Hb)) in Hn.
  eapply change_sound; [done|done| |by left|by eapply flushed_le]. eapply own_new_context; [done|]. by apply s_view with w.
Qed.

(** ** A new id *)

Definition renumbered (w : world) (n : Z) (b1 : cc_block) : world :=
  mk_world (<[n := b1]> (blocks w)) (net w) (wlog w) (flushed w) (answers w).

Lemma renumber n w b t xid b1 :
  sound w → blocks w !! n = Some b → home t = n → fits 32 t → sequence_ b + 1 < 2 ^ 32 → gen_xid t b = (xid, b1) →
  sound (renumbered w n b1) ∧ generated (renumbered w n b1) xid ∧ ¬ generated w xid ∧ home (xid_to_terminal_id xid) = n ∧
  (∀ x, view x b1 = view x b) ∧ node_id_ b1 = node_id_ b ∧ rg_lead_ b1 = rg_lead_ b.
Proof.
  intros Hs Hb Hh Ht Hn [= <- <-]. destruct (s_block _ Hs _ _ Hb) as (Hnode&Hseq&Hlen&Hlead).
  set (seq := u32 (sequence_ b + 1)). assert (seq = sequence_ b + 1) as Es by (apply wrap_small; unfold fits; lia).
  assert (fits 32 seq) as Hsf by (unfold fits; lia). pose proof (xid_terminal _ _ Hsf Ht) as Et. pose proof (xid_sequence _ _ Hsf Ht) as Eq.
  set (b1 := b <| sequence_ := seq |>).
  assert (∀ x, generated w x → generated (renumbered w n b1) x) as Hg by (intros x; eapply generated_mono; [done|done|simpl; lia]).
  split_and!; [| | |by rewrite Et|done|done|done].
  - destruct Hs as [H1 H2 H3 H4 H5 H6 H7]. constructor; cbn [renumbered net wlog flushed answers].
    + intros m c. cbn. destruct (decide (m = n)) as [->|?]; [rewrite lookup_insert_eq|rewrite lookup_insert_ne by done; apply H1].
      intros [= <-]. split_and!; try done; simpl; lia.
    + intros m c x. cbn. destruct (decide (m = n)) as [->|?]; [rewrite lookup_insert_eq|rewrite lookup_insert_ne by done; apply H2].
      intros [= <-]. exact (H2 _ _ x Hb).
    + intros m c x. cbn. destruct (decide (m = n)) as [->|?]; [rewrite lookup_insert_eq; intros [= <-]|rewrite lookup_insert_ne by done; intros Hc].
      * destruct (H3 _ _ x Hb); auto.
      * destruct (H3 _ _ x Hc); auto.
    + intros p Hp. destruct (H4 _ Hp). auto.
    + intros m x ty Hl. by eapply Hg, H5.
    + intros x ec Ha. by eapply Hg, H6.
    + done.
  - exists b1. rewrite Et, Eq, Hh. cbn. rewrite lookup_insert_eq. split; [done|]. simpl. lia.
  - intros (b0&Hb0&Hle). rewrite Et, Eq, Hh, Hb in *. simplify_eq. lia.
Qed.


(** The outputs of a handler after calls that are the block's own. *)
Lemma outputs_app n ev0 ev : Forall block_event ev0 →
  omap (msg_of n) (ev0 ++ ev) = omap (msg_of n) ev ∧ (ev0 ++ ev) ≫= log_of n = ev ≫= log_of n ∧
  omap answer_of (ev0 ++ ev) = omap answer_of ev.
Proof. intros (E1&E2&E3)%(silent_outputs n). by rewrite !omap_app, bind_app, E1, E2, E3. Qed.

(** A new transaction: a coordinator with its first calls, or a context, or
    nothing when the tables have no room for it. *)
Inductive new_tx (n : Z) (lead : gmap Z Z) (xid : Z) : tx_view → list (Z * msg) → list (Z * Z * tx_cmd_type) → list (Z * EC) → Prop :=
| new_local v : v_tm v = None → own_view n xid v → new_tx n lead xid v [] [] []
| new_distributed q res c ev :
    req_operations q ≠ [] →
    TxCoordinator.handle_tx_request q (TxCoordinator.new_tm xid n lead) = (res, c, ev) →
    new_tx n lead xid (mk_view None [] (Some c) []) (tm_msgs xid ev) (tm_logs n xid ev) (tm_answers xid ev).

Lemma new_tx_own n lead xid v ms ls ans : home (xid_to_terminal_id xid) = n →
  new_tx n lead xid v ms ls ans →
  own_view n xid v ∧ (∀ p, p ∈ ms → p.1 = xid ∧ own_msg p) ∧ (∀ l, l ∈ ls → l.1 = (n, xid)) ∧ (∀ a, a ∈ ans → a.1 = xid).
Proof.
  intros Hh [u Hu Ho|q res c ev Hq E].
  - split_and!; [done|..]; by intros ? ?%elem_of_nil.
  - pose proof (TmStamp.orderly_request q (TxCoordinator.new_tm xid n lead)) as [[Hx Hn] He _ _ _]. rewrite E in *. cbn in Hx, Hn, He.
    split_and!.
    + constructor; simpl; try done. by intros ? [= <-].
    + intros p (m&->&Hm)%list_elem_of_fmap. split; [done|]. apply list_elem_of_omap in Hm as (e&Hin&Hm).
      rewrite Forall_forall in He. specialize (He e Hin). by destruct e; cbn in Hm; simplify_eq.
    + by intros l (t&->&_)%list_elem_of_fmap.
    + by intros a (?&->&_)%list_elem_of_fmap.
Qed.

Lemma create_new_tx n q xid b b1 ev0 :
  view xid b1 = empty_view → node_id_ b1 = n → rg_lead_ b1 = rg_lead_ b → length (tx_coordinator_ b1) = length (tx_context_ b1) →
  req_operations q ≠ [] → req_xid q = xid → Forall block_event ev0 →
  let r := (if req_distributed q then create_tx_coordinator q else create_tx_context q) b1 in
  same_shape b1 r.1 ∧ (∀ x, x ≠ xid → view x r.1 = view x b1) ∧
  new_tx n (rg_lead_ b) xid (view xid r.1) (omap (msg_of n) (ev0 ++ r.2)) ((ev0 ++ r.2) ≫= log_of n) (omap answer_of (ev0 ++ r.2)).
Proof.
  intros Hv Hn Hl Hlen Hq <- He0. cbv zeta.
  assert (own_view n (req_xid q) empty_view) as Ho by by constructor; simpl; repeat constructor.
  match goal with |- context [ev0 ++ ?r.2] => set (r' := r) end. destruct (outputs_app n ev0 r'.2 He0) as (->&->&->). unfold r'. clear r'.
  destruct (req_distributed q).
  - destruct (create_tx_coordinator_touches q b1 Hlen) as (Hs&Hx&[[E He]|(res&c&ev&_&E&Ev&Ee)]); (split_and!; [done|done|]).
    + destruct (silent_outputs n _ He) as (->&->&->). apply new_local; by rewrite E, Hv.
    + rewrite Ee, Ev, Hv. destruct (tm_outputs n (req_xid q) ev) as (->&->&->). rewrite Hn, Hl in E. by eapply new_distributed.
  - destruct (create_tx_context_makes q b1) as (Hs&He&Hx&Hc). split_and!; [done|done|].
    destruct (silent_outputs n _ He) as (->&->&->). rewrite Hn, Hv in Hc. apply new_local; [|by eapply own_new_context].
    by inversion Hc.
Qed.

Lemma client_step n conn req w w' :
  sound w → exec (Client n conn req) w = Some w' →
  (∃ b b', (∀ y, change w w' n y b b' [] [] []) ∧ flushed w' = flushed w ∧ ∀ x, view x b' = view x b) ∨
  ∃ b xid b1 b' ms ls ans, blocks w !! n = Some b ∧ sound (renumbered w n b1) ∧ generated (renumbered w n b1) xid ∧
    ¬ generated w xid ∧ home (xid_to_terminal_id xid) = n ∧ (∀ x, view x b1 = view x b) ∧
    change (renumbered w n b1) w' n xid b1 b' ms ls ans ∧ flushed w' = flushed w ∧
    new_tx n (rg_lead_ b) xid (view xid b') ms ls ans.
Proof.
  intros Hs He. cbn in He. destruct (blocks w !! n) as [b|] eqn:Hb; [|done]. cbn in He. case_decide as Hg; [|done].
  destruct Hg as (Hh&Ht&Hn). rewrite (perform_some _ _ _ _ Hb) in He. injection He as <-.
  destruct (client_cases conn req b) as [(Hsh&Hev&Hv)|(xid&b1&ev0&Hops&Hgen&He0&Hr)]; [left|right].
  - exists b, (handle_client_tx_request conn req b).1. destruct (silent_outputs n _ Hev) as (E1&E2&E3). split_and!; [|done|done].
    intros y. constructor; try done; cbn; rewrite ?E1, ?E2, ?E3, ?app_nil_r; try done; by intros ? ?%elem_of_nil.
  - destruct (renumber n w b _ xid b1 Hs Hb Hh Ht Hn Hgen) as (Hs1&Hg1&Hng&Hh1&Hv1&Hn1&Hl1).
    assert (view xid b1 = empty_view) as Hv0. { rewrite Hv1. by destruct (s_new _ Hs _ _ xid Hb). }
    assert (blocks (renumbered w n b1) !! n = Some b1) as Hb1 by (cbn; apply lookup_insert_eq).
    destruct (s_block _ Hs1 _ _ Hb1) as (Hn2&_&Hlen&_).
    destruct (create_new_tx n (req <| req_xid := xid |>) xid b b1 ev0) as (Hsh&Hx&Htx); [done..|].
    cbn [ccb_handle_message]. rewrite Hr. cbn [fst snd].
    destruct (new_tx_own _ _ _ _ _ _ _ Hh1 Htx) as (_&Hms&Hls&Hans).
    exists b, xid, b1. do 4 eexists. split_and!; [done|done|done|done|done|done| |done|exact Htx].
    constructor; try done. cbn. by rewrite insert_insert_eq.
Qed.

(** ** All steps *)

Lemma flush_sound w i : sound w → (i < length (wlog w))%nat →
  sound (mk_world (blocks w) (net w) (wlog w) ({[i]} ∪ flushed w) (answers w)).
Proof. intros [H1 H2 H3 H4 H5 H6 H7] Hi. constructor; try done. cbn. intros j [->%elem_of_singleton|?]%elem_of_union; auto. Qed.

Lemma client_sound n conn req w w' : sound w → exec (Client n conn req) w = Some w' → sound w'.
Proof.
  intros Hs He. destruct (client_step _ _ _ _ _ Hs He) as [(b&b'&Hc&Hf&Hv)|(b&xid&b1&b'&ms&ls&ans&Hb&Hs1&Hg&_&Hh&Hv&Hc&Hf&Hn)].
  - specialize (Hc 0). eapply change_sound; [done|done| |by right|by eapply flushed_le]. rewrite Hv.
    eapply s_view; [done|by eapply ch_block].
  - eapply change_sound; [done|done| |by left|by eapply flushed_le]. by eapply new_tx_own.
Qed.


Lemma perform_then n g h w : perform n (and_then g h) w = perform n g w ≫= perform n h.
Proof.
  unfold perform. destruct (blocks w !! n) as [b|] eqn:Hb; [|done]. cbn. rewrite and_then_eq. destruct (g b) as [b1 e1]. cbn.
  rewrite lookup_insert_eq. cbn. destruct (h b1) as [b2 e2]. cbn.
  by rewrite !omap_app, bind_app, !app_assoc, insert_insert_eq.
Qed.

Lemma abort_sound n x ec w w' : sound w → perform n (abort_tx x ec) w = Some w' → sound w'.
Proof.
  intros Hs. unfold abort_tx. rewrite perform_then. destruct (perform n (to_context x (CAbort ec)) w) as [w1|] eqn:E1; [|done].
  cbn. intros E2. eapply touch_tm_sound; [|done|apply to_coordinator_touches].
  eapply touch_ctx_sound; [done|done|apply to_context_touches|done].
Qed.

Lemma skip_sound n w w' : sound w → perform n skip w = Some w' → sound w'.
Proof. intros Hs Hp. eapply aside_sound; [done| |done]. intros b. split_and!; [done|constructor|done]. Qed.

Lemma commit_sound n xl w w' : sound w → perform n (commit_record xl) w = Some w' → sound w'.
Proof.
  intros Hs Hp. unfold commit_record in Hp. destruct (log_type xl); try (by eapply skip_sound);
    try (by eapply touch_tm_sound; [done|done|apply to_coordinator_touches]);
    (by eapply touch_ctx_sound; [done|done|apply to_context_touches|]).
Qed.

Lemma deliver_sound n x m st w w' :
  sound w → (x, m) ∈ net w → perform n (ccb_handle_message parse (block_message x m st)) w = Some w' → sound w'.
Proof.
  intros Hs Hm Hp. destruct (s_net _ Hs _ Hm) as [Ho Hg]. destruct m; cbn in Ho, Hg, Hp.
  - subst x. destruct (perform_inv _ _ _ _ Hp) as (b&Hb&_). eapply makes_sound; [done|done|done|apply tm_request_makes|done].
  - eapply touch_ctx_sound; [done|done|apply to_context_touches|done].
  - eapply touch_ctx_sound; [done|done|apply to_context_touches|done].
  - done.
  - eapply touch_tm_sound; [done|done|apply to_coordinator_touches].
  - eapply touch_tm_sound; [done|done|apply to_coordinator_touches].
  - by eapply abort_sound.
Qed.

Lemma run_ctx_sound n x get w w' : sound w → perform n (run_ctx get x) w = Some w' → sound w'.
Proof.
  intros Hs Hp. destruct (perform_inv _ _ _ _ Hp) as (b&Hb&E). destruct (v_ctx_tasks (view x b)) as [|t ts] eqn:Et.
  - rewrite run_ctx_idle in E by done. cbn in E. rewrite insert_id, !app_nil_r in E by done. by destruct w; subst.
  - destruct (v_ctx (view x b)) as [c|] eqn:Ec; [|by rewrite (ov_ctx_tasks _ _ _ (s_view _ Hs _ _ x Hb)) in Et].
    eapply ran_ctx_sound; [done|done|done| |apply stamped_task|by eapply run_ctx_ran|done]. rewrite Et. by exists [t].
Qed.

Lemma run_tm_sound n x send_ok w w' : sound w → perform n (run_tm send_ok x) w = Some w' → sound w'.
Proof.
  intros Hs Hp. destruct (perform_inv _ _ _ _ Hp) as (b&Hb&E). destruct (v_tm_tasks (view x b)) as [|t ts] eqn:Et.
  - rewrite run_tm_idle in E by done. cbn in E. rewrite insert_id, !app_nil_r in E by done. by destruct w; subst.
  - destruct (v_tm (view x b)) as [c|] eqn:Ec; [|by rewrite (ov_tm_tasks _ _ _ (s_view _ Hs _ _ x Hb)) in Et].
    eapply ran_tm_sound; [done|done|done|apply orderly_task|by eapply run_tm_ran|done].
Qed.

Lemma at_ctx_none y h b : v_ctx (view y b) = None → at_ctx y h b = (b, []).
Proof. unfold at_ctx. cbn. by intros ->. Qed.

Lemma at_ctx_sound n x h w w' :
  sound w → guards (CtxStamp.stamp x) (CtxStamp.stamp_event x) h → perform n (at_ctx x h) w = Some w' → sound w'.
Proof.
  intros Hs Hh Hp. destruct (perform_inv _ _ _ _ Hp) as (b&Hb&E). destruct (v_ctx (view x b)) as [c|] eqn:Ec.
  - eapply ran_ctx_sound; [done|done|done|done|done|by apply at_ctx_ran|done].
  - rewrite at_ctx_none in E by done. cbn in E. rewrite insert_id, !app_nil_r in E by done. by destruct w; subst.
Qed.

Lemma step_sound w w' : sound w → step w w' → sound w'.
Proof.
  intros Hs [l Hl]. destruct l; cbn [exec] in Hl.
  - by eapply client_sound.
  - case_decide as Hg; [|done]. destruct Hg. by eapply deliver_sound.
  - destruct (wlog w !! i) as [[[n x] t]|] eqn:Ei; [|done]. cbn in Hl. case_decide; [|done].
    eapply commit_sound; [|done]. apply flush_sound; [done|]. by eapply lookup_lt_Some.
  - case_decide; [|done]. by eapply abort_sound.
  - eapply touch_ctx_sound; [done|done|apply to_context_touches|done].
  - by eapply run_ctx_sound.
  - by eapply run_tm_sound.
  - destruct (blocks w !! n) as [b|]; [|done]. cbn in Hl. case_test; [done|]. eapply at_ctx_sound; [done|apply CtxStamp.stamped_lock|done].
  - destruct (blocks w !! n) as [b|]; [|done]. cbn in Hl. case_test; [done|]. eapply at_ctx_sound; [done|apply CtxStamp.stamped_run_strand|done].
  - eapply aside_sound; [done|apply send_register_aside|done].
  - case_test; [|done]. eapply aside_sound; [done|by apply admin_aside|done].
Qed.

Lemma find_in_empty {V} x k : find_in x (replicate k (∅ : gmap Z V)) = None.
Proof. unfold find_in, HashTable.find. destruct (replicate k ∅ !! table_of x) as [t|] eqn:E; [|done]. by apply lookup_replicate in E as [-> _]. Qed.

Lemma new_block_view x n rlb shards lead k : view x (new_block n rlb shards lead k) = empty_view.
Proof. unfold view, new_block. simpl. by rewrite !find_in_empty, !lookup_empty. Qed.

Lemma initial_sound w : initial w → sound w.
Proof.
  intros (Hn&Hl&Hf&Ha&Hb). constructor.
  - intros n b (rlb&sh&lead&k&->&Hlead)%Hb. simpl. rewrite !length_replicate. split_and!; try done; lia.
  - intros n b x (rlb&sh&lead&k&->&_)%Hb. rewrite new_block_view. by constructor; simpl; repeat constructor.
  - intros n b x (rlb&sh&lead&k&->&_)%Hb. left. apply new_block_view.
  - rewrite Hn. by intros p ?%elem_of_nil.
  - rewrite Hl. by intros n x t ?%elem_of_nil.
  - rewrite Ha. by intros x ec ?%elem_of_nil.
  - rewrite Hf. set_solver.
Qed.

(** C14: every reachable state of the blocks is well-formed.  Each block is at the
    place of its id, its sequence number has 32 bits, and the leaders it knows
    have the shards they lead in their ids.  The context and the coordinator a
    block keeps under an id, with all that waits on their strands, are of that
    transaction, and the coordinator is at the node of its terminal.  Every
    transaction that a block, a message, a log record or an answer names was
    numbered by the block of its terminal. *)
Theorem blocks_well_formed w : reachable w → sound w.
Proof.
  intros (w0&Hi&Hs). apply initial_sound in Hi. induction Hs as [|w0 w1 w2 H01 _ IH]; [done|].
  apply IH. by eapply step_sound.
Qed.

End system.
End Blocks.
