(* ===== verification/Simulation.v ===== *)
(** * Each transaction on the blocks runs two-phase commit

    The relation [sim] between the state of all blocks ([Blocks.world]) and the
    state of [TwoPhase] for one distributed transaction: the same coordinator
    and contexts, the same records and answers, and only messages [TwoPhase] has
    sent too.  A closure on a strand stands for a message or a log record that
    [TwoPhase] still has to handle; the context of a request that has not run
    yet does not exist there.

    - [blocks_atomic]: with any number of transactions in progress on the blocks,
      each distributed transaction is atomic: what its participants have logged
      and its client was told are a reachable state of [TwoPhase], so that no
      participant commits what another aborts, and a client that was told success
      has the commit logged by every participant. *)

From S2P Require Import Prelude Common.
From S2P Require Import LockMgr TxContext TxCoordinator TxStamp TwoPhase AtomicCommit CcBlock Blocks.
#[local] Open Scope Z_scope.

Module Simulation.
Import CcBlock.CcBlock Blocks.Blocks.
Import (hints) TwoPhase.
Import TwoPhase(msg, MRequest, MCommit, MAbort, MEnd, MPrepare, MAck, MVictim, sys, mk_rm, mk_wal, appended, durable, rms, resp, tm, tm_wal, rm_ctx, rm_wal).

Section simulation.
Context (home : Z → Z) (parse : list Z → option tx_log).
Abbreviation sound := (sound home).
Abbreviation step := (step home parse).
Abbreviation exec := (exec home parse).

(** ** The relation *)

(** A record of [x] was handed back to node [n]. *)
Definition returned (w : world) (n x : Z) (t : tx_cmd_type) : Prop :=
  ∃ i, i ∈ flushed w ∧ wlog w !! i = Some (n, x, t).

Definition ctx_log_tasks (ts : list ctx_task) : list tx_cmd_type := omap (fun t => match t with CLog t => Some t | _ => None end) ts.
Definition tm_log_tasks (ts : list tm_task) : list tx_cmd_type := omap (fun t => match t with TLog t => Some t | _ => None end) ts.

(** The records handed back ([ret]) are those handled ([dur]) and those whose
    closure is on the strand ([q]), each once. *)
Record queue_ok (ret : tx_cmd_type → Prop) (dur q : list tx_cmd_type) : Prop := mk_queue {
  q_nodup : NoDup q;
  q_ret : ∀ t, t ∈ q → ret t;
  q_new : ∀ t, t ∈ q → t ∉ dur;
  q_dur : ∀ t, t ∈ dur → ret t;
}.

Definition tm_task_ok (s : sys) (n : Z) (t : tm_task) : Prop :=
  match t with
  | TLog t => is_tm t = true
  | TPrepare rg b _ => MPrepare n rg b ∈ TwoPhase.net s
  | TAck rg b => MAck n rg b ∈ TwoPhase.net s
  | TAbort ec => ec ≠ EC_OK
  end.

Definition ctx_task_ok (s : sys) (n x : Z) (t : ctx_task) : Prop :=
  match t with
  | CProcess _ | CEnded => False
  | CLog t => is_tm t = false
  | CTmCommit y => y = x ∧ MCommit n ∈ TwoPhase.net s
  | CTmAbort y => y = x ∧ MAbort n ∈ TwoPhase.net s
  | CRead _ | CAbort _ => True
  end.

Definition rm_logs (w : world) (n x : Z) (l : list tx_cmd_type) : Prop :=
  ∀ t, is_tm t = false → (n, x, t) ∈ wlog w ↔ t ∈ l.

(** A participant: it runs, or its request waits on the strand, or the block has
    not heard of it. *)
Inductive rm_sim (w : world) (x n : Z) (s : sys) (v : tx_view) : Prop :=
| rm_runs r : rms s !! n = Some r → v_ctx v = Some (rm_ctx r) → Forall (ctx_task_ok s n x) (v_ctx_tasks v) →
    queue_ok (returned w n x) (durable (rm_wal r)) (ctx_log_tasks (v_ctx_tasks v)) → rm_logs w n x (appended (rm_wal r)) →
    rm_sim w x n s v
| rm_starts q dsb shard2node cno ts : rms s !! n = None →
    v_ctx v = Some (TxContext.new_ctx x n dsb shard2node cno (req_distributed q) true) →
    v_ctx_tasks v = CProcess q :: ts → Forall (ctx_task_ok s n x) ts → ctx_log_tasks ts = [] →
    MRequest n q ∈ TwoPhase.net s → req_xid q = x → rm_logs w n x [] → rm_sim w x n s v
| rm_unknown : rms s !! n = None → v_ctx v = None → rm_logs w n x [] → rm_sim w x n s v.

Record tm_sim (w : world) (x n : Z) (s : sys) (v : tx_view) : Prop := mk_tm_sim {
  t_tm : v_tm v = Some (tm s);
  t_tasks : Forall (tm_task_ok s n) (v_tm_tasks v);
  t_queue : queue_ok (returned w n x) (durable (tm_wal s)) (tm_log_tasks (v_tm_tasks v));
}.

Record sim (w : world) (x n0 : Z) (s : sys) : Prop := mk_sim {
  m_tm : ∃ b, blocks w !! n0 = Some b ∧ tm_sim w x n0 s (view x b);
  m_rm : ∀ n b, blocks w !! n = Some b → rm_sim w x n s (view x b);
  m_no : ∀ n, blocks w !! n = None → rms s !! n = None ∧ rm_logs w n x [];
  m_net : ∀ m, (x, m) ∈ net w → m ∈ TwoPhase.net s;
  m_answers : ∀ ec, (x, ec) ∈ answers w ↔ ec ∈ resp s;
  m_log : ∀ n t, is_tm t = true → (n, x, t) ∈ wlog w ↔ n = n0 ∧ t ∈ appended (tm_wal s);
  m_flags : ∀ t, t ∈ appended (tm_wal s) → TmStamp.flag t (tm s) = true;
  m_once : ∀ i j n t, wlog w !! i = Some (n, x, t) → wlog w !! j = Some (n, x, t) → i = j;
}.

(** ** Steps of other transactions *)

(** The two worlds look the same to transaction [x]. *)
Record same_for (x : Z) (w w' : world) : Prop := mk_same {
  e_view : ∀ n, view x <$> blocks w' !! n = view x <$> blocks w !! n;
  e_net : ∀ m, (x, m) ∈ net w' ↔ (x, m) ∈ net w;
  e_answers : ∀ ec, (x, ec) ∈ answers w' ↔ (x, ec) ∈ answers w;
  e_log : ∀ i n t, wlog w' !! i = Some (n, x, t) ↔ wlog w !! i = Some (n, x, t);
  e_flushed : ∀ i n t, wlog w !! i = Some (n, x, t) → i ∈ flushed w' ↔ i ∈ flushed w;
}.

Lemma same_log x w w' n t : same_for x w w' → (n, x, t) ∈ wlog w' ↔ (n, x, t) ∈ wlog w.
Proof. intros He. rewrite !list_elem_of_lookup. split; intros [i Hi]; exists i; by apply (e_log _ _ _ He). Qed.

Lemma same_returned x w w' n t : same_for x w w' → returned w' n x t ↔ returned w n x t.
Proof.
  intros He. split; intros (i&Hi&Hl).
  - apply (e_log _ _ _ He) in Hl. exists i. split; [|done]. by apply (e_flushed _ _ _ He _ _ _ Hl).
  - exists i. split; [by apply (e_flushed _ _ _ He _ _ _ Hl)|by apply (e_log _ _ _ He)].
Qed.

Lemma queue_ret (ret ret' : tx_cmd_type → Prop) dur q : (∀ t, ret t → ret' t) → queue_ok ret dur q → queue_ok ret' dur q.
Proof. intros Hr []. constructor; auto. Qed.

Lemma rm_sim_world w w' x n s v :
  (∀ t, (n, x, t) ∈ wlog w' ↔ (n, x, t) ∈ wlog w) → (∀ t, returned w n x t → returned w' n x t) →
  rm_sim w x n s v → rm_sim w' x n s v.
Proof.
  intros Hl Hr. assert (∀ l, rm_logs w n x l → rm_logs w' n x l) as HL by (intros l Hlg t Ht; rewrite Hl; auto).
  intros [r ? ? ? Hq ?|q ? ? ? ? ? ? ? ? ? ? ? ?|]; [eapply rm_runs|eapply rm_starts|apply rm_unknown]; eauto.
  by eapply queue_ret.
Qed.

Lemma tm_sim_world w w' x n s v : (∀ t, returned w n x t → returned w' n x t) → tm_sim w x n s v → tm_sim w' x n s v.
Proof. intros Hr []. constructor; [done|done|]. by eapply queue_ret. Qed.

Lemma sim_same w w' x n0 s : same_for x w w' → sim w x n0 s → sim w' x n0 s.
Proof.
  intros He [(b&Hb&Ht) Hrm Hno Hnet Hans Hlog Hfl Honce].
  assert (∀ n t, returned w n x t → returned w' n x t) as Hr by (intros; by apply (same_returned _ _ _ _ _ He)).
  constructor; try done.
  - pose proof (e_view _ _ _ He n0) as E. rewrite Hb in E. destruct (blocks w' !! n0) as [b'|]; [|done]. apply (inj Some) in E.
    exists b'. split; [done|]. rewrite E. by eapply tm_sim_world; [intros; apply Hr|].
  - intros n b' Hb'. pose proof (e_view _ _ _ He n) as E. rewrite Hb' in E. destruct (blocks w !! n) as [b0|] eqn:Hb0; [|done].
    apply (inj Some) in E. rewrite E. eapply rm_sim_world; [intros; by apply same_log|intros; by apply Hr|by apply Hrm].
  - intros n Hn. pose proof (e_view _ _ _ He n) as E. rewrite Hn in E. destruct (blocks w !! n) eqn:Hb0; [done|].
    destruct (Hno n Hb0) as [? Hlg]. split; [done|]. intros t ?. rewrite same_log by done. auto.
  - intros m Hm. by apply Hnet, (e_net _ _ _ He).
  - intros ec. by rewrite (e_answers _ _ _ He).
  - intros n t ?. rewrite same_log by done. auto.
  - intros i j n t. rewrite !(e_log _ _ _ He). apply Honce.
Qed.

Lemma change_same w w' n y x b b' ms ls ans :
  change w w' n y b b' ms ls ans → x ≠ y → flushed w' = flushed w → same_for x w w'.
Proof.
  intros [Hb Hw Hsh Ho Hn Hms Hl Hls Ha Has] Hxy Hf. constructor.
  - intros m. rewrite Hw. destruct (decide (m = n)) as [->|?]; [rewrite lookup_insert_eq, Hb|by rewrite lookup_insert_ne].
    cbn. by rewrite Ho.
  - intros m. rewrite Hn, elem_of_app. split; [|by left]. intros [?|Hin%Hms]; [done|]. by destruct Hin as [<- _].
  - intros ec. rewrite Ha, elem_of_app. split; [|by left]. intros [?|Hin%Has]; [done|]. by subst.
  - intros i m t. rewrite Hl. split; intros Hi; [|by apply lookup_app_l_Some].
    apply lookup_app_Some in Hi as [?|[_ Hi]]; [done|]. apply list_elem_of_lookup_2, Hls in Hi. cbn in Hi. simplify_eq.
  - by rewrite Hf.
Qed.

(** ** Closures posted to the transaction's strands *)

(** Block [n]'s view of [x] changes, and nothing is sent. *)
Lemma sim_view w w' x n0 s n b b' :
  sim w x n0 s → change w w' n x b b' [] [] [] → flushed w ⊆ flushed w' →
  rm_sim w' x n s (view x b') → (n = n0 → tm_sim w' x n0 s (view x b')) → sim w' x n0 s.
Proof.
  intros [(b0&Hb0&Ht) Hrm Hno Hnet Hans Hlog Hfl Honce] [Hb Hw Hsh Ho Hn Hms Hl Hls Ha Has] Hf Hr Htm.
  rewrite app_nil_r in Hn, Hl, Ha.
  assert (∀ m t, returned w m x t → returned w' m x t) as Hret.
  { intros m t (i&Hi&Hl'). exists i. rewrite Hl. auto. }
  constructor; try (by rewrite ?Hn, ?Hl, ?Ha).
  - destruct (decide (n = n0)) as [->|Hne].
    + exists b'. rewrite Hw, lookup_insert_eq. auto.
    + exists b0. rewrite Hw, lookup_insert_ne by done. split; [done|]. by eapply tm_sim_world; [intros; apply Hret|].
  - intros m c. rewrite Hw. destruct (decide (m = n)) as [->|Hne].
    + rewrite lookup_insert_eq. by intros [= <-].
    + rewrite lookup_insert_ne by done. intros Hc. eapply rm_sim_world; [|intros; by apply Hret|by apply Hrm].
      intros t. by rewrite Hl.
  - intros m Hm. rewrite Hw in Hm. apply lookup_insert_None in Hm as [Hm ?]. destruct (Hno m Hm) as [? HL].
    split; [done|]. intros t. rewrite Hl. apply HL.
Qed.

(** Which queue a posted closure goes to. *)
Lemma rm_sim_post w x n s v v' t :
  ctx_task_ok s n x t → (∀ u, t ≠ CLog u) → gets_ctx t v v' → rm_sim w x n s v → rm_sim w x n s v'.
Proof.
  intros Ht Hnl [u|u c Hc] Hs; [done|].
  assert (∀ ts, ctx_log_tasks (ts ++ [t]) = ctx_log_tasks ts) as Hq.
  { intros ts. unfold ctx_log_tasks. rewrite omap_app. cbn. destruct t; rewrite ?app_nil_r; try done. by destruct (Hnl type). }
  destruct Hs as [r H1 H2 H3 H4 H5|q dsb s2n cno ts H1 H2 H3 H4 H5 H6 H7 H8|H1 H2 H3].
  - eapply rm_runs; simpl; [done|done| |by rewrite Hq|done]. apply Forall_app. by split; [|constructor].
  - eapply rm_starts; simpl; [done|done|by rewrite H3| |by rewrite Hq|done|done|done]. apply Forall_app. by split; [|constructor].
  - congruence.
Qed.

Lemma rm_sim_tm w x n s v v' : v_ctx v' = v_ctx v → v_ctx_tasks v' = v_ctx_tasks v → rm_sim w x n s v → rm_sim w x n s v'.
Proof.
  intros E1 E2 [r ? ? ? ? ?|q ? ? ? ? ? ? ? ? ? ? ? ?|]; [eapply rm_runs|eapply rm_starts|apply rm_unknown]; rewrite ?E1, ?E2; done.
Qed.

Lemma gets_ctx_tm t v v' : gets_ctx t v v' → v_tm v' = v_tm v ∧ v_tm_tasks v' = v_tm_tasks v.
Proof. by intros []. Qed.
Lemma gets_tm_ctx t v v' : gets_tm t v v' → v_ctx v' = v_ctx v ∧ v_ctx_tasks v' = v_ctx_tasks v.
Proof. by intros []. Qed.

Lemma tm_sim_ctx w x n s v v' : v_tm v' = v_tm v → v_tm_tasks v' = v_tm_tasks v → tm_sim w x n s v → tm_sim w x n s v'.
Proof. intros E1 E2 []. constructor; by rewrite ?E1, ?E2. Qed.

Lemma tm_sim_post w x n s v v' t :
  tm_task_ok s n t → (∀ u, t ≠ TLog u) → gets_tm t v v' → tm_sim w x n s v → tm_sim w x n s v'.
Proof.
  intros Ht Hnl [u|u c Hc] [H1 H2 H3]; [done|].
  constructor; simpl; [done|apply Forall_app; by split; [|constructor]|].
  unfold tm_log_tasks. rewrite omap_app. cbn. destruct t; rewrite ?app_nil_r; try done. by destruct (Hnl type).
Qed.

Lemma same_tm w x n0 s b : sim w x n0 s → blocks w !! n0 = Some b → tm_sim w x n0 s (view x b).
Proof. intros [(b0&Hb0&Ht) _ _ _ _ _ _ _] Hb. by simplify_eq. Qed.

Lemma touch_ctx_sim w w' x n0 s n t h :
  sim w x n0 s → perform n h w = Some w' → touches x (gets_ctx t) h → ctx_task_ok s n x t → (∀ u, t ≠ CLog u) → sim w' x n0 s.
Proof.
  intros Hs Hp Hh Ht Hnl. destruct (perform_touches _ _ _ _ _ _ Hh Hp) as (b&Hc&Hf&HR).
  pose proof (ch_block _ _ _ _ _ _ _ _ _ Hc) as Hb. destruct (gets_ctx_tm _ _ _ HR) as [E1 E2].
  assert (wlog w' = wlog w) as El by (by rewrite (ch_log _ _ _ _ _ _ _ _ _ Hc), app_nil_r).
  assert (∀ m u, returned w m x u → returned w' m x u) as Hr by (intros m u (i&?&?); exists i; by rewrite Hf, El).
  eapply sim_view; [done|done|by rewrite Hf| |intros ->].
  - eapply rm_sim_world; [by intros; rewrite El|intros; by apply Hr|]. eapply rm_sim_post; [done|done|done|]. by apply (m_rm _ _ _ _ Hs).
  - eapply tm_sim_world; [intros; by apply Hr|]. eapply tm_sim_ctx; [done|done|]. by apply same_tm.
Qed.

Lemma touch_tm_sim w w' x n0 s n t h :
  sim w x n0 s → perform n h w = Some w' → touches x (gets_tm t) h → (n = n0 → tm_task_ok s n t) → (∀ u, t ≠ TLog u) → sim w' x n0 s.
Proof.
  intros Hs Hp Hh Ht Hnl. destruct (perform_touches _ _ _ _ _ _ Hh Hp) as (b&Hc&Hf&HR).
  pose proof (ch_block _ _ _ _ _ _ _ _ _ Hc) as Hb. destruct (gets_tm_ctx _ _ _ HR) as [E1 E2].
  assert (wlog w' = wlog w) as El by (by rewrite (ch_log _ _ _ _ _ _ _ _ _ Hc), app_nil_r).
  assert (∀ m u, returned w m x u → returned w' m x u) as Hr by (intros m u (i&?&?); exists i; by rewrite Hf, El).
  eapply sim_view; [done|done|by rewrite Hf| |intros ->].
  - eapply rm_sim_world; [by intros; rewrite El|intros; by apply Hr|]. eapply rm_sim_tm; [done|done|]. by apply (m_rm _ _ _ _ Hs).
  - eapply tm_sim_world; [intros; by apply Hr|]. eapply tm_sim_post; [auto|done|done|]. by apply same_tm.
Qed.

(** What touches no transaction, and what touches another. *)
Lemma aside_sim w w' x n0 s n h : sim w x n0 s → perform n h w = Some w' → aside h → sim w' x n0 s.
Proof.
  intros Hs Hp Hh. destruct (perform_aside _ _ _ _ Hh Hp) as (b&b'&Hc&Hf&Hv).
  eapply sim_same; [|done]. eapply (change_same _ _ n (x + 1)); [apply Hc|lia|done].
Qed.

Lemma touch_other_sim w w' x n0 s n y R h : sim w x n0 s → perform n h w = Some w' → touches y R h → x ≠ y → sim w' x n0 s.
Proof.
  intros Hs Hp Hh Hxy. destruct (perform_touches _ _ _ _ _ _ Hh Hp) as (b&Hc&Hf&_).
  eapply sim_same; [|done]. by eapply change_same.
Qed.

(** ** Records handed back *)

Lemma queue_push (ret ret' : tx_cmd_type → Prop) dur q t :
  queue_ok ret dur q → ¬ ret t → (∀ u, ret u → ret' u) → ret' t → queue_ok ret' dur (q ++ [t]).
Proof.
  intros [H1 H2 H3 H4] Ht Hr Hr'. constructor.
  - apply NoDup_app. split_and!; [done| |apply NoDup_singleton]. intros u Hu ->%list_elem_of_singleton. by apply Ht, H2.
  - intros u [Hu| ->%list_elem_of_singleton]%elem_of_app; auto.
  - intros u [Hu| ->%list_elem_of_singleton]%elem_of_app; auto.
  - auto.
Qed.

Lemma queue_pop ret dur q t : queue_ok ret dur (t :: q) → queue_ok ret (dur ++ [t]) q.
Proof.
  intros [[Ht H1]%NoDup_cons H2 H3 H4]. constructor; [done|..].
  - intros u Hu. apply H2. by right.
  - intros u Hu [Hd| ->%list_elem_of_singleton]%elem_of_app; [|done]. eapply H3; [by right|done].
  - intros u [Hu| ->%list_elem_of_singleton]%elem_of_app; [by apply H4|]. apply H2. by left.
Qed.

Definition flush_at (i : nat) (w : world) : world := mk_world (blocks w) (net w) (wlog w) ({[i]} ∪ flushed w) (answers w).

Lemma flush_other w x n0 s i n y t : wlog w !! i = Some (n, y, t) → x ≠ y → sim w x n0 s → sim (flush_at i w) x n0 s.
Proof.
  intros Hi Hxy. apply sim_same. constructor; try done. cbn. intros j m u Hj. split; [|by set_solver].
  intros [->%elem_of_singleton|?]%elem_of_union; [|done]. rewrite Hi in Hj. by simplify_eq.
Qed.

Lemma commit_tm_sim w w' x n0 s n i t h :
  sim w x n0 s → wlog w !! i = Some (n, x, t) → i ∉ flushed w → is_tm t = true →
  perform n h (flush_at i w) = Some w' → touches x (gets_tm (TLog t)) h → sim w' x n0 s.
Proof.
  intros Hs Hi Hf Ht Hp Hh. destruct (perform_touches _ _ _ _ _ _ Hh Hp) as (b&Hc&Hf'&HR).
  pose proof (ch_block _ _ _ _ _ _ _ _ _ Hc) as Hb. pose proof (ch_log _ _ _ _ _ _ _ _ _ Hc) as El. rewrite app_nil_r in El.
  cbn in Hb, El, Hf'. destruct (gets_tm_ctx _ _ _ HR) as [E1 E2].
  assert (∀ m u, returned w m x u → returned w' m x u) as Hr.
  { intros m u (j&?&?). exists j. rewrite Hf', El. set_solver. }
  assert (∀ m u, returned w m x u → (m, u) ≠ (n, t)) as Hn.
  { intros m u (j&Hj&Hl) [= -> ->]. by rewrite (m_once _ _ _ _ Hs _ _ _ _ Hl Hi) in Hj. }
  assert (returned w' n x t) as Ht' by (exists i; rewrite Hf', El; set_solver).
  eapply sim_view with (w := w); [done|by destruct Hc; constructor|rewrite Hf'; set_solver| |intros ->].
  - eapply rm_sim_world; [by intros; rewrite El|intros; by apply Hr|]. eapply rm_sim_tm; [done|done|]. by apply (m_rm _ _ _ _ Hs).
  - pose proof (same_tm _ _ _ _ _ Hs Hb) as Htm. destruct HR as [v|v c Hv]; [by eapply tm_sim_world; [intros; by apply Hr|]|].
    destruct Htm as [H1 H2 H3]. constructor; simpl; [done|apply Forall_app; by split; [|constructor]|].
    unfold tm_log_tasks. rewrite omap_app. cbn. eapply queue_push; [done|by intros ?%Hn|intros; by apply Hr|done].
Qed.

Lemma commit_ctx_sim w w' x n0 s n i t h :
  sim w x n0 s → wlog w !! i = Some (n, x, t) → i ∉ flushed w → is_tm t = false →
  perform n h (flush_at i w) = Some w' → touches x (gets_ctx (CLog t)) h → sim w' x n0 s.
Proof.
  intros Hs Hi Hf Ht Hp Hh. destruct (perform_touches _ _ _ _ _ _ Hh Hp) as (b&Hc&Hf'&HR).
  pose proof (ch_block _ _ _ _ _ _ _ _ _ Hc) as Hb. pose proof (ch_log _ _ _ _ _ _ _ _ _ Hc) as El. rewrite app_nil_r in El.
  cbn in Hb, El, Hf'. destruct (gets_ctx_tm _ _ _ HR) as [E1 E2].
  assert (∀ m u, returned w m x u → returned w' m x u) as Hr.
  { intros m u (j&?&?). exists j. rewrite Hf', El. set_solver. }
  assert (∀ m u, returned w m x u → (m, u) ≠ (n, t)) as Hn.
  { intros m u (j&Hj&Hl) [= -> ->]. by rewrite (m_once _ _ _ _ Hs _ _ _ _ Hl Hi) in Hj. }
  assert (returned w' n x t) as Ht' by (exists i; rewrite Hf', El; set_solver).
  assert ((n, x, t) ∈ wlog w) as Hin by by eapply list_elem_of_lookup_2.
  eapply sim_view with (w := w); [done|by destruct Hc; constructor|rewrite Hf'; set_solver| |intros ->].
  - pose proof (m_rm _ _ _ _ Hs _ _ Hb) as Hrm. destruct HR as [v|v c Hv].
    { eapply rm_sim_world; [by intros; rewrite El|intros; by apply Hr|done]. }
    assert (∀ l, rm_logs w n x l → rm_logs w' n x l) as HL by (intros l Hl u Hu; rewrite El; auto).
    destruct Hrm as [r H1 H2 H3 H4 H5|? ? ? ? ? ? ? ? ? ? ? ? H8|? ? H8]; [|by apply (H8 t Ht), elem_of_nil in Hin..].
    eapply rm_runs; simpl; [done|done|apply Forall_app; by split; [|constructor]| |by apply HL].
    unfold ctx_log_tasks. rewrite omap_app. cbn. eapply queue_push; [done|by intros ?%Hn|intros; by apply Hr|done].
  - eapply tm_sim_world; [intros; by apply Hr|]. eapply tm_sim_ctx; [done|done|]. by apply same_tm.
Qed.

(** ** A context runs *)

Lemma ctx_task_net s s' n x t : TwoPhase.net s ⊆ TwoPhase.net s' → ctx_task_ok s n x t → ctx_task_ok s' n x t.
Proof. intros Hn. destruct t; cbn; try done; intros [? ?]; split; auto. Qed.
Lemma tm_task_net s s' n t : TwoPhase.net s ⊆ TwoPhase.net s' → tm_task_ok s n t → tm_task_ok s' n t.
Proof. intros Hn. destruct t; cbn; auto. Qed.

Lemma rm_sim_sys w x n s s' v :
  rms s' !! n = rms s !! n → TwoPhase.net s ⊆ TwoPhase.net s' → rm_sim w x n s v → rm_sim w x n s' v.
Proof.
  intros Er Hn. assert (∀ ts, Forall (ctx_task_ok s n x) ts → Forall (ctx_task_ok s' n x) ts) as Hf.
  { intros ts Hts. eapply Forall_impl; [exact Hts|]. intros t. by apply ctx_task_net. }
  intros [r ? ? ? ? ?|q ? ? ? ? ? ? ? ? ? ? ? ?|]; [eapply rm_runs|eapply rm_starts|apply rm_unknown]; rewrite ?Er; eauto.
Qed.

Lemma tm_sim_sys w x n s s' v :
  tm s' = tm s → tm_wal s' = tm_wal s → TwoPhase.net s ⊆ TwoPhase.net s' → tm_sim w x n s v → tm_sim w x n s' v.
Proof.
  intros E1 E2 Hn [H1 H2 H3]. constructor; rewrite ?E1, ?E2; try done.
  eapply Forall_impl; [exact H2|]. intros t. by apply tm_task_net.
Qed.

Lemma shape_log st l : TwoPhase.log_shape st l → NoDup l ∧ ∀ t, t ∈ l → is_tm t = false.
Proof.
  assert (∀ k : list tx_cmd_type, bool_decide (NoDup k) && forallb (fun t => negb (is_tm t)) k = true →
    NoDup k ∧ ∀ t, t ∈ k → is_tm t = false) as Hk.
  { intros k [Hd Hf]%andb_prop. apply bool_decide_eq_true in Hd. split; [done|]. intros t Ht.
    rewrite forallb_forall in Hf. apply negb_true_iff, Hf. by apply list_elem_of_In. }
  intros Hs. apply Hk. destruct st; cbn in Hs; unfold TwoPhase.committed_log, TwoPhase.aborted_log in Hs; naive_solver.
Qed.

(** Positions of new records. *)
Lemma once_app w ls x n l :
  (∀ i j m t, wlog w !! i = Some (m, x, t) → wlog w !! j = Some (m, x, t) → i = j) →
  ls = (fun t => (n, x, t)) <$> l → NoDup l → (∀ t, t ∈ l → (n, x, t) ∉ wlog w) →
  ∀ i j m t, (wlog w ++ ls) !! i = Some (m, x, t) → (wlog w ++ ls) !! j = Some (m, x, t) → i = j.
Proof.
  intros Ho -> Hd Hnew i j m t Hi Hj.
  assert (∀ k, wlog w !! k = Some (m, x, t) → (m, x, t) ∈ wlog w) as Hold by (intros; by eapply list_elem_of_lookup_2).
  apply lookup_app_Some in Hi as [Hi|[Hi' Hi]]; apply lookup_app_Some in Hj as [Hj|[Hj' Hj]].
  - by eapply Ho.
  - apply list_lookup_fmap_Some in Hj as (u&?&Hu). simplify_eq. apply list_elem_of_lookup_2 in Hu. by destruct (Hnew _ Hu); eapply Hold.
  - apply list_lookup_fmap_Some in Hi as (u&?&Hu). simplify_eq. apply list_elem_of_lookup_2 in Hu. by destruct (Hnew _ Hu); eapply Hold.
  - apply list_lookup_fmap_Some in Hi as (u&?&Hu), Hj as (u'&?&Hu'). simplify_eq.
    pose proof (NoDup_lookup _ _ _ _ Hd Hu Hu'). lia.
Qed.

Lemma sim_ctx w w' x n0 s n b b' c h w1 ts :
  let s' := TwoPhase.rm_exec n h (s <| rms := <[n := mk_rm c w1]> (rms s) |>) in
  sim w x n0 s → TwoPhase.inv s' → TxContext.node_id_ c = n →
  change w w' n x b b' (ctx_msgs n x (h c).2) (ctx_logs n x (h c).2) [] → flushed w' = flushed w →
  view x b' = (view x b) <| v_ctx := Some (h c).1 |> <| v_ctx_tasks := ts |> →
  rm_logs w n x (appended w1) → Forall (ctx_task_ok s n x) ts →
  queue_ok (returned w n x) (durable w1) (ctx_log_tasks ts) → sim w' x n0 s'.
Proof.
  intros s' Hs Hi Hn Hc Hf Hv Hlg Hts Hq. pose proof Hc as [Hb Hw _ Ho Hnet _ Hlog _ Hans _].
  assert (s' = s <| rms := <[n := mk_rm (h c).1 (TwoPhase.append (TxContext.logged (h c).2) w1)]> (rms s) |>
    <| TwoPhase.net := TwoPhase.net s ++ omap (TwoPhase.rm_msg (NodeId.TO_RG_ID n)) (h c).2 |>) as Es.
  { unfold s', TwoPhase.rm_exec. simpl. rewrite lookup_insert_eq. simpl. rewrite Hn. destruct (h c). simpl.
    by rewrite insert_insert_eq. }
  clearbody s'. set (r' := mk_rm (h c).1 (TwoPhase.append (TxContext.logged (h c).2) w1)) in *.
  assert (rms s' !! n = Some r') as Hr' by (rewrite Es; apply lookup_insert_eq).
  destruct (shape_log _ _ (TwoPhase.rm_shape _ _ _ (TwoPhase.i_rm _ Hi _ _ Hr'))) as [Hnd Hty]. simpl in Hnd, Hty.
  apply NoDup_app in Hnd as (_&Hdis&Hnd).
  assert (TwoPhase.net s ⊆ TwoPhase.net s') as Hsub by (rewrite Es; simpl; set_solver).
  assert (∀ m t, (m, x, t) ∈ wlog w' ↔ (m, x, t) ∈ wlog w ∨ m = n ∧ t ∈ TxContext.logged (h c).2) as Hin.
  { intros m t. rewrite Hlog, elem_of_app, list_elem_of_fmap. naive_solver. }
  assert (∀ t, t ∈ TxContext.logged (h c).2 → is_tm t = false) as Hty' by (intros; apply Hty, elem_of_app; by right).
  assert (∀ m t, returned w m x t → returned w' m x t) as Hret.
  { intros m t (i&?&?). exists i. rewrite Hf, Hlog. split; [done|]. by apply lookup_app_l_Some. }
  destruct Hs as [(b0&Hb0&Ht) Hrm Hno Hmn Hma Hml Hfl Honce]. constructor.
  - assert (tm_sim w' x n0 s' (view x b0)) as Ht'.
    { eapply tm_sim_world; [intros; by apply Hret|]. apply (tm_sim_sys _ _ _ s); [by rewrite Es|by rewrite Es|done|exact Ht]. }
    destruct (decide (n = n0)) as [->|Hne].
    + exists b'. rewrite Hw, lookup_insert_eq. split; [done|]. simplify_eq. rewrite Hv. by eapply tm_sim_ctx; [..|exact Ht'].
    + exists b0. by rewrite Hw, lookup_insert_ne.
  - intros m d. rewrite Hw. destruct (decide (m = n)) as [->|Hne].
    + rewrite lookup_insert_eq. intros [= <-]. rewrite Hv. eapply rm_runs; simpl; [exact Hr'|done| | |].
      * eapply Forall_impl; [exact Hts|]. intros t. by apply ctx_task_net.
      * by eapply queue_ret; [intros; apply Hret|].
      * intros t Htt. rewrite Hin. cbn. rewrite elem_of_app, (Hlg t Htt). naive_solver.
    + rewrite lookup_insert_ne by done. intros Hd. eapply rm_sim_world; [|intros; by apply Hret|].
      * intros t. rewrite Hin. naive_solver.
      * apply (rm_sim_sys _ _ _ s); [|done|by apply Hrm]. rewrite Es. simpl. by apply lookup_insert_ne.
  - intros m Hm. rewrite Hw in Hm. apply lookup_insert_None in Hm as [Hm Hne]. destruct (Hno m Hm) as [? HL].
    split; [rewrite Es; simpl; by rewrite lookup_insert_ne|]. intros t Htt. rewrite Hin. rewrite (HL t Htt). naive_solver.
  - intros m. rewrite Hnet, Es. simpl. intros [?|Hm]%elem_of_app; apply elem_of_app; [left; auto|right].
    apply list_elem_of_fmap in Hm as (?&?&?). by simplify_eq.
  - intros ec. rewrite Hans, app_nil_r, Es. apply Hma.
  - intros m t Htt. rewrite Hin, Hml, Es by done. simpl. split; [|by left]. intros [?|[_ Hl%Hty']]; [done|congruence].
  - intros t. rewrite Es. simpl. apply Hfl.
  - rewrite Hlog. eapply once_app; [done|done|done|]. intros t Htt Hold.
    apply (Hlg t (Hty' t Htt)) in Hold. by eapply Hdis.
Qed.

(** ** The coordinator runs *)

Lemma flag_tm t c : TmStamp.flag t c = true → is_tm t = true.
Proof. by destruct t. Qed.

Lemma sim_tm w w' x n0 s b b' h tw ts :
  let s' := TwoPhase.tm_exec h (s <| tm_wal := tw |>) in
  let ev := (h (tm s)).2 in
  sim w x n0 s → TmStamp.orderly h →
  change w w' n0 x b b' (tm_msgs x ev) (tm_logs n0 x ev) (tm_answers x ev) → flushed w' = flushed w →
  view x b' = (view x b) <| v_tm := Some (h (tm s)).1 |> <| v_tm_tasks := ts |> →
  appended tw = appended (tm_wal s) → Forall (tm_task_ok s n0) ts →
  queue_ok (returned w n0 x) (durable tw) (tm_log_tasks ts) → sim w' x n0 s'.
Proof.
  intros s' ev Hs Ho Hc Hf Hv Hap Hts Hq. pose proof Hc as [Hb Hw _ _ Hnet _ Hlog _ Hans _].
  destruct (Ho (tm s)) as [_ _ Hfm Hnd Hnew]. fold ev in Hnd, Hnew.
  assert (s' = s <| tm := (h (tm s)).1 |> <| tm_wal := TwoPhase.append (TmStamp.written ev) tw |>
    <| TwoPhase.net := TwoPhase.net s ++ omap TwoPhase.tm_msg ev |> <| resp := resp s ++ omap TwoPhase.tm_answer ev |>) as Es.
  { unfold s', TwoPhase.tm_exec, ev. simpl. by destruct (h (tm s)). }
  clearbody s' ev.
  assert (∀ t, t ∈ TmStamp.written ev → is_tm t = true) as Hty by (intros t Ht; by eapply flag_tm, Hnew).
  assert (TwoPhase.net s ⊆ TwoPhase.net s') as Hsub by (rewrite Es; simpl; set_solver).
  assert (∀ m t, (m, x, t) ∈ wlog w' ↔ (m, x, t) ∈ wlog w ∨ m = n0 ∧ t ∈ TmStamp.written ev) as Hin.
  { intros m t. rewrite Hlog, elem_of_app, list_elem_of_fmap. naive_solver. }
  assert (∀ m t, returned w m x t → returned w' m x t) as Hret.
  { intros m t (i&?&?). exists i. rewrite Hf, Hlog. split; [done|]. by apply lookup_app_l_Some. }
  assert (∀ m l, rm_logs w m x l → rm_logs w' m x l) as HL.
  { intros m l Hl t Ht. rewrite Hin, (Hl t Ht). split; [|by left]. intros [?|[_ Ht'%Hty]]; [done|congruence]. }
  destruct Hs as [_ Hrm Hno Hmn Hma Hml Hfl Honce]. constructor.
  - exists b'. rewrite Hw, lookup_insert_eq. split; [done|]. rewrite Hv. constructor; simpl.
    + by rewrite Es.
    + eapply Forall_impl; [exact Hts|]. intros t. by apply tm_task_net.
    + rewrite Es. simpl. by eapply queue_ret; [intros; apply Hret|].
  - intros m d Hd. assert (∃ e, blocks w !! m = Some e ∧ v_ctx (view x d) = v_ctx (view x e) ∧
      v_ctx_tasks (view x d) = v_ctx_tasks (view x e)) as (e&He&E1&E2).
    { rewrite Hw in Hd. destruct (decide (m = n0)) as [->|?].
      - rewrite lookup_insert_eq in Hd. injection Hd as <-. exists b. by rewrite Hv.
      - rewrite lookup_insert_ne in Hd by done. by exists d. }
    eapply rm_sim_tm; [exact E1|exact E2|]. apply (rm_sim_sys _ _ _ s); [by rewrite Es|done|].
    destruct (Hrm m e He) as [r ? ? ? ? ?|q ? ? ? ? ? ? ? ? ? ? ? ?|]; [eapply rm_runs|eapply rm_starts|apply rm_unknown]; eauto.
    by eapply queue_ret; [intros; apply Hret|].
  - intros m Hm. rewrite Hw in Hm. apply lookup_insert_None in Hm as [Hm Hne]. destruct (Hno m Hm) as [? ?].
    split; [by rewrite Es|auto].
  - intros m. rewrite Hnet, Es. simpl. intros [?|Hm]%elem_of_app; apply elem_of_app; [left; auto|right].
    apply list_elem_of_fmap in Hm as (?&?&?). by simplify_eq.
  - intros ec. rewrite Hans, Es. simpl. rewrite !elem_of_app, Hma, list_elem_of_fmap. naive_solver.
  - intros m t Htt. rewrite Hin, Hml, Es by done. simpl. rewrite elem_of_app, Hap. naive_solver.
  - intros t. rewrite Es. simpl. rewrite Hap. intros [Ht%Hfl|Ht]%elem_of_app; [by apply Hfm|by apply Hnew].
  - rewrite Hlog. eapply once_app; [done|done|done|]. intros t Ht Hold.
    apply Hml in Hold as [_ Hold%Hfl]; [|by apply Hty]. destruct (Hnew t Ht). congruence.
Qed.

(** ** The steps of the transaction itself *)

Lemma makes_sim w w' x n0 s n q h b :
  sound w → sim w x n0 s → blocks w !! n = Some b → makes_context q b (h b) → perform n h w = Some w' →
  req_xid q = x → MRequest n q ∈ TwoPhase.net s → sim w' x n0 s.
Proof.
  intros Hs Hsim Hb Hm Hp <- Hq. destruct (makes_change _ _ _ _ _ _ Hb Hm Hp) as [Hc Hf]. destruct Hm as (_&_&_&Hnc).
  rewrite (proj1 (s_block _ _ Hs _ _ Hb)) in Hnc. pose proof (ov_ctx_tasks _ _ _ _ (s_view _ _ Hs _ _ (req_xid q) Hb)) as Hov.
  assert (wlog w' = wlog w) as El by (by rewrite (ch_log _ _ _ _ _ _ _ _ _ Hc), app_nil_r).
  assert (∀ m u, returned w m (req_xid q) u → returned w' m (req_xid q) u) as Hr by (intros m u (i&?&?); exists i; by rewrite Hf, El).
  assert (v_tm (view (req_xid q) (h b).1) = v_tm (view (req_xid q) b) ∧
          v_tm_tasks (view (req_xid q) (h b).1) = v_tm_tasks (view (req_xid q) b)) as [E1 E2] by by destruct Hnc.
  eapply sim_view; [done|done|by rewrite Hf| |intros ->].
  - eapply rm_sim_world; [by intros; rewrite El|intros; by apply Hr|]. pose proof (m_rm _ _ _ _ Hsim _ _ Hb) as Hrm.
    destruct Hnc as [v|v dsb s2n cno Hv]; [done|]. specialize (Hov Hv).
    destruct Hrm as [? ? H2 _ _ _|? ? ? ? ? _ H2 _ _ _ _ _ _|H1 H2 H3]; [congruence..|].
    eapply rm_starts; simpl; [done|done|by rewrite Hov|constructor|done|done|done|done].
  - eapply tm_sim_world; [intros; by apply Hr|]. eapply tm_sim_ctx; [done|done|]. by apply same_tm.
Qed.

Lemma reach_step s s' l : TwoPhase.reachable s → TwoPhase.exec l s = Some s' → TwoPhase.reachable s'.
Proof. intros (?&?&?&?&s0&?&?&?) He. do 5 eexists. split_and!; [done|done|]. eapply rtc_r; [done|]. by exists l. Qed.

Lemma rm_exec_id n h s r : rms s !! n = Some r → TwoPhase.rm_exec n h s = TwoPhase.rm_exec n h (s <| rms := <[n := r]> (rms s) |>).
Proof. intros Hr. rewrite insert_id by done. by destruct s. Qed.

Lemma tm_identity w x n0 s : sound w → sim w x n0 s → TxCoordinator.xid_ (tm s) = x ∧ TxCoordinator.node_id_ (tm s) = n0.
Proof. intros Hs [(b&Hb&[Ht _ _]) _ _ _ _ _ _ _]. by destruct (ov_tm _ _ _ _ (s_view _ _ Hs _ _ x Hb) _ Ht) as [[? ?] _]. Qed.

Lemma rm_node s n r : TwoPhase.reachable s → rms s !! n = Some r → TxContext.node_id_ (rm_ctx r) = n.
Proof. intros Hr%TwoPhase.reachable_inv Hn. by destruct (TwoPhase.rm_running _ _ _ (TwoPhase.i_rm _ Hr _ _ Hn)). Qed.

Lemma nil_queue ret : queue_ok ret [] [].
Proof. constructor; try (by intros ? ?%elem_of_nil). constructor. Qed.

(** What [TwoPhase] does when a closure of a running context runs. *)
Lemma task_step w x n0 s n r v t ts get :
  sound w → sim w x n0 s → rms s !! n = Some r → v_ctx_tasks v = t :: ts → Forall (ctx_task_ok s n x) (v_ctx_tasks v) →
  queue_ok (returned w n x) (durable (rm_wal r)) (ctx_log_tasks (v_ctx_tasks v)) → rm_logs w n x (appended (rm_wal r)) →
  ∃ l w1, TwoPhase.exec l s = Some (TwoPhase.rm_exec n (ctx_handler get t) (s <| rms := <[n := mk_rm (rm_ctx r) w1]> (rms s) |>)) ∧
    appended w1 = appended (rm_wal r) ∧ queue_ok (returned w n x) (durable w1) (ctx_log_tasks ts).
Proof.
  intros Hs Hsim Hr -> [Ht _]%Forall_cons Hq Hl. destruct (tm_identity _ _ _ _ Hs Hsim) as [Ex _].
  assert (mk_rm (rm_ctx r) (rm_wal r) = r) as Er by by destruct r.
  assert (∀ l h, TwoPhase.exec l s = Some (TwoPhase.rm_exec n h s) →
    TwoPhase.exec l s = Some (TwoPhase.rm_exec n h (s <| rms := <[n := mk_rm (rm_ctx r) (rm_wal r)]> (rms s) |>))) as Hsame.
  { intros l h ->. by rewrite Er, <- rm_exec_id. }
  destruct t as [q|u|m|y|y| |ec]; cbn in Ht; try done.
  - assert (u ∈ u :: ctx_log_tasks ts) as Hu by by left. destruct (q_ret _ _ _ Hq u Hu) as (i&_&Hi).
    exists (TwoPhase.RmLog n u), (TwoPhase.flush u (rm_wal r)). split_and!; [|done|by apply queue_pop].
    cbn. unfold TwoPhase.exec_rm_log. rewrite Hr. unfold TwoPhase.guard. rewrite decide_True; [done|].
    split; [|by apply (q_new _ _ _ Hq)]. apply Hl; [done|]. by eapply list_elem_of_lookup_2.
  - destruct (rs_tuple_row m) as [row|] eqn:Em.
    + exists (TwoPhase.RmLocal n (TwoPhase.LDsb (rs_oid m) (rs_error_code m) (tr_table_id row) (tr_shard_id row) (tr_tuple_id row)
        (if is_tuple_nil (tr_tuple row) then None else Some (tr_tuple row)))), (rm_wal r).
      split_and!; [|done|done]. apply Hsame. cbn. unfold read_handler. by rewrite Em.
    + exists (TwoPhase.RmLocal n (TwoPhase.LDsb (rs_oid m) (rs_error_code m) 0 0 0 None)), (rm_wal r).
      split_and!; [|done|done]. apply Hsame. cbn. unfold read_handler. by rewrite Em.
  - destruct Ht as [-> Ht]. exists (TwoPhase.RmCommit n), (rm_wal r). split_and!; [|done|done]. apply Hsame. cbn.
    unfold TwoPhase.exec_rm_commit, TwoPhase.guard. by rewrite decide_True, Ex.
  - destruct Ht as [-> Ht]. exists (TwoPhase.RmAbort n), (rm_wal r). split_and!; [|done|done]. apply Hsame. cbn.
    unfold TwoPhase.exec_rm_abort, TwoPhase.guard. by rewrite decide_True, Ex.
  - exists (TwoPhase.RmLocal n (TwoPhase.LAbort ec)), (rm_wal r). split_and!; [|done|done]. by apply Hsame.
Qed.

Abbreviation follows w' x n0 := (∃ s', TwoPhase.reachable s' ∧ sim w' x n0 s').

Lemma idle_world n h w w' b : blocks w !! n = Some b → h b = (b, []) → perform n h w = Some w' → w' = w.
Proof.
  intros Hb Hh. rewrite (perform_some _ _ _ _ Hb), Hh. cbn. rewrite insert_id, !app_nil_r by done. intros [= <-]. by destruct w.
Qed.

(** One closure of [x]'s context, with the step of [TwoPhase] it stands for. *)
Lemma ran_ctx_sim w w' x n0 s n b c ts h g w1 l :
  sound w → sim w x n0 s → TwoPhase.reachable s → blocks w !! n = Some b → v_ctx (view x b) = Some c →
  guards (CtxStamp.stamp x) (CtxStamp.stamp_event x) h → ran_ctx x c ts h b (g b) → perform n g w = Some w' →
  TxContext.node_id_ c = n → rm_logs w n x (appended w1) → Forall (ctx_task_ok s n x) ts →
  queue_ok (returned w n x) (durable w1) (ctx_log_tasks ts) →
  TwoPhase.exec l s = Some (TwoPhase.rm_exec n h (s <| rms := <[n := mk_rm c w1]> (rms s) |>)) → follows w' x n0.
Proof.
  intros Hs Hsim Hr Hb Hc Hst Hran Hp Hn Hl Hts Hq He. pose proof (reach_step _ _ _ Hr He) as Hr'.
  destruct (perform_ctx _ _ _ _ _ _ _ _ _ _ Hs Hb Hc Hst Hran Hp) as (Hch&Hf&_).
  eexists. split; [exact Hr'|]. eapply sim_ctx; [done|by apply TwoPhase.reachable_inv|done|done|done| |done|done|done].
  apply (rc_view _ _ _ _ _ _ Hran).
Qed.

Lemma run_ctx_sim w w' x n0 s n get :
  sound w → sim w x n0 s → TwoPhase.reachable s → perform n (run_ctx get x) w = Some w' → follows w' x n0.
Proof.
  intros Hs Hsim Hr Hp. destruct (perform_inv _ _ _ _ Hp) as (b&Hb&_).
  destruct (v_ctx_tasks (view x b)) as [|t ts] eqn:Et.
  { rewrite (idle_world _ _ _ _ _ Hb (run_ctx_idle get x b Et) Hp). by exists s. }
  destruct (m_rm _ _ _ _ Hsim _ _ Hb) as [r H1 H2 H3 H4 H5|q dsb s2n cno us H1 H2 H3 H4 H5 H6 H7 H8|H1 H2 H3].
  - destruct (task_step _ _ _ _ _ _ _ _ _ get Hs Hsim H1 Et H3 H4 H5) as (l&w1&He&Ha&Hq).
    eapply ran_ctx_sim; [done|done|done|done|exact H2|apply stamped_task|by eapply run_ctx_ran|done|by eapply rm_node
      |by rewrite Ha| |done|done]. rewrite Et in H3. by apply Forall_cons in H3 as [_ ?].
  - rewrite Et in H3. injection H3 as -> ->.
    eapply (ran_ctx_sim _ _ _ _ _ _ _ _ us _ _ (mk_wal [] []) (TwoPhase.RmRequest n q (TwoPhase.mk_env dsb s2n cno true get)));
      [done|done|done|done|exact H2|apply stamped_task|by eapply run_ctx_ran|done|done|done|done|rewrite H5; apply nil_queue|].
    cbn. unfold TwoPhase.exec_rm_request, TwoPhase.guard. rewrite decide_True, H1 by done. by rewrite H7.
  - by rewrite (ov_ctx_tasks _ _ _ _ (s_view _ _ Hs _ _ x Hb)) in Et.
Qed.

Lemma local_sim w w' x n0 s n b e :
  sound w → sim w x n0 s → TwoPhase.reachable s → blocks w !! n = Some b → starting (view x b) = false →
  guards (CtxStamp.stamp x) (CtxStamp.stamp_event x) (TwoPhase.local_handler e) →
  perform n (at_ctx x (TwoPhase.local_handler e)) w = Some w' → follows w' x n0.
Proof.
  intros Hs Hsim Hr Hb Hst Hg Hp.
  destruct (m_rm _ _ _ _ Hsim _ _ Hb) as [r H1 H2 H3 H4 H5|q dsb s2n cno us H1 H2 H3 H4 H5 H6 H7 H8|H1 H2 H3].
  - eapply (ran_ctx_sim _ _ _ _ _ _ _ _ _ _ _ (rm_wal r) (TwoPhase.RmLocal n e)); [done|done|done|done|exact H2|done|by apply at_ctx_ran|done|by eapply rm_node
      |done|done|done|]. cbn. unfold TwoPhase.exec_rm_local. f_equal. apply rm_exec_id. rewrite H1. by destruct r.
  - unfold starting in Hst. by rewrite H3 in Hst.
  - rewrite (idle_world _ _ _ _ _ Hb (at_ctx_none x _ b H2) Hp). by exists s.
Qed.

(** What [TwoPhase] does when a closure of the coordinator runs. *)
Lemma tm_task_step w x n0 s v t ts send_ok :
  sound w → sim w x n0 s → tm_sim w x n0 s v → v_tm_tasks v = t :: ts →
  ∃ l tw, TwoPhase.exec l s = Some (TwoPhase.tm_exec (tm_handler send_ok t) (s <| tm_wal := tw |>)) ∧
    appended tw = appended (tm_wal s) ∧ queue_ok (returned w n0 x) (durable tw) (tm_log_tasks ts).
Proof.
  intros Hs Hsim [_ Hts Hq] Et. rewrite Et in Hts, Hq. apply Forall_cons in Hts as [Ht _]. destruct (tm_identity _ _ _ _ Hs Hsim) as [_ En].
  assert (s <| tm_wal := tm_wal s |> = s) as Es by by destruct s.
  destruct t as [u|rg b st|rg b|ec]; cbn in Ht.
  - assert (u ∈ u :: tm_log_tasks ts) as Hu by by left. destruct (q_ret _ _ _ Hq u Hu) as (i&_&Hi).
    exists (TwoPhase.TmLog u send_ok), (TwoPhase.flush u (tm_wal s)). split_and!; [|done|by apply queue_pop].
    cbn. unfold TwoPhase.exec_tm_log, TwoPhase.guard. rewrite decide_True; [done|].
    split; [|by apply (q_new _ _ _ Hq)]. eapply (m_log _ _ _ _ Hsim); [done|]. by eapply list_elem_of_lookup_2.
  - exists (TwoPhase.TmPrepare rg b st), (tm_wal s). split_and!; [|done|done]. rewrite Es. cbn.
    unfold TwoPhase.exec_tm_prepare, TwoPhase.guard. by rewrite decide_True by by rewrite En.
  - exists (TwoPhase.TmAck rg b), (tm_wal s). split_and!; [|done|done]. rewrite Es. cbn.
    unfold TwoPhase.exec_tm_ack, TwoPhase.guard. by rewrite decide_True by by rewrite En.
  - exists (TwoPhase.TmAbort ec), (tm_wal s). split_and!; [|done|done]. rewrite Es. cbn.
    unfold TwoPhase.exec_tm_abort, TwoPhase.guard. by rewrite decide_True.
Qed.

Lemma run_tm_sim w w' x n0 s n send_ok :
  sound w → sim w x n0 s → TwoPhase.reachable s → perform n (run_tm send_ok x) w = Some w' → follows w' x n0.
Proof.
  intros Hs Hsim Hr Hp. destruct (perform_inv _ _ _ _ Hp) as (b&Hb&_). pose proof (s_view _ _ Hs _ _ x Hb) as Hov.
  destruct (v_tm_tasks (view x b)) as [|t ts] eqn:Et.
  { rewrite (idle_world _ _ _ _ _ Hb (run_tm_idle send_ok x b Et) Hp). by exists s. }
  destruct (v_tm (view x b)) as [c|] eqn:Ec; [|by rewrite (ov_tm_tasks _ _ _ _ Hov) in Et].
  assert (n = n0) as ->.
  { destruct (m_tm _ _ _ _ Hsim) as (b0&Hb0&[Ht0 _ _]). destruct (ov_tm _ _ _ _ Hov _ Ec) as [_ <-].
    by destruct (ov_tm _ _ _ _ (s_view _ _ Hs _ _ x Hb0) _ Ht0) as [_ <-]. }
  pose proof (same_tm _ _ _ _ _ Hsim Hb) as Htm. pose proof (t_tm _ _ _ _ _ Htm) as Ec'.
  assert (c = tm s) as -> by congruence.
  destruct (tm_task_step _ _ _ _ _ _ _ send_ok Hs Hsim Htm Et) as (l&tw&He&Ha&Hq).
  pose proof (run_tm_ran send_ok _ _ _ _ _ Ec Et) as Hran.
  destruct (perform_tm _ _ _ _ _ _ _ _ _ _ Hs Hb Ec (orderly_task send_ok t) Hran Hp) as (Hch&Hf&_).
  eexists. split; [by eapply reach_step|]. eapply sim_tm; [done|apply orderly_task|done|done| |done| |done].
  - apply (rt_view _ _ _ _ _ _ Hran).
  - pose proof (t_tasks _ _ _ _ _ Htm) as H3. rewrite Et in H3. by apply Forall_cons in H3 as [_ ?].
Qed.

(** ** All steps *)

Lemma abort_sim w w' x n0 s n y ec : sim w x n0 s → ec ≠ EC_OK → perform n (abort_tx y ec) w = Some w' → sim w' x n0 s.
Proof.
  intros Hsim Hec. unfold abort_tx. rewrite perform_then.
  destruct (perform n (to_context y (CAbort ec)) w) as [w1|] eqn:E1; [|done]. cbn. intros E2.
  destruct (decide (x = y)) as [<-|Hxy].
  - eapply touch_tm_sim; [|exact E2|apply to_coordinator_touches|done|done].
    by eapply touch_ctx_sim; [|exact E1|apply to_context_touches|..].
  - eapply touch_other_sim; [|exact E2|apply to_coordinator_touches|done].
    by eapply touch_other_sim; [|exact E1|apply to_context_touches|].
Qed.

Lemma sim_generated w x n0 s : sound w → sim w x n0 s → generated home w x.
Proof. intros Hs [(b&Hb&[Ht _ _]) _ _ _ _ _ _ _]. eapply view_generated; [done|done|]. intros E. by rewrite E in Ht. Qed.

Lemma client_sim w w' x n0 s n conn req : sound w → sim w x n0 s → exec (Client n conn req) w = Some w' → sim w' x n0 s.
Proof.
  intros Hs Hsim He. destruct (client_step _ _ _ _ _ _ _ Hs He) as [(b&b'&Hc&Hf&Hv)|(b&xid&b1&b'&ms&ls&ans&Hb&Hs1&Hg&Hng&Hh&Hv&Hc&Hf&Hn)].
  - eapply sim_same; [|done]. eapply (change_same _ _ n (x + 1)); [apply Hc|lia|done].
  - assert (x ≠ xid) as Hne by (intros ->; by apply Hng, (sim_generated _ _ _ _ Hs Hsim)).
    eapply sim_same; [by eapply change_same|]. eapply sim_same; [|exact Hsim]. constructor; try done. cbn. intros m.
    destruct (decide (m = n)) as [->|?]; [rewrite lookup_insert_eq, Hb; cbn; by rewrite Hv|by rewrite lookup_insert_ne].
Qed.

Lemma deliver_sim w w' x n0 s n y m st :
  sound w → sim w x n0 s → (y, m) ∈ net w → msg_dest m = n →
  perform n (ccb_handle_message parse (block_message y m st)) w = Some w' → sim w' x n0 s.
Proof.
  intros Hs Hsim Hm <- Hp. destruct (s_net _ _ Hs _ Hm) as [Ho _]. cbn in Ho. destruct (decide (x = y)) as [<-|Hxy].
  - apply (m_net _ _ _ _ Hsim) in Hm. destruct m; cbn in Hp, Ho, Hm.
    + destruct (perform_inv _ _ _ _ Hp) as (b&Hb&_). by eapply makes_sim; [..|exact Hb|apply tm_request_makes|exact Hp| |].
    + by eapply touch_ctx_sim; [|exact Hp|apply to_context_touches|..].
    + by eapply touch_ctx_sim; [|exact Hp|apply to_context_touches|..].
    + done.
    + by eapply touch_tm_sim; [|exact Hp|apply to_coordinator_touches|..].
    + by eapply touch_tm_sim; [|exact Hp|apply to_coordinator_touches|..].
    + by eapply abort_sim; [..|exact Hp].
  - destruct m; cbn in Hp, Ho.
    + subst y. destruct (perform_inv _ _ _ _ Hp) as (b&Hb&_).
      destruct (makes_change _ _ _ _ _ _ Hb (tm_request_makes req b) Hp) as [Hc Hf]. eapply sim_same; [|done]. by eapply change_same.
    + by eapply touch_other_sim; [|exact Hp|apply to_context_touches|].
    + by eapply touch_other_sim; [|exact Hp|apply to_context_touches|].
    + done.
    + by eapply touch_other_sim; [|exact Hp|apply to_coordinator_touches|].
    + by eapply touch_other_sim; [|exact Hp|apply to_coordinator_touches|].
    + by eapply abort_sim; [..|exact Hp].
Qed.

Lemma commit_record_touches t x :
  touches x (if is_tm t then gets_tm (TLog t) else gets_ctx (CLog t)) (commit_record (mk_log t x [])).
Proof.
  unfold commit_record. cbn [log_type log_xid].
  destruct t; try apply to_coordinator_touches; try apply to_context_touches;
    intros b; split_and!; try done; constructor.
Qed.

Lemma commit_sim w w' x n0 s i n y t :
  sim w x n0 s → wlog w !! i = Some (n, y, t) → i ∉ flushed w →
  perform n (commit_record (mk_log t y [])) (flush_at i w) = Some w' → sim w' x n0 s.
Proof.
  intros Hsim Hi Hf Hp. pose proof (commit_record_touches t y) as Ht. destruct (decide (x = y)) as [<-|Hxy].
  - destruct (is_tm t) eqn:Et; [by eapply commit_tm_sim|by eapply commit_ctx_sim].
  - eapply touch_other_sim; [by eapply flush_other|exact Hp|exact Ht|done].
Qed.

(** The closures of another transaction. *)
Lemma other_ctx_sim w w' x n0 s n y c ts h g b :
  sound w → sim w x n0 s → x ≠ y → blocks w !! n = Some b → v_ctx (view y b) = Some c →
  guards (CtxStamp.stamp y) (CtxStamp.stamp_event y) h → ran_ctx y c ts h b (g b) → perform n g w = Some w' → sim w' x n0 s.
Proof.
  intros Hs Hsim Hxy Hb Hc Hh Hr Hp. destruct (perform_ctx _ _ _ _ _ _ _ _ _ _ Hs Hb Hc Hh Hr Hp) as (Hch&Hf&_).
  eapply sim_same; [by eapply change_same|done].
Qed.

Lemma other_run_ctx w w' x n0 s n y get :
  sound w → sim w x n0 s → x ≠ y → perform n (run_ctx get y) w = Some w' → sim w' x n0 s.
Proof.
  intros Hs Hsim Hxy Hp. destruct (perform_inv _ _ _ _ Hp) as (b&Hb&_). destruct (v_ctx_tasks (view y b)) as [|t ts] eqn:Et.
  { by rewrite (idle_world _ _ _ _ _ Hb (run_ctx_idle get y b Et) Hp). }
  destruct (v_ctx (view y b)) as [c|] eqn:Ec; [|by rewrite (ov_ctx_tasks _ _ _ _ (s_view _ _ Hs _ _ y Hb)) in Et].
  eapply other_ctx_sim; [done|done|done|done|done|apply stamped_task|by eapply run_ctx_ran|done].
Qed.

Lemma other_at_ctx w w' x n0 s n y h :
  sound w → sim w x n0 s → x ≠ y → guards (CtxStamp.stamp y) (CtxStamp.stamp_event y) h →
  perform n (at_ctx y h) w = Some w' → sim w' x n0 s.
Proof.
  intros Hs Hsim Hxy Hh Hp. destruct (perform_inv _ _ _ _ Hp) as (b&Hb&_). destruct (v_ctx (view y b)) as [c|] eqn:Ec.
  - eapply other_ctx_sim; [done|done|done|done|done|done|by apply at_ctx_ran|done].
  - by rewrite (idle_world _ _ _ _ _ Hb (at_ctx_none y h b Ec) Hp).
Qed.

Lemma other_run_tm w w' x n0 s n y send_ok :
  sound w → sim w x n0 s → x ≠ y → perform n (run_tm send_ok y) w = Some w' → sim w' x n0 s.
Proof.
  intros Hs Hsim Hxy Hp. destruct (perform_inv _ _ _ _ Hp) as (b&Hb&_). destruct (v_tm_tasks (view y b)) as [|t ts] eqn:Et.
  { by rewrite (idle_world _ _ _ _ _ Hb (run_tm_idle send_ok y b Et) Hp). }
  destruct (v_tm (view y b)) as [c|] eqn:Ec; [|by rewrite (ov_tm_tasks _ _ _ _ (s_view _ _ Hs _ _ y Hb)) in Et].
  destruct (perform_tm _ _ _ _ _ _ _ _ _ _ Hs Hb Ec (orderly_task send_ok t) (run_tm_ran send_ok _ _ _ _ _ Ec Et) Hp) as (Hch&Hf&_).
  eapply sim_same; [by eapply change_same|done].
Qed.

Lemma step_sim w w' x n0 s : sound w → sim w x n0 s → TwoPhase.reachable s → step w w' → follows w' x n0.
Proof.
  intros Hs Hsim Hr [l Hl]. assert (sim w' x n0 s → follows w' x n0) as Hstay by by exists s.
  destruct l; cbn [Blocks.exec] in Hl.
  - by eapply Hstay, client_sim.
  - case_decide as Hg; [|done]. destruct Hg. by eapply Hstay, deliver_sim.
  - destruct (wlog w !! i) as [[[n y] t]|] eqn:Ei; [|done]. cbn in Hl. case_decide; [|done]. by eapply Hstay, commit_sim.
  - case_decide; [|done]. by eapply Hstay, abort_sim.
  - apply Hstay. destruct (decide (x = rs_xid m)) as [->|Hxy].
    + by eapply touch_ctx_sim; [|exact Hl|apply to_context_touches|..].
    + by eapply touch_other_sim; [|exact Hl|apply to_context_touches|].
  - destruct (decide (x = x0)) as [<-|Hxy]; [by eapply run_ctx_sim|by eapply Hstay, other_run_ctx].
  - destruct (decide (x = x0)) as [<-|Hxy]; [by eapply run_tm_sim|by eapply Hstay, other_run_tm].
  - destruct (blocks w !! n) as [b|] eqn:Hb; [|done]. cbn in Hl. case_test; [done|].
    destruct (decide (x = x0)) as [<-|Hxy]; [|by eapply Hstay, other_at_ctx; [..|apply CtxStamp.stamped_lock|exact Hl]].
    by eapply (local_sim _ _ _ _ _ _ _ (TwoPhase.LLock ec)); [..|apply CtxStamp.stamped_lock|exact Hl].
  - destruct (blocks w !! n) as [b|] eqn:Hb; [|done]. cbn in Hl. case_test; [done|].
    destruct (decide (x = x0)) as [<-|Hxy]; [|by eapply Hstay, other_at_ctx; [..|apply CtxStamp.stamped_run_strand|exact Hl]].
    by eapply (local_sim _ _ _ _ _ _ _ (TwoPhase.LRun get)); [..|apply CtxStamp.stamped_run_strand|exact Hl].
  - by eapply Hstay, aside_sim; [|exact Hl|apply send_register_aside].
  - case_test; [|done]. by eapply Hstay, aside_sim; [|exact Hl|apply admin_aside].
Qed.

(** ** Where a distributed transaction begins *)

Definition no_begin (e : event) : Prop :=
  match e with
  | TmEvent (TxCoordinator.WalAppend t) _ => t ≠ TX_CMD_TM_BEGIN
  | CtxEvent (TxContext.WalAppend l) _ => Forall (fun r => is_tm (log_type r) = false) l
  | _ => True
  end.

Lemma perform_no_begin n h w w' m x :
  perform n h w = Some w' → (∀ b, blocks w !! n = Some b → Forall no_begin (h b).2) →
  (m, x, TX_CMD_TM_BEGIN) ∈ wlog w' → (m, x, TX_CMD_TM_BEGIN) ∈ wlog w.
Proof.
  intros (b&Hb&->)%perform_inv Hh. specialize (Hh b Hb). cbn. intros [?|(e&He&Hin)%list_elem_of_bind]%elem_of_app; [done|].
  rewrite Forall_forall in Hh. specialize (Hh e Hin). destruct e as [| | | | | | | |[] ?|[] ?|]; cbn in *; try by apply elem_of_nil in He.
  - apply list_elem_of_fmap in He as (r&?&Hr). simplify_eq. rewrite Forall_forall in Hh. specialize (Hh r Hr). by destruct (log_type r).
  - apply list_elem_of_singleton in He. by simplify_eq.
Qed.

Lemma block_no_begin ev : Forall block_event ev → Forall no_begin ev.
Proof. intros H. eapply Forall_impl; [exact H|]. by intros []. Qed.

Lemma ctx_no_begin x y ev : Forall (CtxStamp.stamp_event x) ev → Forall no_begin (map (fun e => CtxEvent e y) ev).
Proof.
  intros He. apply Forall_map. eapply Forall_impl; [exact He|]. intros []; try done. cbn. intros Hl.
  eapply Forall_impl; [exact Hl|]. by intros ? [_ ?].
Qed.

Lemma tm_no_begin send_ok t c y : Forall no_begin (map (fun e => TmEvent e y) (tm_handler send_ok t c).2).
Proof.
  apply Forall_map, Forall_forall. intros e He. destruct e as [| | | |u| | |]; try done. cbn. intros ->.
  destruct (TmStamp.o_new _ _ (orderly_task send_ok t c) TX_CMD_TM_BEGIN) as [E1 E2].
  { unfold TmStamp.written. apply list_elem_of_omap. by eexists. }
  cbn in E1, E2. assert (TxCoordinator.write_begin_log_ (tm_handler send_ok t c).1 = TxCoordinator.write_begin_log_ c) as E.
  { destruct t; [apply TmStamp.late_log_commit|apply TmStamp.late_prepare|apply TmStamp.late_ack|apply TmStamp.late_abort]. }
  congruence.
Qed.

Lemma step_no_begin w w' l m x :
  sound w → exec l w = Some w' → (∀ n conn req, l ≠ Client n conn req) →
  (m, x, TX_CMD_TM_BEGIN) ∈ wlog w' → (m, x, TX_CMD_TM_BEGIN) ∈ wlog w.
Proof.
  intros Hs Hl Hnc. destruct l; cbn [Blocks.exec] in Hl.
  - by destruct (Hnc n conn req).
  - case_decide; [|done]. eapply perform_no_begin; [done|]. intros b Hb. apply block_no_begin.
    destruct m0; cbn.
    + apply tm_request_makes.
    + apply to_context_touches.
    + apply to_context_touches.
    + apply to_context_touches.
    + apply to_coordinator_touches.
    + apply to_coordinator_touches.
    + unfold abort_tx. rewrite and_then_eq. apply Forall_app. split; [apply to_context_touches|apply to_coordinator_touches].
  - destruct (wlog w !! i) as [[[n y] t]|] eqn:Ei; [|done]. cbn in Hl. case_decide; [|done].
    intros Hin. eapply perform_no_begin in Hin; [|exact Hl|]; [exact Hin|]. intros b Hb. apply block_no_begin, commit_record_touches.
  - case_decide; [|done]. eapply perform_no_begin; [done|]. intros b Hb. apply block_no_begin.
    unfold abort_tx. rewrite and_then_eq. apply Forall_app. split; [apply to_context_touches|apply to_coordinator_touches].
  - eapply perform_no_begin; [done|]. intros b Hb. apply block_no_begin, to_context_touches.
  - eapply perform_no_begin; [done|]. intros b Hb. pose proof (s_view _ _ Hs _ _ x0 Hb) as Hov.
    destruct (v_ctx_tasks (view x0 b)) as [|t ts] eqn:Et; [by rewrite run_ctx_idle|].
    destruct (v_ctx (view x0 b)) as [c|] eqn:Ec; [|by rewrite (ov_ctx_tasks _ _ _ _ Hov) in Et].
    rewrite (rc_events _ _ _ _ _ _ (run_ctx_ran get _ _ _ _ _ Ec Et)). eapply ctx_no_begin, stamped_task. by eapply ov_ctx.
  - eapply perform_no_begin; [done|]. intros b Hb. pose proof (s_view _ _ Hs _ _ x0 Hb) as Hov.
    destruct (v_tm_tasks (view x0 b)) as [|t ts] eqn:Et; [by rewrite run_tm_idle|].
    destruct (v_tm (view x0 b)) as [c|] eqn:Ec; [|by rewrite (ov_tm_tasks _ _ _ _ Hov) in Et].
    rewrite (rt_events _ _ _ _ _ _ (run_tm_ran send_ok _ _ _ _ _ Ec Et)). apply tm_no_begin.
  - destruct (blocks w !! n) as [b'|] eqn:Hb'; [|done]. cbn in Hl. case_test; [done|].
    eapply perform_no_begin; [done|]. intros b Hb. destruct (v_ctx (view x0 b)) as [c|] eqn:Ec; [|by rewrite at_ctx_none].
    rewrite (rc_events _ _ _ _ _ _ (at_ctx_ran _ _ (TxContext.async_lock_acquire ec) _ Ec)). eapply ctx_no_begin, CtxStamp.stamped_lock.
    by eapply ov_ctx; [apply (s_view _ _ Hs _ _ x0 Hb)|].
  - destruct (blocks w !! n) as [b'|] eqn:Hb'; [|done]. cbn in Hl. case_test; [done|].
    eapply perform_no_begin; [done|]. intros b Hb. destruct (v_ctx (view x0 b)) as [c|] eqn:Ec; [|by rewrite at_ctx_none].
    rewrite (rc_events _ _ _ _ _ _ (at_ctx_ran _ _ (TxContext.run_strand get DB_SN) _ Ec)). eapply ctx_no_begin, CtxStamp.stamped_run_strand.
    by eapply ov_ctx; [apply (s_view _ _ Hs _ _ x0 Hb)|].
  - eapply perform_no_begin; [done|]. intros b Hb. apply block_no_begin, send_register_aside.
  - case_test; [|done]. eapply perform_no_begin; [done|]. intros b Hb. apply block_no_begin. by apply admin_aside.
Qed.

(** A transaction that was not given out is nowhere. *)
Definition nowhere (w : world) (x : Z) : Prop :=
  (∀ m, (x, m) ∉ net w) ∧ (∀ n t, (n, x, t) ∉ wlog w) ∧ (∀ ec, (x, ec) ∉ answers w) ∧
  ∀ n b, blocks w !! n = Some b → view x b = empty_view.

Lemma not_generated w x : sound w → ¬ generated home w x → nowhere w x.
Proof.
  intros Hs Hg. split_and!.
  - intros m Hm. by destruct (s_net _ _ Hs _ Hm).
  - intros n t Ht. by apply Hg, (s_log _ _ Hs _ _ _ Ht).
  - intros ec He. by apply Hg, (s_answers _ _ Hs _ _ He).
  - intros n b Hb. by destruct (s_new _ _ Hs _ _ x Hb).
Qed.

Lemma nowhere_renumbered w n b b1 x :
  blocks w !! n = Some b → (∀ y, view y b1 = view y b) → nowhere w x → nowhere (renumbered w n b1) x.
Proof.
  intros Hb Hv (N1&N2&N3&N4). split_and!; try done. intros m c. cbn.
  destruct (decide (m = n)) as [->|?]; [rewrite lookup_insert_eq; intros [= <-]|rewrite lookup_insert_ne by done; apply N4].
  rewrite Hv. by eapply N4.
Qed.

Lemma queue_empty ret : queue_ok ret [] [].
Proof. constructor; [constructor|..]; by intros t ?%elem_of_nil. Qed.

(** The state just after its coordinator accepted the request. *)
Lemma begun_sim w w' n x b b' c ev :
  nowhere w x → change w w' n x b b' (tm_msgs x ev) (tm_logs n x ev) (tm_answers x ev) →
  (∀ t, t ∈ TmStamp.written ev → is_tm t = true ∧ TmStamp.flag t c = true) → NoDup (TmStamp.written ev) →
  view x b' = mk_view None [] (Some c) [] →
  sim w' x n (TwoPhase.mk_sys c (mk_wal (TmStamp.written ev) []) ∅ (omap TwoPhase.tm_msg ev) (omap TwoPhase.tm_answer ev)).
Proof.
  intros (N1&N2&N3&N4) [Hb Hw _ _ Hnet _ Hlog _ Hans _] Hwr Hnd Hv.
  assert (∀ m t, (m, x, t) ∈ wlog w' ↔ m = n ∧ t ∈ TmStamp.written ev) as Hin.
  { intros m t. rewrite Hlog, elem_of_app, list_elem_of_fmap. specialize (N2 m t). naive_solver. }
  assert (∀ m, rm_logs w' m x []) as HL.
  { intros m t Ht. rewrite Hin. split; [|by intros ?%elem_of_nil]. intros [_ Hwt]. by destruct (Hwr t Hwt) as [? _]; congruence. }
  constructor; simpl.
  - exists b'. rewrite Hw, lookup_insert_eq. split; [done|]. rewrite Hv. constructor; simpl; [done|constructor|apply queue_empty].
  - intros m d. rewrite Hw. destruct (decide (m = n)) as [->|Hne]; [rewrite lookup_insert_eq; intros [= <-]
      |rewrite lookup_insert_ne by done; intros Hd].
    + rewrite Hv. by apply rm_unknown.
    + rewrite (N4 _ _ Hd). by apply rm_unknown.
  - intros m _. by split.
  - intros m. rewrite Hnet. intros [Hm|(?&?&?)%list_elem_of_fmap]%elem_of_app; [by apply N1 in Hm|by simplify_eq].
  - intros ec. rewrite Hans, elem_of_app, list_elem_of_fmap. specialize (N3 ec). naive_solver.
  - intros m t _. by rewrite Hin.
  - intros t Ht. by apply Hwr.
  - rewrite Hlog. eapply once_app; [|done|done|intros; apply N2]. intros i j m t Hi. by apply list_elem_of_lookup_2, N2 in Hi.
Qed.

Lemma request_entries req c : ∀ t, t ∈ TmStamp.written (TxCoordinator.handle_tx_request req c).2 → t = TX_CMD_TM_BEGIN.
Proof.
  intros t. unfold TxCoordinator.handle_tx_request, TxCoordinator.write_begin_log. destruct (TxCoordinator.add_operations _ _ _) as [c1 []].
  - case_test; cbn; [by intros ->%list_elem_of_singleton|by intros ?%elem_of_nil].
  - cbn. by intros ?%elem_of_nil.
Qed.

Lemma client_follows w w' n conn req m x :
  sound w → exec (Client n conn req) w = Some w' → (m, x, TX_CMD_TM_BEGIN) ∈ wlog w' →
  (m, x, TX_CMD_TM_BEGIN) ∈ wlog w ∨ follows w' x m.
Proof.
  intros Hs He Hin.
  destruct (client_step _ _ _ _ _ _ _ Hs He) as [(b&b'&Hc&_&_)|(b&xid&b1&b'&ms&ls&ans&Hb&Hs1&_&Hng&_&Hv1&Hc&Hf&Hn)].
  { left. by rewrite (ch_log _ _ _ _ _ _ _ _ _ (Hc 0)), app_nil_r in Hin. }
  rewrite (ch_log _ _ _ _ _ _ _ _ _ Hc) in Hin. apply elem_of_app in Hin as [Hin|Hin]; [by left|right].
  destruct (s_block _ _ Hs _ _ Hb) as (_&_&_&Hlead).
  remember (view xid b') as v eqn:Ev. destruct Hn as [v _ _|q res c ev Hq E]; [by apply elem_of_nil in Hin|].
  apply list_elem_of_fmap in Hin as (t&?&Ht). simplify_eq.
  pose proof (TmStamp.orderly_request q (TxCoordinator.new_tm xid n (rg_lead_ b))) as [_ _ _ Hnd Hnew].
  pose proof (request_entries q (TxCoordinator.new_tm xid n (rg_lead_ b))) as Hty. rewrite E in Hnd, Hnew, Hty. cbn in Hnd, Hnew, Hty.
  eexists. split; [|eapply begun_sim; [|exact Hc| |done|done]].
  - exists xid, n, (rg_lead_ b), q. eexists. split_and!; [by split| |apply rtc_refl]. unfold TwoPhase.start. rewrite E.
    destruct res as [[]|e]; [done|]. exfalso. revert E Ht. unfold TxCoordinator.handle_tx_request.
    destruct (TxCoordinator.add_operations _ _ _) as [c1 []]; [by destruct (TxCoordinator.write_begin_log c1)|].
    intros [= <- <- <-]. cbn. by intros ?%elem_of_nil.
  - by eapply nowhere_renumbered, not_generated.
  - intros t Hwt. split; [|by apply Hnew]. by rewrite (Hty t Hwt).
Qed.

(** ** All transactions, all reachable states *)

Lemma reachable_follows w : reachable home parse w →
  sound w ∧ ∀ n x, (n, x, TX_CMD_TM_BEGIN) ∈ wlog w → follows w x n.
Proof.
  intros (w0&Hi&Hrtc). pose proof (initial_sound home _ Hi) as Hs0.
  assert (∀ n x, (n, x, TX_CMD_TM_BEGIN) ∈ wlog w0 → follows w0 x n) as H0.
  { destruct Hi as (_&->&_). by intros n x ?%elem_of_nil. }
  clear Hi. induction Hrtc as [w|w w1 w2 Hst _ IH]; [done|]. apply IH; [by eapply step_sound|].
  intros n x Hin. destruct Hst as [l Hl].
  assert ((n, x, TX_CMD_TM_BEGIN) ∈ wlog w ∨ follows w1 x n) as [Hold|]; [|destruct (H0 _ _ Hold) as (s&Hr&Hsim)|done].
  - destruct l; try (left; eapply step_no_begin; [done|done|done|done]). by eapply client_follows.
  - eapply step_sim; [done|done|done|]. by exists l.
Qed.
End simulation.
End Simulation.
