(* ===== verification/BlocksAtomic.v ===== *)
(** * Atomic transactions on the blocks

    What [Simulation] gives for all transactions of all concurrency blocks at
    once, read off the replicated log and the answers to the clients.

    - [blocks_refine]: what a distributed transaction has logged and answered is
      a reachable state of [TwoPhase], with the coordinator the block keeps;
    - [blocks_atomic]: with any number of transactions in progress, no
      participant commits what another aborts; a client that was told success
      has the commit logged by every participant, a client that was told an error
      by none;
    - a run of two blocks in which one transaction commits while a second one
      has begun. *)

From S2P Require Import Prelude Common.
From S2P Require Import TxContext TxCoordinator TxStamp TwoPhase AtomicCommit CcBlock Blocks Simulation.
#[local] Open Scope Z_scope.

Module BlocksAtomic.
Import CcBlock.CcBlock Blocks.Blocks Simulation.Simulation.
Import (hints) TwoPhase.
Import TwoPhase(sys, tm, tm_wal, appended, resp).

Section atomic.
Context (home : Z → Z) (parse : list Z → option tx_log).
Abbreviation reachable := (reachable home parse).

(** The coordinator block [n] keeps for [x]. *)
Definition coordinator_of (w : world) (n x : Z) : option TxCoordinator.tx_coordinator :=
  b ← blocks w !! n; find_in x (tx_coordinator_ b).

(** The state of [TwoPhase] shows what the blocks did for [x]. *)
Record shown (w : world) (n0 x : Z) (s : sys) : Prop := mk_shown {
  sh_tm : coordinator_of w n0 x = Some (tm s);
  sh_tm_log : ∀ n t, is_tm t = true → (n, x, t) ∈ wlog w ↔ n = n0 ∧ t ∈ appended (tm_wal s);
  sh_rm_log : ∀ n t, is_tm t = false → (n, x, t) ∈ wlog w ↔ AtomicCommit.has_logged s n t;
  sh_answers : ∀ ec, (x, ec) ∈ answers w ↔ ec ∈ resp s;
}.

Lemma rm_sim_logged w x n s v t : is_tm t = false → rm_sim w x n s v → (n, x, t) ∈ wlog w ↔ AtomicCommit.has_logged s n t.
Proof.
  intros Ht Hr. unfold AtomicCommit.has_logged.
  destruct Hr as [r Er _ _ _ Hl|? ? ? ? ? Er _ _ _ _ _ _ Hl|Er _ Hl]; rewrite (Hl t Ht), Er; split.
  - eauto.
  - intros (r'&[= <-]&?). done.
  - by intros ?%elem_of_nil.
  - by intros (?&?&?).
  - by intros ?%elem_of_nil.
  - by intros (?&?&?).
Qed.

Lemma sim_shown w x n0 s : sim w x n0 s → shown w n0 x s.
Proof.
  intros [(b&Hb&Ht) Hrm Hno _ Hans Hlog _ _]. constructor; [|done| |done].
  - unfold coordinator_of. rewrite Hb. apply (t_tm _ _ _ _ _ Ht).
  - intros n t Ht'. destruct (blocks w !! n) as [bn|] eqn:Hn; [by eapply rm_sim_logged, Hrm|].
    destruct (Hno n Hn) as [Er Hl]. rewrite (Hl t Ht'). unfold AtomicCommit.has_logged. rewrite Er.
    split; [by intros ?%elem_of_nil|by intros (?&?&?)].
Qed.

Lemma begun_shown w n0 x : reachable w → (n0, x, TX_CMD_TM_BEGIN) ∈ wlog w → ∃ s, TwoPhase.reachable s ∧ shown w n0 x s.
Proof.
  intros [_ Hf]%reachable_follows Hb. destruct (Hf _ _ Hb) as (s&Hr&Hs). exists s. split; [done|]. by apply sim_shown.
Qed.

(** C2: in every reachable state of all blocks, whatever transactions run beside
    it, a distributed transaction that has begun has the coordinator, the log
    records at every node and the answers of one reachable state of the
    two-phase-commit protocol of that transaction alone. *)
Theorem blocks_refine w n0 x :
  reachable w → (n0, x, TX_CMD_TM_BEGIN) ∈ wlog w → ∃ s, TwoPhase.reachable s ∧ shown w n0 x s.
Proof. apply begun_shown. Qed.

Lemma atomic_of w n0 x :
  reachable w → (n0, x, TX_CMD_TM_BEGIN) ∈ wlog w →
  (∀ n m, ¬ ((n, x, TX_CMD_RM_COMMIT) ∈ wlog w ∧ (m, x, TX_CMD_RM_ABORT) ∈ wlog w)) ∧
  (∀ n, (n, x, TX_CMD_RM_COMMIT) ∈ wlog w → (n0, x, TX_CMD_TM_COMMIT) ∈ wlog w) ∧
  ((x, EC_OK) ∈ answers w → ∀ c k u, coordinator_of w n0 x = Some c → TxCoordinator.rm_tracer_ c !! k = Some u →
     (TxCoordinator.lead_ u, x, TX_CMD_RM_COMMIT) ∈ wlog w) ∧
  (∀ ec n, (x, ec) ∈ answers w → ec ≠ EC_OK → (n, x, TX_CMD_RM_COMMIT) ∉ wlog w).
Proof.
  intros Hw Hb. destruct (begun_shown _ _ _ Hw Hb) as (s&Hi%TwoPhase.reachable_inv&[Htm Htl Hrl Ha]).
  split_and!.
  - intros n m [Hc Habt]. rewrite Hrl in Hc, Habt by done. by eapply AtomicCommit.agreement_inv.
  - intros n Hc. rewrite Hrl in Hc by done. rewrite Htl by done. split; [done|].
    by apply (TwoPhase.i_durable _ Hi), (AtomicCommit.logged_commit _ n).
  - intros Hok c k u Hc Hu. rewrite Hrl by done. rewrite Ha in Hok. apply AtomicCommit.success_inv; [done|done|].
    exists k. rewrite Htm in Hc. simplify_eq. unfold TxCoordinator.leads. by rewrite lookup_fmap, Hu.
  - intros ec n He Hne. rewrite Hrl by done. rewrite Ha in He. by apply (AtomicCommit.error_inv _ _ Hi He Hne).
Qed.

(** C1: in every reachable state of all blocks, a distributed transaction is
    atomic: no node has logged its commit while another has logged its abort; its
    commit is logged only after its coordinator's; if its client was told success
    then the leader of every shard it runs on has logged the commit, and if the
    client was told an error, nobody has. *)
Theorem blocks_atomic w n0 x :
  reachable w → (n0, x, TX_CMD_TM_BEGIN) ∈ wlog w →
  (∀ n m, ¬ ((n, x, TX_CMD_RM_COMMIT) ∈ wlog w ∧ (m, x, TX_CMD_RM_ABORT) ∈ wlog w)) ∧
  (∀ n, (n, x, TX_CMD_RM_COMMIT) ∈ wlog w → (n0, x, TX_CMD_TM_COMMIT) ∈ wlog w) ∧
  ((x, EC_OK) ∈ answers w → ∀ c k u, coordinator_of w n0 x = Some c → TxCoordinator.rm_tracer_ c !! k = Some u →
     (TxCoordinator.lead_ u, x, TX_CMD_RM_COMMIT) ∈ wlog w) ∧
  (∀ ec n, (x, ec) ∈ answers w → ec ≠ EC_OK → (n, x, TX_CMD_RM_COMMIT) ∉ wlog w).
Proof. apply atomic_of. Qed.
End atomic.

(** ** A run

    Blocks [n1] and [n2] lead shards 1 and 2.  Terminal 5 sends a request for
    both shards to the first block, and while the participants commit it,
    terminal 6 sends another one. *)

Definition demo_parse (_ : list Z) : option tx_log := None.

Definition demo_req (terminal : Z) : tx_request :=
  AtomicCommit.demo_request <| req_xid := 0 |> <| req_terminal_id := terminal |>.
Definition demo_xid : Z := make_uint64 1 5.
Definition cached (_ _ _ : Z) : option string := Some "old"%string.

Section schedule.
Context (n1 n2 : Z).
Definition demo_home (_ : Z) : Z := n1.

Fixpoint run (ls : list (world → label)) (w : world) : option world :=
  match ls with
  | [] => Some w
  | l :: ls => exec demo_home demo_parse (l w) w ≫= run ls
  end.

Definition now (l : label) (_ : world) : label := l.
(** The message at position [i] of the network. *)
Definition deliver (i : nat) (w : world) : label :=
  match net w !! i with Some (x, m) => Deliver (msg_dest m) x m TxCoordinator.stats_zero | None => Tick 0 end.

Definition at_participant (n : Z) : world → label := now (RunCtx n demo_xid cached).
Definition at_coordinator : world → label := now (RunTm n1 demo_xid AtomicCommit.all_ok).
Definition participate (n : Z) (i : nat) : list (world → label) :=
  [deliver i; at_participant n; now (Lock n demo_xid EC_OK); now (Turn n demo_xid cached); now (Turn n demo_xid cached)].

Definition demo_schedule : list (world → label) :=
  [now (Client n1 3 (demo_req 5)); now (Commit 0); at_coordinator] ++ participate n1 1 ++ participate n2 0 ++
  [now (Commit 1); at_participant n1; now (Commit 2); at_participant n2;
   deliver 2; at_coordinator; deliver 3; at_coordinator; now (Commit 3); at_coordinator;
   now (Client n1 4 (demo_req 6));
   deliver 4; at_participant n2; deliver 5; at_participant n1;
   now (Commit 5); at_participant n2; now (Commit 6); at_participant n1;
   deliver 6; at_coordinator; deliver 7; at_coordinator].

Lemma run_world_steps ls w w' : run ls w = Some w' → rtc (step demo_home demo_parse) w w'.
Proof.
  revert w. induction ls as [|l ls IH]; intros w; simpl; [by intros [= ->]|].
  destruct (exec demo_home demo_parse (l w) w) as [w1|] eqn:E; [|done]. simpl. intros Hr.
  eapply rtc_l; [by exists (l w)|by apply IH].
Qed.

End schedule.

Definition demo_world : world :=
  mk_world (<[65537 := new_block 65537 65538 [1] AtomicCommit.demo_leads 10]>
              {[131073 := new_block 131073 131074 [2] AtomicCommit.demo_leads 10]}) [] [] ∅ [].
Definition demo_end : world := default demo_world (run 65537 (demo_schedule 65537 131073) demo_world).

Lemma demo_initial : initial demo_world.
Proof.
  split_and!; [done..|]. intros n b Hb.
  assert (∀ sd m, AtomicCommit.demo_leads !! sd = Some m → NodeId.TO_RG_ID m = sd) as Hl.
  { intros sd m. unfold AtomicCommit.demo_leads. intros [[<- <-]|[_ [<- <-]%lookup_singleton_Some]]%lookup_insert_Some; reflexivity. }
  cbn in Hb. apply lookup_insert_Some in Hb as [[<- <-]|[_ [<- <-]%lookup_singleton_Some]]; by repeat eexists.
Qed.

Lemma two_blocks_reachable : reachable (demo_home 65537) demo_parse demo_end.
Proof.
  exists demo_world. split; [apply demo_initial|]. apply (run_world_steps _ (demo_schedule 65537 131073)). unfold demo_end.
  destruct (run 65537 (demo_schedule 65537 131073) demo_world) eqn:E; [done|]. exfalso.
  assert (is_Some (run 65537 (demo_schedule 65537 131073) demo_world)) as [? ?] by (vm_compute; by eexists). congruence.
Qed.

Lemma demo_begun : (65537, demo_xid, TX_CMD_TM_BEGIN) ∈ wlog demo_end.
Proof. apply (bool_decide_unpack _). vm_compute. exact Logic.I. Qed.

Lemma blocks_well_formed_witness : answers demo_end = [(demo_xid, EC_OK)] ∧ sound (demo_home 65537) demo_end.
Proof. split; [vm_compute; reflexivity|]. apply (blocks_well_formed _ _ _ two_blocks_reachable). Defined.

Lemma blocks_refine_witness :
  answers demo_end = [(demo_xid, EC_OK)] ∧ ∃ s, TwoPhase.reachable s ∧ shown demo_end 65537 demo_xid s.
Proof. split; [vm_compute; reflexivity|]. apply (blocks_refine _ _ _ _ _ two_blocks_reachable demo_begun). Defined.

Lemma blocks_atomic_witness :
  (131073, demo_xid, TX_CMD_RM_COMMIT) ∈ wlog demo_end ∧ (65537, make_uint64 2 6, TX_CMD_TM_BEGIN) ∈ wlog demo_end ∧
  ∀ n m, ¬ ((n, demo_xid, TX_CMD_RM_COMMIT) ∈ wlog demo_end ∧ (m, demo_xid, TX_CMD_RM_ABORT) ∈ wlog demo_end).
Proof.
  split_and!; [apply (bool_decide_unpack _); vm_compute; exact Logic.I..|].
  apply (blocks_atomic _ _ _ _ _ two_blocks_reachable demo_begun).
Defined.
End BlocksAtomic.
