(* ===== verification/LogPath.v ===== *)
(** * Between the concurrency block and its replicated log

    The concurrency block ([CcBlock]) and its replication block ([RlBlock])
    exchange registrations, log records and commits:

    - [refused_append_recovers]: a block whose append was refused because the log
      is in another term registers again and its next append is taken;
    - [commits_reach]: the records the log has committed are on the strands of
      the transactions that wrote them, in log order and each once; when the
      append failed, each of these transactions gets one abort. *)

From stdpp Require Import sorting.
From S2P Require Import Prelude Common.
From S2P Require Import Bytes TxContext TxCoordinator TxLogFormat RlBlock CcBlock.
#[local] Open Scope Z_scope.
#[local] Open Scope act_scope.

Module LogPath.
Import CcBlock.CcBlock.

(** ** Records on the strands *)

(** Closures for a transaction: only strands of objects that exist take them. *)
Definition receive (cs : list ctx_task) (ts : list tm_task) (v : tx_view) : tx_view :=
  v <| v_ctx_tasks := v_ctx_tasks v ++ (if v_ctx v then cs else []) |>
    <| v_tm_tasks := v_tm_tasks v ++ (if v_tm v then ts else []) |>.

Lemma receive_nil v : receive [] [] v = v.
Proof. unfold receive. destruct v as [c cs t ts]. simpl. destruct c, t; simpl; by rewrite !app_nil_r. Qed.

Lemma receive_app cs ts cs' ts' v : receive cs' ts' (receive cs ts v) = receive (cs ++ cs') (ts ++ ts') v.
Proof. unfold receive. destruct v as [c k t l]. simpl. by destruct c, t; simpl; rewrite <- ?app_assoc, ?app_nil_r. Qed.

(** The closures of one record for transaction [x]. *)
Definition rm_task (x : Z) (l : tx_log) : list ctx_task :=
  if decide (log_xid l = x) then
    match log_type l with
    | TX_CMD_RM_PREPARE_ABORT | TX_CMD_RM_PREPARE_COMMIT | TX_CMD_RM_ABORT | TX_CMD_RM_COMMIT | TX_CMD_RM_BEGIN => [CLog (log_type l)]
    | _ => []
    end
  else [].
Definition co_task (x : Z) (l : tx_log) : list tm_task :=
  if decide (log_xid l = x) then
    match log_type l with
    | TX_CMD_TM_ABORT | TX_CMD_TM_COMMIT | TX_CMD_TM_BEGIN | TX_CMD_TM_END => [TLog (log_type l)]
    | _ => []
    end
  else [].

Definition same_tables (b : cc_block) : Prop := length (tx_coordinator_ b) = length (tx_context_ b).

Lemma find_in_table_lt {V} x (ts : list (gmap Z V)) v : find_in x ts = Some v → (table_of x < length ts)%nat.
Proof. unfold find_in. destruct (ts !! table_of x) eqn:E; [|done]. intros _. by eapply lookup_lt_Some. Qed.

Lemma to_context_view x y t b : view x (to_context y t b).1 = receive (if decide (x = y) then [t] else []) [] (view x b).
Proof.
  unfold to_context, indexed. destruct (decide (x = y)) as [->|Hne].
  - unfold receive. simpl. destruct (Nat.ltb_spec (table_of y) (length (tx_context_ b))) as [Hlt|Hlt]; cbn [fst].
    + destruct (find_in y (tx_context_ b)) as [c|] eqn:Ec; cbn [fst]; rewrite ?view_post_ctx, ?decide_True by done;
        unfold view; simpl; rewrite Ec; by destruct (find_in y (tx_coordinator_ b)); rewrite ?app_nil_r.
    + destruct (find_in y (tx_context_ b)) as [c|] eqn:Ec; [apply find_in_table_lt in Ec; lia|].
      unfold view. rewrite Ec. by destruct (find_in y (tx_coordinator_ b)); rewrite ?app_nil_r.
  - rewrite receive_nil. case_test; [|done]. case_match; [|done]. cbn. by rewrite view_post_ctx, decide_False.
Qed.

Lemma to_coordinator_view x y t b : same_tables b →
  view x (to_coordinator y t b).1 = receive [] (if decide (x = y) then [t] else []) (view x b).
Proof.
  intros Hb. unfold to_coordinator, indexed. rewrite <- Hb. destruct (decide (x = y)) as [->|Hne].
  - unfold receive. simpl. destruct (Nat.ltb_spec (table_of y) (length (tx_coordinator_ b))) as [Hlt|Hlt]; cbn [fst].
    + destruct (find_in y (tx_coordinator_ b)) as [c|] eqn:Ec; cbn [fst]; rewrite ?view_post_tm, ?decide_True by done;
        unfold view; simpl; rewrite Ec; by destruct (find_in y (tx_context_ b)); rewrite ?app_nil_r.
    + destruct (find_in y (tx_coordinator_ b)) as [c|] eqn:Ec; [apply find_in_table_lt in Ec; lia|].
      unfold view. rewrite Ec. by destruct (find_in y (tx_context_ b)); rewrite ?app_nil_r.
  - rewrite receive_nil. case_test; [|done]. case_match; [|done]. cbn. by rewrite view_post_tm, decide_False.
Qed.

Lemma same_tables_shape b b' : same_shape b b' → same_tables b → same_tables b'.
Proof. intros (_&_&_&H1&H2). unfold same_tables. congruence. Qed.

Lemma commit_record_view x l b : same_tables b → view x (commit_record l b).1 = receive (rm_task x l) (co_task x l) (view x b).
Proof.
  intros Hb. unfold commit_record, rm_task, co_task. destruct (log_type l); cbn [fst];
    rewrite ?to_context_view, ?to_coordinator_view by done; repeat case_decide; try congruence; by rewrite ?receive_nil.
Qed.

(** A handler that keeps the sizes of the tables. *)
Definition steady (h : handler) : Prop := ∀ b, same_shape b (h b).1 ∧ Forall block_event (h b).2.

Lemma touches_steady y R h : touches y R h → steady h.
Proof. intros Hh b. by destruct (Hh b) as (?&?&_). Qed.

Lemma commit_record_steady l : steady (commit_record l).
Proof.
  unfold commit_record. destruct (log_type l);
    first [by eapply touches_steady, to_context_touches|by eapply touches_steady, to_coordinator_touches|by intros b; split; [|constructor]].
Qed.

Lemma steady_then g h : steady g → steady h → steady (g ;; h).
Proof. intros Hg Hh b. rewrite and_then_eq. destruct (Hg b), (Hh (g b).1). split; [by etrans|by apply Forall_app]. Qed.

Lemma steady_each {A} (f : A → handler) l : (∀ a, steady (f a)) → steady (each f l).
Proof. intros Hf. induction l as [|a l IH]; [by intros b; split; [|constructor]|]. by apply steady_then. Qed.

(** What a sequence of handlers gives to a transaction. *)
Lemma each_view {A} (f : A → handler) (cs : A → list ctx_task) (ts : A → list tm_task) x l b :
  (∀ a, steady (f a)) → (∀ a c, same_tables c → view x (f a c).1 = receive (cs a) (ts a) (view x c)) → same_tables b →
  view x (each f l b).1 = receive (l ≫= cs) (l ≫= ts) (view x b).
Proof.
  intros Hs Hf. revert b. induction l as [|a l IH]; intros b Hb; [by rewrite receive_nil|]. cbn [each]. rewrite and_then_eq. cbn [fst].
  rewrite IH by (eapply same_tables_shape; [apply Hs|done]). by rewrite Hf, receive_app.
Qed.

Lemma abort_view ec x y b : same_tables b →
  view x (abort_tx y ec b).1 = receive (if decide (x = y) then [CAbort ec] else []) (if decide (x = y) then [TAbort ec] else []) (view x b).
Proof.
  intros Hb. unfold abort_tx. rewrite and_then_eq. cbn [fst]. rewrite to_coordinator_view, to_context_view, receive_app; [by rewrite app_nil_r|].
  eapply same_tables_shape; [apply (to_context_touches y (CAbort ec))|done].
Qed.

(** One closure, if [x] is among the ids. *)
Lemma bind_once {A} (x : Z) (a : A) l : NoDup l →
  l ≫= (fun y => if decide (x = y) then [a] else []) = if decide (x ∈ l) then [a] else [].
Proof.
  induction 1 as [|y l Hy Hl IH]; [done|]. cbn. rewrite IH. destruct (decide (x = y)) as [->|Hne].
  - rewrite decide_False, decide_True by (done || by left). done.
  - destruct (decide (x ∈ l)); [rewrite decide_True by by right|rewrite decide_False by set_solver]; done.
Qed.

Lemma xids_of_spec logs : NoDup (xids_of logs) ∧ ∀ x, x ∈ xids_of logs ↔ x ∈ map log_xid logs.
Proof.
  unfold xids_of. assert (merge_sort Z.le (remove_dups (map log_xid logs)) ≡ₚ remove_dups (map log_xid logs)) as E by apply merge_sort_Permutation.
  split; [rewrite E; apply NoDup_remove_dups|]. intros x. by rewrite E, elem_of_remove_dups.
Qed.

(** ** From the log to the block *)

Section commit.
Context (parse : list Z → option tx_log).

Lemma parse_own_records rs logs : Forall TxLogFormat.wf_record rs → mapM parse (map TxLogFormat.r_payload rs) = Some logs →
  TxLogFormat.handle_repeated_tx_logs_to_proto_and_timestamp parse (RlBlock.bytes_of rs) =
    Some (zip_with (fun l r => (l, TxLogFormat.r_timestamp r, TxLogFormat.r_node r)) logs rs).
Proof.
  intros Hrs Hp. unfold TxLogFormat.handle_repeated_tx_logs_to_proto_and_timestamp.
  rewrite (TxLogFormat.split_records rs Hrs : TxLogFormat.handle_repeated_tx_logs_to_buffer (RlBlock.bytes_of rs) = _).
  cbn [mbind option_bind]. revert logs Hp. induction Hrs as [|r rs Hr _ IH]; intros logs Hp.
  { by injection Hp as <-. }
  cbn [map mapM] in Hp |- *. rewrite TxLogFormat.payload_encode, TxLogFormat.timestamp_encode, TxLogFormat.node_id_encode by done.
  cbn [mbind option_bind]. destruct (parse (TxLogFormat.r_payload r)) as [l|]; [|done]. cbn [mbind option_bind] in *.
  destruct (mapM parse (map TxLogFormat.r_payload rs)) as [ls|]; [|done]. injection Hp as <-.
  rewrite (IH ls) by done. done.
Qed.

Lemma of_node_restamped n cur prev rs :
  map TxLogFormat.r_payload (RlBlock.of_node n (RlBlock.restamped cur prev rs)) = map TxLogFormat.r_payload (RlBlock.of_node n rs).
Proof.
  revert prev. induction rs as [|r rs IH]; intros prev; [done|]. cbn [RlBlock.restamped]. rewrite !RlBlock.of_node_cons.
  cbn [TxLogFormat.r_node]. case_decide; cbn [map]; by rewrite IH.
Qed.

(** The logs of the block's own records. *)
Lemma proto_set_own n rs logs ec src cno :
  Forall TxLogFormat.wf_record rs → Forall (fun r => TxLogFormat.r_node r = n) rs → mapM parse (map TxLogFormat.r_payload rs) = Some logs →
  rlb_commit_entries_to_proto_set parse n (RlBlock.mk_commit ec src cno (RlBlock.bytes_of rs)) = Some logs.
Proof.
  intros Hrs Hn Hp. unfold rlb_commit_entries_to_proto_set. cbn [RlBlock.ce_logs]. rewrite (parse_own_records _ _ Hrs Hp). cbn [mbind option_bind].
  f_equal. apply mapM_Some in Hp. clear Hrs. remember (map TxLogFormat.r_payload rs) as ps eqn:Eps. revert rs Hn Eps.
  induction Hp as [|p l ps ls Hl _ IH]; intros rs Hn Eps; destruct rs as [|r rs]; try done. cbn in Eps. injection Eps as -> ->.
  inversion Hn as [|? ? Hr Hn']; subst. cbn [zip_with]. rewrite filter_cons_True by done. cbn. by rewrite (IH rs Hn' eq_refl).
Qed.

(** What transaction [x] gets for the records [logs]. *)
Definition due (ec : EC) (x : Z) (logs : list tx_log) : tx_view → tx_view :=
  if EC_eqb ec EC_OK then receive (logs ≫= rm_task x) (logs ≫= co_task x)
  else if decide (x ∈ map log_xid logs) then receive [CAbort EC_APPEND_LOG_ERROR] [TAbort EC_APPEND_LOG_ERROR] else id.

Lemma append_response_view m b logs x :
  same_tables b → rlb_commit_entries_to_proto_set parse (node_id_ b) m = Some logs →
  view x (handle_append_log_response parse m b).1 = due (RlBlock.ce_error_code m) x logs (view x b).
Proof.
  intros Hb Hp. unfold handle_append_log_response, due. rewrite Hp. case_test.
  - apply each_view; [apply commit_record_steady| |done]. intros a c Hc. by apply commit_record_view.
  - destruct (xids_of_spec logs) as [Hnd Hin].
    rewrite (each_view _ (fun y => if decide (x = y) then [CAbort EC_APPEND_LOG_ERROR] else [])
      (fun y => if decide (x = y) then [TAbort EC_APPEND_LOG_ERROR] else [])); [| |by intros; apply abort_view|done].
    + rewrite !bind_once by done. destruct (decide (x ∈ map log_xid logs)) as [Hx|Hx].
      * by rewrite !decide_True by by apply Hin.
      * rewrite !decide_False by by rewrite Hin. apply receive_nil.
    + intros y. apply steady_then; [eapply touches_steady, to_context_touches|eapply touches_steady, to_coordinator_touches].
Qed.

(** C21: the replicated log's answer to committed records reaches the
    transactions that wrote them: a block that wrote some of the records gets one
    message, and handling it gives each transaction with a context or a
    coordinator there exactly its records, in log order and each once; if the
    append failed, each transaction named gets one abort instead. *)
Theorem commits_reach ec cur rss r b logs :
  let n := node_id_ b in
  Forall (Forall TxLogFormat.wf_record) rss → same_tables b →
  mapM parse (map TxLogFormat.r_payload (RlBlock.of_node n (concat rss))) = Some logs → logs ≠ [] →
  ∃ evs m, RlBlock.response_commit_log parse ec cur (map RlBlock.bytes_of rss) r = Some evs ∧
    (∀ m', RlBlock.SendCommit n m' ∈ evs ↔ m' = m) ∧
    ∀ x, view x (ccb_handle_message parse (CommitEntries m) b).1 = due ec x logs (view x b).
Proof.
  intros n Hrss Hb Hp Hne. set (rs := RlBlock.of_node n (RlBlock.restamped cur 0 (concat rss))).
  assert (RlBlock.of_node n (concat rss) ≠ []) as Hno. { intros E. rewrite E in Hp. by injection Hp as <-. }
  assert (rss ≠ []) as Hne' by by destruct rss.
  destruct (RlBlock.response_ok parse ec cur rss r Hrss Hne') as (o&_&E).
  eexists _, (RlBlock.mk_commit ec (RlBlock.node_id_ r) (RlBlock.cno_ r) (RlBlock.bytes_of rs)). split; [exact E|]. split.
  - intros m'. destruct (RlBlock.commit_message parse ec cur rss r n m' Hrss Hne') as (evs&E'&Hin). rewrite E in E'. injection E' as <-.
    rewrite Hin. naive_solver.
  - intros x. apply append_response_view; [done|]. apply proto_set_own.
    + destruct (RlBlock.restamped_ok cur 0 (concat rss)) as [Hwf _]; [by apply Forall_concat|done|].
      rewrite Forall_forall in Hwf. apply Forall_forall. intros k. unfold rs, RlBlock.of_node. rewrite list_elem_of_filter. by intros [_ ?%Hwf].
    + apply Forall_forall. intros k. unfold rs, RlBlock.of_node. by rewrite list_elem_of_filter; intros [? _].
    + unfold rs. by rewrite of_node_restamped.
Qed.
End commit.

(** ** Registration *)

(** A tick of the block, the replication block's handler and its response, if
    there is one. *)
Definition register_round (s : RlBlock.sm_status) (b : cc_block) (r : RlBlock.rl_block) : cc_block * RlBlock.rl_block :=
  match send_register b with
  | (b, [SendRegister _ source cno shard_ids]) =>
      let '(r, ev) := RlBlock.handle_register_ccb s source cno shard_ids r in
      (match ev with
       | [RlBlock.RegisterCcbResponse _ term _ is_lead shards] => (strand_ccb_handle_register_ccb_response term is_lead shards b).1
       | _ => b
       end, r)
  | (b, _) => (b, r)
  end.

(** The replication block knows a storage block for every shard. *)
Definition stored (ids : list Z) (r : RlBlock.rl_block) : Prop := ∀ id, id ∈ ids → is_Some (RlBlock.dsb_shards_ r !! id).

Lemma register_shards_stored node ids r :
  stored ids r → ∃ shards r', RlBlock.register_shards node ids r = (r', Some shards) ∧ shards.*1 = ids ∧
    RlBlock.cno_ r' = RlBlock.cno_ r.
Proof.
  revert r. induction ids as [|id ids IH]; intros r Hr; [by exists [], r|]. cbn [RlBlock.register_shards].
  set (m := match RlBlock.ccb_shards_ r !! id with Some _ => _ | None => _ end). cbv zeta.
  set (r1 := if (1 <? size m)%nat then _ else _).
  assert (RlBlock.dsb_shards_ r1 = RlBlock.dsb_shards_ r ∧ RlBlock.cno_ r1 = RlBlock.cno_ r) as [E Ec] by (unfold r1; by case_test).
  destruct (Hr id) as [d Hd]; [by left|]. rewrite E, Hd.
  destruct (IH r1) as (l&r'&->&El&Er). { intros k Hk. rewrite E. apply Hr. by right. }
  exists ((id, d) :: l), r'. cbn. rewrite El, Er. done.
Qed.

Lemma add_dsb_known shards m id : is_Some (m !! id) ∨ id ∈ shards.*1 → is_Some (foldl add_dsb m shards !! id).
Proof.
  revert m. induction shards as [|[k d] l IH]; intros m Hid; cbn [foldl]; [by destruct Hid as [|?%elem_of_nil]|].
  apply IH. unfold add_dsb. cbn [fst snd]. cbn in Hid. rewrite elem_of_cons in Hid.
  destruct (m !! k) as [d'|] eqn:Ek.
  - destruct Hid as [|[->|]]; [by left|left; by eexists|by right].
  - destruct (decide (k = id)) as [->|Hne]; [left; rewrite lookup_insert_eq; by eexists|].
    rewrite lookup_insert_ne by done. destruct Hid as [|[->|]]; [by left|done|by right].
Qed.

(** The response of another term. *)
Lemma response_registers cno is_lead shards b :
  cno_ b ≠ cno →
  let b' := (strand_ccb_handle_register_ccb_response cno is_lead shards b).1 in
  registered_ b' = true ∧ cno_ b' = cno ∧ leader_ b' = is_lead ∧ wal_ b' = TxLogFormat.set_cno cno (wal_ b) ∧
  ∀ id, is_Some (dsb_shard2node_ b !! id) ∨ id ∈ shards.*1 → is_Some (dsb_shard2node_ b' !! id).
Proof.
  intros Hc. unfold strand_ccb_handle_register_ccb_response. destruct (Z.eqb_spec (cno_ b) cno); [done|]. cbn [fst].
  simpl. repeat case_match; simpl; split_and!; try done; intros id; apply add_dsb_known.
Qed.

Lemma register_again s b r :
  RlBlock.serving s = true → registered_ b = false → stored (shard_ids_ b) r →
  let '(b', r') := register_round s b r in
  registered_ b' = true ∧ cno_ b' = RlBlock.s_term s ∧ leader_ b' = RlBlock.is_leader s ∧
  wal_ b' = TxLogFormat.set_cno (RlBlock.s_term s) (wal_ b) ∧ RlBlock.cno_ r' = RlBlock.cno_ r ∧
  ∀ id, id ∈ shard_ids_ b → is_Some (dsb_shard2node_ b' !! id).
Proof.
  intros Hs Hr Hst. assert (RlBlock.s_term s ≠ 0) as Ht.
  { unfold RlBlock.serving in Hs. apply andb_prop in Hs as [Hs _]. by apply negb_true_iff, Z.eqb_neq in Hs. }
  unfold register_round, send_register. rewrite Hr. simpl. unfold RlBlock.handle_register_ccb. rewrite Hs. cbn [negb].
  destruct (Z.eqb_spec (RlBlock.s_term s) 0) as [|_]; [done|].
  set (r1 := if bool_decide (RlBlock.ccb_node_id_ r = None) && _ then _ else _).
  assert (RlBlock.dsb_shards_ r1 = RlBlock.dsb_shards_ r ∧ RlBlock.cno_ r1 = RlBlock.cno_ r) as [E Ec] by (unfold r1; by case_test).
  destruct (register_shards_stored (node_id_ b) (shard_ids_ b) r1) as (l&r'&->&El&Er).
  { intros id Hid. rewrite E. by apply Hst. }
  edestruct (response_registers (RlBlock.s_term s) (RlBlock.is_leader s) l) as (H1&H2&H3&H4&H5); [|split_and!; [exact H1|exact H2|exact H3|..]].
  - simpl. congruence.
  - rewrite H4. done.
  - congruence.
  - intros id Hid. apply H5. right. by rewrite El.
Qed.

(** C22: when the replicated log is in another term than a block's append, it
    refuses the append; the block that is told so registers at its next tick, and
    then has the log's term, knows a storage block for each of its shards, and
    every append it makes is taken. *)
Theorem refused_append_recovers parse s b r req entries :
  RlBlock.serving s = true → RlBlock.cno_ r = RlBlock.s_term s → stored (shard_ids_ b) r →
  TxLogFormat.cno req ≠ RlBlock.cno_ r → TxLogFormat.source req = node_id_ b →
  let node := TxLogFormat.node_id_ (wal_ b) in
  fits 32 node → Forall (fun log => 8 ≤ zlen log < 2 ^ 62) entries →
  zlen (concat (map (fun l => TxLogFormat.encode (TxLogFormat.wal_record node l)) entries)) < 2 ^ 64 →
  RlBlock.handle_append_entries req r = (r, [RlBlock.ErrorConsistency (node_id_ b) (RlBlock.cno_ r)]) ∧
  let '(b', r') := register_round s (ccb_handle_message parse ErrorConsistency b).1 r in
  registered_ b' = true ∧ (∀ id, id ∈ shard_ids_ b → is_Some (dsb_shard2node_ b' !! id)) ∧
  ∃ req', TxLogFormat.async_append entries (wal_ b') = Some req' ∧
    RlBlock.handle_append_entries req' r' = (r', [RlBlock.AppendLog (TxLogFormat.repeated_tx_logs req')]).
Proof.
  intros Hs Hr Hst Hc Hsrc node Hn He Hl. split.
  { unfold RlBlock.handle_append_entries. destruct (Z.eqb_spec (TxLogFormat.cno req) (RlBlock.cno_ r)); [done|]. by rewrite Hsrc. }
  assert (RlBlock.s_term s ≠ 0) as Ht.
  { unfold RlBlock.serving in Hs. apply andb_prop in Hs as [Hs _]. by apply negb_true_iff, Z.eqb_neq in Hs. }
  pose proof (register_again s (b <| registered_ := false |>) r Hs eq_refl Hst) as Hreg.
  change (ccb_handle_message parse ErrorConsistency b).1 with (b <| registered_ := false |>).
  destruct (register_round s _ r) as [b' r']. destruct Hreg as (H1&_&_&H4&H5&H6). split_and!; [done|done|].
  destruct (TxLogFormat.async_append_ok entries (wal_ b')) as [E _]; [by rewrite H4|by rewrite H4|done|by rewrite H4|].
  eexists. split; [exact E|]. unfold RlBlock.handle_append_entries. cbn. rewrite H4, H5. simpl. rewrite Hr.
  by rewrite Z.eqb_refl.
Qed.

(** ** Witnesses *)

(** Block 65537 with shard 1 was in term 2; the log is in term 3. *)
Definition demo_ccb : cc_block :=
  (new_block 65537 65538 [1] ∅ 10) <| cno_ := 2 |> <| registered_ := true |> <| wal_ ::= TxLogFormat.set_cno 2 |>.
Definition demo_rlb : RlBlock.rl_block := RlBlock.mk_rlb 3 65538 ∅ {[1 := 65540]} None (Some 65540) ∅.
Definition demo_status : RlBlock.sm_status := RlBlock.mk_status Raft.Raft.RAFT_STATE_LEADER 3 65538.

Lemma refused_append_recovers_witness :
  let '(b', r') := register_round demo_status (ccb_handle_message (fun _ => None) ErrorConsistency demo_ccb).1 demo_rlb in
  registered_ b' = true ∧ ∃ req', TxLogFormat.async_append [le 8 5] (wal_ b') = Some req' ∧
    RlBlock.handle_append_entries req' r' = (r', [RlBlock.AppendLog (TxLogFormat.repeated_tx_logs req')]).
Proof.
  destruct (refused_append_recovers (fun _ => None) demo_status demo_ccb demo_rlb
    (TxLogFormat.mk_append_request 65537 65538 2 []) [le 8 5]) as [_ H].
  - reflexivity.
  - reflexivity.
  - intros id ->%list_elem_of_singleton. vm_compute. by eexists.
  - done.
  - reflexivity.
  - vm_compute. split; congruence.
  - repeat constructor; vm_compute; congruence.
  - reflexivity.
  - destruct (register_round _ _ _) as [b' r']. destruct H as (H1&_&H3). by split.
Defined.

(** A block with one context, whose vote was written to the log beside records
    of another node. *)
Definition demo_xid : Z := make_uint64 1 5.
Definition demo_block : cc_block :=
  (new_block 7 65538 [1] ∅ 10) <| tx_context_ ::= fun ts => (insert_in demo_xid (TxContext.new_ctx demo_xid 7 None ∅ 3 true true) ts).2 |>.
Definition demo_parse (p : list Z) : option tx_log := Some (mk_log TX_CMD_RM_PREPARE_COMMIT (le_val p) []).
Definition demo_logs : list (list TxLogFormat.log_record) :=
  [[TxLogFormat.mk_record (le 8 3) 0 8; TxLogFormat.mk_record (le 8 demo_xid) 0 7]].

Lemma commits_reach_witness :
  ∃ evs m, RlBlock.response_commit_log demo_parse EC_OK 25 (map RlBlock.bytes_of demo_logs) demo_rlb = Some evs ∧
    (∀ m', RlBlock.SendCommit 7 m' ∈ evs ↔ m' = m) ∧
    v_ctx_tasks (view demo_xid (ccb_handle_message demo_parse (CommitEntries m) demo_block).1) = [CLog TX_CMD_RM_PREPARE_COMMIT].
Proof.
  destruct (commits_reach demo_parse EC_OK 25 demo_logs demo_rlb demo_block [mk_log TX_CMD_RM_PREPARE_COMMIT demo_xid []]) as (evs&m&E&Hm&Hv).
  - repeat constructor; vm_compute; congruence.
  - reflexivity.
  - vm_compute. reflexivity.
  - done.
  - exists evs, m. split; [exact E|]. split; [exact Hm|]. rewrite (Hv demo_xid). vm_compute. reflexivity.
Defined.
End LogPath.
