(* ===== verification/Config.v ===== *)
(** * The configuration

    [src/common/config.cpp], [include/common/config.h] and
    [include/common/node_config.h]: every node reads the same list of servers,
    numbers the zones and shards by the order of their names, packs each
    server's node id from them, and derives from the list which node leads a
    shard, where a shard's blocks are and which replicated log a node registers
    with.  The blocks read all of this from here.

    JSON, addresses and ports are left out.  A [PANIC], a failed assertion and an
    index out of range are [None].

    - [config_leads]: with one shard per server, the node the configuration names
      as the leader of a shard has the shard in its id, runs a concurrency block,
      and has the highest priority of the shard's servers;
    - [leads_agree]: the table of leaders agrees with the leader found for each
      shard alone, or is empty because one shard has none;
    - [node_ids_unique]: servers with the same id are in the same zone, have the
      same first shard and run the same blocks;
    - [sub_set_of_spec]: the test by which a server chooses the log it registers
      with is inclusion of its shards in those of the log's node;
    - [neighbour_is_own_shard]: with one shard per server, the deadlock detector of
      each block is told to pass its graph on to the leader of its own shard. *)

From stdpp Require Import sorting strings.
From S2P Require Import Prelude Common Store.
#[local] Open Scope Z_scope.

Module Config.
Import NodeId Store(NUM_ORDER_MAX).

Definition BLOCK_CLIENT : string := "CLIENT"%string.

(** ** Nodes *)

(** [rg_id] is [shard_ids()]. *)
(* @src include/common/node_config.h 21 45 node_config *)
Record node_config := mk_node {
  node_id : Z;
  az_id : Z;
  rg_id : list Z;
  node_name : string;
  az_name : string;
  rg_name : list string;
  priority : Z;
  block_type : gset string;
}.
#[export] Instance eta_node : Eta node_config := fun c =>
  mk_node (node_id c) (az_id c) (rg_id c) (node_name c) (az_name c) (rg_name c) (priority c) (block_type c).

(* @src include/common/node_config.h 120 128 node_config::is_client *)
Definition is_client (c : node_config) : option bool :=
  if bool_decide (BLOCK_CLIENT ∈ block_type c) then (if (size (block_type c) =? 1)%nat then Some true else None) else Some false.

(* @src include/common/config.h 22 44 config *)
Record config := mk_config {
  conf_node_name : string;
  node_conf_ : option node_config;
  node_client_list_ : list node_config;
  node_server_list_ : list node_config;
  az2rg2node_ : gmap Z (gmap Z (list node_config));
  rg2az2node_ : gmap Z (gmap Z (list node_config));
  priority_ : gmap Z (gmap Z (list Z));
  node2conf_ : gmap Z node_config;
  num_rep_group_ : Z;
  num_replica_ : Z;
  ccb_shard_ : gmap Z Z;
  dsb_shard_ : gmap Z Z;
  rlb_shard_ : gmap Z Z;
  mapping_ : bool;
  register_to_rlb_node_id : Z;
}.
#[export] Instance eta_config : Eta config := fun b =>
  mk_config (conf_node_name b) (node_conf_ b) (node_client_list_ b) (node_server_list_ b) (az2rg2node_ b) (rg2az2node_ b)
    (priority_ b) (node2conf_ b) (num_rep_group_ b) (num_replica_ b) (ccb_shard_ b) (dsb_shard_ b) (rlb_shard_ b)
    (mapping_ b) (register_to_rlb_node_id b).

(** A configuration as it was read. *)
(* @src src/common/config.cpp 5 10 config::config *)
Definition new_config (name : string) (clients servers : list node_config) : config :=
  mk_config name None clients servers ∅ ∅ ∅ ∅ 0 0 ∅ ∅ ∅ false 0.

(** ** Numbers for names *)

Definition string_le (s t : string) : Prop := String.leb s t = true.
#[local] Instance string_le_dec s t : Decision (string_le s t).
Proof. unfold string_le. apply _. Defined.

(** [std::set<std::string>]: the names in order, each once. *)
Definition name_set (names : list string) : list string := merge_sort string_le (remove_dups names).

(** The names are numbered from 1. *)
Definition id_of (names : list string) (s : string) : option Z := (fun p => Z.of_nat p.1 + 1) <$> list_find (eq s) names.

(** How many entries of the vector come before the first [i]. *)
Fixpoint scan (i : Z) (l : list Z) : Z :=
  match l with
  | [] => 0
  | j :: l => if j =? i then 0 else 1 + scan i l
  end.

(* @src include/common/config.h 174 191 config::sub_set_of *)
Definition sub_set_of (set1 set2 : list Z) : bool :=
  forallb (fun i => negb (scan i set2 =? Z.of_nat (length set2))) set1.

(* @src src/common/config.cpp 194 207 config::re_generate_id *)
Definition set_ids (azs shards : list string) (c : node_config) : option node_config :=
  az ← id_of azs (az_name c);
  ids ← mapM (id_of shards) (rg_name c);
  Some (c <| az_id := az |> <| rg_id ::= fun l => l ++ ids |>).

(* @src src/common/config.cpp 208 215 config::re_generate_id *)
Definition set_server_id (c : node_config) : option node_config :=
  if (az_id c =? 0) || bool_decide (block_type c = ∅) then None
  else
    sd_id ← head (rg_id c);
    let id := MAKE_NODE_ID (az_id c) sd_id (block_type c) in
    if id =? 0 then None else Some (c <| node_id := id |>).

(** The log the node [this] registers with. *)
(* @src src/common/config.cpp 225 235 config::re_generate_id *)
Fixpoint find_register (this : node_config) (servers : list node_config) (found : Z) : option Z :=
  match servers with
  | [] => Some found
  | c :: servers =>
      if bool_decide (az_name this = az_name c) && sub_set_of (rg_id this) (rg_id c) && bool_decide (BLOCK_RLB ∈ block_type c)
      then if found =? 0 then find_register this servers (node_id c) else None
      else find_register this servers found
  end.

(** A zone without servers has no number: [operator[]] gives 0. *)
(* @src src/common/config.cpp 252 263 config::re_generate_id *)
Definition set_client_id (azs : list string) (i : nat) (c : node_config) : option node_config :=
  let client_id := Z.of_nat i + 1 in
  let c := c <| az_id := default 0 (id_of azs (az_name c)) |> <| rg_id ::= fun l => l ++ [client_id] |> in
  if bool_decide (block_type c = ∅) then None
  else
    let id := MAKE_NODE_ID (az_id c) client_id (block_type c) in
    if id =? 0 then None else Some (c <| node_id := id |>).

Definition named (s : string) (c : node_config) : Prop := node_name c = s.
#[local] Instance named_dec s c : Decision (named s c).
Proof. unfold named. apply _. Defined.

(** The pointer to the own entry is its position in one of the two lists. *)
(* @src src/common/config.cpp 166 268 config::re_generate_id *)
Definition re_generate_id (b : config) : option config :=
  let shards := name_set (node_server_list_ b ≫= rg_name) in
  let azs := name_set (map az_name (node_server_list_ b)) in
  servers ← mapM (set_ids azs shards) (node_server_list_ b);
  servers ← mapM set_server_id servers;
  clients ← mapM (fun p => set_client_id azs p.1 p.2) (imap pair (node_client_list_ b));
  match list_find (named (conf_node_name b)) servers with
  | Some (_, this) =>
      r ← find_register this servers (register_to_rlb_node_id b);
      if r =? 0 then None
      else Some (b <| node_server_list_ := servers |> <| node_client_list_ := clients |> <| node_conf_ := Some this |>
                   <| register_to_rlb_node_id := r |>)
  | None =>
      match filter (named (conf_node_name b)) clients with
      | [this] => Some (b <| node_server_list_ := servers |> <| node_client_list_ := clients |> <| node_conf_ := Some this |>)
      | _ => None
      end
  end.

(** ** The mapping *)

(** [m[k1][k2].push_back(x)]. *)
Definition push2 {A} (k1 k2 : Z) (x : A) (m : gmap Z (gmap Z (list A))) : gmap Z (gmap Z (list A)) :=
  let inner := default ∅ (m !! k1) in <[k1 := <[k2 := default [] (inner !! k2) ++ [x]]> inner]> m.

(** [std::map] in the order of its keys. *)
Definition key_le {A} (p q : Z * A) : Prop := p.1 ≤ q.1.
#[local] Instance key_le_dec {A} (p q : Z * A) : Decision (key_le p q).
Proof. unfold key_le. apply _. Defined.
Definition in_order {A} (m : gmap Z A) : list (Z * A) := merge_sort key_le (map_to_list m).

(** The pairs of the loop: each server with each of its shards. *)
Definition by_shard (servers : list node_config) : list (Z * node_config) := servers ≫= fun c => map (fun s => (s, c)) (rg_id c).

Definition priorities (servers : list node_config) : gmap Z (gmap Z Z) :=
  foldl (fun m p => <[p.1 := <[node_id p.2 := priority p.2]> (default ∅ (m !! p.1))]> m) ∅ (by_shard servers).

Definition rank (ranked : gmap Z (gmap Z (list Z))) (priority : gmap Z (gmap Z Z)) : gmap Z (gmap Z (list Z)) :=
  foldl (fun m kv => foldl (fun m p => push2 kv.1 p.2 p.1 m) m (in_order kv.2)) ranked (in_order priority).

(** [insert] keeps the first node of the shard that has the block. *)
Definition first_with (bt : string) (nodes : list node_config) : option Z :=
  node_id <$> head (filter (fun n => bt ∈ block_type n) nodes).

(* @src src/common/config.cpp 16 72 config::generate_mapping *)
Definition generate_mapping (b : config) : option config :=
  if mapping_ b then Some b
  else
    b ← re_generate_id b;
    this ← node_conf_ b;
    kinds ← mapM is_client (node_server_list_ b);
    let servers := (filter (fun p : bool * node_config => p.1 = false) (zip kinds (node_server_list_ b))).*2 in
    let az2rg2node := foldl (fun m p => push2 (az_id p.2) p.1 p.2 m) (az2rg2node_ b) (by_shard servers) in
    let rg2az2node := foldl (fun m p => push2 p.1 (az_id p.2) p.2 m) (rg2az2node_ b) (by_shard servers) in
    let own := default ∅ (az2rg2node !! az_id this) in
    let az2rg2node := <[az_id this := own]> az2rg2node in
    let num_replica := Z.of_nat (size az2rg2node) in
    let num_rep_group := Z.of_nat (size rg2az2node) in
    if (num_replica =? 0) || (num_rep_group =? 0) then None
    else Some (b <| az2rg2node_ := az2rg2node |> <| rg2az2node_ := rg2az2node |> <| priority_ := rank (priority_ b) (priorities servers) |>
                 <| node2conf_ := foldl (fun m c => <[node_id c := c]> m) (node2conf_ b) servers |>
                 <| ccb_shard_ := omap (first_with BLOCK_CCB) own |> <| rlb_shard_ := omap (first_with BLOCK_RLB) own |>
                 <| dsb_shard_ := omap (first_with BLOCK_DSB) own |>
                 <| num_replica_ := num_replica |> <| num_rep_group_ := num_rep_group |> <| mapping_ := true |>).

(** ** Queries

    They first call [generate_mapping], which does nothing once it has run. *)

(* @src src/common/config.cpp 74 77 config::num_rg *)
Definition num_rg (b : config) : Z := num_rep_group_ b.

(* @src src/common/config.cpp 79 86 config::all_shard_ids *)
Definition all_shard_ids (b : config) : list Z := (in_order (rg2az2node_ b)).*1.

(* @src src/common/config.cpp 97 107 config::get_node_conf *)
Definition get_node_conf (id : Z) (b : config) : option node_config :=
  c ← node2conf_ b !! id; if node_id c =? 0 then None else Some c.

(** [shuffle] is [std::shuffle] with a random engine. *)
(* @src src/common/config.cpp 109 127 config::get_rg_nodes *)
Definition get_rg_nodes (shuffle : list Z → list Z) (sd_id : Z) (b : config) : option (list Z) :=
  let nodes := in_order (default ∅ (rg2az2node_ b !! sd_id)) ≫= snd in
  if forallb (fun c => bool_decide (sd_id ∈ rg_id c)) nodes then Some (shuffle (map node_id nodes)) else None.

(* @src src/common/config.cpp 147 157 config::get_rg_block_nodes *)
Definition get_rg_block_nodes (shuffle : list Z → list Z) (sd_id : Z) (bt : block_type_id_t) (b : config) : option (list Z) :=
  filter (fun n => is_block_type n bt = true) <$> get_rg_nodes shuffle sd_id b.

(** [rbegin()->second]. *)
Definition top (buckets : gmap Z (list Z)) : option (list Z) := snd <$> last (in_order buckets).

(* @src src/common/config.cpp 129 145 config::get_largest_priority_node_of_shard *)
Definition get_largest_priority_node_of_shard (shard : Z) (b : config) : option Z :=
  buckets ← priority_ b !! shard;
  nodes ← top buckets;
  head (filter (fun n => is_ccb_block n = true) nodes).

(* @src src/common/config.cpp 88 95 config::num_az *)
Definition num_az (b : config) : Z := num_replica_ b.

(** [insert] keeps the first node it was given for a shard. *)
Definition insert_lead (sd : Z) (leads : gmap Z Z) (n : Z) : gmap Z Z :=
  if is_ccb_block n then (match leads !! sd with Some _ => leads | None => <[sd := n]> leads end) else leads.

(** A shard without buckets ends the loop and the function. *)
Fixpoint lead_scan (shards : list (Z * gmap Z (list Z))) (leads : gmap Z Z) : bool * gmap Z Z :=
  match shards with
  | [] => (true, leads)
  | (sd, buckets) :: shards =>
      match top buckets with
      | None => (false, leads)
      | Some nodes => lead_scan shards (foldl (insert_lead sd) leads nodes)
      end
  end.

(* @src src/common/config.cpp 358 378 config::priority_lead_nodes *)
Definition priority_lead_nodes (b : config) : gmap Z Z :=
  let '(whole, leads) := lead_scan (in_order (priority_ b)) ∅ in
  if whole then (if (size (priority_ b) =? size leads)%nat then leads else ∅) else leads.

(* @src src/common/config.cpp 346 356 config::valid_check *)
Definition valid_check (num_order_initialize num_district num_warehouse num_new_order : Z) : bool :=
  negb (NUM_ORDER_MAX <? u64 (u64 (u64 (num_order_initialize * num_district) * num_warehouse) + num_new_order)).

(** ** What a concurrency block takes from it *)

(** The shard after the block's own, in a ring of [shard_ids()], which are the
    shards of this node. *)
(* @src src/concurrency/cc_block.cpp 42 53 cc_block::cc_block *)
Definition neighbour_shard (b : config) : option Z :=
  this ← node_conf_ b;
  let sids := merge_sort Z.le (remove_dups (rg_id this)) in
  '(i, _) ← list_find (eq (TO_RG_ID (node_id this))) sids;
  Some (default (default 0 (head sids)) (sids !! S i)).

(** Where the deadlock detector passes its graph on to; 0 when it keeps it. *)
(* @src src/concurrency/cc_block.cpp 69 81 cc_block::on_start *)
Definition next_node (b : config) : option Z :=
  neighbour ← neighbour_shard b;
  Some (default 0 (priority_lead_nodes b !! neighbour)).

(** ** Numbers *)

Lemma id_of_Some names s k : id_of names s = Some k → 1 ≤ k ≤ Z.of_nat (length names) ∧ names !! Z.to_nat (k - 1) = Some s.
Proof.
  unfold id_of. destruct (list_find (eq s) names) as [[i t]|] eqn:E; [|done]. intros [= <-].
  apply list_find_Some in E as (Hi&->&_). apply lookup_lt_Some in Hi as Hlt. cbn. split; [lia|].
  by replace (Z.to_nat (Z.of_nat i + 1 - 1)) with i by lia.
Qed.

Lemma id_of_inj names s t k : id_of names s = Some k → id_of names t = Some k → s = t.
Proof. intros [_ Hs]%id_of_Some [_ Ht]%id_of_Some. congruence. Qed.

Lemma scan_spec i l : 0 ≤ scan i l ≤ Z.of_nat (length l) ∧ (scan i l = Z.of_nat (length l) ↔ i ∉ l).
Proof.
  induction l as [|j l [IH1 IH2]]; cbn [scan length]; [split; [lia|]; split; [by intros _ ?%elem_of_nil|done]|].
  destruct (Z.eqb_spec j i) as [->|Hj].
  - split; [lia|]. split; [lia|]. intros H. destruct H. by left.
  - split; [lia|]. rewrite not_elem_of_cons. rewrite <- IH2. split; [intros; split; [done|lia]|intros [_ ?]; lia].
Qed.

Lemma sub_set_of_spec s1 s2 : sub_set_of s1 s2 = true ↔ s1 ⊆ s2.
Proof.
  unfold sub_set_of. rewrite forallb_forall. split; intros H i Hi.
  - apply list_elem_of_In, H in Hi. apply negb_true_iff, Z.eqb_neq in Hi. destruct (decide (i ∈ s2)) as [|Hn]; [done|].
    by apply (proj2 (scan_spec i s2)) in Hn.
  - apply list_elem_of_In in Hi. apply negb_true_iff, Z.eqb_neq. intros E%(proj2 (scan_spec i s2)). by apply E, H.
Qed.

(** ** The servers after [re_generate_id] *)

(** A server as the code leaves it: its numbers are those of its names. *)
Record numbered (azs shards : list string) (c : node_config) : Prop := mk_numbered {
  nu_az : id_of azs (az_name c) = Some (az_id c);
  nu_rg : mapM (id_of shards) (rg_name c) = Some (rg_id c);
  nu_id : ∃ sd, head (rg_id c) = Some sd ∧ node_id c = MAKE_NODE_ID (az_id c) sd (block_type c);
}.

Definition azs_of (servers : list node_config) : list string := name_set (map az_name servers).
Definition shards_of (servers : list node_config) : list string := name_set (servers ≫= rg_name).

(** As read from the file, no number is set; a zone fits 8 bits, a shard 16. *)
Record readable (servers : list node_config) : Prop := mk_readable {
  re_unset : Forall (fun c => rg_id c = []) servers;
  re_azs : Z.of_nat (length (azs_of servers)) < 2 ^ 8;
  re_shards : Z.of_nat (length (shards_of servers)) < 2 ^ 16;
}.

Lemma set_ids_numbers azs shards c c' : rg_id c = [] → (set_ids azs shards c ≫= set_server_id) = Some c' → numbered azs shards c'.
Proof.
  intros Hr. unfold set_ids. destruct (id_of azs (az_name c)) as [az|] eqn:Ea; [|done]. cbn [mbind option_bind].
  destruct (mapM (id_of shards) (rg_name c)) as [ids|] eqn:Ei; [|done]. cbn [mbind option_bind]. unfold set_server_id.
  simpl. rewrite Hr. cbn [app]. case_test; [done|]. destruct (head ids) as [sd|] eqn:Eh; [|done]. cbn [mbind option_bind].
  case_test; [done|]. intros [= <-]. constructor; simpl; [done|done|eauto].
Qed.

Lemma mapM_bind {A B C} (f : A → option B) (g : B → option C) l : (mapM f l ≫= mapM g) = mapM (fun x => f x ≫= g) l.
Proof.
  induction l as [|x l IH]; [done|]. cbn [mapM]. destruct (f x) as [y|]; [|done]. cbn [mbind option_bind] in *.
  destruct (mapM f l) as [k|]; cbn [mbind option_bind] in *; rewrite <- IH; [done|]. by destruct (g y).
Qed.

(** What the numbering leaves as it was. *)
Definition same_names (c c' : node_config) : Prop :=
  node_name c' = node_name c ∧ az_name c' = az_name c ∧ rg_name c' = rg_name c ∧ priority c' = priority c ∧ block_type c' = block_type c.

Lemma set_ids_names azs shards c c' : (set_ids azs shards c ≫= set_server_id) = Some c' → same_names c c'.
Proof.
  unfold set_ids, set_server_id. destruct (id_of azs (az_name c)) as [az|]; [|done]. cbn [mbind option_bind].
  destruct (mapM _ _) as [ids|]; [|done]. simpl. repeat case_test; try done.
  destruct (head (rg_id c ++ ids)) as [sd|]; [|done]. simpl. case_test; [done|]. by intros [= <-].
Qed.

Lemma re_generate_servers name clients servers b :
  Forall (fun c => rg_id c = []) servers → re_generate_id (new_config name clients servers) = Some b →
  Forall (numbered (azs_of servers) (shards_of servers)) (node_server_list_ b) ∧ Forall2 same_names servers (node_server_list_ b) ∧
  mapping_ b = false ∧ priority_ b = ∅ ∧
  ∀ this, node_conf_ b = Some this → node_name this = name ∧ (this ∈ node_server_list_ b ∨ this ∈ node_client_list_ b).
Proof.
  intros Hrg. unfold re_generate_id. cbn [new_config node_server_list_ node_client_list_ conf_node_name register_to_rlb_node_id].
  fold (azs_of servers) (shards_of servers). intros Hb.
  assert (∃ servers' clients' this r, (mapM (set_ids (azs_of servers) (shards_of servers)) servers ≫= mapM set_server_id) = Some servers' ∧
    node_name this = name ∧ (this ∈ servers' ∨ this ∈ clients') ∧
    b = (new_config name clients servers) <| node_server_list_ := servers' |> <| node_client_list_ := clients' |>
          <| node_conf_ := Some this |> <| register_to_rlb_node_id := r |>) as (servers'&clients'&this&r&Hm&Hn&Hin&->).
  { destruct (mapM (set_ids _ _) servers) as [s1|]; [|done]. cbn [mbind option_bind] in *.
    destruct (mapM set_server_id s1) as [s2|]; [|done]. cbn [mbind option_bind] in *.
    destruct (mapM _ (imap pair clients)) as [cl|]; [|done]. cbn [mbind option_bind] in *.
    destruct (list_find (named name) s2) as [[i this]|] eqn:Ef.
    - apply list_find_Some in Ef as (Hi&Hn&_). destruct (find_register this s2 0) as [r|]; [|done]. cbn [mbind option_bind] in Hb.
      case_test; [done|]. exists s2, cl, this, r. injection Hb as <-. split_and!; [done|done| |done]. left. by eapply list_elem_of_lookup_2.
    - destruct (filter (named name) cl) as [|this [|]] eqn:Ec; try done. injection Hb as <-.
      assert (this ∈ filter (named name) cl) as [Hn ?]%list_elem_of_filter by (rewrite Ec; by left).
      exists s2, cl, this, 0. split_and!; [done|done|by right|done]. }
  rewrite mapM_bind in Hm. apply mapM_Some in Hm. simpl. split_and!; try done.
  - apply Forall_forall. intros c' [j Hj]%list_elem_of_lookup. destruct (Forall2_lookup_r _ _ _ _ _ Hm Hj) as (c&Hc&E).
    rewrite Forall_forall in Hrg. eapply set_ids_numbers; [|exact E]. apply Hrg. by eapply list_elem_of_lookup_2.
  - eapply Forall2_impl; [exact Hm|]. intros c c' E. eapply set_ids_names. exact E.
  - intros t [= <-]. done.
Qed.

(** The node ids of numbered servers. *)
Lemma numbered_id azs shards c : Z.of_nat (length azs) < 2 ^ 8 → Z.of_nat (length shards) < 2 ^ 16 → numbered azs shards c →
  ∃ sd, head (rg_id c) = Some sd ∧ fits 8 (az_id c) ∧ fits 16 sd ∧ node_id c = MAKE_NODE_ID (az_id c) sd (block_type c).
Proof.
  intros Ha Hs [Haz Hrg (sd&Hh&Hid)]. exists sd. apply id_of_Some in Haz as [? _].
  assert (sd ∈ rg_id c) as Hin by (destruct (rg_id c); [done|]; injection Hh as ->; by left).
  apply list_elem_of_lookup in Hin as [j Hj]. apply mapM_Some in Hrg. destruct (Forall2_lookup_r _ _ _ _ _ Hrg Hj) as (t&_&Ht).
  apply id_of_Some in Ht as [? _]. unfold fits. split_and!; [done|lia..|done].
Qed.

(** ** Priorities *)

Lemma by_shard_elem servers sd c : (sd, c) ∈ by_shard servers ↔ c ∈ servers ∧ sd ∈ rg_id c.
Proof.
  unfold by_shard. rewrite list_elem_of_bind. split.
  - intros (d&Hd&Hin). apply list_elem_of_fmap in Hd as (k&[= -> ->]&?). done.
  - intros [Hc Hs]. exists c. split; [|done]. apply list_elem_of_fmap. by exists sd.
Qed.

(** The entry of a nested map. *)
Definition entry {A} (m : gmap Z (gmap Z A)) (k1 k2 : Z) : option A := m !! k1 ≫= lookup k2.

Lemma entry_insert {A} (m : gmap Z (gmap Z A)) k1 k2 x j1 j2 :
  entry (<[k1 := <[k2 := x]> (default ∅ (m !! k1))]> m) j1 j2 = if decide (j1 = k1 ∧ j2 = k2) then Some x else entry m j1 j2.
Proof.
  unfold entry. destruct (decide (j1 = k1)) as [->|Hne].
  - rewrite lookup_insert_eq. cbn. destruct (decide (j2 = k2)) as [->|Hne2].
    + rewrite lookup_insert_eq, decide_True by done. done.
    + rewrite lookup_insert_ne, decide_False by naive_solver. destruct (m !! k1); [done|]. cbn. by rewrite lookup_empty.
  - rewrite lookup_insert_ne, decide_False by naive_solver. done.
Qed.

Lemma entry_push2 {A} (m : gmap Z (gmap Z (list A))) k1 k2 x j1 j2 :
  entry (push2 k1 k2 x m) j1 j2 = if decide (j1 = k1 ∧ j2 = k2) then Some (default [] (entry m k1 k2) ++ [x]) else entry m j1 j2.
Proof.
  unfold push2. rewrite entry_insert. case_decide; [|done]. unfold entry. by destruct (m !! k1).
Qed.

Lemma foldl_priorities l : ∀ m sd n,
  let m' := foldl (fun m (p : Z * node_config) => <[p.1 := <[node_id p.2 := priority p.2]> (default ∅ (m !! p.1))]> m) m l in
  (∀ p, entry m' sd n = Some p → entry m sd n = Some p ∨ ∃ c, (sd, c) ∈ l ∧ node_id c = n ∧ priority c = p) ∧
  (is_Some (entry m sd n) ∨ (∃ c, (sd, c) ∈ l ∧ node_id c = n) → is_Some (entry m' sd n)).
Proof.
  cbv zeta. induction l as [|[k d] l IH]; intros m sd n; cbn [foldl fst snd].
  { split; [by left|]. intros [?|(c&?%elem_of_nil&_)]; done. }
  destruct (IH (<[k := <[node_id d := priority d]> (default ∅ (m !! k))]> m) sd n) as [IH1 IH2]. rewrite entry_insert in IH1, IH2. split.
  - intros p [Hp|(c&Hc&?)]%IH1; [|right; exists c; split; [by right|done]].
    case_decide as E; [destruct E as [-> ->]; simplify_eq; right; exists d; split; [by left|done]|by left].
  - intros H. apply IH2. case_decide as E; [by left; eexists|]. destruct H as [?|(c&[[= -> ->]|?]%elem_of_cons&Hc)]; [by left| |by right; exists c].
    by destruct E.
Qed.

Lemma priorities_spec servers sd n :
  (∀ p, entry (priorities servers) sd n = Some p → ∃ c, c ∈ servers ∧ sd ∈ rg_id c ∧ node_id c = n ∧ priority c = p) ∧
  ((∃ c, c ∈ servers ∧ sd ∈ rg_id c ∧ node_id c = n) → is_Some (entry (priorities servers) sd n)).
Proof.
  destruct (foldl_priorities (by_shard servers) ∅ sd n) as [H1 H2]. fold (priorities servers) in H1, H2. split.
  - intros p [?|(c&[? ?]%by_shard_elem&?&?)]%H1; [done|by exists c].
  - intros (c&?&?&?). apply H2. right. exists c. by rewrite by_shard_elem.
Qed.

Lemma in_order_elem {A} (m : gmap Z A) k x : (k, x) ∈ in_order m ↔ m !! k = Some x.
Proof. unfold in_order. rewrite (merge_sort_Permutation key_le (map_to_list m)). apply elem_of_map_to_list. Qed.

Lemma in_order_keys {A} (m : gmap Z A) : NoDup (in_order m).*1.
Proof. unfold in_order. rewrite (merge_sort_Permutation key_le (map_to_list m)). apply NoDup_fst_map_to_list. Qed.

Lemma in_order_sorted {A} (m : gmap Z A) : StronglySorted key_le (in_order m).
Proof.
  apply Sorted_StronglySorted; [intros a b c; unfold key_le; lia|]. apply Sorted_merge_sort. intros a b. unfold key_le. lia.
Qed.

(** The last of a sorted list is above all. *)
Lemma last_sorted {A} (R : relation A) `{!Reflexive R} l x y : StronglySorted R l → last l = Some x → y ∈ l → R y x.
Proof.
  induction 1 as [|a l Hs IH Hf]; [done|]. rewrite last_cons. destruct (last l) as [z|] eqn:El.
  - intros [= ->] [->|Hy]%elem_of_cons; [|by apply IH]. rewrite Forall_forall in Hf. apply Hf. apply last_Some in El as [k ->].
    apply elem_of_app. right. by left.
  - intros [= ->]. apply last_None in El as ->. by intros ->%list_elem_of_singleton.
Qed.

Lemma top_Some buckets nodes : top buckets = Some nodes →
  ∃ p, buckets !! p = Some nodes ∧ ∀ q, is_Some (buckets !! q) → q ≤ p.
Proof.
  unfold top. destruct (last (in_order buckets)) as [[p l]|] eqn:E; [|done]. intros [= <-]. exists p.
  assert ((p, l) ∈ in_order buckets) as Hin%in_order_elem by (apply last_Some in E as [k ->]; apply elem_of_app; right; by left).
  split; [done|]. intros q [x Hq%in_order_elem]. assert (Reflexive (@key_le (list Z))) by (intros a; unfold key_le; lia).
  apply (last_sorted key_le _ (p, l) _ (in_order_sorted _) E Hq).
Qed.

(** ** Ranks *)

(** Who is in the bucket of a shard and a priority; no bucket is empty. *)
Definition members (m : gmap Z (gmap Z (list Z))) (sd p : Z) : list Z := default [] (entry m sd p).
Definition no_empty (m : gmap Z (gmap Z (list Z))) : Prop := ∀ sd buckets, m !! sd = Some buckets → buckets ≠ ∅ ∧ ∀ p, buckets !! p ≠ Some [].

Lemma push2_member k p x m sd q n : n ∈ members (push2 k p x m) sd q ↔ n ∈ members m sd q ∨ (sd = k ∧ q = p ∧ n = x).
Proof.
  unfold members. rewrite entry_push2. case_decide as E; simpl; [|naive_solver].
  destruct E as [-> ->]. rewrite elem_of_app, list_elem_of_singleton. naive_solver.
Qed.

Lemma push2_no_empty k p x m : no_empty m → no_empty (push2 k p x m).
Proof.
  intros Hm sd buckets. unfold push2. destruct (decide (sd = k)) as [->|Hne]; [|rewrite lookup_insert_ne by done; apply Hm].
  rewrite lookup_insert_eq. intros [= <-]. split; [apply insert_non_empty|]. intros q. destruct (decide (q = p)) as [->|Hq].
  - rewrite lookup_insert_eq. intros [= E]. by apply app_eq_nil in E as [_ ?].
  - rewrite lookup_insert_ne by done. destruct (m !! k) as [bs|] eqn:Ek; [|done]. by apply (Hm k bs).
Qed.

Lemma rank_shard k l : ∀ m, let m' := foldl (fun m (q : Z * Z) => push2 k q.2 q.1 m) m l in
  (no_empty m → no_empty m') ∧ ∀ sd p n, n ∈ members m' sd p ↔ n ∈ members m sd p ∨ (sd = k ∧ (n, p) ∈ l).
Proof.
  cbv zeta. induction l as [|[x q] l IH]; intros m; cbn [foldl fst snd].
  { split; [done|]. intros sd p n. rewrite elem_of_nil. naive_solver. }
  destruct (IH (push2 k q x m)) as [IH1 IH2]. split; [intros; by apply IH1, push2_no_empty|].
  intros sd p n. rewrite IH2, push2_member, elem_of_cons. naive_solver.
Qed.

Lemma rank_all l : ∀ m,
  let m' := foldl (fun m (kv : Z * gmap Z Z) => foldl (fun m q => push2 kv.1 q.2 q.1 m) m (in_order kv.2)) m l in
  (no_empty m → no_empty m') ∧ ∀ sd p n, n ∈ members m' sd p ↔ n ∈ members m sd p ∨ ∃ nodes, (sd, nodes) ∈ l ∧ nodes !! n = Some p.
Proof.
  cbv zeta. induction l as [|[k nodes] l IH]; intros m; cbn [foldl fst snd].
  { split; [done|]. intros sd p n. split; [by left|]. by intros [?|(?&?%elem_of_nil&_)]. }
  destruct (rank_shard k (in_order nodes) m) as [H1 H2]. destruct (IH (foldl (fun m q => push2 k q.2 q.1 m) m (in_order nodes))) as [IH1 IH2].
  split; [intros; by apply IH1, H1|]. intros sd p n. rewrite IH2, H2, in_order_elem. setoid_rewrite elem_of_cons. naive_solver.
Qed.

Lemma rank_spec priority :
  no_empty (rank ∅ priority) ∧ ∀ sd p n, n ∈ members (rank ∅ priority) sd p ↔ entry priority sd n = Some p.
Proof.
  destruct (rank_all (in_order priority) ∅) as [H1 H2]. fold (rank ∅ priority) in H1, H2. split; [by apply H1|].
  intros sd p n. rewrite H2. unfold entry. split.
  - intros [?%elem_of_nil|(nodes&E%in_order_elem&Hn)]; [done|]. by rewrite E.
  - destruct (priority !! sd) as [nodes|] eqn:E; [|done]. cbn. intros Hn. right. exists nodes. by rewrite in_order_elem.
Qed.

(** ** Leaders *)

Lemma insert_leads sd nodes : ∀ leads k, foldl (insert_lead sd) leads nodes !! k =
  if decide (k = sd) then (match leads !! sd with Some n => Some n | None => head (filter (fun n => is_ccb_block n = true) nodes) end)
  else leads !! k.
Proof.
  induction nodes as [|n nodes IH]; intros leads k; cbn [foldl].
  { cbn. case_decide; [subst; by destruct (leads !! sd)|done]. }
  rewrite IH, filter_cons. unfold insert_lead. destruct (is_ccb_block n) eqn:Ec.
  - rewrite (decide_True (P := true = true)) by done. destruct (leads !! sd) as [u|] eqn:Eu; [by rewrite Eu|]. rewrite lookup_insert_eq.
    case_decide; [done|]. by rewrite lookup_insert_ne.
  - by rewrite (decide_False (P := false = true)) by done.
Qed.

Lemma lead_scan_sound l : ∀ leads sd n, (lead_scan l leads).2 !! sd = Some n →
  leads !! sd = Some n ∨ ∃ buckets nodes, (sd, buckets) ∈ l ∧ top buckets = Some nodes ∧ head (filter (fun n => is_ccb_block n = true) nodes) = Some n.
Proof.
  induction l as [|[k buckets] l IH]; intros leads sd n; cbn [lead_scan]; [by left|].
  destruct (top buckets) as [nodes|] eqn:Et; [|by left]. intros [H|(bs&ns&?&?&?)]%IH; [|right; exists bs, ns; split_and!; [by right|done|done]].
  rewrite insert_leads in H. case_decide as E; [|by left]. subst. destruct (leads !! k) as [u|] eqn:Eu; [left; congruence|].
  right. exists buckets, nodes. split_and!; [by left|done|done].
Qed.

(** A lead is the first concurrency block of the highest bucket. *)
Lemma leads_top b sd n : priority_lead_nodes b !! sd = Some n →
  ∃ buckets nodes, priority_ b !! sd = Some buckets ∧ top buckets = Some nodes ∧ n ∈ nodes ∧ is_ccb_block n = true.
Proof.
  unfold priority_lead_nodes. pose proof (lead_scan_sound (in_order (priority_ b)) ∅ sd n) as H.
  destruct (lead_scan (in_order (priority_ b)) ∅) as [whole leads]. cbn [snd] in H.
  assert (leads !! sd = Some n → ∃ buckets nodes, priority_ b !! sd = Some buckets ∧ top buckets = Some nodes ∧ n ∈ nodes ∧ is_ccb_block n = true) as Hl.
  { intros [?|(bs&ns&Hb%in_order_elem&Ht&Hh)]%H; [done|]. exists bs, ns. split_and!; [done|done|..];
      (assert (n ∈ filter (fun n => is_ccb_block n = true) ns) as [? ?]%list_elem_of_filter
        by (destruct (filter _ ns); [done|]; injection Hh as ->; by left)); done. }
  destruct whole; [case_test; [exact Hl|by rewrite lookup_empty]|exact Hl].
Qed.

(** ** The servers that count *)

Lemma zip_forall2 {A B} (P : A → B → Prop) l ks k c : Forall2 P l ks →
  ((k, c) ∈ zip ks l → c ∈ l ∧ P c k) ∧ (c ∈ l → ∃ k, (k, c) ∈ zip ks l ∧ P c k).
Proof.
  induction 1 as [|d j l ks Hj _ [IH1 IH2]]; cbn [zip_with].
  { split; by intros ?%elem_of_nil. }
  setoid_rewrite elem_of_cons. split; [intros [[= -> ->]|?]; naive_solver|]. intros [->|(i&?&?)%IH2]; [exists j|exists i]; naive_solver.
Qed.

Lemma mapping_servers name clients servers b :
  Forall (fun c => rg_id c = []) servers → generate_mapping (new_config name clients servers) = Some b →
  Forall (numbered (azs_of servers) (shards_of servers)) (node_server_list_ b) ∧ Forall2 same_names servers (node_server_list_ b) ∧
  (∃ active, priority_ b = rank ∅ (priorities active) ∧ ∀ c, c ∈ active ↔ c ∈ node_server_list_ b ∧ is_client c = Some false) ∧
  ∃ this, node_conf_ b = Some this ∧ node_name this = name ∧ (this ∈ node_server_list_ b ∨ this ∈ node_client_list_ b).
Proof.
  intros Hrg. unfold generate_mapping. cbn [new_config mapping_]. destruct (re_generate_id _) as [b0|] eqn:Eb; [|done]. cbn [mbind option_bind].
  destruct (re_generate_servers _ _ _ _ Hrg Eb) as (Hnum&Hsame&Hm&Hp&Hthis). destruct (node_conf_ b0) as [this|] eqn:Et; [|done]. cbn [mbind option_bind].
  destruct (mapM is_client (node_server_list_ b0)) as [kinds|] eqn:Ek; [|done]. cbn [mbind option_bind].
  case_test; [done|]. intros [= <-]. simpl. split_and!; [done|done| |].
  - eexists. rewrite Hp. split; [reflexivity|]. intros c. apply mapM_Some in Ek. clear -Ek.
    rewrite list_elem_of_fmap. setoid_rewrite list_elem_of_filter. split.
    + intros ([k d]&->&E&Hin). cbn in E |- *. subst k. by apply (proj1 (zip_forall2 _ _ _ _ _ Ek)) in Hin.
    + intros [Hc Hk]. destruct (proj2 (zip_forall2 _ _ _ false c Ek) Hc) as (k&Hin&E). exists (k, c). cbn.
      split_and!; [done|congruence|done].
  - exists this. split; [done|]. by apply Hthis.
Qed.

(** With one shard per server, the shard is in the node's id. *)
Lemma own_shard azs shards c sd : Z.of_nat (length azs) < 2 ^ 8 → Z.of_nat (length shards) < 2 ^ 16 → numbered azs shards c →
  (∃ s, rg_name c = [s]) → sd ∈ rg_id c → rg_id c = [sd] ∧ TO_RG_ID (node_id c) = sd ∧ is_ccb_block (node_id c) = bool_decide (BLOCK_CCB ∈ block_type c).
Proof.
  intros Ha Hs Hn [s Es] Hsd. destruct (numbered_id _ _ _ Ha Hs Hn) as (sd'&Hh&Haz&Hf&Hid).
  assert (rg_id c = [sd']) as Er.
  { pose proof (nu_rg _ _ _ Hn) as Hm. rewrite Es in Hm. cbn in Hm. destruct (id_of shards s); [|done]. cbn in Hm. injection Hm as Hm. rewrite <- Hm in Hh |- *. by injection Hh as ->. }
  rewrite Er in Hsd |- *. apply list_elem_of_singleton in Hsd as ->. split; [done|]. rewrite Hid.
  destruct (node_id_roundtrip (az_id c) sd' (block_type c) Haz Hf) as (->&_&_&_). split; [done|]. by apply MAKE_NODE_ID_flag.
Qed.

Lemma same_names_rg servers servers' c' : Forall (fun c => ∃ s, rg_name c = [s]) servers → Forall2 same_names servers servers' →
  c' ∈ servers' → ∃ s, rg_name c' = [s].
Proof.
  intros H1 H2 [j Hj]%list_elem_of_lookup. destruct (Forall2_lookup_r _ _ _ _ _ H2 Hj) as (c&Hc&_&_&E&_).
  rewrite Forall_forall in H1. destruct (H1 c) as [s Hs]; [by eapply list_elem_of_lookup_2|]. exists s. congruence.
Qed.

Lemma node_id_inj l c d : NoDup (map node_id l) → c ∈ l → d ∈ l → node_id c = node_id d → c = d.
Proof.
  intros Hd [i Hi]%list_elem_of_lookup [j Hj]%list_elem_of_lookup E.
  assert (i = j) as ->; [|congruence]. eapply (NoDup_lookup (map node_id l)); [done|by rewrite list_lookup_fmap, Hi|].
  rewrite list_lookup_fmap, Hj. cbn. by rewrite E.
Qed.

Lemma leads_spec name clients servers b sd n :
  readable servers → Forall (fun c => ∃ s, rg_name c = [s]) servers →
  generate_mapping (new_config name clients servers) = Some b → priority_lead_nodes b !! sd = Some n →
  ∃ c, c ∈ node_server_list_ b ∧ node_id c = n ∧ rg_id c = [sd] ∧ TO_RG_ID n = sd ∧ is_ccb_block n = true ∧ BLOCK_CCB ∈ block_type c ∧
    (NoDup (map node_id (node_server_list_ b)) →
     ∀ d, d ∈ node_server_list_ b → is_client d = Some false → sd ∈ rg_id d → priority d ≤ priority c).
Proof.
  intros [Hu Ha Hs] Hone Hg Hl. destruct (mapping_servers _ _ _ _ Hu Hg) as (Hnum&Hsame&(active&Hp&Hact)&_).
  apply leads_top in Hl as (buckets&nodes&Hb&Ht&Hn&Hc). destruct (top_Some _ _ Ht) as (p&Hbp&Hmax). rewrite Hp in Hb.
  destruct (rank_spec (priorities active)) as [_ Hr].
  assert (entry (priorities active) sd n = Some p) as He. { apply Hr. unfold members, entry. rewrite Hb. cbn. by rewrite Hbp. }
  apply priorities_spec in He as (c&Hca&Hsd&Hid&Hpc). apply Hact in Hca as [Hcs _]. exists c.
  assert (numbered (azs_of servers) (shards_of servers) c) as Hcn by (rewrite Forall_forall in Hnum; auto).
  destruct (own_shard _ _ _ sd Ha Hs Hcn (same_names_rg _ _ _ Hone Hsame Hcs) Hsd) as (H1&H2&H3). rewrite Hid in H2, H3.
  split_and!; [done|done|done|done|done|by rewrite H3 in Hc; apply bool_decide_eq_true in Hc|].
  intros Hnd d Hd Hdc Hdsd. destruct (proj2 (priorities_spec active sd (node_id d))) as [q Hq]; [exists d; by rewrite Hact|].
  assert (q ≤ p) as Hle.
  { apply Hmax. apply Hr in Hq. unfold members, entry in Hq. rewrite Hb in Hq. cbn in Hq. destruct (buckets !! q); [by eexists|by apply elem_of_nil in Hq]. }
  apply priorities_spec in Hq as (d'&[Hd' _]%Hact&_&Eid&<-). rewrite (node_id_inj _ _ _ Hnd Hd Hd') by done. lia.
Qed.

(** ** Theorems *)

(** When each server has one shard, the configuration names as the leader of
    a shard only a node that has the shard in its id and runs a concurrency
    block, and no server of the shard has a higher priority. *)
Theorem config_leads name clients servers b sd n :
  readable servers → Forall (fun c => ∃ s, rg_name c = [s]) servers →
  generate_mapping (new_config name clients servers) = Some b → NoDup (map node_id (node_server_list_ b)) →
  priority_lead_nodes b !! sd = Some n →
  TO_RG_ID n = sd ∧ is_ccb_block n = true ∧
  ∃ c, c ∈ node_server_list_ b ∧ node_id c = n ∧ rg_id c = [sd] ∧ BLOCK_CCB ∈ block_type c ∧
    ∀ d, d ∈ node_server_list_ b → is_client d = Some false → sd ∈ rg_id d → priority d ≤ priority c.
Proof.
  intros Hr Hone Hg Hnd Hl. destruct (leads_spec _ _ _ _ _ _ Hr Hone Hg Hl) as (c&Hc&Hid&Hrg&Hsd&Hccb&Hbt&Hmax).
  split_and!; [done|done|]. exists c. split_and!; auto.
Qed.

(** The scan of shards that all have nodes. *)
Lemma lead_scan_whole l : ∀ leads, NoDup l.*1 → (∀ sd bs, (sd, bs) ∈ l → is_Some (top bs) ∧ leads !! sd = None) →
  let r := lead_scan l leads in
  r.1 = true ∧ (∀ sd bs, (sd, bs) ∈ l → r.2 !! sd = (nodes ← top bs; head (filter (fun n => is_ccb_block n = true) nodes))) ∧
  ∀ sd, sd ∉ l.*1 → r.2 !! sd = leads !! sd.
Proof.
  cbv zeta. induction l as [|[k buckets] l IH]; intros leads Hd Hl; cbn [lead_scan].
  { split_and!; [done|by intros ?? ?%elem_of_nil|done]. }
  apply NoDup_cons in Hd as [Hk Hd]. destruct (Hl k buckets ltac:(by left)) as [[nodes Et] Hn]. rewrite Et.
  destruct (IH (foldl (insert_lead k) leads nodes) Hd) as (H1&H2&H3).
  { intros sd bs Hin. destruct (Hl sd bs ltac:(by right)) as [? ?]. split; [done|]. rewrite insert_leads, decide_False; [done|].
    intros ->. by apply Hk, (list_elem_of_fmap_2 fst l (k, bs)). }
  split_and!; [done| |].
  - intros sd bs [[= -> ->]|Hin]%elem_of_cons; [|by apply H2]. rewrite H3 by done. rewrite insert_leads, decide_True, Hn, Et by done. done.
  - intros sd [Hs1 Hs2]%not_elem_of_cons. rewrite H3 by done. rewrite insert_leads, decide_False by done. done.
Qed.

(** The leads when no shard has an empty bucket. *)
Lemma leads_all_or_none b : no_empty (priority_ b) →
  let leads := priority_lead_nodes b in
  ((∀ sd, is_Some (priority_ b !! sd) → is_Some (get_largest_priority_node_of_shard sd b)) ∧
     (∀ sd, leads !! sd = get_largest_priority_node_of_shard sd b)) ∨
  ((∃ sd, is_Some (priority_ b !! sd) ∧ get_largest_priority_node_of_shard sd b = None) ∧ leads = ∅).
Proof.
  intros He. cbv zeta. unfold priority_lead_nodes. destruct (lead_scan_whole (in_order (priority_ b)) ∅ (in_order_keys _)) as (H1&H2&H3).
  { intros sd bs [Hbs _]%in_order_elem%He. split; [|done]. unfold top. destruct (last _) eqn:E; [by eexists|]. apply last_None in E.
    destruct (map_choose bs Hbs) as (p&x&Hx%in_order_elem). rewrite E in Hx. by apply elem_of_nil in Hx. }
  destruct (lead_scan _ _) as [whole leads]. cbn [fst snd] in *. subst whole.
  assert (∀ sd, leads !! sd = get_largest_priority_node_of_shard sd b) as Hl.
  { intros sd. unfold get_largest_priority_node_of_shard. destruct (priority_ b !! sd) as [bs|] eqn:E; [apply in_order_elem in E; by rewrite (H2 _ _ E)|].
    apply H3. intros ([k bs]&->&Hin%in_order_elem)%list_elem_of_fmap. cbn in E. congruence. }
  assert (dom leads ⊆ dom (priority_ b)) as Hsub.
  { intros sd [n Hn]%elem_of_dom. apply elem_of_dom. rewrite Hl in Hn. unfold get_largest_priority_node_of_shard in Hn. by destruct (priority_ b !! sd). }
  destruct (Nat.eqb (size (priority_ b)) (size leads)) eqn:Es.
  - left. split; [|done]. intros sd Hsd%elem_of_dom. rewrite <- Hl. apply elem_of_dom. apply Nat.eqb_eq in Es. rewrite <- !size_dom in Es.
    by rewrite (set_subseteq_size_eq _ _ Hsub) by lia.
  - right. split; [|done]. apply Nat.eqb_neq in Es. assert (dom leads ≠ dom (priority_ b)) as Hne by (intros E; apply Es; by rewrite <- !size_dom, E).
    destruct (set_choose_or_empty (dom (priority_ b) ∖ dom leads)) as [[sd [Hin Hni]%elem_of_difference]|E].
    2:{ exfalso. apply Hne, set_eq. intros x. split; [apply Hsub|]. intros Hx. destruct (decide (x ∈ dom leads)); [done|]. exfalso.
        apply (not_elem_of_empty (C := gset Z) x), E. by apply elem_of_difference. }
    exists sd. rewrite <- Hl. split; [by apply elem_of_dom|]. by apply not_elem_of_dom.
Qed.

(** The two ways to ask a configuration for leaders are equivalent.  When
    every shard has a preferred leader, the table of leaders gives for each shard
    the node that is found for the shard alone; when one shard has none, the
    table is empty. *)
Theorem leads_agree name clients servers b :
  Forall (fun c => rg_id c = []) servers → generate_mapping (new_config name clients servers) = Some b →
  ((∀ sd, is_Some (priority_ b !! sd) → is_Some (get_largest_priority_node_of_shard sd b)) ∧
     (∀ sd, priority_lead_nodes b !! sd = get_largest_priority_node_of_shard sd b)) ∨
  ((∃ sd, is_Some (priority_ b !! sd) ∧ get_largest_priority_node_of_shard sd b = None) ∧ priority_lead_nodes b = ∅).
Proof.
  intros Hu Hg. apply leads_all_or_none. destruct (mapping_servers _ _ _ _ Hu Hg) as (_&_&(active&->&_)&_). apply rank_spec.
Qed.

(** Up to 255 zones and 65535 shards get numbers that node ids can tell
    apart: two servers have the same node id only if their zone and their first
    shard have the same names and they run the same kinds of blocks; the id gives
    back the numbers of both. *)
Theorem node_ids_unique name clients servers b c d :
  readable servers → generate_mapping (new_config name clients servers) = Some b →
  c ∈ node_server_list_ b → d ∈ node_server_list_ b → node_id c = node_id d →
  az_name c = az_name d ∧ head (rg_name c) = head (rg_name d) ∧ head (rg_id c) = Some (TO_RG_ID (node_id c)) ∧
  az_id c = TO_AZ_ID (node_id c) ∧
  ∀ t, t ≠ BLOCK_TYPE_SIZE → node_type_id_2_name t ∈ block_type c ↔ node_type_id_2_name t ∈ block_type d.
Proof.
  intros [Hu Ha Hs] Hg Hc Hd E. destruct (mapping_servers _ _ _ _ Hu Hg) as (Hnum&_). rewrite Forall_forall in Hnum.
  pose proof (Hnum c Hc) as Nc. pose proof (Hnum d Hd) as Nd.
  destruct (numbered_id _ _ _ Ha Hs Nc) as (sc&Hhc&Fc&Gc&Ic), (numbered_id _ _ _ Ha Hs Nd) as (sd&Hhd&Fd&Gd&Id).
  destruct (node_id_roundtrip (az_id c) sc (block_type c) Fc Gc) as (Rc&Zc&Bc&_).
  destruct (node_id_roundtrip (az_id d) sd (block_type d) Fd Gd) as (Rd&Zd&Bd&_).
  rewrite <- Ic in Rc, Zc, Bc. rewrite <- Id, <- E in Rd, Zd, Bd. split_and!.
  - apply (id_of_inj (azs_of servers) _ _ (az_id c)); [apply Nc|]. rewrite <- Zc, Zd. apply Nd.
  - assert (∀ x k, numbered (azs_of servers) (shards_of servers) x → head (rg_id x) = Some k →
      ∃ s, head (rg_name x) = Some s ∧ id_of (shards_of servers) s = Some k) as Hh.
    { intros x k Nx Hk. pose proof (nu_rg _ _ _ Nx) as Hm. apply mapM_Some in Hm. destruct Hm as [|s j l js Hj _]; [done|].
      injection Hk as ->. by exists s. }
    destruct (Hh c sc Nc Hhc) as (s&->&Es), (Hh d sd Nd Hhd) as (t&->&Et). f_equal. eapply id_of_inj; [exact Es|]. rewrite <- Rc, Rd. exact Et.
  - by rewrite Hhc, Rc.
  - by rewrite Zc.
  - intros t Ht. rewrite <- (bool_decide_eq_true (node_type_id_2_name t ∈ block_type c)), <- (bool_decide_eq_true (node_type_id_2_name t ∈ block_type d)).
    by rewrite <- (Bc t Ht), <- (Bd t Ht).
Qed.

(** C38: when each server has one shard, the ring in which the deadlock detectors
    pass on their graphs has one shard: a block's graph goes to the leader of its
    own shard, or is dropped when there is none, never to another shard. *)
Theorem neighbour_is_own_shard name clients servers b this :
  readable servers → Forall (fun c => ∃ s, rg_name c = [s]) servers →
  generate_mapping (new_config name clients servers) = Some b → node_conf_ b = Some this → this ∈ node_server_list_ b →
  ∃ next, next_node b = Some next ∧ (next = 0 ∨ TO_RG_ID next = TO_RG_ID (node_id this)).
Proof.
  intros Hr Hone Hg Ht Hin. destruct (mapping_servers _ _ _ _ (re_unset _ Hr) Hg) as (Hnum&Hsame&_). rewrite Forall_forall in Hnum.
  destruct (numbered_id _ _ _ (re_azs _ Hr) (re_shards _ Hr) (Hnum _ Hin)) as (sd&Hh&_).
  assert (sd ∈ rg_id this) as Hsd by (destruct (rg_id this); [done|]; injection Hh as ->; by left).
  destruct (own_shard _ _ _ sd (re_azs _ Hr) (re_shards _ Hr) (Hnum _ Hin) (same_names_rg _ _ _ Hone Hsame Hin) Hsd) as (Erg&Esd&_).
  assert (neighbour_shard b = Some sd) as En.
  { unfold neighbour_shard. rewrite Ht. cbn [mbind option_bind]. rewrite Erg, Esd. change (merge_sort Z.le (remove_dups [sd])) with [sd].
    assert (list_find (eq sd) [sd] = Some (0%nat, sd)) as ->; [|done]. apply list_find_Some. split_and!; [done|done|]. intros j y Hj ?; lia. }
  unfold next_node. rewrite En. cbn. destruct (priority_lead_nodes b !! sd) as [n|] eqn:El; [|by exists 0; split; [|left]].
  exists n. split; [done|]. right. rewrite Esd. by destruct (leads_spec _ _ _ _ _ _ Hr Hone Hg El) as (c&_&_&_&?&_).
Qed.

(** ** Three zones, two shards *)

Definition demo_server (name az shard : string) (prio : Z) (bts : gset string) : node_config := mk_node 0 0 [] name az [shard] prio bts.
Definition all_blocks : gset string := {[BLOCK_CCB; BLOCK_RLB; BLOCK_DSB]}.
Definition demo_servers : list node_config :=
  [demo_server "n1" "az1" "s1" 3 all_blocks; demo_server "n2" "az2" "s1" 2 all_blocks;
   demo_server "n3" "az1" "s2" 1 all_blocks; demo_server "n4" "az2" "s2" 2 all_blocks].
Definition demo_config (name : string) : config := default (new_config name [] demo_servers) (generate_mapping (new_config name [] demo_servers)).

Lemma demo_readable : readable demo_servers.
Proof. constructor; [by repeat constructor|vm_compute; reflexivity..]. Qed.
Lemma demo_one_shard : Forall (fun c => ∃ s, rg_name c = [s]) demo_servers.
Proof. repeat constructor; by eexists. Qed.
Lemma demo_mapped : generate_mapping (new_config "n3" [] demo_servers) = Some (demo_config "n3").
Proof. vm_compute. reflexivity. Qed.

Lemma config_leads_witness :
  TO_RG_ID 131591 = 2 ∧ ∀ d, d ∈ node_server_list_ (demo_config "n3") → is_client d = Some false → 2 ∈ rg_id d → priority d ≤ 2.
Proof.
  destruct (config_leads "n3" [] demo_servers (demo_config "n3") 2 131591) as (H1&_&c&Hc&Hid&_&_&Hmax).
  - apply demo_readable.
  - apply demo_one_shard.
  - apply demo_mapped.
  - apply (bool_decide_unpack _). vm_compute. exact Logic.I.
  - vm_compute. reflexivity.
  - split; [exact H1|]. assert (priority c = 2) as E; [|rewrite E in Hmax; exact Hmax].
    revert Hc Hid. unfold demo_config. vm_compute. intros Hc Hid.
    repeat (apply elem_of_cons in Hc as [->|Hc]; [by simpl in Hid; simplify_eq|]). by apply elem_of_nil in Hc.
Defined.

Lemma leads_agree_witness : priority_lead_nodes (demo_config "n3") ≠ ∅ ∧
  ∀ sd, priority_lead_nodes (demo_config "n3") !! sd = get_largest_priority_node_of_shard sd (demo_config "n3").
Proof.
  destruct (leads_agree "n3" [] demo_servers (demo_config "n3")) as [[_ H]|[_ H]].
  - by repeat constructor.
  - apply demo_mapped.
  - split; [|exact H]. vm_compute. discriminate.
  - exfalso. vm_compute in H. discriminate H.
Defined.

Lemma node_ids_unique_witness :
  ∃ c d, c ∈ node_server_list_ (demo_config "n3") ∧ d ∈ node_server_list_ (demo_config "n3") ∧ node_id c = node_id d ∧ az_name c = az_name d.
Proof.
  set (c := mk_node 66055 2 [1] "n2" "az2" ["s1"%string] 2 all_blocks).
  assert (c ∈ node_server_list_ (demo_config "n3")) as Hc by (vm_compute; right; left).
  exists c, c. split_and!; [exact Hc|exact Hc|reflexivity|].
  destruct (node_ids_unique "n3" [] demo_servers (demo_config "n3") c c) as [H _];
    [apply demo_readable|apply demo_mapped|exact Hc|exact Hc|reflexivity|exact H].
Defined.

Lemma neighbour_is_own_shard_witness : ∃ next, next_node (demo_config "n3") = Some next ∧ (next = 0 ∨ TO_RG_ID next = 2).
Proof.
  apply (neighbour_is_own_shard "n3" [] demo_servers (demo_config "n3") (mk_node 131335 1 [2] "n3" "az1" ["s2"%string] 1 all_blocks)).
  - apply demo_readable.
  - apply demo_one_shard.
  - apply demo_mapped.
  - vm_compute. reflexivity.
  - vm_compute. right. right. left.
Defined.
End Config.
