(* ===== verification/Deploy.v ===== *)
(** * Blocks of a configuration

    The concurrency blocks as they start from one configuration ([Config]), each
    node reading the same list of servers under its own name.

    - [deployed_atomic]: when each server has one shard, distributed transactions
      on the blocks of a configuration are atomic: the configuration gives what
      [BlocksAtomic] asks of it. *)

From S2P Require Import Prelude Common.
From S2P Require Import TxCoordinator TwoPhase AtomicCommit CcBlock Blocks Simulation BlocksAtomic Config.
#[local] Open Scope Z_scope.

Module Deploy.
Import CcBlock.CcBlock Blocks.Blocks Config.Config.

(** [num_terminal] is [final_num_terminal()]. *)
(* @src src/concurrency/cc_block.cpp 13 38 cc_block::cc_block *)
Definition block_of (num_terminal : nat) (conf : config) : option cc_block :=
  this ← node_conf_ conf;
  if (node_id this =? 0) || (register_to_rlb_node_id conf =? 0) then None
  else
    _ ← neighbour_shard conf;
    Some (new_block (node_id this) (register_to_rlb_node_id conf) (rg_id this) (priority_lead_nodes conf) (num_terminal + 10)).

(** Every block was started from the servers' configuration; nothing has happened yet. *)
Definition deployed (servers : list node_config) (num_terminal : nat) (w : world) : Prop :=
  net w = [] ∧ wlog w = [] ∧ flushed w = ∅ ∧ answers w = [] ∧
  ∀ n b, blocks w !! n = Some b → node_id_ b = n ∧ ∃ name clients conf,
    generate_mapping (new_config name clients servers) = Some conf ∧ block_of num_terminal conf = Some b.

Lemma deployed_initial servers num_terminal w :
  readable servers → Forall (fun c => ∃ s, rg_name c = [s]) servers → deployed servers num_terminal w → initial w.
Proof.
  intros Hr Hone (H1&H2&H3&H4&H5). split_and!; [done..|]. intros n b Hb. destruct (H5 n b Hb) as (Hn&name&clients&conf&Hg&Hblk).
  unfold block_of in Hblk. destruct (node_conf_ conf) as [this|]; [|done]. cbn [mbind option_bind] in Hblk. case_test; [done|].
  destruct (neighbour_shard conf); [|done]. cbn in Hblk. injection Hblk as <-. cbn in Hn. subst n.
  do 4 eexists. split; [reflexivity|]. intros sd m Hl. by destruct (leads_spec _ _ _ _ _ _ Hr Hone Hg Hl) as (c&_&_&_&?&_).
Qed.

(** C5: start the blocks of all nodes from one configuration in which every
    server has one shard.  However requests, messages, log records, failures and
    strands interleave, a distributed transaction that has begun never commits at
    one node and aborts at another, and a client that is told success has the
    commit in the log of every participant. *)
Theorem deployed_atomic home parse servers num_terminal w0 w n0 x :
  readable servers → Forall (fun c => ∃ s, rg_name c = [s]) servers → deployed servers num_terminal w0 →
  rtc (step home parse) w0 w → (n0, x, TX_CMD_TM_BEGIN) ∈ wlog w →
  (∀ n m, ¬ ((n, x, TX_CMD_RM_COMMIT) ∈ wlog w ∧ (m, x, TX_CMD_RM_ABORT) ∈ wlog w)) ∧
  ((x, EC_OK) ∈ answers w → ∀ c k u, BlocksAtomic.coordinator_of w n0 x = Some c → TxCoordinator.rm_tracer_ c !! k = Some u →
     (TxCoordinator.lead_ u, x, TX_CMD_RM_COMMIT) ∈ wlog w).
Proof.
  intros Hr Hone Hd Hs Hb. assert (reachable home parse w) as Hw by (exists w0; split; [by eapply deployed_initial|done]).
  by destruct (BlocksAtomic.atomic_of _ _ _ _ _ Hw Hb) as (?&_&?&_).
Qed.

(** ** A configuration of two nodes *)

Definition two_servers : list node_config :=
  [demo_server "n1" "az1" "s1" 1 all_blocks; demo_server "n2" "az1" "s2" 1 all_blocks].
Definition two_config (name : string) : option config := generate_mapping (new_config name [] two_servers).
Definition two_world : world :=
  mk_world (list_to_map (omap (fun name => b ← two_config name ≫= block_of 1; Some (node_id_ b, b)) ["n1"%string; "n2"%string])) [] [] ∅ [].
Definition two_end : world := default two_world (BlocksAtomic.run 65799 (BlocksAtomic.demo_schedule 65799 131335) two_world).

Lemma two_deployed : deployed two_servers 1 two_world.
Proof.
  split_and!; [done..|]. intros n b Hb. apply elem_of_list_to_map_2, list_elem_of_omap in Hb as (name&_&Hb).
  destruct (two_config name) as [conf|] eqn:Ec; [|done]. cbn [mbind option_bind] in Hb.
  destruct (block_of 1 conf) as [b0|] eqn:Eb; [|done]. injection Hb as <- <-. split; [done|]. by exists name, [], conf.
Qed.

Lemma two_steps : rtc (step (BlocksAtomic.demo_home 65799) BlocksAtomic.demo_parse) two_world two_end.
Proof.
  apply (BlocksAtomic.run_world_steps 65799 (BlocksAtomic.demo_schedule 65799 131335)). unfold two_end.
  destruct (BlocksAtomic.run 65799 (BlocksAtomic.demo_schedule 65799 131335) two_world) eqn:E; [done|]. exfalso.
  assert (is_Some (BlocksAtomic.run 65799 (BlocksAtomic.demo_schedule 65799 131335) two_world)) as [? ?] by (vm_compute; by eexists). congruence.
Qed.

Lemma deployed_atomic_witness :
  answers two_end = [(BlocksAtomic.demo_xid, EC_OK)] ∧
  ∀ n m, ¬ ((n, BlocksAtomic.demo_xid, TX_CMD_RM_COMMIT) ∈ wlog two_end ∧ (m, BlocksAtomic.demo_xid, TX_CMD_RM_ABORT) ∈ wlog two_end).
Proof.
  split; [vm_compute; reflexivity|].
  apply (deployed_atomic (BlocksAtomic.demo_home 65799) BlocksAtomic.demo_parse two_servers 1 two_world two_end 65799).
  - constructor; [by repeat constructor|vm_compute; reflexivity..].
  - repeat constructor; by eexists.
  - apply two_deployed.
  - apply two_steps.
  - apply (bool_decide_unpack _). vm_compute. exact Logic.I.
Defined.
End Deploy.
