(* ===== verification/NetClient.v ===== *)
(** * The blocking client

    [send_message] and [recv_message] of [include/network/connection.h], with
    which a terminal of the workload generator talks to a concurrency block
    through a [db_client]: each call writes one message, or reads one, and
    returns when that is done.  The bytes that a socket still delivers before the
    peer closes it are a list; [boost::asio::write] writes all bytes or fails
    after some of them.

    - [conversation]: what the client sends reaches the handler at the other end,
      and what the block sends back is returned by the client's reads, in order;
    - [failed_send_stuck]: after a write that failed the connection cannot be
      used again: the next send fails an assertion. *)

From S2P Require Import Prelude Common.
From S2P Require Import Bytes ByteBuffer MessageCodec Connection ConnectionSend.
#[local] Open Scope Z_scope.

Module NetClient.
Import ByteBuffer.ByteBuffer.
Import MessageCodec.MessageCodec.

(** [SysError]: an error of the socket.  A failed assertion, [PANIC] and an
    exception are [None]. *)
Inductive net_result (A : Type) :=
| Done (x : A)
| Failed (ec : EC)
| SysError.
Arguments Done {A} x.
Arguments Failed {A} ec.
Arguments SysError {A}.

(* @src include/network/connection.h 26 47 connection *)
Record client := mk_client {
  connected_ : bool;
  writing_in_action_ : bool;
  send_buf_ : byte_buffer;
  recv_buf_ : byte_buffer;
}.
#[export] Instance eta_client : Eta client := fun c => mk_client (connected_ c) (writing_in_action_ c) (send_buf_ c) (recv_buf_ c).

(** [connect] makes a client of the new socket; [opened] is whether it succeeds. *)
(* @src src/network/db_client.cpp 9 26 db_client::connect *)
Definition connect (opened : bool) (cli_ : option client) : bool * option client :=
  if opened then (true, Some (mk_client true false default_buffer default_buffer)) else (false, cli_).

(** ** Sending *)

(** [fails = Some k]: the write fails after [k] bytes.  The result, the client
    and the bytes written. *)
(* @src include/network/connection.h 91 130 connection::send_message *)
Definition send_message (m : message) (fails : option Z) (c : client) : option (net_result unit * client * list Z) :=
  if negb (connected_ c) then Some (Failed EC_NET_UNCONNECTED, c, [])
  else if writing_in_action_ c then None
  else
    let c := c <| writing_in_action_ := true |> <| send_buf_ := reset (send_buf_ c) |> in
    match proto_to_buf m.1 m.2 (send_buf_ c) with
    | None => None
    | Some (inl e) => Some (Failed e, c, [])
    | Some (inr b) =>
        let c := c <| send_buf_ := b |> in
        let len := u32 (read_available_size b) in
        let bytes := slice (read_pos_ b) len (data_ b) in
        if negb (read_pos_ b <? size b) then None else
        match fails with
        | Some k => Some (SysError, c, ztake k bytes)
        | None => Some (Done tt, c <| writing_in_action_ := false |>, bytes)
        end
    end.

(* @src include/network/db_client.h 23 30 db_client::send_message *)
Definition cli_send_message (m : message) (fails : option Z) (cli_ : option client) : option (net_result unit * option client * list Z) :=
  match cli_ with
  | None => Some (Failed EC_NET_UNCONNECTED, None, [])
  | Some c => '(r, c, bytes) ← send_message m fails c; Some (r, Some c, bytes)
  end.

(** ** Receiving *)

(* @src include/network/connection.h 291 311 connection::recv_msg_hdr *)
Definition recv_msg_hdr (str : list Z) (b : byte_buffer) : option (net_result msg_hdr * byte_buffer * list Z) :=
  if write_available_size b <? hdr_size then Some (Failed EC_INSUFFICIENT_SPACE, b, str)
  else if negb (read_pos_ b <? size b) then None
  else
    let b := b <| data_ := blit (read_pos_ b) (ztake hdr_size str) (data_ b) |> in
    if zlen str <? hdr_size then Some (SysError, b, [])
    else
      b ← set_write_pos hdr_size b;
      r ← buf_to_msg_hdr b;
      match r with
      | inl e => Some (Failed e, b, zdrop hdr_size str)
      | inr (h, b) => Some (Done h, b, zdrop hdr_size str)
      end.

(** The body as bytes; parsing is protobuf's.  [check_magic] is true in this
    build. *)
(* @src include/network/connection.h 132 192 connection::recv_message *)
Definition recv_message (id : Z) (str : list Z) (b : byte_buffer) : option (net_result (list Z) * byte_buffer * list Z) :=
  '(r, b, str) ← recv_msg_hdr str (reset b);
  match r with
  | Failed e => Some (Failed e, b, str)
  | SysError => Some (SysError, b, str)
  | Done header =>
      let body_size := body_length header in
      if negb (type_ header =? id) then None
      else
        b ← (if write_available_size b <=? body_size then resize_capacity (write_pos_ b + body_size) b else Some b);
        b ← set_write_pos body_size (reset b);
        if zlen str <? body_size then None
        else
          let b := b <| data_ := blit 0 (ztake body_size str) (data_ b) |> in
          Some (Done (window b), b, zdrop body_size str)
  end.

(* @src include/network/db_client.h 32 38 db_client::recv_message *)
Definition cli_recv_message (id : Z) (str : list Z) (cli_ : option client) : option (net_result (list Z) * option client * list Z) :=
  match cli_ with
  | None => Some (Failed EC_NET_UNCONNECTED, None, str)
  | Some c => '(r, b, str) ← recv_message id str (recv_buf_ c); Some (r, Some (c <| recv_buf_ := b |>), str)
  end.

(** A sequence of sends that succeed, and of reads that do. *)
Fixpoint send_all (ms : list message) (c : client) : option (client * list Z) :=
  match ms with
  | [] => Some (c, [])
  | m :: ms =>
      '(r, c, bytes) ← send_message m None c;
      match r with
      | Done _ => '(c, rest) ← send_all ms c; Some (c, bytes ++ rest)
      | _ => None
      end
  end.

Fixpoint recv_all (ids : list Z) (str : list Z) (b : byte_buffer) : option (list (list Z) * byte_buffer * list Z) :=
  match ids with
  | [] => Some ([], b, str)
  | id :: ids =>
      '(r, b, str) ← recv_message id str b;
      match r with
      | Done body => '(bodies, b, str) ← recv_all ids str b; Some (body :: bodies, b, str)
      | _ => None
      end
  end.

(** ** Correctness *)

(** Buffers of a client: at least as large as at first, and no larger than the
    largest message. *)
Definition sized (b : byte_buffer) : Prop := wf b ∧ hdr_size ≤ size b ≤ 2 ^ 30.

Lemma sized_reset b : sized b → sized (reset b) ∧ size (reset b) = size b ∧ window (reset b) = [].
Proof.
  intros [[H1 H2] H3]. split_and!; [|done|apply slice_zero]. split; [|done]. unfold wf, reset. cbn. unfold size in *. cbn. lia.
Qed.

Definition idle (c : client) : Prop := connected_ c = true ∧ writing_in_action_ c = false ∧ sized (send_buf_ c).

(** What is in the buffer when the write begins. *)
Lemma send_buffer m c : idle c → wf_message m → ∃ b, proto_to_buf m.1 m.2 (reset (send_buf_ c)) = Some (inr b) ∧ sized b ∧
  (read_pos_ b <? size b) = true ∧
  slice (read_pos_ b) (u32 (read_available_size b)) (data_ b) = frame m.
Proof.
  intros (_&_&Hb) [Ht Hl]. destruct (sized_reset _ Hb) as ([Hwf Hsz]&Hs&Hw). pose proof (zlen_nonneg m.2). rewrite Hs in Hsz.
  destruct (proto_to_buf_frame m.1 m.2 (reset (send_buf_ c)) Hwf) as (b&E&Hwfb&Hwin&Hr&Hwp&Hsb); [unfold hdr_size in *; rewrite Hs; lia|].
  exists b. split; [done|]. split; [split; [done|]; rewrite Hsb, Hs; cbn; unfold hdr_size in *; lia|].
  split; [rewrite Hr; apply Z.ltb_lt; rewrite Hsb, Hs; cbn; unfold hdr_size in *; lia|].
  rewrite Hw in Hwin. assert (zlen (window b) = zlen (frame m)) as Hz by (rewrite Hwin; by destruct m).
  rewrite (zlen_window b Hwfb), zlen_frame in Hz. rewrite (read_available b Hwfb), wrap_small by (unfold fits, hdr_size in *; lia).
  fold (window b). rewrite Hwin. by destruct m.
Qed.

Lemma send_message_eq m fails c : idle c → wf_message m → ∃ b, sized b ∧
  send_message m fails c = Some (match fails with
    | Some k => (SysError, mk_client true true b (recv_buf_ c), ztake k (frame m))
    | None => (Done tt, mk_client true false b (recv_buf_ c), frame m)
    end).
Proof.
  intros Hc Hm. destruct (send_buffer m c Hc Hm) as (b&E&Hb&Hp&Hs). destruct Hc as (H1&H2&_). exists b. split; [done|].
  unfold send_message. rewrite H1, H2. cbn [negb]. simpl. rewrite E. cbn -[wrap]. rewrite Hp, Hs, H1. by destruct fails.
Qed.

Lemma send_all_eq ms c : idle c → Forall wf_message ms → ∃ c', send_all ms c = Some (c', stream ms) ∧ recv_buf_ c' = recv_buf_ c.
Proof.
  intros Hc Hms. revert c Hc. induction Hms as [|m ms Hm _ IH]; intros c Hc; cbn [send_all]; [by exists c|].
  destruct (send_message_eq m None c Hc Hm) as (b&Hb&->). cbn [mbind option_bind].
  destruct (IH (mk_client true false b (recv_buf_ c))) as (c'&->&Hc'); [done|]. exists c'. split; [done|]. exact Hc'.
Qed.

(** The header of a message, and then its body. *)
Lemma recv_hdr m rest b : sized b → wf_message m → ∃ b', recv_msg_hdr (frame m ++ rest) (reset b) =
    Some (Done (mk_hdr m.1 (zlen m.2 + hdr_size)), b', m.2 ++ rest) ∧ sized b' ∧ read_pos_ b' = hdr_size ∧ write_pos_ b' = hdr_size.
Proof.
  intros Hb Hm. destruct (sized_reset b Hb) as ([Hwf Hsz]&Hs&_). pose proof (zlen_nonneg m.2) as Hm2. pose proof (zlen_nonneg rest). rewrite Hs in Hsz.
  assert (hdr_size ≤ zlen (frame m)) as Hf by (rewrite zlen_frame; lia).
  assert (zlen (ztake hdr_size (frame m)) = hdr_size) as Ht by (rewrite zlen_ztake by done; lia).
  unfold recv_msg_hdr. rewrite (write_available _ Hwf), Hs, zlen_app, (ztake_app_le _ _ rest Hf).
  change (read_pos_ (reset b)) with 0. change (write_pos_ (reset b)) with 0. change (data_ (reset b)) with (data_ b).
  replace (zdrop hdr_size (frame m ++ rest)) with (m.2 ++ rest)
    by (unfold frame; rewrite <- app_assoc, zdrop_app_len; [done|by rewrite zlen_hdr_bytes]).
  set (b1 := (reset b) <| data_ := blit 0 (ztake hdr_size (frame m)) (data_ b) |>).
  assert (size b1 = size b) as Hs1 by (unfold b1, size; cbn; rewrite zlen_blit; [done|lia|rewrite Ht; unfold size in *; lia]).
  unfold hdr_size in Hsz. unfold hdr_size at 1 2 3.
  destruct (Z.ltb_spec (size b - 0) 10); [lia|]. destruct (Z.ltb_spec 0 (size b)); [|lia]. cbn [negb].
  destruct (Z.ltb_spec (zlen (frame m) + zlen rest) 10); [unfold hdr_size in Hf; lia|].
  unfold set_write_pos. rewrite Hs1. rewrite (proj2 (Z.leb_le _ _)) by (unfold hdr_size; lia). cbn [andb mbind option_bind].
  change (read_pos_ b1 <=? 10) with true. cbn [mbind option_bind]. set (b2 := b1 <| write_pos_ := _ |>).
  assert (wf b2) as Hwf2 by (unfold wf; change (size b2) with (size b1); rewrite Hs1; cbn; unfold hdr_size; lia).
  assert (window b2 = ztake hdr_size (frame m)) as Hw2.
  { unfold window, b2, b1. cbn -[slice blit hdr_size].
    transitivity (slice 0 (zlen (ztake hdr_size (frame m))) (blit 0 (ztake hdr_size (frame m)) (data_ b))); [by rewrite Ht|]. apply slice_blit; [lia|]. rewrite Ht. unfold size, hdr_size in *. lia. }
  destruct (buf_to_msg_hdr_frame m [] b2 Hwf2 ltac:(done) Hm) as (b3&E&Hwf3&_&Hd&Hr3&Hw3); [right; by exists hdr_size|].
  rewrite E. cbn [mbind option_bind]. exists b3. split; [reflexivity|]. split_and!; [split; [done|]|by rewrite Hr3|by rewrite Hw3].
  assert (size b3 = size b1) as -> by (unfold size; by rewrite Hd). unfold hdr_size. lia.
Qed.

Lemma recv_one m rest b : sized b → wf_message m → ∃ b', recv_message m.1 (frame m ++ rest) b = Some (Done m.2, b', rest) ∧ sized b'.
Proof.
  intros Hb Hm. destruct (recv_hdr m rest b Hb Hm) as (b1&E&[Hwf Hsz]&Hr&Hw). pose proof Hm as [_ Hl]. pose proof (zlen_nonneg m.2). pose proof (zlen_nonneg rest).
  unfold recv_message. rewrite E. cbn [mbind option_bind]. unfold body_length. cbn [length_ type_]. rewrite Z.eqb_refl. cbn [negb].
  replace (zlen m.2 + hdr_size - hdr_size) with (zlen m.2) by lia. rewrite (wrap_small 64) by (unfold fits; lia).
  assert (∃ b2, (if write_available_size b1 <=? zlen m.2 then resize_capacity (write_pos_ b1 + zlen m.2) b1 else Some b1) = Some b2 ∧
    zlen m.2 ≤ size b2 ∧ hdr_size ≤ size b2 ≤ 2 ^ 30) as (b2&->&Hn&Hs2).
  { rewrite (write_available b1 Hwf), Hw. unfold hdr_size in *. destruct (Z.leb_spec (size b1 - 10) (zlen m.2)); [|exists b1; split; [done|lia]].
    unfold resize_capacity. rewrite Hw, Hr. rewrite !(proj2 (Z.leb_le _ _)) by lia. eexists. split; [reflexivity|]. unfold size in *. cbn -[vresize]. rewrite zlen_vresize; lia. }
  cbn [mbind option_bind]. unfold set_write_pos. change (size (reset b2)) with (size b2). rewrite (proj2 (Z.leb_le (zlen m.2) (size b2))) by lia.
  change (read_pos_ (reset b2)) with 0. rewrite (proj2 (Z.leb_le 0 (zlen m.2))) by lia. cbn [andb mbind option_bind]. rewrite zlen_app.
  destruct (Z.ltb_spec (zlen m.2 + zlen rest) (zlen m.2)); [lia|]. rewrite ztake_app_len, zdrop_app_len by done. eexists. split.
  - do 3 f_equal. unfold window. cbn -[slice blit]. rewrite Z.sub_0_r. rewrite slice_blit; [done|lia|]. unfold size in *. lia.
  - unfold sized, wf, size. cbn -[blit]. rewrite zlen_blit by (unfold size in *; lia). unfold size in *. unfold hdr_size in *. lia.
Qed.

Lemma recv_all_eq ms rest b : sized b → Forall wf_message ms →
  ∃ b', recv_all (map fst ms) (stream ms ++ rest) b = Some (map snd ms, b', rest) ∧ sized b'.
Proof.
  intros Hb Hms. revert b Hb. induction Hms as [|m ms Hm _ IH]; intros b Hb; cbn [map recv_all]; [by exists b|].
  change (stream (m :: ms)) with (frame m ++ stream ms). rewrite <- app_assoc.
  destruct (recv_one m (stream ms ++ rest) b Hb Hm) as (b1&->&Hb1). cbn [mbind option_bind]. destruct (IH b1 Hb1) as (b2&->&Hb2). by exists b2.
Qed.

Definition new_client : client := mk_client true false default_buffer default_buffer.

Lemma default_sized : sized default_buffer.
Proof. split; [by apply wf_new|]. vm_compute. split; congruence. Qed.

(** C20: A conversation over a blocking client.  The requests a client sends reach
    the handler of the block at the other end, each once and in order, however
    the network cuts the bytes.  The responses the block sends, under any
    interleaving of its sends and completed writes, are what the client's reads
    for messages of their types return, in order, with nothing left over. *)
Theorem conversation f reqs ns ls :
  (∀ m, f m = true) → Forall wf_message reqs → Forall (Z.le 1) ns → zlen (stream reqs) ≤ Z.of_nat (length ns) →
  Forall wf_message (ConnectionSend.sends ls) → zlen (stream (ConnectionSend.sends ls)) < 2 ^ 61 →
  ∃ c bytes b srv b',
    send_all reqs new_client = Some (c, bytes) ∧
    Connection.Connection.receive (Some f) ns bytes default_buffer = Some (b, reqs, []) ∧
    ConnectionSend.run (ls ++ [ConnectionSend.LDone; ConnectionSend.LDone]) ConnectionSend.new_server = Some srv ∧
    recv_all (map fst (ConnectionSend.sends ls)) (ConnectionSend.wire srv) (recv_buf_ c)
    = Some (map snd (ConnectionSend.sends ls), b', []).
Proof.
  intros Hf Hreqs Hns Hlong Hls Hlen. destruct (send_all_eq reqs new_client) as (c&Ec&Hrb); [split_and!; [done|done|apply default_sized]|done|].
  destruct (Connection.Connection.receive_all f Hf reqs ns Hreqs Hns Hlong) as (b&Hb&_).
  pose proof (zlen_nonneg (stream (ConnectionSend.sends ls))) as H0.
  destruct (ConnectionSend.run_ok _ ls [] ConnectionSend.new_server (ConnectionSend.sender_inv_start _ H0)) as (s & Hr & Hi); [done|done|].
  destruct (ConnectionSend.drained _ _ s Hi) as (s' & Hr' & _ & Hw); [done|done|].
  destruct (recv_all_eq (ConnectionSend.sends ls) [] (recv_buf_ c)) as (b'&Hb'&_); [rewrite Hrb; apply default_sized|done|].
  exists c, (stream reqs), b, s', b'. rewrite ConnectionSend.run_app, Hr, Hw. rewrite app_nil_r in Hb'. done.
Qed.

(** A failed write ends a blocking client.  When the socket fails in the
    middle of a message, the caller is told, but the connection is still marked
    as connected and as writing: every later send on it fails an assertion
    instead of returning an error. *)
Theorem failed_send_stuck m k c : idle c → wf_message m →
  ∃ c', send_message m (Some k) c = Some (SysError, c', ztake k (frame m)) ∧ connected_ c' = true ∧
    ∀ m' fails, send_message m' fails c' = None.
Proof.
  intros Hc Hm. destruct (send_message_eq m (Some k) c Hc Hm) as (b&_&E). eexists. split; [exact E|]. done.
Qed.

(** Two requests and their responses. *)
Definition demo_sends : list ConnectionSend.label :=
  [ConnectionSend.LSend (9, [1]); ConnectionSend.LDone; ConnectionSend.LSend (9, [2; 3])].

Lemma conversation_witness :
  ∃ c bytes b srv b', send_all [(7, [1; 2]); (7, [3])] new_client = Some (c, bytes) ∧
    Connection.Connection.receive (Some (fun _ => true)) (replicate 23 3) bytes default_buffer = Some (b, [(7, [1; 2]); (7, [3])], []) ∧
    ConnectionSend.run (demo_sends ++ [ConnectionSend.LDone; ConnectionSend.LDone]) ConnectionSend.new_server = Some srv ∧
    recv_all [9; 9] (ConnectionSend.wire srv) (recv_buf_ c) = Some ([[1]; [2; 3]], b', []).
Proof.
  apply (conversation (fun _ => true) [(7, [1; 2]); (7, [3])] (replicate 23 3) demo_sends).
  - reflexivity.
  - unfold wf_message. repeat constructor; vm_compute; congruence.
  - repeat constructor; lia.
  - vm_compute. congruence.
  - unfold wf_message. repeat constructor; vm_compute; congruence.
  - vm_compute. reflexivity.
Defined.

Lemma failed_send_stuck_witness : ∃ c', send_message (7, [1]) (Some 4) new_client = Some (SysError, c', ztake 4 (frame (7, [1]))) ∧
  connected_ c' = true ∧ ∀ m' fails, send_message m' fails c' = None.
Proof.
  apply (failed_send_stuck (7, [1]) 4 new_client).
  - split; [reflexivity|]. split; [reflexivity|]. apply default_sized.
  - split; vm_compute; [split; congruence|congruence].
Defined.
End NetClient.
