(* ===== verification/Terminal.v ===== *)
(** * Terminals find their leader

    [connect_database], [connect_to_lead] and [random_get_replica_client] of
    [src/portal/workload.cpp]: before it sends transactions a terminal connects
    to the replicas of its shard and asks until it is connected to the leader and
    all shards have the leaders the configuration prefers.  What the replicas
    answer are arguments; sleeping and connecting, which is repeated until it
    succeeds, are left out.

    - [connects_to_leader]: a terminal that goes on is connected to the node that
      says it leads the shard, which is the preferred one, with all other shards
      led as preferred; and it goes on as soon as that node answers so;
    - [follower_waits]: without a preferred node, a terminal that has picked a
      follower asks it for ever. *)

From S2P Require Import Prelude Common.
From S2P Require Import Bytes ByteBuffer MessageCodec NetClient Store Config.
#[local] Open Scope Z_scope.

Module Terminal.
Import NodeId Config.Config.
Import NetClient(net_result, Done, Failed, SysError).

(** [client_conn_] is the node the connection leads to. *)
(* @src include/portal/workload.h 111 125 per_terminal *)
Record per_terminal := mk_terminal {
  node_id_ : Z;
  nodes_id_set_ : list Z;
  client_set_ : gset Z;
  client_conn_ : option Z;
}.
#[export] Instance eta_terminal : Eta per_terminal := fun t => mk_terminal (node_id_ t) (nodes_id_set_ t) (client_set_ t) (client_conn_ t).

(** The answer to a request for the leaders: none, because of an error of the
    connection or ([None]) of the socket, or the leader of the shard and
    those of all shards. *)
Inductive lead_answer :=
| NoAnswer (ec : option EC)
| LeadStatus (rg_lead : Z) (lead : list Z).

Section terminal.
Context (conf : config) (shuffle : nat → list Z → list Z).

(** 0 when there is none. *)
Definition preferred (sd : Z) : Z := default 0 (get_largest_priority_node_of_shard sd conf).

(* @src src/portal/workload.cpp 146 195 workload::connect_to_lead *)
Definition connect_to_lead (answer : lead_answer) (wait_all : bool) (t : per_terminal) : net_result unit * per_terminal :=
  match client_conn_ t with
  | None => (Failed EC_NET_UNCONNECTED, t)
  | Some _ =>
      match answer with
      | NoAnswer (Some ec) => (Failed ec, t)
      | NoAnswer None => (SysError, t)
      | LeadStatus rg_lead lead =>
          if rg_lead =? 0 then (Failed EC_NET_UNCONNECTED, t)
          else if wait_all then
            if (node_id_ t =? rg_lead) && (num_rg conf =? Z.of_nat (length lead)) then
              if forallb (fun nid => let lp := preferred (TO_RG_ID nid) in (lp =? 0) || (lp =? nid)) lead
              then (Done tt, t) else (Failed EC_NOT_LEADER, t)
            else (Failed EC_NET_UNCONNECTED, t)
          else if node_id_ t =? rg_lead then (Done tt, t)
          else (Failed EC_NET_UNCONNECTED, t <| node_id_ := rg_lead |>)
      end
  end.

(** A node that is no client of the terminal is only reported: the assertion is
    on a string literal. *)
(* @src src/portal/workload.cpp 197 217 workload::random_get_replica_client *)
Definition random_get_replica_client (k : nat) (sd_id : Z) (t : per_terminal) : option per_terminal :=
  '(node_id, t) ← (if node_id_ t =? 0 then
                     nodes ← (match nodes_id_set_ t with [] => get_rg_block_nodes (shuffle k) sd_id BLOCK_TYPE_ID_CCB conf | l => Some l end);
                     n ← last nodes;
                     Some (n, t <| nodes_id_set_ := take (pred (length nodes)) nodes |>)
                   else Some (node_id_ t, t));
  if negb (is_ccb_block node_id) then None
  else if decide (node_id ∈ client_set_ t) then Some (t <| client_conn_ := Some node_id |> <| node_id_ := node_id |>)
  else Some t.

(** One round of asking the replicas whether they lead: [None] is a request that
    could not be sent and ends the round. *)
(* @src src/portal/workload.cpp 236 263 workload::connect_database *)
Fixpoint poll (answers : list (option bool)) (nodes : list Z) : list Z :=
  match nodes, answers with
  | n :: nodes, Some lead :: answers => if lead then n :: poll answers nodes else poll answers nodes
  | _, _ => []
  end.

(** Rounds until some replica leads.  Whether it is the preferred one is looked
    at, but the loop ends in any case.  [false]: no more answers. *)
(* @src src/portal/workload.cpp 234 297 workload::connect_database *)
Fixpoint wait_leader (sd_id : Z) (rounds : list (list (option bool))) (nodes : list Z) : bool :=
  match rounds with
  | [] => false
  | answers :: rounds =>
      let leader_nodes := poll answers nodes in
      match leader_nodes with
      | [] => wait_leader sd_id rounds nodes
      | _ => if preferred sd_id =? 0 then true
             else if decide (preferred sd_id ∈ leader_nodes) then true else true
      end
  end.

(** Asking until connected to the right leader; [k] counts the turns. *)
(* @src src/portal/workload.cpp 316 334 workload::connect_database *)
Fixpoint find_lead (k : nat) (sd_id : Z) (answers : list lead_answer) (t : per_terminal) : option (bool * per_terminal) :=
  match answers with
  | [] => Some (false, t)
  | answer :: answers =>
      let t := if preferred sd_id =? 0 then t else t <| node_id_ := preferred sd_id |> in
      t ← random_get_replica_client k sd_id t;
      match connect_to_lead answer true t with
      | (Done _, t) => Some (true, t)
      | (_, t) => find_lead (S k) sd_id answers t
      end
  end.

(** A new terminal.  [false]: it is still waiting when the answers end. *)
(* @src src/portal/workload.cpp 219 363 workload::connect_database *)
Definition connect_database (sd_id : Z) (rounds : list (list (option bool))) (answers : list lead_answer) : option (bool * per_terminal) :=
  nodes ← get_rg_block_nodes (shuffle 0) sd_id BLOCK_TYPE_ID_CCB conf;
  let t := mk_terminal 0 nodes (list_to_set nodes) None in
  if negb (wait_leader sd_id rounds nodes) then Some (false, t)
  else
    '(done, t) ← find_lead 1 sd_id answers t;
    if done : bool then (match client_conn_ t with None => None | Some _ => Some (true, t) end) else Some (false, t).

(** ** Theorems *)

(** The shard's node leads and every shard is led as preferred. *)
Definition good (n : Z) (answer : lead_answer) : Prop :=
  ∃ lead, answer = LeadStatus n lead ∧ n ≠ 0 ∧ Z.of_nat (length lead) = num_rg conf ∧
    Forall (fun nid => preferred (TO_RG_ID nid) = 0 ∨ preferred (TO_RG_ID nid) = nid) lead.

Lemma connect_to_lead_done answer t t' r : connect_to_lead answer true t = (r, t') →
  t' = t ∧ (r = Done tt ↔ is_Some (client_conn_ t) ∧ good (node_id_ t) answer).
Proof.
  unfold connect_to_lead, good. destruct (client_conn_ t) as [n|] eqn:Ec; [|intros [= <- <-]; split; [done|]; split; [done|by intros [[? [=]] _]]].
  destruct answer as [[ec|]|rg lead]; [intros [= <- <-]; split; [done|]; split; [done|by intros [_ (?&[=]&_)]]..|].
  destruct (Z.eqb_spec rg 0) as [->|Hrg]; [intros [= <- <-]; split; [done|]; split; [done|intros [_ (?&[= -> ->]&?&_)]; done]|].
  destruct (Z.eqb_spec (node_id_ t) rg) as [<-|Hn]; cbn [andb]; [|intros [= <- <-]; split; [done|]; split; [done|intros [_ (?&[= -> ->]&_)]; done]].
  destruct (Z.eqb_spec (num_rg conf) (Z.of_nat (length lead))) as [El|El]; [|intros [= <- <-]; split; [done|]; split; [done|intros [_ (?&[= <-]&_&?&_)]; congruence]].
  destruct (forallb _ lead) eqn:Ef; intros [= <- <-]; (split; [done|]); split; try done.
  - intros _. split; [by eexists|]. exists lead. split_and!; [done|done|done|]. apply Forall_forall. intros n' Hn'%list_elem_of_In.
    rewrite forallb_forall in Ef. specialize (Ef n' Hn'). apply orb_prop in Ef as [?%Z.eqb_eq|?%Z.eqb_eq]; auto.
  - intros [_ (?&[= <-]&_&_&Hf)]. apply not_true_iff_false in Ef. exfalso. apply Ef. apply forallb_forall. intros n' Hn'%list_elem_of_In.
    rewrite Forall_forall in Hf. destruct (Hf n' Hn') as [->|E]; [done|]. rewrite E, Z.eqb_refl. apply orb_true_r.
Qed.

(** With the node chosen, the turn keeps to it. *)
Lemma get_client k sd t : node_id_ t ≠ 0 → is_ccb_block (node_id_ t) = true → node_id_ t ∈ client_set_ t →
  random_get_replica_client k sd t = Some (t <| client_conn_ := Some (node_id_ t) |>).
Proof.
  intros Hn Hc Hin. unfold random_get_replica_client. destruct (Z.eqb_spec (node_id_ t) 0); [done|]. cbn [mbind option_bind]. rewrite Hc. cbn [negb].
  rewrite decide_True by done. by destruct t.
Qed.

(** The turns of a terminal that asks node [n]. *)
Lemma ask_node sd n answers : n ≠ 0 → is_ccb_block n = true → (preferred sd = 0 ∨ preferred sd = n) →
  ∀ k t, n ∈ client_set_ t → (preferred sd = 0 → node_id_ t = n) → answers ≠ [] →
  ∃ done, find_lead k sd answers t = Some (done, t <| node_id_ := n |> <| client_conn_ := Some n |>) ∧ (done = true ↔ Exists (good n) answers).
Proof.
  intros Hn Hc Hp. induction answers as [|a answers IH]; intros k t Hin Ht Hne; [done|]. cbn [find_lead].
  assert ((if preferred sd =? 0 then t else t <| node_id_ := preferred sd |>) = t <| node_id_ := n |>) as ->.
  { destruct (Z.eqb_spec (preferred sd) 0) as [E|E]; [rewrite <- (Ht E); by destruct t|]. by destruct Hp as [?| ->]. }
  rewrite get_client by done. cbn [mbind option_bind]. set (t1 := t <| node_id_ := n |> <| client_conn_ := Some n |>).
  change (_ <| client_conn_ := _ |>) with t1. destruct (connect_to_lead a true t1) as [r t'] eqn:E.
  apply connect_to_lead_done in E as [-> Hr]. setoid_rewrite Exists_cons.
  assert (r = Done tt ↔ good n a) as Hg by (rewrite Hr; split; [by intros []|]; by split; [eexists|]).
  assert (r ≠ Done tt → ∃ done, find_lead (S k) sd answers t1 = Some (done, t1) ∧ (done = true ↔ good n a ∨ Exists (good n) answers)) as Hrest.
  { intros Hnr. destruct answers as [|a' answers]; [exists false; split; [done|]; rewrite Exists_nil; naive_solver|].
    destruct (IH (S k) t1) as (fin&E&Hd); [done|done|done|]. exists fin. split; [exact E|]. rewrite Hd. naive_solver. }
  destruct r as [[]|ec|]; [|by apply Hrest..]. exists true. split; [done|]. naive_solver.
Qed.

Lemma wait_leader_spec sd rounds nodes : wait_leader sd rounds nodes = true ↔ Exists (fun r => poll r nodes ≠ []) rounds.
Proof.
  induction rounds as [|r rounds IH]; cbn [wait_leader]; [by rewrite Exists_nil|]. rewrite Exists_cons, <- IH.
  destruct (poll r nodes); [naive_solver|]. destruct (preferred sd =? 0); [naive_solver|]. case_decide; naive_solver.
Qed.

Lemma replicas_ccb k sd nodes n : get_rg_block_nodes (shuffle k) sd BLOCK_TYPE_ID_CCB conf = Some nodes → n ∈ nodes → is_ccb_block n = true.
Proof.
  unfold get_rg_block_nodes. destruct (get_rg_nodes _ sd conf) as [l|]; [|done]. intros [= <-] [H _]%list_elem_of_filter. exact H.
Qed.

(** A terminal connects to the leader.  Let its shard have a preferred node
    among its replicas, and let some replica say in some round that it leads.
    The terminal's search never fails an assertion.  It ends when, and only
    when, the preferred node answers that it leads the shard and that all shards
    have leaders, each the preferred one where there is one; and the terminal is
    then connected to that node. *)
Theorem connects_to_leader sd rounds answers nodes :
  get_rg_block_nodes (shuffle 0) sd BLOCK_TYPE_ID_CCB conf = Some nodes → preferred sd ≠ 0 → preferred sd ∈ nodes →
  Exists (fun r => poll r nodes ≠ []) rounds →
  ∃ done t, connect_database sd rounds answers = Some (done, t) ∧ (done = true ↔ Exists (good (preferred sd)) answers) ∧
    (done = true → client_conn_ t = Some (preferred sd) ∧ node_id_ t = preferred sd).
Proof.
  intros Hn Hp Hin Hr%(wait_leader_spec sd). unfold connect_database. rewrite Hn. cbn [mbind option_bind]. rewrite Hr. cbn [negb].
  set (t0 := mk_terminal _ _ _ _). destruct answers as [|a answers].
  { exists false, t0. split; [done|]. rewrite Exists_nil. done. }
  destruct (ask_node sd (preferred sd) (a :: answers) Hp (replicas_ccb _ _ _ _ Hn Hin) ltac:(by right) 1%nat t0) as (fin&E&Hd);
    [by apply elem_of_list_to_set|done|done|].
  rewrite E. cbn [mbind option_bind]. exists fin. destruct fin; eexists; (split; [reflexivity|]); done.
Qed.

(** Without a preferred node the terminal asks the node it has picked first and
    no other: as long as that node does not lead, it waits, whoever leads. *)
Theorem follower_waits sd rounds answers nodes n :
  get_rg_block_nodes (shuffle 0) sd BLOCK_TYPE_ID_CCB conf = Some (nodes ++ [n]) → n ≠ 0 → preferred sd = 0 →
  Forall (fun a => ∀ lead, a ≠ LeadStatus n lead) answers →
  ∃ t, connect_database sd rounds answers = Some (false, t).
Proof.
  intros Hn Hn0 Hp Ha. unfold connect_database. rewrite Hn. cbn [mbind option_bind]. destruct (wait_leader _ _ _); cbn [negb]; [|by eexists].
  assert (is_ccb_block n = true) as Hc by (eapply replicas_ccb; [exact Hn|]; apply elem_of_app; right; by left).
  destruct answers as [|a answers]; [by eexists|]. apply Forall_cons in Ha as [Ha Has].
  assert (∀ k t as', n ∈ client_set_ t → node_id_ t = n → Forall (fun a => ∀ lead, a ≠ LeadStatus n lead) as' →
    ∃ t', find_lead k sd as' t = Some (false, t')) as Hwait.
  { intros k t as' Hin Ht Has'. destruct as' as [|a' as']; [by eexists|].
    destruct (ask_node sd n (a' :: as') Hn0 Hc ltac:(by left) k t) as (fin&E&Hd); [done|done|done|]. rewrite E. eexists. do 2 f_equal.
    apply not_true_iff_false. rewrite Hd. intros (a0&H0&(lead&->&_))%Exists_exists. rewrite Forall_forall in Has'. by eapply Has'. }
  cbn [find_lead]. rewrite Hp. cbn [Z.eqb]. unfold random_get_replica_client at 1. cbn [node_id_ Z.eqb nodes_id_set_].
  destruct (nodes ++ [n]) as [|x l] eqn:El; [by destruct nodes|]. rewrite <- El. cbn [mbind option_bind]. rewrite last_snoc.
  cbn [mbind option_bind]. rewrite Hc. cbn [negb]. rewrite decide_True by (apply elem_of_list_to_set, elem_of_app; right; by left).
  cbn [mbind option_bind]. set (t1 := _ <| node_id_ := n |>). destruct (connect_to_lead a true t1) as [r t'] eqn:E.
  apply connect_to_lead_done in E as [-> Hr]. destruct (Hwait 2%nat t1 answers) as (t2&E2); [|done|done|].
  { apply elem_of_list_to_set, elem_of_app. right. by left. }
  destruct r as [[]|ec|]; [|rewrite E2; by eexists..]. exfalso. destruct (proj1 Hr eq_refl) as [_ (lead&->&_)]. by eapply Ha.
Qed.
End terminal.

(** Shard 2 of the four servers of [Config]: the first answer is that the other
    replica leads. *)
Lemma connects_to_leader_witness : ∃ t,
  connect_database (demo_config "n3") (fun _ l => l) 2 [[Some false; None]; [Some false; Some true]]
    [LeadStatus 131335 [65799; 131335]; LeadStatus 131591 [65799; 131591]] = Some (true, t) ∧ client_conn_ t = Some 131591.
Proof.
  destruct (connects_to_leader (demo_config "n3") (fun _ l => l) 2 [[Some false; None]; [Some false; Some true]]
    [LeadStatus 131335 [65799; 131335]; LeadStatus 131591 [65799; 131591]] [131335; 131591]) as (fin&t&E&Hd&Ht).
  - vm_compute. reflexivity.
  - vm_compute. discriminate.
  - apply (bool_decide_unpack _). vm_compute. exact Logic.I.
  - right. left. vm_compute. discriminate.
  - assert (fin = true) as ->.
    { apply Hd. right. left. exists [65799; 131591]. split; [vm_compute; reflexivity|]. split; [vm_compute; discriminate|].
      split; [vm_compute; reflexivity|]. repeat constructor; right; vm_compute; reflexivity. }
    exists t. split; [exact E|]. exact (proj1 (Ht eq_refl)).
Defined.
End Terminal.
