(* ===== verification/Workload.v ===== *)
(** * The workload generator

    [src/portal/workload.cpp], [include/portal/workload.h]: the terminals that
    drive the database with TPC-C new-order and read-only transactions.  The
    generator splits the warehouses among the shards, makes the requests of each
    terminal, sends them one after the other and counts what comes back.

    Random numbers are a parameter: [draw k lo hi] is what the [k]-th use of a
    [std::uniform_int_distribution] on [lo..hi] gives, [shuffle] stands for
    [std::shuffle], [gen_tuple] for the rows [tuple_gen] makes up.  A percentage
    [p] appears as the whole part of [p * PERCENT_BASE], which is all that is
    compared with a number drawn.  Latencies, windows of results and the order of
    a hash map are left out ([Terminal] has the waiting for leaders); the
    assertion on the keys of warm-up requests holds of all operations made here.
    A [PANIC] and a failed assertion are [None].

    - [warehouses_split]: each warehouse up to the largest multiple of the number
      of shards belongs to exactly one shard; the others belong to none and make
      the generator panic;
    - [new_order_well_formed]: the generator returns a request for every new order,
      with its operations numbered in order, at shards of the deployment, it reads
      and updates only rows that the storage block of the shard has loaded, and
      writes no row that it read before;
    - [distributed_by_last]: whether a request is marked as distributed is decided
      by its last item from another shard alone;
    - [terminal_counts], [locks_counted_again]: what a terminal reports;
    - [warm_up_capped]: a terminal warms up at most 201 rows of a shard. *)

From S2P Require Import Prelude Common.
From S2P Require Import Store DsBlock BlockRun.
#[local] Open Scope Z_scope.

Module Workload.
Import Store.Store.

(* @src include/portal/workload.h 27 27 PERCENT_BASE *)
Definition PERCENT_BASE : Z := 10000.

(** [percent_*] are whole parts of the percentage times [PERCENT_BASE];
    [read_only_on] tells whether the percentage exceeds [DBL_EPSILON]. *)
(* @src include/common/tpcc_config.h 8 33 tpcc_config *)
Record tpcc_config := mk_tpcc {
  num_warehouse : Z;
  num_item : Z;
  num_order_initialize_per_district : Z;
  num_district_per_warehouse : Z;
  num_max_order_line : Z;
  num_terminal : Z;
  num_customer_per_district : Z;
  num_new_order : Z;
  percent_non_exist_item : Z;
  percent_remote : Z;
  percent_hot_row : Z;
  percent_read_only : Z;
  read_only_on : bool;
  num_read_only_rows : Z;
  additional_read_only_terminal : bool;
  hot_item_num : Z;
  control_percent_dist_tx : bool;
}.

(* @src include/portal/workload.h 143 146 boundary *)
Record boundary := mk_boundary { lower : Z; upper : Z }.
(* @src include/portal/workload.h 148 155 rg_wid *)
Record rg_wid := mk_rg_wid { rg_of : Z; wid_of : Z }.

(** ** Warehouses of the shards *)

(* @src src/portal/workload.cpp 133 140 workload::workload *)
Definition shard_boundary (num_wh num_wh_per_rg sd_id : Z) : boundary :=
  let lower := u32 (1 + u32 (num_wh_per_rg * (sd_id - 1))) in
  let upper := u32 (lower + num_wh_per_rg) in
  mk_boundary lower (if num_wh <? upper then num_wh else u32 (upper - 1)).

(** [rg2wid_boundary_], in the order of the shards. *)
(* @src src/portal/workload.cpp 119 144 workload::workload *)
Definition rg2wid_boundary (num_rg num_wh num_new_order : Z) : option (list (Z * boundary)) :=
  if negb ((num_rg <? num_wh) && (0 <? num_rg) && (0 <? num_new_order)) then None
  else Some (map (fun sd_id => (sd_id, shard_boundary num_wh (num_wh / num_rg) sd_id)) (seqZ 1 num_rg)).

Definition owns (b : boundary) (w : Z) : bool := (lower b <=? w) && (w <=? upper b).

(** [wid2rg_]: the map keeps the first shard inserted for a warehouse. *)
(* @src include/portal/workload.h 178 183 id_generator::id_generator *)
Definition wid2rg (rg2b : list (Z * boundary)) (w : Z) : option Z :=
  fst <$> head (filter (fun p : Z * boundary => owns p.2 w = true) rg2b).

(* @src include/portal/workload.h 174 177 id_generator::id_generator *)
Definition boundary_of (rg2b : list (Z * boundary)) (sd_id : Z) : option boundary :=
  snd <$> head (filter (fun p : Z * boundary => p.1 = sd_id) rg2b).

(** ** Random draws

    A computation that uses the generators: the number of draws so far, and
    [None] for a panic or a loop that has run out of fuel. *)

Definition R (A : Type) : Type := nat → option (A * nat).
#[export] Instance R_ret : MRet R := fun A x k => Some (x, k).
#[export] Instance R_bind : MBind R := fun A B f m k => '(x, k) ← m k; f x k.
Definition panic {A} : R A := fun _ => None.
Definition lift {A} (o : option A) : R A := match o with Some x => mret x | None => panic end.

Section generator.
Context (draw : nat → Z → Z → Z).

(** The state of the engine that shuffles is the number of draws too. *)
Definition with_rng {A} (f : nat → A) : R A := fun k => Some (f k, k).

Definition generate (lo hi : Z) : R Z := fun k => Some (draw k lo hi, S k).

(** Draw until the number is not [avoid]. *)
Fixpoint generate_other (fuel : nat) (lo hi avoid : Z) : R Z :=
  match fuel with
  | O => panic
  | S fuel => x ← generate lo hi; if x =? avoid then generate_other fuel lo hi avoid else mret x
  end.

(** The loop of [gen_remote_wid]. *)
Definition generate_first (fuel : nat) (lo hi avoid : Z) (first : bool) : R Z :=
  if first then generate_other fuel lo hi avoid else generate lo hi.

Section ids.
Context (c : tpcc_config) (rg2b : list (Z * boundary)) (fuel : nat).

(* @src include/portal/workload.h 186 212 id_generator::gen_remote_wid *)
Definition gen_remote_wid (rg_id w_id : Z) (first : bool) : R rg_wid :=
  if negb (control_percent_dist_tx c) then
    remote_w_id ← generate_first fuel 1 (num_warehouse c) w_id first;
    sd ← lift (wid2rg rg2b remote_w_id);
    mret (mk_rg_wid sd remote_w_id)
  else
    sd_id ← generate_first fuel 1 (Z.of_nat (length rg2b)) rg_id first;
    b ← lift (boundary_of rg2b sd_id);
    wid ← generate (lower b) (upper b);
    mret (mk_rg_wid sd_id wid).

(* @src include/portal/workload.h 214 221 id_generator::gen_local_wid *)
Definition gen_local_wid (rg_id : Z) : R rg_wid :=
  b ← lift (boundary_of rg2b rg_id);
  wid ← generate (lower b) (upper b);
  mret (mk_rg_wid rg_id wid).

(** The ranges a node with these shards is asked to load, one request for each;
    [answered i] tells whether the [i]-th was answered with success. *)
(* @src src/portal/workload.cpp 365 404 workload::load_data *)
Fixpoint load_data (answered : nat → bool) (i : nat) (shard_ids : list Z) : option (list boundary) :=
  match shard_ids with
  | [] => Some []
  | sd :: shard_ids =>
      b ← boundary_of rg2b sd;
      if answered i then bs ← load_data answered (S i) shard_ids; Some (b :: bs) else Some [b]
  end.

(** ** Requests *)

(** The request under construction is the last of the terminal's.  A key is the
    tuple id ([uint64_to_key]). *)
Definition add_op (op : tx_operation) (r : tx_request) : tx_request := r <| req_operations ::= fun l => l ++ [op] |>.
Definition next_id (r : tx_request) : Z := Z.of_nat (length (req_operations r)) + 1.

(* @src src/portal/workload.cpp 932 945 workload::make_read_operation *)
Definition make_read_operation (sd_id table key : Z) (r : tx_request) : option tx_request :=
  if sd_id =? 0 then None else Some (add_op (mk_op TX_OP_READ 0 sd_id table sd_id key "" (next_id r)) r).

(* @src src/portal/workload.cpp 917 930 workload::make_read_for_write_operation *)
Definition make_read_for_write_operation (sd_id table key : Z) (r : tx_request) : option tx_request :=
  if sd_id =? 0 then None else Some (add_op (mk_op TX_OP_READ_FOR_WRITE 0 sd_id table sd_id key "" (next_id r)) r).

(* @src src/portal/workload.cpp 947 961 workload::make_update_operation *)
Definition make_update_operation (sd_id table key : Z) (tuple : string) (r : tx_request) : option tx_request :=
  if sd_id =? 0 then None else Some (add_op (mk_op TX_OP_UPDATE 0 sd_id table sd_id key tuple 0) r).

(* @src src/portal/workload.cpp 963 978 workload::make_insert_operation *)
Definition make_insert_operation (sd_id table key : Z) (tuple : string) (r : tx_request) : option tx_request :=
  if (sd_id =? 0) || is_tuple_nil tuple then None else Some (add_op (mk_op TX_OP_INSERT 0 sd_id table sd_id key tuple 0) r).

(** [oneshot_] is true. *)
(* @src src/portal/workload.cpp 1024 1031 workload::create_tx_request *)
Definition create_tx_request (terminal_id : Z) (read_only : bool) : tx_request :=
  mk_request 0 0 0 read_only true false true [] terminal_id.

(** The numbers of the operations are set again at the end. *)
(* @src src/portal/workload.cpp 797 800 workload::new_order *)
Definition renumber (r : tx_request) : tx_request :=
  r <| req_operations ::= imap (fun i op => op <| op_operation_id := Z.of_nat i + 1 |>) |>.

(** [conf_.rlb_shards()]; despite its name it tells whether the nodes differ. *)
(* @src src/portal/workload.cpp 807 815 workload::on_same_node *)
Definition on_same_node (rlb_shards : gmap Z Z) (shard_id remote_shard_id : Z) : option bool :=
  n1 ← rlb_shards !! shard_id; n2 ← rlb_shards !! remote_shard_id; Some (negb (n1 =? n2)).

(** ** New orders *)

Record item := mk_item { it_rg : Z; it_wid : Z; it_iid : Z }.

Section procedures.
Context (rlb_shards : gmap Z Z) (shuffle : nat → list item → list item) (gen_tuple : Z → nat → string).

Definition tuple_of (table : Z) : R string := fun k => Some (gen_tuple table k, S k).

(** The loop that chooses the items: [n] are left of [num_item]. *)
(* @src src/portal/workload.cpp 703 729 workload::new_order *)
Fixpoint choose_items (sd_id wid : Z) (num_item_ : Z) (remote non_exist hot : bool) (n : nat) (item_index : Z) : R (list item) :=
  match n with
  | O => mret []
  | S n =>
      let missing := non_exist && (item_index =? num_item_ / 2) in
      iid ← (if missing then mret 0 else
               iid ← generate 1 (num_item c);
               mret (if hot && (0 <? hot_item_num c) then iid mod hot_item_num c + 1 else iid));
      let non_exist := non_exist && negb missing in
      let hot := hot && (missing || negb (0 <? hot_item_num c)) in
      rw ← (if remote then gen_remote_wid sd_id wid (item_index =? 0) else mret (mk_rg_wid sd_id wid));
      items ← choose_items sd_id wid num_item_ remote non_exist hot n (item_index + 1);
      mret (mk_item (rg_of rw) (wid_of rw) iid :: items)
  end.

(** One turn of the loop over the shuffled items. *)
(* @src src/portal/workload.cpp 733 792 workload::new_order *)
Definition order_item (sd_id did : Z) (i : nat) (id : item) (st : tx_request * bool) : R (tx_request * bool) :=
  let '(r, is_dist) := st in
  is_dist ← (if it_rg id =? sd_id then mret is_dist else lift (on_same_node rlb_shards (it_rg id) sd_id));
  let s_key := u32 (Keys.make_stock_key (it_wid id) (it_iid id) (num_warehouse c)) in
  let ol_key := u32 (Keys.make_order_line_key (it_wid id) did (it_iid id) (Z.of_nat i + 1) (num_warehouse c)
                       (num_district_per_warehouse c) NUM_ORDER_MAX) in
  r ← lift (make_read_operation (it_rg id) TPCC_ITEM (it_iid id) r);
  tuple_stock ← tuple_of TPCC_STOCK;
  r ← lift (make_read_for_write_operation (it_rg id) TPCC_STOCK s_key r);
  r ← lift (make_update_operation (it_rg id) TPCC_STOCK s_key tuple_stock r);
  tuple_ol_item ← tuple_of TPCC_ORDER_LINE;
  r ← lift (make_insert_operation (it_rg id) TPCC_ORDER_LINE ol_key tuple_ol_item r);
  mret (r, is_dist).

Fixpoint order_items (sd_id did : Z) (i : nat) (ids : list item) (st : tx_request * bool) : R (tx_request * bool) :=
  match ids with
  | [] => mret st
  | id :: ids => st ← order_item sd_id did i id st; order_items sd_id did (S i) ids st
  end.

(** The rows of the order itself. *)
(* @src src/portal/workload.cpp 644 696 workload::new_order *)
Definition order_head (sd_id wid cid did oid : Z) (r : tx_request) : R tx_request :=
  let nw := num_warehouse c in let nd := num_district_per_warehouse c in
  let d_key := u32 (Keys.make_district_key wid did nw) in
  let c_key := u32 (Keys.make_customer_key wid did cid nw nd) in
  let o_key := u32 (Keys.make_order_key wid did oid nw nd) in
  r ← lift (make_read_operation sd_id TPCC_WAREHOUSE wid r);
  r ← lift (make_read_operation sd_id TPCC_CUSTOMER c_key r);
  r ← lift (make_read_for_write_operation sd_id TPCC_DISTRICT d_key r);
  tuple_dist ← tuple_of TPCC_DISTRICT;
  r ← lift (make_update_operation sd_id TPCC_DISTRICT d_key tuple_dist r);
  tuple_order ← tuple_of TPCC_ORDER;
  r ← lift (make_insert_operation sd_id TPCC_ORDER o_key tuple_order r);
  tuple_new_order ← tuple_of TPCC_NEW_ORDER;
  lift (make_insert_operation sd_id TPCC_NEW_ORDER o_key tuple_new_order r).

(** The draws of the three percentages come between the tuple of the last row
    and the row; they do not depend on it. *)
(* @src src/portal/workload.cpp 626 805 workload::new_order *)
Definition new_order (sd_id terminal_id : Z) : R tx_request :=
  let r := create_tx_request terminal_id false in
  rw ← gen_local_wid sd_id;
  cid ← generate 1 (num_customer_per_district c);
  did ← generate 1 (num_district_per_warehouse c);
  oid ← generate (num_order_initialize_per_district c) (num_order_initialize_per_district c + num_new_order c);
  num_item_ ← generate (num_max_order_line c / 3) (num_max_order_line c);
  r ← order_head sd_id (wid_of rw) cid did oid r;
  ne ← generate 1 PERCENT_BASE;
  di ← generate 1 PERCENT_BASE;
  ho ← generate 1 PERCENT_BASE;
  items ← choose_items sd_id (wid_of rw) num_item_ (di <=? percent_remote c) (ne <=? percent_non_exist_item c)
            (ho <=? percent_hot_row c) (Z.to_nat num_item_) 0;
  ids ← with_rng (fun k => shuffle k items);
  '(r, is_dist) ← order_items sd_id did 0 ids (r, false);
  mret ((renumber r) <| req_distributed := is_dist |>).

(** ** Read-only transactions *)

(** The inner loop: [n] rows so far, line [i] of the order. *)
Fixpoint read_lines (num_rows sid wid did iid num_item_ : Z) (fuel : nat) (i n : Z) (r : tx_request) : option (Z * tx_request) :=
  match fuel with
  | O => None
  | S fuel =>
      if (n <? num_rows) && (i <? num_item_) then
        let ol_key := u32 (Keys.make_order_line_key wid did iid (i + 1) (num_warehouse c) (num_district_per_warehouse c) NUM_ORDER_MAX) in
        r ← make_read_operation sid TPCC_ORDER_LINE ol_key r;
        read_lines num_rows sid wid did iid num_item_ fuel (i + 1) (n + 1) r
      else Some (n, r)
  end.

Fixpoint read_orders (num_rows sid wid : Z) (fuel : nat) (n : Z) (r : tx_request) : R tx_request :=
  match fuel with
  | O => panic
  | S fuel =>
      if n <? num_rows then
        did ← generate 1 (num_district_per_warehouse c);
        iid ← generate 1 (num_item c);
        num_item_ ← generate (num_max_order_line c / 3) (num_max_order_line c);
        '(n, r) ← lift (read_lines num_rows sid wid did iid num_item_ (S (Z.to_nat num_rows)) 0 n r);
        read_orders num_rows sid wid fuel n r
      else mret r
  end.

(* @src src/portal/workload.cpp 881 915 workload::read_only *)
Definition read_only (sd_id terminal_id : Z) : R tx_request :=
  rw ← gen_local_wid sd_id;
  if negb (rg_of rw =? sd_id) then panic
  else read_orders (num_read_only_rows c) sd_id (wid_of rw) fuel 0 (create_tx_request terminal_id true).

(* @src src/portal/workload.cpp 858 879 workload::build_procedure *)
Definition build_procedure (sd_id terminal_id : Z) (read_only_terminal : bool) : R tx_request :=
  is_read_only ← (if negb (additional_read_only_terminal c) && negb read_only_terminal && read_only_on c
                  then x ← generate 1 PERCENT_BASE; mret (x <=? percent_read_only c)
                  else mret read_only_terminal);
  if is_read_only : bool then read_only sd_id terminal_id else new_order sd_id terminal_id.

Fixpoint build_procedures (n : nat) (sd_id terminal_id : Z) (read_only_terminal : bool) : R (list tx_request) :=
  match n with
  | O => mret []
  | S n => r ← build_procedure sd_id terminal_id read_only_terminal;
           rs ← build_procedures n sd_id terminal_id read_only_terminal;
           mret (r :: rs)
  end.

(** [final_num_terminal] is that of the configuration. *)
(* @src src/portal/workload.cpp 827 856 workload::gen_procedure *)
Definition gen_procedure (shuffle_requests : nat → list tx_request → list tx_request) (final_num_terminal sd_id terminal_id : Z)
    : R (list tx_request) :=
  if (terminal_id =? 0) || (final_num_terminal =? 0) then panic
  else
    let per := u32 (num_new_order c) / final_num_terminal in
    let start_ord_id := u32 ((terminal_id - 1) * per) in
    let end_ord_id := u32 (terminal_id * per) in
    rs ← build_procedures (Z.to_nat (end_ord_id - start_ord_id)) sd_id terminal_id (num_terminal c <? terminal_id);
    with_rng (fun k => shuffle_requests k rs).
End procedures.
End ids.
End generator.

(** ** Terminals *)

(** The counters; durations are left out. *)
(* @src include/portal/workload.h 29 54 tpm_statistic *)
Record tpm_statistic := mk_stat {
  num_tx : Z;
  num_commit : Z;
  num_abort : Z;
  num_part : Z;
  num_lock : Z;
  num_read_violate : Z;
  num_write_violate : Z;
}.
#[export] Instance eta_stat : Eta tpm_statistic := fun r =>
  mk_stat (num_tx r) (num_commit r) (num_abort r) (num_part r) (num_lock r) (num_read_violate r) (num_write_violate r).
Definition stat_zero : tpm_statistic := mk_stat 0 0 0 0 0 0 0.

(* @src include/portal/workload.h 56 72 tpm_statistic::add *)
Definition stat_add (a b : tpm_statistic) : tpm_statistic :=
  mk_stat (u32 (num_tx a + num_tx b)) (u32 (num_commit a + num_commit b)) (u32 (num_abort a + num_abort b))
    (u32 (num_part a + num_part b)) (u32 (num_lock a + num_lock b)) (u32 (num_read_violate a + num_read_violate b))
    (u32 (num_write_violate a + num_write_violate b)).

(** The arguments as a record. *)
(* @src src/portal/workload.cpp 21 49 per_terminal::update *)
Definition update (batch result_ : tpm_statistic) : tpm_statistic := stat_add result_ batch.

(** What comes of a request. *)
Inductive outcome :=
| SendFailed
| ReceiveFailed
| Answered (ec : EC) (access_part lock read_violate write_violate : Z).

(** One request: the counters of the batch, and those reported.  [stopped] is
    [stopped_] when the batch is full. *)
(* @src src/portal/workload.cpp 533 604 workload::run_new_order *)
Definition run_one (o : outcome) (stopped : bool) (st : tpm_statistic * tpm_statistic) : tpm_statistic * tpm_statistic :=
  let '(batch, result_) := st in
  let batch := batch <| num_tx ::= fun n => u32 (n + 1) |> in
  match o with
  | SendFailed | ReceiveFailed => (batch, result_)
  | Answered ec part lock rv wv =>
      let batch :=
        if EC_eqb ec EC_OK then
          batch <| num_commit ::= fun n => u32 (n + 1) |> <| num_part ::= fun n => u64 (n + part) |>
                <| num_lock ::= fun n => u32 (n + lock) |> <| num_read_violate ::= fun n => u32 (n + rv) |>
                <| num_write_violate ::= fun n => u32 (n + wv) |>
        else batch <| num_abort ::= fun n => u32 (n + 1) |> in
      if (10 <=? num_tx batch) && negb stopped
      then (batch <| num_tx := 0 |> <| num_abort := 0 |> <| num_commit := 0 |> <| num_part := 0 |>, update batch result_)
      else (batch, result_)
  end.

(** [stop i] is what [stopped_] is at request [i]: at its beginning, and when
    the batch is full. *)
(* @src src/portal/workload.cpp 511 612 workload::run_new_order *)
Fixpoint run_new_order (stop : nat → bool * bool) (i : nat) (os : list outcome) (st : tpm_statistic * tpm_statistic)
    : tpm_statistic * tpm_statistic :=
  match os with
  | [] => st
  | o :: os => if (stop i).1 then st else run_new_order stop (S i) os (run_one o (stop i).2 st)
  end.

(** ** Warm-up *)

Definition row_key : Type := Z * Z * Z.
Definition key_of (op : tx_operation) : row_key := (op_table_id op, op_shard_id op, op_tuple_id op).

(** The map from shards to requests; a request is its keys.  The vector in the
    map is copied, its requests are shared; a request made because the last one
    is full goes into a vector that [insert] does not take. *)
(* @src src/portal/workload.cpp 420 448 workload::warm_up_cached1 *)
Definition warm_up_op (cached : bool) (op : tx_operation) (m : gmap Z (list (list row_key))) : gmap Z (list (list row_key)) :=
  if negb cached || bool_decide (op_type op = TX_OP_INSERT) then m
  else
    match m !! op_sd_id op with
    | None => <[op_sd_id op := [[key_of op]]]> m
    | Some vec =>
        match reverse vec with
        | [] => m
        | r :: before => if (200 <? length r)%nat then m else <[op_sd_id op := reverse before ++ [r ++ [key_of op]]]> m
        end
    end.

(** [cached i] is whether the [i]-th operation is to be cached. *)
(* @src src/portal/workload.cpp 406 464 workload::warm_up_cached1 *)
Definition warm_up_cached1 (cached : nat → bool) (requests : list tx_request) (warm_up_req : gmap Z (list (list row_key)))
    : gmap Z (list (list row_key)) :=
  let ops := requests ≫= req_operations in
  let m := foldl (fun m p => warm_up_op (cached p.1) p.2 m) ∅ (imap pair ops) in
  union_with (fun a b => Some (a ++ b)) warm_up_req m.

(** The attempts of a terminal to have the requests of its shard answered; one
    that fails is made again.  [answers] says which succeed. *)
Fixpoint send_warm_up (answers : list bool) (vec : list (list row_key)) : list (list row_key) :=
  match answers, vec with
  | ok :: answers, r :: vec => r :: send_warm_up answers (if ok then vec else r :: vec)
  | _, _ => []
  end.

(* @src src/portal/workload.cpp 466 509 workload::warm_up_cached2 *)
Definition warm_up_cached2 (answers : list bool) (sd_id : Z) (warm_up_req : gmap Z (list (list row_key)))
    : gmap Z (list (list row_key)) * list (list row_key) :=
  (delete sd_id warm_up_req, send_warm_up answers (default [] (warm_up_req !! sd_id))).

(** ** Warehouses *)

Lemma shard_boundary_eq num_wh per sd num_rg :
  0 < per → per * num_rg ≤ num_wh → num_wh < 2 ^ 31 → 1 ≤ sd ≤ num_rg →
  shard_boundary num_wh per sd = mk_boundary (1 + per * (sd - 1)) (per * sd).
Proof.
  intros Hp Hn Hw Hs. assert (per * (sd - 1) + per = per * sd) as E by ring. assert (0 ≤ per * (sd - 1)) by nia.
  assert (per * sd ≤ per * num_rg) by nia.
  unfold shard_boundary. rewrite (wrap_small 32 (per * (sd - 1))) by (unfold fits; lia). rewrite (wrap_small 32 (1 + _)) by (unfold fits; lia).
  rewrite (wrap_small 32 (1 + per * (sd - 1) + per)) by (unfold fits; lia). f_equal.
  destruct (Z.ltb_spec num_wh (1 + per * (sd - 1) + per)); [lia|]. rewrite wrap_small by (unfold fits; lia). lia.
Qed.

(** The whole table. *)
Lemma boundaries_eq num_rg num_wh nno rg2b : rg2wid_boundary num_rg num_wh nno = Some rg2b → num_wh < 2 ^ 31 →
  let per := num_wh / num_rg in
  0 < per ∧ 0 < num_rg ∧ per * num_rg ≤ num_wh ∧ rg2b = map (fun sd => (sd, mk_boundary (1 + per * (sd - 1)) (per * sd))) (seqZ 1 num_rg).
Proof.
  unfold rg2wid_boundary. intros H Hw. destruct ((num_rg <? num_wh) && (0 <? num_rg) && (0 <? nno)) eqn:E; [|done].
  apply andb_prop in E as [[E1%Z.ltb_lt E2%Z.ltb_lt]%andb_prop _]. cbn in H. injection H as <-.
  assert (0 < num_wh / num_rg) by (apply Z.div_str_pos; lia). pose proof (Z.mul_div_le num_wh num_rg E2).
  split_and!; [done|done|lia|]. apply map_ext_in. intros sd Hsd%list_elem_of_In%elem_of_seqZ. f_equal.
  apply (shard_boundary_eq _ _ _ num_rg); lia.
Qed.

Lemma owns_spec per sd w : 0 < per → owns (mk_boundary (1 + per * (sd - 1)) (per * sd)) w = true ↔ (w - 1) / per + 1 = sd.
Proof.
  intros Hp. unfold owns. cbn. rewrite andb_true_iff, !Z.leb_le. split.
  - intros [H1 H2]. assert (sd - 1 = (w - 1) / per); [|lia]. apply Z.div_unique with (w - 1 - per * (sd - 1)); nia.
  - intros <-. pose proof (Z.div_mod (w - 1) per ltac:(lia)). pose proof (Z.mod_pos_bound (w - 1) per Hp). nia.
Qed.

(** The only element of a list without repetitions that satisfies [P]. *)
Lemma filter_seqZ (P : Z → Prop) `{∀ x, Decision (P x)} k n : (∀ x, P x ↔ x = k) → filter P (seqZ 1 n) = if decide (1 ≤ k ≤ n) then [k] else [].
Proof.
  intros HP. assert (∀ l, NoDup l → filter P l = if decide (k ∈ l) then [k] else []) as Hl.
  { induction 1 as [|x l Hx Hl IH]; [done|]. rewrite filter_cons, IH. destruct (decide (P x)) as [->%HP|Hn].
    - rewrite (decide_False (P := k ∈ l)), (decide_True (P := k ∈ k :: l)) by (done || by left). done.
    - assert (x ≠ k) by (intros ->; by apply Hn, HP). destruct (decide (k ∈ l)); [rewrite decide_True by by right|rewrite decide_False by set_solver]; done. }
  rewrite Hl by apply NoDup_seqZ. destruct (decide (1 ≤ k ≤ n)); [rewrite decide_True|rewrite decide_False]; try done; rewrite elem_of_seqZ; lia.
Qed.

Lemma filter_map {A B} (f : A → B) (P : B → Prop) `{∀ x, Decision (P x)} l : filter P (map f l) = map f (filter (fun a => P (f a)) l).
Proof. induction l as [|a l IH]; [done|]. cbn [map]. rewrite !filter_cons, IH. by case_decide. Qed.

Lemma wid2rg_eq num_rg num_wh nno rg2b w : rg2wid_boundary num_rg num_wh nno = Some rg2b → num_wh < 2 ^ 31 →
  let per := num_wh / num_rg in
  wid2rg rg2b w = if decide (1 ≤ w ≤ per * num_rg) then Some ((w - 1) / per + 1) else None.
Proof.
  intros Hb Hw. destruct (boundaries_eq _ _ _ _ Hb Hw) as (Hp&Hn&Hle&->). cbv zeta. set (per := num_wh / num_rg) in *. unfold wid2rg.
  rewrite filter_map. cbn [snd]. rewrite (filter_seqZ _ ((w - 1) / per + 1)).
  - pose proof (Z.div_mod (w - 1) per ltac:(lia)). pose proof (Z.mod_pos_bound (w - 1) per Hp).
    destruct (decide (1 ≤ w ≤ per * num_rg)); [rewrite decide_True by (split; [|]; nia)|rewrite decide_False by nia]; done.
  - intros sd. rewrite owns_spec by done. naive_solver.
Qed.

Lemma boundary_of_eq num_rg num_wh nno rg2b sd : rg2wid_boundary num_rg num_wh nno = Some rg2b → num_wh < 2 ^ 31 →
  let per := num_wh / num_rg in
  boundary_of rg2b sd = if decide (1 ≤ sd ≤ num_rg) then Some (mk_boundary (1 + per * (sd - 1)) (per * sd)) else None.
Proof.
  intros Hb Hw. destruct (boundaries_eq _ _ _ _ Hb Hw) as (Hp&Hn&Hle&->). cbv zeta. unfold boundary_of. rewrite filter_map. cbn [fst].
  rewrite (filter_seqZ _ sd) by done. by case_decide.
Qed.

(** ** Computations that return

    [ok m Q]: from every state of the generators [m] returns, and what it returns
    satisfies [Q]. *)

Definition ok {A} (m : R A) (Q : A → Prop) : Prop := ∀ k, ∃ x k', m k = Some (x, k') ∧ Q x.

Lemma ok_ret {A} (x : A) (Q : A → Prop) : Q x → ok (mret x) Q.
Proof. intros Hx k. by exists x, k. Qed.

Lemma ok_bind {A B} (m : R A) (f : A → R B) (P : A → Prop) (Q : B → Prop) :
  ok m P → (∀ x, P x → ok (f x) Q) → ok (x ← m; f x) Q.
Proof.
  intros Hm Hf k. destruct (Hm k) as (x&k1&E&Hx). destruct (Hf x Hx k1) as (y&k2&E2&Hy). exists y, k2. split; [|done].
  unfold mbind, R_bind. by rewrite E.
Qed.

Lemma generate_then {A} draw lo hi (f : Z → R A) k : (x ← generate draw lo hi; f x) k = f (draw k lo hi) (S k).
Proof. done. Qed.

Lemma ok_lift {A} (o : option A) (Q : A → Prop) x : o = Some x → Q x → ok (lift o) Q.
Proof. intros -> Hx. by apply ok_ret. Qed.

Lemma ok_lift_then {A B} (o : option A) x (f : A → R B) (Q : B → Prop) : o = Some x → ok (f x) Q → ok (y ← lift o; f y) Q.
Proof. intros -> Hx. exact Hx. Qed.

Lemma ok_impl {A} (m : R A) (P Q : A → Prop) : ok m P → (∀ x, P x → Q x) → ok m Q.
Proof. intros Hm H k. destruct (Hm k) as (x&k'&E&Hx). exists x, k'. auto. Qed.

Section procedures_ok.
Context (draw : nat → Z → Z → Z) (c : tpcc_config) (rg2b : list (Z * boundary)) (fuel : nat).
Context (rlb_shards : gmap Z Z) (shuffle : nat → list item → list item) (gen_tuple : Z → nat → string) (num_rg : Z).

(** Random numbers are in their range, and not always the same; shuffling keeps
    the elements; made-up rows are not empty. *)
Record random_ok : Prop := mk_random {
  rnd_range : ∀ k lo hi, lo ≤ hi → lo ≤ draw k lo hi ≤ hi;
  rnd_varies : ∀ k lo hi x, lo < hi → ∃ j, (j < fuel)%nat ∧ draw (k + j) lo hi ≠ x;
  rnd_shuffle : ∀ k l, shuffle k l ≡ₚ l;
  rnd_tuple : ∀ t k, is_tuple_nil (gen_tuple t k) = false;
}.

(** A configuration for a run: the warehouses divide evenly, no missing items are
    asked for, and every shard has a node. *)
Record config_ok : Prop := mk_config_ok {
  cf_split : rg2wid_boundary num_rg (num_warehouse c) (num_new_order c) = Some rg2b;
  cf_even : num_warehouse c / num_rg * num_rg = num_warehouse c;
  cf_warehouses : num_warehouse c < 2 ^ 31;
  cf_shards : control_percent_dist_tx c = true → 2 ≤ num_rg;
  cf_item : 1 ≤ num_item c;
  cf_district : 1 ≤ num_district_per_warehouse c;
  cf_customer : 1 ≤ num_customer_per_district c;
  cf_order : 0 ≤ num_order_initialize_per_district c;
  cf_new : 0 ≤ num_new_order c;
  cf_line : 0 ≤ num_max_order_line c;
  cf_hot : hot_item_num c ≤ num_item c;
  cf_exist : percent_non_exist_item c = 0;
  cf_nodes : ∀ sd, 1 ≤ sd ≤ num_rg → is_Some (rlb_shards !! sd);
}.

Context (Hr : random_ok) (Hc : config_ok).
Abbreviation generate := (generate draw).
Abbreviation gen_remote_wid := (gen_remote_wid draw c rg2b fuel).
Abbreviation gen_local_wid := (gen_local_wid draw rg2b).
Abbreviation per := (num_warehouse c / num_rg).

Lemma ok_generate lo hi : lo ≤ hi → ok (generate lo hi) (fun x => lo ≤ x ≤ hi).
Proof. intros Hle k. exists (draw k lo hi), (S k). split; [done|]. by apply rnd_range. Qed.

Lemma ok_tuple t : ok (tuple_of gen_tuple t) (fun s => is_tuple_nil s = false).
Proof. intros k. exists (gen_tuple t k), (S k). split; [done|]. apply Hr. Qed.

Lemma ok_other lo hi x : lo < hi → ok (generate_other draw fuel lo hi x) (fun y => lo ≤ y ≤ hi ∧ y ≠ x).
Proof.
  intros Hlt k. destruct (rnd_varies Hr k lo hi x Hlt) as (j&Hj&Hd). revert k Hj Hd. generalize fuel as f. clear Hc.
  induction j as [|j IH]; intros f k Hj Hd; destruct f as [|f]; try lia; cbn [generate_other].
  - rewrite Nat.add_0_r in Hd. exists (draw k lo hi), (S k). pose proof (rnd_range Hr k lo hi ltac:(lia)). split; [|done].
    rewrite generate_then. by destruct (Z.eqb_spec (draw k lo hi) x).
  - destruct (Z.eqb_spec (draw k lo hi) x) as [E|E].
    + destruct (IH f (S k) ltac:(lia)) as (y&k'&Ey&Hy); [by rewrite Nat.add_succ_comm|]. exists y, k'. split; [|done].
      rewrite generate_then. by rewrite E, Z.eqb_refl.
    + exists (draw k lo hi), (S k). pose proof (rnd_range Hr k lo hi ltac:(lia)). split; [|done]. rewrite generate_then. by destruct (Z.eqb_spec (draw k lo hi) x).
Qed.

(** A warehouse of a shard. *)
Definition wh_of (rw : rg_wid) : Prop :=
  1 ≤ rg_of rw ≤ num_rg ∧ 1 + per * (rg_of rw - 1) ≤ wid_of rw ≤ per * rg_of rw.

Lemma split_facts : 0 < per ∧ 0 < num_rg ∧ num_rg < num_warehouse c ∧ Z.of_nat (length rg2b) = num_rg.
Proof.
  destruct Hc as [Hs He Hw _ _ _ _ _ _ _ _ _ _]. destruct (boundaries_eq _ _ _ _ Hs Hw) as (?&?&?&->). split_and!; [done|done| |].
  - unfold rg2wid_boundary in Hs. destruct ((num_rg <? num_warehouse c) && _ && _) eqn:E; [|done].
    apply andb_prop in E as [[E1%Z.ltb_lt _]%andb_prop _]. done.
  - rewrite length_map, length_seqZ. lia.
Qed.

Lemma ok_local sd : 1 ≤ sd ≤ num_rg → ok (gen_local_wid sd) (fun rw => rg_of rw = sd ∧ wh_of rw).
Proof.
  intros Hsd. unfold gen_local_wid. destruct split_facts as (Hp&_&_&_).
  eapply ok_lift_then.
  - rewrite (boundary_of_eq _ _ _ _ _ (cf_split Hc) (cf_warehouses Hc)), decide_True by done. reflexivity.
  - eapply ok_bind; [apply ok_generate; cbn [lower upper]; nia|]. intros w Hw. apply ok_ret. done.
Qed.

Lemma wh_of_wid2rg w : 1 ≤ w ≤ num_warehouse c → ∃ sd, wid2rg rg2b w = Some sd ∧ wh_of (mk_rg_wid sd w).
Proof.
  intros Hw. destruct split_facts as (Hp&Hn&_). rewrite (wid2rg_eq _ _ _ _ w (cf_split Hc) (cf_warehouses Hc)).
  rewrite decide_True by (rewrite (cf_even Hc); done). eexists. split; [done|]. unfold wh_of. cbn.
  pose proof (Z.div_mod (w - 1) per ltac:(lia)). pose proof (Z.mod_pos_bound (w - 1) per Hp). pose proof (cf_even Hc). nia.
Qed.

Lemma ok_remote sd w first : 1 ≤ sd ≤ num_rg → 1 ≤ w → ok (gen_remote_wid sd w first) wh_of.
Proof.
  intros Hsd Hw. destruct split_facts as (Hp&Hn&Hlt&Hlen).
  assert (∀ lo hi x f, lo < hi → ok (generate_first draw fuel lo hi x f) (fun y => lo ≤ y ≤ hi)) as Hfirst.
  { intros lo hi x f Hlh. unfold generate_first. destruct f; [|by apply ok_generate; lia]. eapply ok_impl; [by apply ok_other|]. by intros y []. }
  unfold gen_remote_wid. destruct (control_percent_dist_tx c) eqn:Ec; cbn [negb].
  - eapply ok_bind; [apply Hfirst; pose proof (cf_shards Hc Ec); lia|]. intros sd' Hsd'. rewrite Hlen in Hsd'.
    eapply ok_lift_then.
    + rewrite (boundary_of_eq _ _ _ _ _ (cf_split Hc) (cf_warehouses Hc)), decide_True by done. reflexivity.
    + eapply ok_bind; [apply ok_generate; cbn [lower upper]; nia|]. intros x Hx. apply ok_ret. done.
  - eapply ok_bind; [apply Hfirst; lia|]. intros x Hx. destruct (wh_of_wid2rg x Hx) as (sd'&E&Hwh).
    eapply ok_lift_then; [exact E|]. by apply ok_ret.
Qed.
(** ** New orders *)

Lemma wh_range rw : wh_of rw → 1 ≤ wid_of rw ≤ num_warehouse c.
Proof. intros [Hr' Hw]. destruct split_facts as (Hp&_). pose proof (cf_even Hc). nia. Qed.

Definition item_ok (it : item) : Prop := wh_of (mk_rg_wid (it_rg it) (it_wid it)) ∧ 1 ≤ it_iid it ≤ num_item c.

Lemma ok_choose sd w ni remote hot n i : 1 ≤ sd ≤ num_rg → wh_of (mk_rg_wid sd w) →
  ok (choose_items draw c rg2b fuel sd w ni remote false hot n i) (fun l => length l = n ∧ Forall item_ok l).
Proof.
  intros Hsd Hw. revert hot i. induction n as [|n IH]; intros hot i; cbn [choose_items andb]; [by apply ok_ret|].
  eapply (ok_bind _ _ (fun iid => 1 ≤ iid ≤ num_item c)).
  - eapply ok_bind; [apply ok_generate, Hc|]. intros x Hx. apply ok_ret. destruct (hot && (0 <? hot_item_num c)) eqn:E; [|done].
    apply andb_prop in E as [_ E%Z.ltb_lt]. pose proof (Z.mod_pos_bound x (hot_item_num c) E). pose proof (cf_hot Hc). lia.
  - intros iid Hiid. eapply (ok_bind _ _ wh_of).
    + destruct remote; [apply ok_remote; [done|]|by apply ok_ret]. pose proof (wh_range _ Hw). cbn in *. lia.
    + intros rw Hrw. eapply ok_bind; [apply IH|]. intros l [Hl Hf]. apply ok_ret. cbn. split; [lia|]. constructor; [|done].
      split; [|done]. by destruct rw.
Qed.

(** The rows of warehouses [wids] that the loader of the storage block puts,
    orders aside, and those of the shard whose range [load_data] sends. *)
Definition rows_of (wids : list Z) : list (Z * Z) :=
  let nd := num_district_per_warehouse c in
  DsBlock.load_item (num_item c) ++ DsBlock.load_customer nd (num_customer_per_district c) (num_warehouse c) wids
    ++ DsBlock.load_stock (num_item c) (num_warehouse c) wids ++ DsBlock.load_warehouse wids ++ DsBlock.load_district nd (num_warehouse c) wids.

Definition loaded_rows (sd : Z) : list (Z * Z) :=
  match load_data rg2b (fun _ => true) 0 [sd] with
  | Some [b] => rows_of (seqZ (lower b) (upper b - lower b + 1))
  | _ => []
  end.

Lemma loaded_eq sd : 1 ≤ sd ≤ num_rg → loaded_rows sd = rows_of (seqZ (1 + per * (sd - 1)) per).
Proof.
  intros Hs. unfold loaded_rows, load_data. rewrite (boundary_of_eq _ _ _ _ _ (cf_split Hc) (cf_warehouses Hc)), decide_True by done.
  cbn [mbind option_bind lower upper]. do 2 f_equal. lia.
Qed.

(** The tables that new orders only read. *)
Definition read_tables : list nat := map Z.to_nat [TPCC_WAREHOUSE; TPCC_CUSTOMER; TPCC_ITEM].
Definition only_read (table : Z) : bool := bool_decide (Z.to_nat table ∈ read_tables).

(** An operation of a well-formed request. *)
Definition op_ok (op : tx_operation) : Prop :=
  1 ≤ op_sd_id op ≤ num_rg ∧ op_shard_id op = op_sd_id op ∧
  BlockRun.for_write op = negb (only_read (op_table_id op)) ∧
  match op_type op with
  | TX_OP_INSERT => is_tuple_nil (op_tuple op) = false
  | TX_OP_UPDATE => is_tuple_nil (op_tuple op) = false ∧ (op_table_id op, op_tuple_id op) ∈ loaded_rows (op_sd_id op)
  | TX_OP_READ | TX_OP_READ_FOR_WRITE => (op_table_id op, op_tuple_id op) ∈ loaded_rows (op_sd_id op)
  | _ => False
  end.
(** Whether two shards are on different nodes. *)
Definition apart (sd sd' : Z) : bool := default false (on_same_node rlb_shards sd sd').

(** What the last of the operations' shards that is another one says. *)
Definition marked (sd : Z) (shards : list Z) : bool :=
  match last (filter (fun x => x ≠ sd) shards) with None => false | Some x => apart x sd end.

Lemma marked_snoc sd l x : marked sd (l ++ [x]) = if x =? sd then marked sd l else apart x sd.
Proof.
  unfold marked. rewrite filter_app, filter_cons, filter_nil. destruct (Z.eqb_spec x sd) as [E|E].
  - rewrite decide_False by (by intros ?). by rewrite app_nil_r.
  - rewrite decide_True by done. by rewrite last_snoc.
Qed.

(** A request of terminal [t] at shard [s] with [n] operations so far; the mark
    is [d]. *)
Definition built (t s : Z) (n : nat) (d : bool) (r : tx_request) : Prop :=
  length (req_operations r) = n ∧ Forall op_ok (req_operations r) ∧ marked s (map op_sd_id (req_operations r)) = d ∧
  r <| req_operations := [] |> = create_tx_request t false.

Definition remark (s sd : Z) (d : bool) : bool := if sd =? s then d else apart sd s.

Lemma built_add t s n d r op : op_ok op → built t s n d r → built t s (S n) (remark s (op_sd_id op) d) (add_op op r).
Proof.
  intros Ho (Hn&Hf&Hd&Hr'). unfold built, add_op. cbn. rewrite length_app, map_app. cbn [map]. rewrite marked_snoc, Hn, Hd. cbn.
  split_and!; [lia| |done|done]. apply Forall_app. by split; [|constructor].
Qed.

(** The operation that the generator makes. *)
Lemma made_ok type sd table key tuple i :
  1 ≤ sd ≤ num_rg → (match type with TX_OP_READ => true | _ => false end) = only_read table →
  match type with
  | TX_OP_INSERT => is_tuple_nil tuple = false
  | TX_OP_UPDATE => is_tuple_nil tuple = false ∧ (table, key) ∈ loaded_rows sd
  | TX_OP_READ | TX_OP_READ_FOR_WRITE => (table, key) ∈ loaded_rows sd
  | _ => False
  end → op_ok (mk_op type 0 sd table sd key tuple i).
Proof.
  intros Hsd Hm H. split_and!; cbn; try done; [lia..|]. unfold BlockRun.for_write. cbn. rewrite <- Hm. by destruct type.
Qed.

Section rules.
Context {A : Type} (Q : A → Prop) (t s : Z) (n : nat) (d : bool) (r : tx_request) (f : tx_request → R A) (sd table key : Z) (tuple : string).
Context (Hb : built t s n d r) (Hsd : 1 ≤ sd ≤ num_rg) (Hf : ∀ r, built t s (S n) (remark s sd d) r → ok (f r) Q).

Lemma ok_read : only_read table = true → (table, key) ∈ loaded_rows sd → ok (r ← lift (make_read_operation sd table key r); f r) Q.
Proof.
  intros Hm Hrow. unfold make_read_operation. destruct (Z.eqb_spec sd 0); [lia|]. eapply ok_lift_then; [done|]. apply Hf, (built_add _ _ _ _ _ (mk_op _ _ sd _ _ _ _ _)); [by apply made_ok|done].
Qed.

Lemma ok_read_for_write : only_read table = false → (table, key) ∈ loaded_rows sd → ok (r ← lift (make_read_for_write_operation sd table key r); f r) Q.
Proof.
  intros Hm Hrow. unfold make_read_for_write_operation. destruct (Z.eqb_spec sd 0); [lia|].
  eapply ok_lift_then; [done|]. apply Hf, (built_add _ _ _ _ _ (mk_op _ _ sd _ _ _ _ _)); [by apply made_ok|done].
Qed.

Lemma ok_update : only_read table = false → is_tuple_nil tuple = false → (table, key) ∈ loaded_rows sd → ok (r ← lift (make_update_operation sd table key tuple r); f r) Q.
Proof.
  intros Hm Ht Hrow. unfold make_update_operation. destruct (Z.eqb_spec sd 0); [lia|].
  eapply ok_lift_then; [done|]. apply Hf, (built_add _ _ _ _ _ (mk_op _ _ sd _ _ _ _ _)); [by apply made_ok|done].
Qed.

Lemma ok_insert : only_read table = false → is_tuple_nil tuple = false → ok (r ← lift (make_insert_operation sd table key tuple r); f r) Q.
Proof.
  intros Hm Ht. unfold make_insert_operation. rewrite Ht. destruct (Z.eqb_spec sd 0); [lia|].
  eapply ok_lift_then; [done|]. apply Hf, (built_add _ _ _ _ _ (mk_op _ _ sd _ _ _ _ _)); [by apply made_ok|done].
Qed.
End rules.

(** The rows named by a request are loaded. *)
Lemma row_item sd i : 1 ≤ sd ≤ num_rg → 1 ≤ i ≤ num_item c → (TPCC_ITEM, i) ∈ loaded_rows sd.
Proof. intros Hs Hi. rewrite loaded_eq by done. apply elem_of_app. left. apply list_elem_of_fmap. exists i. split; [done|]. apply elem_of_seqZ. lia. Qed.

Section of_warehouse.
Context (sd w : Z) (Hw : wh_of (mk_rg_wid sd w)).

Lemma row_wid : w ∈ seqZ (1 + per * (sd - 1)) per.
Proof. destruct Hw as [_ H]. cbn in H. apply elem_of_seqZ. lia. Qed.

Lemma row_warehouse : (TPCC_WAREHOUSE, w) ∈ loaded_rows sd.
Proof. rewrite loaded_eq by apply Hw. do 3 (apply elem_of_app; right). apply elem_of_app. left. apply list_elem_of_fmap. exists w. split; [done|]. apply row_wid. Qed.

Lemma row_customer d cu : 1 ≤ d ≤ num_district_per_warehouse c → 1 ≤ cu ≤ num_customer_per_district c →
  (TPCC_CUSTOMER, u32 (Keys.make_customer_key w d cu (num_warehouse c) (num_district_per_warehouse c))) ∈ loaded_rows sd.
Proof.
  intros Hd Hcu. rewrite loaded_eq by apply Hw. apply elem_of_app. right. apply elem_of_app. left. unfold DsBlock.load_customer.
  apply list_elem_of_bind. exists w. split; [|apply row_wid]. apply list_elem_of_bind. exists d. split; [|apply elem_of_seqZ; lia].
  apply list_elem_of_bind. exists cu. split; [by left|apply elem_of_seqZ; lia].
Qed.

Lemma row_stock i : 1 ≤ i ≤ num_item c → (TPCC_STOCK, u32 (Keys.make_stock_key w i (num_warehouse c))) ∈ loaded_rows sd.
Proof.
  intros Hi. rewrite loaded_eq by apply Hw. do 2 (apply elem_of_app; right). apply elem_of_app. left.
  apply list_elem_of_bind. exists w. split; [|apply row_wid]. apply list_elem_of_bind. exists i. split; [by left|apply elem_of_seqZ; lia].
Qed.

Lemma row_district d : 1 ≤ d ≤ num_district_per_warehouse c → (TPCC_DISTRICT, u32 (Keys.make_district_key w d (num_warehouse c))) ∈ loaded_rows sd.
Proof.
  intros Hi. rewrite loaded_eq by apply Hw. do 4 (apply elem_of_app; right).
  apply list_elem_of_bind. exists w. split; [|apply row_wid]. apply list_elem_of_bind. exists d. split; [by left|apply elem_of_seqZ; lia].
Qed.
End of_warehouse.

Lemma built_head t s n d r : built t s n (remark s s d) r → built t s n d r.
Proof. unfold remark. by rewrite Z.eqb_refl. Qed.

Lemma ok_order_head t s w cu d o r : wh_of (mk_rg_wid s w) → 1 ≤ d ≤ num_district_per_warehouse c → 1 ≤ cu ≤ num_customer_per_district c →
  built t s 0 false r → ok (order_head c gen_tuple s w cu d o r) (built t s 6 false).
Proof.
  intros Hw Hd Hcu H0. pose proof (proj1 Hw) as Hs. cbn in Hs. unfold order_head. cbv zeta.
  eapply ok_read; [exact H0|done| |done|by apply row_warehouse]. intros r1 H1%built_head.
  eapply ok_read; [exact H1|done| |done|by apply row_customer]. intros r2 H2%built_head.
  eapply ok_read_for_write; [exact H2|done| |done|by apply row_district]. intros r3 H3%built_head.
  eapply ok_bind; [apply ok_tuple|]. intros tu1 Ht1.
  eapply ok_update; [exact H3|done| |done|done|by apply row_district]. intros r4 H4%built_head.
  eapply ok_bind; [apply ok_tuple|]. intros tu2 Ht2.
  eapply ok_insert; [exact H4|done| |done|done]. intros r5 H5%built_head.
  eapply ok_bind; [apply ok_tuple|]. intros tu3 Ht3. unfold make_insert_operation. rewrite Ht3. destruct (Z.eqb_spec s 0); [lia|].
  eapply ok_lift; [done|]. apply built_head. apply (built_add _ _ _ _ _ (mk_op _ _ s _ _ _ _ _)); [by apply made_ok|done].
Qed.

Lemma remark_twice s sd d : remark s sd (remark s sd d) = remark s sd d.
Proof. unfold remark. by destruct (sd =? s). Qed.

Lemma ok_order_item t s d i it n st : 1 ≤ s ≤ num_rg → item_ok it → built t s n st.2 st.1 →
  ok (order_item c rlb_shards gen_tuple s d i it st) (fun st' => built t s (4 + n) st'.2 st'.1).
Proof.
  intros Hs [Hw Hi] Hb. pose proof (proj1 Hw) as Hrg. cbn in Hrg. destruct st as [r is_dist]. cbn [fst snd] in Hb. unfold order_item.
  eapply (ok_bind _ _ (fun x => x = remark s (it_rg it) is_dist)).
  { unfold remark, apart. destruct (it_rg it =? s); [by apply ok_ret|]. unfold on_same_node.
    destruct (cf_nodes Hc _ Hrg) as [n1 E1]. destruct (cf_nodes Hc _ Hs) as [n2 E2]. rewrite E1, E2. by eapply ok_lift. }
  intros x ->. cbv zeta.
  eapply ok_read; [exact Hb|done| |done|by apply row_item]. intros r1 H1.
  eapply ok_bind; [apply ok_tuple|]. intros tu1 Ht1.
  eapply ok_read_for_write; [exact H1|done| |done|by apply row_stock]. rewrite remark_twice. intros r2 H2.
  eapply ok_update; [exact H2|done| |done|done|by apply row_stock]. rewrite remark_twice. intros r3 H3.
  eapply ok_bind; [apply ok_tuple|]. intros tu2 Ht2.
  eapply ok_insert; [exact H3|done| |done|done]. rewrite remark_twice. intros r4 H4. by apply ok_ret.
Qed.

Lemma ok_order_items t s d i its n st : 1 ≤ s ≤ num_rg → Forall item_ok its → built t s n st.2 st.1 →
  ok (order_items c rlb_shards gen_tuple s d i its st) (fun st' => built t s (4 * length its + n) st'.2 st'.1).
Proof.
  intros Hs Hits. revert i n st. induction Hits as [|it its Hit _ IH]; intros i n st Hb; cbn [order_items]; [by apply ok_ret|].
  eapply ok_bind; [by eapply ok_order_item|]. intros st' Hst'. eapply ok_impl; [exact (IH _ _ _ Hst')|]. intros st2. cbn [length].
  by replace (4 * length its + (4 + n))%nat with (4 * S (length its) + n)%nat by lia.
Qed.

(** Numbering leaves the rest of the operations alone. *)
Lemma renumber_ids l : map op_operation_id (imap (fun i op => op <| op_operation_id := Z.of_nat i + 1 |>) l) = seqZ 1 (Z.of_nat (length l)).
Proof.
  apply list_eq. intros i. change (map op_operation_id ?x) with (op_operation_id <$> x). rewrite list_lookup_fmap, list_lookup_imap. destruct (decide (i < length l)%nat).
  - rewrite lookup_seqZ_lt by lia. destruct (lookup_lt_is_Some_2 l i ltac:(lia)) as [x ->]. cbn. f_equal. lia.
  - rewrite lookup_seqZ_ge by lia. by rewrite lookup_ge_None_2 by lia.
Qed.

Lemma renumber_forall (P : tx_operation → Prop) l : (∀ op i, P op → P (op <| op_operation_id := i |>)) → Forall P l →
  Forall P (imap (fun i op => op <| op_operation_id := Z.of_nat i + 1 |>) l).
Proof.
  intros HP Hl. apply Forall_lookup. intros i x. rewrite list_lookup_imap. intros (y&Hy&->)%fmap_Some_1.
  apply HP. by eapply Forall_lookup_1.
Qed.
Lemma renumber_shards l : map op_sd_id (imap (fun i op => op <| op_operation_id := Z.of_nat i + 1 |>) l) = map op_sd_id l.
Proof.
  apply list_eq. intros i. change (map op_sd_id ?x) with (op_sd_id <$> x). rewrite !list_lookup_fmap, list_lookup_imap. by destruct (l !! i).
Qed.

Abbreviation new_order := (new_order draw c rg2b fuel rlb_shards shuffle gen_tuple).

(** What is known of a request for a new order. *)
Lemma new_order_spec sd t : 1 ≤ sd ≤ num_rg → ok (new_order sd t) (fun r =>
  (∃ n, num_max_order_line c / 3 ≤ n ≤ num_max_order_line c ∧ Z.of_nat (length (req_operations r)) = 6 + 4 * n) ∧
  map op_operation_id (req_operations r) = seqZ 1 (Z.of_nat (length (req_operations r))) ∧
  Forall op_ok (req_operations r) ∧
  r <| req_operations := [] |> = (create_tx_request t false) <| req_distributed := marked sd (map op_sd_id (req_operations r)) |>).
Proof.
  intros Hs. unfold Workload.new_order. pose proof (cf_line Hc) as Hl. pose proof (cf_order Hc) as Ho.
  eapply ok_bind; [by apply ok_local|]. intros rw [Erg Hw].
  eapply ok_bind; [apply ok_generate, Hc|]. intros cu Hcu. eapply ok_bind; [apply ok_generate, Hc|]. intros d Hd.
  eapply ok_bind; [apply ok_generate; pose proof (cf_new Hc); lia|]. intros o _.
  eapply ok_bind; [apply ok_generate, Z.div_le_upper_bound; lia|]. intros n Hn.
  assert (0 ≤ num_max_order_line c / 3) by (apply Z.div_pos; lia).
  assert (wh_of (mk_rg_wid sd (wid_of rw))) as Hwh by (destruct rw; cbn in *; by subst).
  eapply ok_bind; [by apply (ok_order_head t)|]. intros r6 H6.
  do 3 (eapply ok_bind; [by apply ok_generate|]; intros ? ?).
  cbn beta in *. rewrite (cf_exist Hc). match goal with |- context [?x <=? 0] => destruct (Z.leb_spec x 0); [lia|] end.
  eapply ok_bind; [by apply ok_choose|]. intros its [Hlen Hits].
  eapply (ok_bind _ _ (fun l => length l = length its ∧ Forall item_ok l)).
  { intros k. eexists _, k. split; [reflexivity|]. cbn. split; [by rewrite (rnd_shuffle Hr)|]. by rewrite (rnd_shuffle Hr). }
  intros l [Hll Hlf]. eapply ok_bind; [eapply (ok_order_items t _ _ _ _ 6 (r6, false)); done|].
  intros [r' dist] (Hn'&Hf'&Hm'&Hr'). cbn in *. apply ok_ret. unfold renumber. cbn. rewrite length_imap. split_and!.
  - exists n. split; [done|]. lia.
  - apply renumber_ids.
  - apply renumber_forall; [|done]. done.
  - rewrite renumber_shards, Hm'. apply (f_equal (fun r => r <| req_distributed := dist |>)) in Hr'. exact Hr'.
Qed.

(** C39: Whether a new order is sent as a distributed transaction depends on its
    last item from another shard only: it is when that shard is on another node
    than the terminal's, whatever nodes the other items are on. *)
Theorem distributed_by_last sd t : 1 ≤ sd ≤ num_rg → ok (new_order sd t) (fun r =>
  req_distributed r = match last (filter (fun x => x ≠ sd) (map op_sd_id (req_operations r))) with
                      | Some x => bool_decide (rlb_shards !! x ≠ rlb_shards !! sd)
                      | None => false
                      end).
Proof.
  intros Hs. eapply ok_impl; [by apply (new_order_spec sd t)|]. intros r (_&_&Hf&E%(f_equal req_distributed)). cbn in E. rewrite E. unfold marked.
  destruct (last _) as [x|] eqn:El; [|done]. apply last_Some_elem_of, list_elem_of_filter in El as [_ (op&->&Hop)%list_elem_of_fmap].
  destruct (cf_nodes Hc (op_sd_id op)) as [n1 E1]; [apply (Forall_forall op_ok (req_operations r)); done|]. destruct (cf_nodes Hc _ Hs) as [n2 E2].
  unfold apart, on_same_node. rewrite E1, E2. cbn. destruct (Z.eqb_spec n1 n2); symmetry; [apply bool_decide_eq_false_2|apply bool_decide_eq_true_2]; naive_solver.
Qed.
End procedures_ok.
(** The warehouses are split among the shards.  A warehouse up to the largest
    multiple of the number of shards is in the range of exactly one shard, the
    one the generator finds for it.  The warehouses left over are in no range:
    drawing one for a remote item makes the generator panic. *)
Theorem warehouses_split num_rg num_wh nno rg2b :
  rg2wid_boundary num_rg num_wh nno = Some rg2b → num_wh < 2 ^ 31 →
  let whole := num_wh / num_rg * num_rg in
  (∀ w, 1 ≤ w ≤ whole → ∃ sd, 1 ≤ sd ≤ num_rg ∧ wid2rg rg2b w = Some sd ∧
     ∀ sd' b, boundary_of rg2b sd' = Some b → owns b w = true ↔ sd' = sd) ∧
  (∀ w, whole < w ≤ num_wh → (∀ sd b, boundary_of rg2b sd = Some b → owns b w = false) ∧
     ∀ draw c fuel sd w0 k, control_percent_dist_tx c = false → draw k 1 (num_warehouse c) = w →
       gen_remote_wid draw c rg2b fuel sd w0 false k = None).
Proof.
  intros Hb Hw whole. destruct (boundaries_eq _ _ _ _ Hb Hw) as (Hp&Hn&Hle&_).
  assert (∀ sd b w, boundary_of rg2b sd = Some b → 1 ≤ sd ≤ num_rg ∧ (owns b w = true ↔ (w - 1) / (num_wh / num_rg) + 1 = sd)) as Hown.
  { intros sd b w. rewrite (boundary_of_eq _ _ _ _ sd Hb Hw). destruct (decide (1 ≤ sd ≤ num_rg)); [|done]. intros [= <-].
    split; [done|]. by apply owns_spec. }
  split.
  - intros w Hwr. pose proof (wid2rg_eq _ _ _ _ w Hb Hw) as E. cbv zeta in E. rewrite decide_True in E by done. eexists. split; [|split; [exact E|]].
    + pose proof (Z.div_pos (w - 1) (num_wh / num_rg) ltac:(lia) Hp).
      assert ((w - 1) / (num_wh / num_rg) < num_rg) by (apply Z.div_lt_upper_bound; lia). lia.
    + intros sd' b Hsd'. destruct (Hown sd' b w Hsd') as [_ ->]. naive_solver.
  - intros w Hwr. split.
    + intros sd b Hsd. destruct (Hown sd b w Hsd) as [Hs Ho]. apply not_true_iff_false. rewrite Ho. intros E.
      assert (num_rg ≤ (w - 1) / (num_wh / num_rg)) by (apply Z.div_le_lower_bound; lia). lia.
    + intros draw c fuel sd w0 k Hcp Hd. unfold gen_remote_wid. rewrite Hcp. cbn [negb]. unfold generate_first. rewrite generate_then, Hd.
      rewrite (wid2rg_eq _ _ _ _ w Hb Hw), decide_False by lia. done.
Qed.

(** ** What a terminal reports *)

Definition committed (o : outcome) : bool := match o with Answered ec _ _ _ _ => EC_eqb ec EC_OK | _ => false end.
Definition failed (o : outcome) : bool := match o with Answered ec _ _ _ _ => negb (EC_eqb ec EC_OK) | _ => false end.
Definition count (f : outcome → bool) (os : list outcome) : Z := Z.of_nat (length (filter (fun o => f o = true) os)).

(** Batch and reported counters together. *)
Definition total (st : tpm_statistic * tpm_statistic) : Z * Z * Z :=
  (u32 (num_tx st.1 + num_tx st.2), u32 (num_commit st.1 + num_commit st.2), u32 (num_abort st.1 + num_abort st.2)).

Lemma u32_l x y : u32 (u32 x + y) = u32 (x + y).
Proof. apply wrap_wrap_add. Qed.
Lemma u32_r x y : u32 (y + u32 x) = u32 (y + x).
Proof. rewrite Z.add_comm, u32_l. f_equal. lia. Qed.

(** Three sums that are equal before they are cut. *)
#[local] Ltac sum_up := rewrite ?u32_l, ?u32_r; apply pair_equal_spec; split; [apply pair_equal_spec; split|]; f_equal; lia.

Lemma total_update batch result_ : total (batch <| num_tx := 0 |> <| num_abort := 0 |> <| num_commit := 0 |> <| num_part := 0 |>, update batch result_)
  = total (batch, result_).
Proof. unfold total, update, stat_add. cbn -[u32]. sum_up. Qed.

Lemma total_one o stopped st : total (run_one o stopped st) =
  let '(t, cm, ab) := total st in (u32 (t + 1), u32 (cm + Z.b2z (committed o)), u32 (ab + Z.b2z (failed o))).
Proof.
  destruct st as [batch result_]. unfold run_one.
  destruct o as [| |ec part lock rv wv]; cbv zeta; [unfold total; cbn -[u32]; sum_up..|].
  destruct (_ && negb stopped); [rewrite total_update|]; unfold total, committed, failed; destruct (EC_eqb ec EC_OK); cbn -[u32];
    sum_up.
Qed.
Lemma count_cons f o os : count f (o :: os) = Z.b2z (f o) + count f os.
Proof. unfold count. rewrite filter_cons. destruct (f o); [rewrite decide_True by done; cbn [length Z.b2z]; lia|by rewrite decide_False]. Qed.

(** What a terminal counts.  It makes requests until it is stopped or has no
    more.  Then the counters it has reported and those of its last batch add up,
    to 32 bits, to the requests made, those that committed and those that were
    refused. *)
Theorem terminal_counts stop i os st :
  ∃ n, (n ≤ length os)%nat ∧ (n = length os ∨ (stop (i + n)%nat).1 = true) ∧ (∀ j, (j < n)%nat → (stop (i + j)%nat).1 = false) ∧
    total (run_new_order stop i os st) =
    let '(t, cm, ab) := total st in
    (u32 (t + Z.of_nat n), u32 (cm + count committed (take n os)), u32 (ab + count failed (take n os))).
Proof.
  assert (∀ st, total st = let '(t, cm, ab) := total st in (u32 (t + 0), u32 (cm + 0), u32 (ab + 0))) as Hz.
  { intros [b r]. unfold total. sum_up. }
  revert i st. induction os as [|o os IH]; intros i st; cbn [run_new_order].
  - exists 0%nat. split_and!; [done|by left|lia|]. rewrite (Hz st) at 1. by destruct (total st) as [[]].
  - destruct (stop i).1 eqn:Es.
    + exists 0%nat. rewrite Nat.add_0_r. split_and!; [lia|by right|lia|]. rewrite (Hz st) at 1. by destruct (total st) as [[]].
    + destruct (IH (S i) (run_one o (stop i).2 st)) as (n&Hn&Hend&Hgo&E). exists (S n). split_and!.
      * cbn. lia.
      * destruct Hend as [->|H]; [by left|right]. by rewrite <- Nat.add_succ_comm.
      * intros [|j] Hj; [by rewrite Nat.add_0_r|]. rewrite <- Nat.add_succ_comm. apply Hgo. lia.
      * rewrite E, total_one. destruct (total st) as [[t cm] ab]. cbn [take]. rewrite !count_cons. sum_up.
Qed.

(** Ten transactions of [lock] locks each. *)
Definition batch_of (lock : Z) : list outcome := replicate 10 (Answered EC_OK 0 lock 0 0).

Lemma run_order_app stop i os os' st : (∀ j, (stop j).1 = false) →
  run_new_order stop i (os ++ os') st = run_new_order stop (i + length os) os' (run_new_order stop i os st).
Proof.
  intros Hs. revert i st. induction os as [|o os IH]; intros i st; cbn [app run_new_order length]; [by rewrite Nat.add_0_r|].
  rewrite Hs, IH. by rewrite Nat.add_succ_comm.
Qed.

(** Part of a batch, and a full one: the counter of locks goes on from [l]. *)
Lemma run_part lock j i k l rep : 0 ≤ k → k + Z.of_nat j ≤ 9 →
  run_new_order (fun _ => (false, false)) i (replicate j (Answered EC_OK 0 lock 0 0)) (mk_stat k k 0 0 (u32 l) 0 0, rep) =
  (mk_stat (k + Z.of_nat j) (k + Z.of_nat j) 0 0 (u32 (l + Z.of_nat j * lock)) 0 0, rep).
Proof.
  revert i k l. induction j as [|j IH]; intros i k l Hk Hj; cbn [replicate run_new_order fst snd].
  - by rewrite !Z.add_0_r.
  - unfold run_one. change (EC_eqb EC_OK EC_OK) with true. cbn -[wrap Z.add Z.leb Z.of_nat Z.mul]. rewrite (wrap_small 32 (k + 1)) by (unfold fits; lia). rewrite u32_l.
    destruct (Z.leb_spec 10 (k + 1)); [lia|]. cbn [andb]. change (u32 (0 + 0)) with 0. change (u64 (0 + 0)) with 0.
    rewrite IH by lia. replace (k + 1 + Z.of_nat j) with (k + Z.of_nat (S j)) by lia.
    by replace (l + lock + Z.of_nat j * lock) with (l + Z.of_nat (S j) * lock) by lia.
Qed.

Lemma run_batch i lock l rep : run_new_order (fun _ => (false, false)) i (batch_of lock) (mk_stat 0 0 0 0 (u32 l) 0 0, rep) =
  (mk_stat 0 0 0 0 (u32 (l + 10 * lock)) 0 0, update (mk_stat 10 10 0 0 (u32 (l + 10 * lock)) 0 0) rep).
Proof.
  unfold batch_of. rewrite (replicate_S_end 9), run_order_app, run_part by done. cbn [run_new_order fst snd]. unfold run_one.
  change (EC_eqb EC_OK EC_OK) with true. cbn -[wrap Z.add Z.mul update]. rewrite u32_l. replace (l + Z.of_nat 9 * lock + lock) with (l + 10 * lock) by lia. reflexivity.
Qed.

Lemma run_batches m lock i l a q :
  run_new_order (fun _ => (false, false)) i (concat (replicate m (batch_of lock)))
    (mk_stat 0 0 0 0 (u32 l) 0 0, mk_stat (u32 a) (u32 a) 0 0 (u32 q) 0 0) =
  (mk_stat 0 0 0 0 (u32 (l + 10 * Z.of_nat m * lock)) 0 0,
   mk_stat (u32 (a + 10 * Z.of_nat m)) (u32 (a + 10 * Z.of_nat m)) 0 0
     (u32 (q + Z.of_nat m * l + 5 * Z.of_nat m * (Z.of_nat m + 1) * lock)) 0 0).
Proof.
  revert i l a q. induction m as [|m IH]; intros i l a q; cbn [concat replicate].
  - cbn [run_new_order]. repeat f_equal; lia.
  - rewrite run_order_app, run_batch by done.
    assert (update (mk_stat 10 10 0 0 (u32 (l + 10 * lock)) 0 0) (mk_stat (u32 a) (u32 a) 0 0 (u32 q) 0 0) =
      mk_stat (u32 (a + 10)) (u32 (a + 10)) 0 0 (u32 (q + (l + 10 * lock))) 0 0) as ->.
    { unfold update, stat_add. cbn [num_tx num_commit num_abort num_part num_lock num_read_violate num_write_violate]. by rewrite !u32_l, u32_r. }
    rewrite IH. f_equal; f_equal; f_equal; lia.
Qed.

(** Locks are counted again in every later batch: the counter of locks, like
    those of violations, is not set back when a batch is reported.  After [m]
    batches of ten transactions that take [lock] locks each, the terminal has
    reported 10 m transactions and 5 m (m + 1) [lock] locks instead of
    10 m [lock] (to 32 bits). *)
Theorem locks_counted_again m lock :
  let rep := (run_new_order (fun _ => (false, false)) 0 (concat (replicate m (batch_of lock))) (stat_zero, stat_zero)).2 in
  num_tx rep = u32 (10 * Z.of_nat m) ∧ num_commit rep = u32 (10 * Z.of_nat m) ∧
  num_lock rep = u32 (5 * Z.of_nat m * (Z.of_nat m + 1) * lock).
Proof. cbv zeta. pose proof (run_batches m lock 0 0 0 0) as E. change (u32 0) with 0 in E. unfold stat_zero. rewrite E. cbn [snd num_tx num_commit num_lock]. split_and!; f_equal; lia. Qed.
(** ** Warming up *)

Section warm.
Context (cached : nat → bool) (sd : Z).

(** The keys of the rows of shard [sd] that are to be cached. *)
Definition chosen (ps : list (nat * tx_operation)) : list row_key :=
  map (fun p => key_of p.2) (filter (fun p : nat * tx_operation => cached p.1 = true ∧ op_type p.2 ≠ TX_OP_INSERT ∧ op_sd_id p.2 = sd) ps).

Definition request_for (keys : list row_key) : option (list (list row_key)) :=
  match keys with [] => None | _ => Some [take 201 keys] end.

Lemma request_snoc keys k : request_for (keys ++ [k]) = Some [take 201 (keys ++ [k])].
Proof. by destruct keys. Qed.

Lemma chosen_snoc ps i op : chosen (ps ++ [(i, op)]) =
  chosen ps ++ if decide (cached i = true ∧ op_type op ≠ TX_OP_INSERT ∧ op_sd_id op = sd) then [key_of op] else [].
Proof. unfold chosen. rewrite filter_app, map_app. f_equal. rewrite filter_cons, filter_nil. cbn [fst snd]. by case_decide. Qed.

Lemma warm_up_fold ps : foldl (fun m p => warm_up_op (cached p.1) p.2 m) ∅ ps !! sd = request_for (chosen ps).
Proof.
  induction ps as [|[i op] ps IH] using rev_ind; [done|]. rewrite foldl_app, chosen_snoc. cbn [foldl fst snd]. set (m := foldl _ _ _) in *.
  unfold warm_up_op. destruct (cached i) eqn:Ec; cbn [negb orb]; [|rewrite decide_False by naive_solver; by rewrite app_nil_r].
  case_bool_decide as Ei; cbn [orb]; [rewrite decide_False by naive_solver; by rewrite app_nil_r|].
  destruct (decide (op_sd_id op = sd)) as [E|E].
  - rewrite decide_True by done. rewrite E, IH, request_snoc. destruct (chosen ps) as [|k ks]; cbn [request_for]; [by rewrite lookup_insert_eq|].
    rewrite reverse_singleton. set (keys := k :: ks) in *. rewrite length_take, reverse_nil. destruct (Nat.ltb_spec 200 (201 `min` length keys)).
    + rewrite IH. rewrite take_app_le by lia. done.
    + rewrite lookup_insert_eq. rewrite (take_ge keys), (take_ge (keys ++ _)) by (rewrite ?length_app; cbn [length]; lia). done.
  - rewrite decide_False by naive_solver. rewrite app_nil_r, <- IH. destruct (m !! op_sd_id op) as [vec|]; [|by rewrite lookup_insert_ne].
    destruct (reverse vec) as [|r before]; [done|]. destruct (200 <? length r)%nat; [done|]. by rewrite lookup_insert_ne.
Qed.

(** Warming up stops at 201 rows.  The rows of a shard that a terminal has
    chosen go into one request, and those after the first 201 are lost; the
    request for them goes into a map that already has one for the shard. *)
Theorem warm_up_capped requests :
  warm_up_cached1 cached requests ∅ !! sd =
  match chosen (imap pair (requests ≫= req_operations)) with
  | [] => None
  | keys => Some [take 201 keys]
  end.
Proof. unfold warm_up_cached1. rewrite lookup_union_with, lookup_empty. rewrite warm_up_fold. by destruct (chosen _). Qed.
End warm.
(** ** Witnesses

    Six warehouses on three shards; shards 1 and 3 share a node.  The numbers
    drawn go round. *)

Definition demo_draw (k : nat) (lo hi : Z) : Z := lo + Z.of_nat k mod (hi - lo + 1).
Definition demo_config : tpcc_config := mk_tpcc 6 10 10 2 6 1 5 100 0 PERCENT_BASE 0 0 false 0 false 0 false.
Definition demo_nodes : gmap Z Z := {[1 := 10; 2 := 20; 3 := 10]}.
Definition demo_split : list (Z * boundary) := [(1, mk_boundary 1 2); (2, mk_boundary 3 4); (3, mk_boundary 5 6)].
Definition demo_tuple (t : Z) (k : nat) : string := "row".
Definition demo_order : option (tx_request * nat) :=
  new_order demo_draw demo_config demo_split 2 demo_nodes (fun _ l => l) demo_tuple 1 1 0%nat.

Lemma demo_random : random_ok demo_draw 2 (fun _ l => l) demo_tuple.
Proof.
  constructor; [| |done|done].
  - intros k lo hi Hle. unfold demo_draw. pose proof (Z.mod_pos_bound (Z.of_nat k) (hi - lo + 1)). lia.
  - intros k lo hi x Hlt. unfold demo_draw. destruct (decide (lo + Z.of_nat k mod (hi - lo + 1) = x)) as [<-|H].
    + exists 1%nat. split; [lia|]. intros E. apply Z.add_reg_l in E. set (n := hi - lo + 1) in *.
      assert ((Z.of_nat (k + 1) - Z.of_nat k) mod n = 0) as E1 by (rewrite Zminus_mod, E, Z.sub_diag; done).
      replace (Z.of_nat (k + 1) - Z.of_nat k) with 1 in E1 by lia. rewrite Z.mod_small in E1; lia.
    + exists 0%nat. split; [lia|]. by rewrite Nat.add_0_r.
Qed.

Lemma demo_config_ok : config_ok demo_config demo_split demo_nodes 3.
Proof.
  constructor; try done.
  intros sd Hsd. assert (sd = 1 ∨ sd = 2 ∨ sd = 3) as [-> | [-> | ->]] by lia; by eexists.
Qed.


(** The order takes items from shard 2, on another node, but the last remote item
    is from shard 3: the request is not marked. *)
Lemma distributed_by_last_witness : ∃ r k, demo_order = Some (r, k) ∧ req_distributed r = false ∧
  2 ∈ map op_sd_id (req_operations r) ∧ demo_nodes !! 2 ≠ demo_nodes !! 1.
Proof.
  destruct (distributed_by_last demo_draw demo_config demo_split 2 demo_nodes (fun _ l => l) demo_tuple 3 demo_random demo_config_ok 1 1
    ltac:(lia) 0%nat) as (r&k&E&Hd).
  assert (map op_sd_id (req_operations r) = replicate 10 1 ++ replicate 4 2 ++ replicate 4 3 ++ replicate 4 1 ++ replicate 4 2 ++ replicate 4 3) as El
    by (vm_compute in E; injection E as <- <-; reflexivity).
  exists r, k. split; [done|]. rewrite El in *. split; [by rewrite Hd|]. split; [|done]. set_solver.
Defined.

(** Seven warehouses on three shards: the last belongs to none. *)
Lemma warehouses_split_witness : ∃ rg2b, rg2wid_boundary 3 7 1 = Some rg2b ∧ wid2rg rg2b 3 = Some 2 ∧
  ∀ sd b, boundary_of rg2b sd = Some b → owns b 7 = false.
Proof.
  eexists. split; [reflexivity|].
  destruct (warehouses_split 3 7 1 _ eq_refl ltac:(lia)) as [_ H]. split; [reflexivity|]. exact (proj1 (H 7 ltac:(done))).
Defined.
End Workload.
