(* ===== verification/Node.v ===== *)
(** * A node: its blocks and the messages it routes to them

    [include/network/message_processor.h], [src/portal/portal_server.cpp],
    [include/common/message.h] and the [handle_message] templates of the blocks
    ([cc_block.h], [ds_block.h], [rl_block.h]).  A server process runs one or more
    blocks behind one socket.  A message of any type is looked up in the table of
    the sink, given to the block whose table has its type, parsed as the protobuf
    type of that entry, and ends in the overload of the block for that type.

    - [node_routes]: what the vectors of a sink and of the node do is what the
      table says: a message goes to the block that has its type, if the node runs
      that block, and is dropped with success otherwise; no message is refused;
      with a message id beyond the enumeration the vectors are read out of range;
    - [sent_messages_handled]: every message that the blocks and terminals send
      in the modelled builds reaches an overload of the block it is sent to; the
      messages of the early release of locks reach no block.

    The bodies are bytes; parsing a protobuf type is a parameter. *)

From S2P Require Import Prelude Common.
#[local] Open Scope Z_scope.

Module Node.

(* @src include/common/message.h 6 14 message_block *)
Inductive message_block :=
| MESSAGE_BLOCK_INVALID | MESSAGE_BLOCK_CCB | MESSAGE_BLOCK_DSB | MESSAGE_BLOCK_RLB | MESSAGE_BLOCK_CLI
| MESSAGE_BLOCK_PNB | MESSAGE_BLOCK_END.

#[export] Instance message_block_eq_dec : EqDecision message_block.
Proof. solve_decision. Defined.

Definition block_no (b : message_block) : nat :=
  match b with
  | MESSAGE_BLOCK_INVALID => 0 | MESSAGE_BLOCK_CCB => 1 | MESSAGE_BLOCK_DSB => 2 | MESSAGE_BLOCK_RLB => 3
  | MESSAGE_BLOCK_CLI => 4 | MESSAGE_BLOCK_PNB => 5 | MESSAGE_BLOCK_END => 6
  end.

(* @src include/common/message.h 16 101 message_type *)
Inductive message_type :=
| REQUEST_MIN | REQUEST_HELLO | RESPONSE_HELLO | CLOSE_REQ | CLOSE_RESP | RLB_MESSAGE_BEGIN
| RAFT_APPEND_ENTRIES_REQ | RAFT_APPEND_ENTRIES_RESP | RAFT_REQ_VOTE_REQ | RAFT_REQ_VOTE_RESP
| RAFT_PRE_VOTE_REQ | RAFT_PRE_VOTE_RESP | RAFT_TRANSFER_LEADER | RAFT_TRANSFER_NOTIFY
| C2R_APPEND_LOG_REQ | C2R_REPLAY_LOG_RESP | D2R_WRITE_BATCH_RESP | C2R_REGISTER_REQ
| D2R_REGISTER_REQ | C2R_REPORT_STATUS_RESP | RLB_MESSAGE_END | CCB_MESSAGE_BEGIN
| R2C_REGISTER_RESP | COMMIT_LOG_ENTRIES | D2C_READ_DATA_RESP | R2C_REPORT_STATUS_REQ
| CCB_BORADCAST_STATUS_REQ | CCB_BORADCAST_STATUS_RESP | CLIENT_TX_REQ | CLIENT_CCB_STATE_REQ
| CCB_HANDLE_WARM_UP_REQ | CCB_HANDLE_WARM_UP_RESP | TX_TM_COMMIT | TX_TM_ABORT | TX_TM_END
| TX_RM_PREPARE | TX_RM_ACK | TX_VICTIM | TX_TM_REQUEST | LEAD_STATUS_REQUEST
| LEAD_STATUS_RESPONSE | CALVIN_EPOCH | CALVIN_PART_COMMIT | CALVIN_EPOCH_ACK | RM_ENABLE_VIOLATE
| TM_ENABLE_VIOLATE | DL_DEPENDENCY | CCB_ERROR_CONSISTENCY | CCB_MESSAGE_END | DSB_MESSAGE_BEGIN
| C2D_READ_DATA_REQ | R2D_REGISTER_RESP | R2D_REPLAY_TO_DSB_REQ | CLIENT_LOAD_DATA_REQ
| DSB_HANDLE_WARM_UP_REQ | DSB_ERROR_CONSISTENCY | ERROR_CONSISTENCY | DSB_MESSAGE_END
| CLI_MESSAGE_BEGIN | CLIENT_TX_RESP | CLIENT_CCB_STATE_RESP | CLIENT_HANDLE_WARM_UP_RESP
| CLIENT_LOAD_DATA_RESP | CLIENT_SYNC | CLIENT_BENCH_STOP | CLIENT_SYNC_CLOSE | CLI_MESSAGE_END
| MESSAGE_END.

(** The enumerators in order: the value of one is its place. *)
Definition message_types : list message_type :=
  [REQUEST_MIN; REQUEST_HELLO; RESPONSE_HELLO; CLOSE_REQ; CLOSE_RESP; RLB_MESSAGE_BEGIN;
   RAFT_APPEND_ENTRIES_REQ; RAFT_APPEND_ENTRIES_RESP; RAFT_REQ_VOTE_REQ; RAFT_REQ_VOTE_RESP;
   RAFT_PRE_VOTE_REQ; RAFT_PRE_VOTE_RESP; RAFT_TRANSFER_LEADER; RAFT_TRANSFER_NOTIFY;
   C2R_APPEND_LOG_REQ; C2R_REPLAY_LOG_RESP; D2R_WRITE_BATCH_RESP; C2R_REGISTER_REQ;
   D2R_REGISTER_REQ; C2R_REPORT_STATUS_RESP; RLB_MESSAGE_END; CCB_MESSAGE_BEGIN; R2C_REGISTER_RESP;
   COMMIT_LOG_ENTRIES; D2C_READ_DATA_RESP; R2C_REPORT_STATUS_REQ; CCB_BORADCAST_STATUS_REQ;
   CCB_BORADCAST_STATUS_RESP; CLIENT_TX_REQ; CLIENT_CCB_STATE_REQ; CCB_HANDLE_WARM_UP_REQ;
   CCB_HANDLE_WARM_UP_RESP; TX_TM_COMMIT; TX_TM_ABORT; TX_TM_END; TX_RM_PREPARE; TX_RM_ACK;
   TX_VICTIM; TX_TM_REQUEST; LEAD_STATUS_REQUEST; LEAD_STATUS_RESPONSE; CALVIN_EPOCH;
   CALVIN_PART_COMMIT; CALVIN_EPOCH_ACK; RM_ENABLE_VIOLATE; TM_ENABLE_VIOLATE; DL_DEPENDENCY;
   CCB_ERROR_CONSISTENCY; CCB_MESSAGE_END; DSB_MESSAGE_BEGIN; C2D_READ_DATA_REQ; R2D_REGISTER_RESP;
   R2D_REPLAY_TO_DSB_REQ; CLIENT_LOAD_DATA_REQ; DSB_HANDLE_WARM_UP_REQ; DSB_ERROR_CONSISTENCY;
   ERROR_CONSISTENCY; DSB_MESSAGE_END; CLI_MESSAGE_BEGIN; CLIENT_TX_RESP; CLIENT_CCB_STATE_RESP;
   CLIENT_HANDLE_WARM_UP_RESP; CLIENT_LOAD_DATA_RESP; CLIENT_SYNC; CLIENT_BENCH_STOP;
   CLIENT_SYNC_CLOSE; CLI_MESSAGE_END; MESSAGE_END].

Definition message_no (m : message_type) : nat :=
  match m with
  | REQUEST_MIN => 0 | REQUEST_HELLO => 1 | RESPONSE_HELLO => 2 | CLOSE_REQ => 3 | CLOSE_RESP => 4
  | RLB_MESSAGE_BEGIN => 5 | RAFT_APPEND_ENTRIES_REQ => 6 | RAFT_APPEND_ENTRIES_RESP => 7
  | RAFT_REQ_VOTE_REQ => 8 | RAFT_REQ_VOTE_RESP => 9 | RAFT_PRE_VOTE_REQ => 10
  | RAFT_PRE_VOTE_RESP => 11 | RAFT_TRANSFER_LEADER => 12 | RAFT_TRANSFER_NOTIFY => 13
  | C2R_APPEND_LOG_REQ => 14 | C2R_REPLAY_LOG_RESP => 15 | D2R_WRITE_BATCH_RESP => 16
  | C2R_REGISTER_REQ => 17 | D2R_REGISTER_REQ => 18 | C2R_REPORT_STATUS_RESP => 19
  | RLB_MESSAGE_END => 20 | CCB_MESSAGE_BEGIN => 21 | R2C_REGISTER_RESP => 22
  | COMMIT_LOG_ENTRIES => 23 | D2C_READ_DATA_RESP => 24 | R2C_REPORT_STATUS_REQ => 25
  | CCB_BORADCAST_STATUS_REQ => 26 | CCB_BORADCAST_STATUS_RESP => 27 | CLIENT_TX_REQ => 28
  | CLIENT_CCB_STATE_REQ => 29 | CCB_HANDLE_WARM_UP_REQ => 30 | CCB_HANDLE_WARM_UP_RESP => 31
  | TX_TM_COMMIT => 32 | TX_TM_ABORT => 33 | TX_TM_END => 34 | TX_RM_PREPARE => 35
  | TX_RM_ACK => 36 | TX_VICTIM => 37 | TX_TM_REQUEST => 38 | LEAD_STATUS_REQUEST => 39
  | LEAD_STATUS_RESPONSE => 40 | CALVIN_EPOCH => 41 | CALVIN_PART_COMMIT => 42
  | CALVIN_EPOCH_ACK => 43 | RM_ENABLE_VIOLATE => 44 | TM_ENABLE_VIOLATE => 45
  | DL_DEPENDENCY => 46 | CCB_ERROR_CONSISTENCY => 47 | CCB_MESSAGE_END => 48
  | DSB_MESSAGE_BEGIN => 49 | C2D_READ_DATA_REQ => 50 | R2D_REGISTER_RESP => 51
  | R2D_REPLAY_TO_DSB_REQ => 52 | CLIENT_LOAD_DATA_REQ => 53 | DSB_HANDLE_WARM_UP_REQ => 54
  | DSB_ERROR_CONSISTENCY => 55 | ERROR_CONSISTENCY => 56 | DSB_MESSAGE_END => 57
  | CLI_MESSAGE_BEGIN => 58 | CLIENT_TX_RESP => 59 | CLIENT_CCB_STATE_RESP => 60
  | CLIENT_HANDLE_WARM_UP_RESP => 61 | CLIENT_LOAD_DATA_RESP => 62 | CLIENT_SYNC => 63
  | CLIENT_BENCH_STOP => 64 | CLIENT_SYNC_CLOSE => 65 | CLI_MESSAGE_END => 66 | MESSAGE_END => 67
  end.

Definition message_end : nat := message_no MESSAGE_END.

(** The names; a type without one has the empty name. *)
(* @src src/common/message.cpp 3 83 enum_strings *)
Definition enum2str (m : message_type) : string :=
  match m with
  | REQUEST_MIN => "REQUEST_MIN"
  | REQUEST_HELLO => "REQUEST_HELLO"
  | RESPONSE_HELLO => "RESPONSE_HELLO"
  | CLOSE_REQ => "CLOSE_REQ"
  | CLOSE_RESP => "CLOSE_RESP"
  | RLB_MESSAGE_BEGIN => "RLB_MESSAGE_BEGIN"
  | RAFT_APPEND_ENTRIES_REQ => "RAFT_APPEND_ENTRIES_REQ"
  | RAFT_APPEND_ENTRIES_RESP => "RAFT_APPEND_ENTRIES_RESP"
  | RAFT_REQ_VOTE_REQ => "RAFT_REQ_VOTE_REQ"
  | RAFT_REQ_VOTE_RESP => "RAFT_REQ_VOTE_RESP"
  | RAFT_TRANSFER_LEADER => "RAFT_TRANSFER_LEADER"
  | RAFT_TRANSFER_NOTIFY => "RAFT_TRANSFER_NOTIFY"
  | C2R_APPEND_LOG_REQ => "C2R_APPEND_LOG_REQ"
  | C2R_REPLAY_LOG_RESP => "C2R_REPLAY_LOG_RESP"
  | D2R_WRITE_BATCH_RESP => "D2R_WRITE_BATCH_RESP"
  | C2R_REGISTER_REQ => "C2R_REGISTER_REQ"
  | D2R_REGISTER_REQ => "D2R_REGISTER_REQ"
  | C2R_REPORT_STATUS_RESP => "C2R_REPORT_STATUS_RESP"
  | RLB_MESSAGE_END => "RLB_MESSAGE_END"
  | CCB_MESSAGE_BEGIN => "CCB_MESSAGE_BEGIN"
  | R2C_REGISTER_RESP => "R2C_REGISTER_RESP"
  | COMMIT_LOG_ENTRIES => "COMMIT_LOG_ENTRIES"
  | D2C_READ_DATA_RESP => "D2C_READ_DATA_RESP"
  | R2C_REPORT_STATUS_REQ => "R2C_REPORT_STATUS_REQ"
  | CCB_BORADCAST_STATUS_REQ => "CCB_BORADCAST_STATUS_REQ"
  | CCB_BORADCAST_STATUS_RESP => "CCB_BORADCAST_STATUS_RESP"
  | CLIENT_TX_REQ => "CLIENT_TX_REQ"
  | CLIENT_CCB_STATE_REQ => "CLIENT_CCB_STATE_REQ"
  | CLIENT_CCB_STATE_RESP => "CLIENT_CCB_STATE_RESP"
  | CCB_HANDLE_WARM_UP_REQ => "DSB_HANDLE_WARM_UP_REQ"
  | CCB_HANDLE_WARM_UP_RESP => "CCB_HANDLE_WARM_UP_RESP"
  | TX_TM_COMMIT => "TX_TM_COMMIT"
  | TX_TM_ABORT => "TX_TM_ABORT"
  | TX_TM_END => "TX_TM_END"
  | TX_RM_PREPARE => "TX_RM_PREPARE"
  | TX_RM_ACK => "TX_RM_ACK"
  | TX_VICTIM => "TX_VICTIM"
  | TX_TM_REQUEST => "TX_TM_REQUEST"
  | LEAD_STATUS_REQUEST => "LEAD_STATUS_REQUEST"
  | LEAD_STATUS_RESPONSE => "LEAD_STATUS_RESPONSE"
  | CALVIN_EPOCH => "CALVIN_EPOCH"
  | CALVIN_PART_COMMIT => "CALVIN_PART_COMMIT"
  | CALVIN_EPOCH_ACK => "CALVIN_EPOCH_ACK"
  | RM_ENABLE_VIOLATE => "RM_ENABLE_VIOLATE"
  | TM_ENABLE_VIOLATE => "TM_ENABLE_VIOLATE"
  | DL_DEPENDENCY => "DL_DEPENDENCY"
  | CCB_MESSAGE_END => "CCB_MESSAGE_END"
  | DSB_MESSAGE_BEGIN => "DSB_MESSAGE_BEGIN"
  | C2D_READ_DATA_REQ => "C2D_READ_DATA_REQ"
  | R2D_REGISTER_RESP => "R2D_REGISTER_RESP"
  | R2D_REPLAY_TO_DSB_REQ => "R2D_REPLAY_TO_DSB_REQ"
  | CLIENT_LOAD_DATA_REQ => "CLIENT_LOAD_DATA_REQ"
  | DSB_HANDLE_WARM_UP_REQ => "DSB_HANDLE_WARM_UP_REQ"
  | DSB_MESSAGE_END => "DSB_MESSAGE_END"
  | CLI_MESSAGE_BEGIN => "CLI_MESSAGE_BEGIN"
  | CLIENT_TX_RESP => "CLIENT_TX_RESP"
  | CLIENT_HANDLE_WARM_UP_RESP => "CLIENT_HANDLE_WARM_UP_RESP"
  | CLIENT_LOAD_DATA_RESP => "CLIENT_LOAD_DATA_RESP"
  | CLIENT_SYNC => "CLIENT_SYNC"
  | CLIENT_BENCH_STOP => "CLIENT_BENCH_STOP"
  | CLIENT_SYNC_CLOSE => "CLIENT_SYNC_CLOSE"
  | CLI_MESSAGE_END => "CLI_MESSAGE_END"
  | _ => ""
  end.

(** The message types of each block with the protobuf type their body is parsed
    as.  The maps are walked in the order of the keys; no type is in two of
    them. *)
(* @src include/network/message_processor.h 157 233 processor_sink::id2processor_ *)
Definition id2processor_ : list (message_block * list (message_type * string)) :=
  [(MESSAGE_BLOCK_CCB,
   [(REQUEST_HELLO, "hello"); (RESPONSE_HELLO, "hello"); (CLOSE_REQ, "close_request");
    (R2C_REGISTER_RESP, "rlb_register_ccb_response"); (COMMIT_LOG_ENTRIES, "rlb_commit_entries");
    (D2C_READ_DATA_RESP, "dsb_read_response"); (CLIENT_TX_REQ, "tx_request");
    (CLIENT_CCB_STATE_REQ, "ccb_state_req"); (CCB_HANDLE_WARM_UP_REQ, "warm_up_req");
    (CCB_HANDLE_WARM_UP_RESP, "warm_up_resp"); (TX_TM_COMMIT, "tx_tm_commit");
    (TX_TM_ABORT, "tx_tm_abort"); (TX_TM_END, "tx_tm_end"); (TX_RM_PREPARE, "tx_rm_prepare");
    (TX_RM_ACK, "tx_rm_ack"); (TX_VICTIM, "tx_victim"); (TX_TM_REQUEST, "tx_request");
    (LEAD_STATUS_REQUEST, "lead_status_request"); (LEAD_STATUS_RESPONSE, "lead_status_response");
    (CALVIN_EPOCH, "calvin_epoch"); (CALVIN_PART_COMMIT, "calvin_part_commit");
    (CALVIN_EPOCH_ACK, "calvin_epoch_ack"); (DL_DEPENDENCY, "dependency_set");
    (CCB_ERROR_CONSISTENCY, "error_consistency")]);
   (MESSAGE_BLOCK_DSB,
   [(DSB_HANDLE_WARM_UP_REQ, "warm_up_req"); (C2D_READ_DATA_REQ, "ccb_read_request");
    (R2D_REGISTER_RESP, "rlb_register_dsb_response");
    (CLIENT_LOAD_DATA_REQ, "client_load_data_request");
    (R2D_REPLAY_TO_DSB_REQ, "replay_to_dsb_request"); (DSB_ERROR_CONSISTENCY, "error_consistency")]);
   (MESSAGE_BLOCK_RLB,
   [(RAFT_APPEND_ENTRIES_REQ, "append_entries_request");
    (RAFT_APPEND_ENTRIES_RESP, "append_entries_response");
    (RAFT_REQ_VOTE_REQ, "request_vote_request"); (RAFT_REQ_VOTE_RESP, "request_vote_response");
    (RAFT_PRE_VOTE_REQ, "pre_vote_request"); (RAFT_PRE_VOTE_RESP, "pre_vote_response");
    (RAFT_TRANSFER_LEADER, "transfer_leader"); (RAFT_TRANSFER_NOTIFY, "transfer_notify");
    (C2R_APPEND_LOG_REQ, "ccb_append_log_request");
    (D2R_WRITE_BATCH_RESP, "replay_to_dsb_response");
    (C2R_REGISTER_REQ, "ccb_register_ccb_request"); (D2R_REGISTER_REQ, "dsb_register_dsb_request");
    (C2R_REPORT_STATUS_RESP, "ccb_report_status_response")]);
   (MESSAGE_BLOCK_CLI,
   [(CLIENT_HANDLE_WARM_UP_RESP, "warm_up_resp"); (CLIENT_TX_RESP, "tx_response");
    (CLIENT_LOAD_DATA_RESP, "client_load_data_response"); (CLIENT_SYNC, "client_sync");
    (CLIENT_BENCH_STOP, "client_bench_stop"); (CLIENT_CCB_STATE_RESP, "ccb_state_resp");
    (CLIENT_SYNC_CLOSE, "close_request")])].

(** ** Processing one message *)

(** What a node does with a message: an overload of a block is called, the server
    is told to stop, an assertion of the source fails. *)
Inductive node_event (M : Type) :=
| Handled (b : message_block) (id : nat) (type : string) (m : M)
| StopServer
| AssertFailed.
Arguments Handled {M}.
Arguments StopServer {M}.
Arguments AssertFailed {M}.

(** The protobuf types a block has an overload of [handle_message] for; the
    template that takes the others fails an assertion. *)
(* @src include/concurrency/cc_block.h 115 179 cc_block::ccb_handle_message *)
Definition ccb_overloads : list string :=
  ["ccb_state_req"; "rlb_register_ccb_response"; "warm_up_req"; "warm_up_resp"; "tx_request"; "rlb_commit_entries";
   "lead_status_request"; "dsb_read_response"; "calvin_part_commit"; "tx_rm_prepare"; "tx_rm_ack"; "tx_tm_commit";
   "tx_tm_abort"; "tx_tm_end"; "dependency_set"; "tx_enable_violate"; "calvin_epoch"; "calvin_epoch_ack"; "tx_victim";
   "error_consistency"].
(* @src include/store/ds_block.h 56 76 ds_block::dsb_handle_message *)
Definition dsb_overloads : list string :=
  ["warm_up_req"; "client_load_data_request"; "rlb_register_dsb_response"; "ccb_read_request"; "replay_to_dsb_request"].
(* @src include/replog/rl_block.h 98 134 rl_block::rlb_handle_message *)
Definition rlb_overloads : list string :=
  ["ccb_register_ccb_request"; "dsb_register_dsb_request"; "ccb_report_status_response"; "request_vote_request";
   "request_vote_response"; "append_entries_request"; "append_entries_response"; "transfer_leader"; "transfer_notify";
   "replay_to_dsb_response"].

Section node.
(** [ParseFromArray] of a protobuf type, and what an overload of the storage block
    returns, an exception it throws included. *)
Context {M : Type} (parse : string → list Z → option M) (reply : string → M → option EC).
Abbreviation outcome := (option EC * list (node_event M))%type.

Definition overload (l : list string) (b : message_block) (id : nat) (type : string) (m : M) : list (node_event M) :=
  if bool_decide (type ∈ l) then [Handled b id type m] else [AssertFailed].

(** [None] is success. *)
(* @src include/concurrency/cc_block.h 104 112 cc_block::handle_message *)
Definition ccb_handle_message (id : nat) (type : string) (m : M) : outcome :=
  (None, overload ccb_overloads MESSAGE_BLOCK_CCB id type m).

(* @src include/store/ds_block.h 47 54 ds_block::handle_message *)
Definition dsb_handle_message (id : nat) (type : string) (m : M) : outcome :=
  (if bool_decide (type ∈ dsb_overloads) then reply type m else None, overload dsb_overloads MESSAGE_BLOCK_DSB id type m).

(** Runs on the strand of the state machine; append requests are told apart by
    their id. *)
(* @src include/replog/rl_block.h 59 95 rl_block::handle_message *)
Definition rlb_handle_message (id : nat) (type : string) (m : M) : outcome :=
  (None, if (id =? message_no C2R_APPEND_LOG_REQ)%nat then [Handled MESSAGE_BLOCK_RLB id "ccb_append_log_request" m]
         else overload rlb_overloads MESSAGE_BLOCK_RLB id type m).

(** A block that is not one of the three is a [block_handler]. *)
(* @src include/network/message_processor.h 25 32 block_handler::handle_message *)
Definition handle_message (b : message_block) (id : nat) (type : string) (m : M) : outcome :=
  match b with
  | MESSAGE_BLOCK_CCB => ccb_handle_message id type m
  | MESSAGE_BLOCK_DSB => dsb_handle_message id type m
  | MESSAGE_BLOCK_RLB => rlb_handle_message id type m
  | _ => (None, [])
  end.

(** A processor is the protobuf type it parses, cloned for a block. *)
(* @src include/network/message_processor.h 39 47 message_processor::process_msg *)
Definition process_msg_as (b : message_block) (type : string) (id : nat) (m : M) : outcome := handle_message b id type m.

(* @src include/network/message_processor.h 49 60 message_processor::process *)
Definition process_as (b : message_block) (type : string) (id : nat) (buffer : list Z) : outcome :=
  match parse type buffer with
  | None => (Some EC_UNMARSHALL_ERROR, [])
  | Some m => process_msg_as b type id m
  end.

(** ** The sink of a block *)

(* @src include/network/message_processor.h 151 155 processor_sink *)
Record processor_sink := mk_sink {
  b_type_ : message_block;
  processor_ : list (option string);
  block_ : list message_block;
}.

Definition init_block : list message_block :=
  foldl (fun v kv1 => foldl (fun v (kv2 : message_type * string) => <[message_no kv2.1 := kv1.1]> v) v kv1.2)
    (replicate (S message_end) MESSAGE_BLOCK_INVALID) id2processor_.

Definition table_of (b : message_block) : list (message_type * string) :=
  match list_find (fun kv => kv.1 = b) id2processor_ with Some (_, kv) => kv.2 | None => [] end.

Definition init_processor (b : message_block) : list (option string) :=
  foldl (fun v (kv : message_type * string) => <[message_no kv.1 := Some kv.2]> v) (replicate (S message_end) None) (table_of b).

(* @src include/network/message_processor.h 128 148 processor_sink::init *)
Definition new_sink (b : message_block) : processor_sink := mk_sink b (init_processor b) init_block.

(** Past the end of the vectors is undefined ([None]). *)
(* @src include/network/message_processor.h 82 90 processor_sink::process *)
Definition process (s : processor_sink) (id : nat) (buffer : list Z) : option outcome :=
  match processor_ s !! id with
  | None => None
  | Some (Some type) => Some (process_as (b_type_ s) type id buffer)
  | Some None => Some (Some EC_NOT_FOUND_ERROR, [])
  end.

(* @src include/network/message_processor.h 92 100 processor_sink::process_msg *)
Definition process_msg (s : processor_sink) (id : nat) (m : M) : option outcome :=
  match processor_ s !! id with
  | None => None
  | Some (Some type) => Some (process_msg_as (b_type_ s) type id m)
  | Some None => Some (Some EC_NOT_FOUND_ERROR, [])
  end.

(* @src include/network/message_processor.h 121 123 processor_sink::get_message_block_type *)
Definition get_message_block_type (s : processor_sink) (id : nat) : option message_block := block_ s !! id.

(** ** The server process *)

(* @src src/portal/portal_server.cpp 95 126 block_run *)
Definition processors (block_types : list string) : list (option processor_sink) :=
  foldl (fun ps t =>
    if bool_decide (t = NodeId.BLOCK_CCB) then <[block_no MESSAGE_BLOCK_CCB := Some (new_sink MESSAGE_BLOCK_CCB)]> ps
    else if bool_decide (t = NodeId.BLOCK_DSB) then <[block_no MESSAGE_BLOCK_DSB := Some (new_sink MESSAGE_BLOCK_DSB)]> ps
    else if bool_decide (t = NodeId.BLOCK_RLB) then <[block_no MESSAGE_BLOCK_RLB := Some (new_sink MESSAGE_BLOCK_RLB)]> ps
    else ps) (replicate (block_no MESSAGE_BLOCK_END) None) block_types.

(** The lookups that both handlers begin with. *)
Definition dispatch (ps : list (option processor_sink)) (id : nat) (f : processor_sink → option outcome) : option outcome :=
  bt ← get_message_block_type (new_sink MESSAGE_BLOCK_INVALID) id;
  p ← ps !! block_no bt;
  if (id =? message_no CLOSE_REQ)%nat then Some (None, [StopServer])
  else match p with
       | Some s => f s
       | None => Some (None, [])
       end.

(* @src src/portal/portal_server.cpp 142 178 block_run *)
Definition handler (ps : list (option processor_sink)) (id : nat) (buffer : list Z) : option outcome :=
  dispatch ps id (fun s => process s id buffer).

(* @src src/portal/portal_server.cpp 180 214 block_run *)
Definition local_handler (ps : list (option processor_sink)) (id : nat) (m : M) : option outcome :=
  dispatch ps id (fun s => process_msg s id m).

(** ** What the table says *)

(** The block that has a message type, and the protobuf type of its entry. *)
Definition owner (m : message_type) : option (message_block * string) :=
  head (id2processor_ ≫= fun kv => omap (fun e => if (message_no e.1 =? message_no m)%nat then Some (kv.1, e.2) else None) kv.2).

Definition block_name (b : message_block) : option string :=
  match b with
  | MESSAGE_BLOCK_CCB => Some NodeId.BLOCK_CCB | MESSAGE_BLOCK_DSB => Some NodeId.BLOCK_DSB | MESSAGE_BLOCK_RLB => Some NodeId.BLOCK_RLB
  | _ => None
  end.

Definition runs (block_types : list string) (b : message_block) : bool :=
  bool_decide (block_name b ∈ map Some block_types).

(** The reference: one look at the table. *)
Definition route (block_types : list string) (m : message_type) (f : message_block → string → outcome) : outcome :=
  if (message_no m =? message_no CLOSE_REQ)%nat then (None, [StopServer])
  else match owner m with
       | Some (b, type) => if runs block_types b then f b type else (None, [])
       | None => (None, [])
       end.

(** ** The vectors and the table *)

Lemma sink_block m : init_block !! message_no m = Some (from_option fst MESSAGE_BLOCK_INVALID (owner m)).
Proof. destruct m; vm_compute; reflexivity. Qed.

Lemma sink_processor b m :
  init_processor b !! message_no m =
  Some (match owner m with Some (b', type) => if bool_decide (b = b') then Some type else None | None => None end).
Proof. destruct b; destruct m; vm_compute; reflexivity. Qed.

Lemma init_block_length : length init_block = S message_end.
Proof. vm_compute. reflexivity. Qed.

Lemma owner_valid m b type : owner m = Some (b, type) → (block_no b < block_no MESSAGE_BLOCK_END)%nat ∧ b ≠ MESSAGE_BLOCK_INVALID.
Proof. destruct m; vm_compute; intros E; try discriminate E; injection E as <- _; (split; [lia|done]). Qed.

(** The processors of a node. *)
Lemma block_no_inj b b' : block_no b = block_no b' → b = b'.
Proof. by destruct b, b'. Qed.

Lemma set_processor (ps : list (option processor_sink)) b0 b :
  (block_no b0 < length ps)%nat →
  <[block_no b0 := Some (new_sink b0)]> ps !! block_no b = if bool_decide (b = b0) then Some (Some (new_sink b)) else ps !! block_no b.
Proof.
  intros Hl. case_bool_decide as E; [subst; by rewrite list_lookup_insert_eq|].
  rewrite list_lookup_insert_ne; [done|]. intros Hn. apply E. symmetry. by apply block_no_inj.
Qed.

Lemma processors_spec block_types b :
  (block_no b < block_no MESSAGE_BLOCK_END)%nat →
  processors block_types !! block_no b = Some (if runs block_types b then Some (new_sink b) else None).
Proof.
  intros Hb. unfold processors, runs.
  set (f := fun (ps : list (option processor_sink)) (t : string) => _).
  assert (∀ ps t, length ps = block_no MESSAGE_BLOCK_END → length (f ps t) = block_no MESSAGE_BLOCK_END ∧
    f ps t !! block_no b = if bool_decide (block_name b = Some t) then Some (Some (new_sink b)) else ps !! block_no b) as Hf.
  { intros ps t Hl. unfold f. repeat case_bool_decide; subst; rewrite ?length_insert, ?set_processor by (rewrite Hl; simpl; lia);
      (split; [done|]); repeat case_bool_decide; try done; destruct b; simpl in *; simplify_eq; done. }
  induction block_types as [|t ts IH] using rev_ind.
  - rewrite bool_decide_eq_false_2 by (simpl; apply not_elem_of_nil). clear Hf. destruct b; try done; simpl in Hb; lia.
  - rewrite foldl_app. cbn [foldl].
    assert (length (foldl f (replicate (block_no MESSAGE_BLOCK_END) None) ts) = block_no MESSAGE_BLOCK_END) as Hl.
    { clear IH. induction ts as [|t' ts IH] using rev_ind; [done|]. rewrite foldl_app. cbn [foldl]. by apply Hf. }
    destruct (Hf _ t Hl) as [_ ->]. rewrite map_app. cbn [map]. rewrite IH.
    destruct (decide (block_name b = Some t)) as [E|E].
    + rewrite !bool_decide_eq_true_2; [done|set_solver|done].
    + rewrite (bool_decide_eq_false_2 (block_name b = Some t)) by done. rewrite (bool_decide_ext (block_name b ∈ map Some ts ++ [Some t]) (block_name b ∈ map Some ts)) by set_solver. done.
Qed.

Lemma dispatch_routes block_types m (f : processor_sink → option outcome) g :
  (∀ b type, owner m = Some (b, type) → f (new_sink b) = Some (g b type)) →
  dispatch (processors block_types) (message_no m) f = Some (route block_types m g).
Proof.
  intros Hf. unfold dispatch, route, get_message_block_type. simpl block_. rewrite sink_block. cbn [mbind option_bind].
  destruct (owner m) as [[b type]|] eqn:Eo; cbn [from_option fst].
  - destruct (owner_valid m b type Eo) as [Hb _]. rewrite processors_spec by done. cbn [mbind option_bind].
    case_match; [done|]. destruct (runs block_types b); [|done]. by apply Hf.
  - rewrite processors_spec by (simpl; lia). cbn [mbind option_bind]. case_match; [done|].
    unfold runs. rewrite bool_decide_eq_false_2; [done|]. simpl. intros (t & Ht & _)%list_elem_of_fmap. done.
Qed.

Lemma process_owner m b type body : owner m = Some (b, type) →
  process (new_sink b) (message_no m) body = Some (process_as b type (message_no m) body).
Proof. intros Eo. unfold process. simpl processor_. rewrite sink_processor, Eo, bool_decide_eq_true_2 by done. done. Qed.

Lemma process_msg_owner m b type x : owner m = Some (b, type) →
  process_msg (new_sink b) (message_no m) x = Some (process_msg_as b type (message_no m) x).
Proof. intros Eo. unfold process_msg. simpl processor_. rewrite sink_processor, Eo, bool_decide_eq_true_2 by done. done. Qed.

Lemma handler_routes block_types m body :
  handler (processors block_types) (message_no m) body =
  Some (route block_types m (fun b type => process_as b type (message_no m) body)).
Proof. apply dispatch_routes. intros b type. apply process_owner. Qed.

(** C23: A node routes by one table.  The vectors that [init] and [block_run] fill
    make the node do exactly what one look at the table says: a message is parsed
    and handled as its type's entry, by the block that has the entry, when the
    node runs that block; other messages are dropped and success is returned, so
    that [EC_NOT_FOUND_ERROR] of the sinks is never seen.  A message a block sends
    to its own node is handled as if it had come over the wire.  An id that is no
    message type reads the vector out of its range. *)
Theorem node_routes block_types :
  (∀ m body, handler (processors block_types) (message_no m) body =
     Some (route block_types m (fun b type => process_as b type (message_no m) body))) ∧
  (∀ m body x, (∀ b type, owner m = Some (b, type) → parse type body = Some x) →
     local_handler (processors block_types) (message_no m) x = handler (processors block_types) (message_no m) body) ∧
  (∀ id body, (message_end < id)%nat → handler (processors block_types) id body = None).
Proof.
  split_and!.
  - intros m body. apply handler_routes.
  - intros m body x Hx. rewrite handler_routes. apply dispatch_routes. intros b type Eo.
    rewrite process_msg_owner with (1 := Eo). unfold process_as. by rewrite (Hx _ _ Eo).
  - intros id body Hid. unfold handler, dispatch, get_message_block_type. simpl block_.
    rewrite lookup_ge_None_2; [done|]. rewrite init_block_length. lia.
Qed.

(** The messages that blocks and terminals send in the modelled builds, with the
    block each is meant for.  Answers to a blocking client are read by the client
    itself. *)
Definition sent_messages : list (message_type * message_block) :=
  map (fun m => (m, MESSAGE_BLOCK_CCB))
    [CLIENT_TX_REQ; CLIENT_CCB_STATE_REQ; LEAD_STATUS_REQUEST; CCB_HANDLE_WARM_UP_REQ; CCB_HANDLE_WARM_UP_RESP;
     TX_TM_REQUEST; TX_RM_PREPARE; TX_RM_ACK; TX_TM_COMMIT; TX_TM_ABORT; TX_TM_END; TX_VICTIM; DL_DEPENDENCY;
     D2C_READ_DATA_RESP; R2C_REGISTER_RESP; COMMIT_LOG_ENTRIES; CCB_ERROR_CONSISTENCY; CALVIN_EPOCH; CALVIN_EPOCH_ACK;
     CALVIN_PART_COMMIT] ++
  map (fun m => (m, MESSAGE_BLOCK_DSB))
    [C2D_READ_DATA_REQ; DSB_HANDLE_WARM_UP_REQ; CLIENT_LOAD_DATA_REQ; R2D_REGISTER_RESP; R2D_REPLAY_TO_DSB_REQ] ++
  map (fun m => (m, MESSAGE_BLOCK_RLB))
    [C2R_APPEND_LOG_REQ; C2R_REGISTER_REQ; D2R_REGISTER_REQ; D2R_WRITE_BATCH_RESP; RAFT_APPEND_ENTRIES_REQ;
     RAFT_APPEND_ENTRIES_RESP; RAFT_REQ_VOTE_REQ; RAFT_REQ_VOTE_RESP; RAFT_TRANSFER_LEADER; RAFT_TRANSFER_NOTIFY].

(** Routed to the block, and handled by an overload of it. *)
Definition handled_by (m : message_type) (b : message_block) (x : M) : bool :=
  match owner m with
  | Some (b', type) =>
      negb (message_no m =? message_no CLOSE_REQ)%nat && bool_decide (b' = b) && match (handle_message b (message_no m) type x).2 with [Handled _ _ _ _] => true | _ => false end
  | None => false
  end.

Lemma sent_handled x : forallb (fun p => handled_by p.1 p.2 x) sent_messages = true.
Proof. vm_compute. reflexivity. Qed.

Lemma violate_unrouted :
  (message_no RM_ENABLE_VIOLATE =? message_no CLOSE_REQ)%nat = false ∧ owner RM_ENABLE_VIOLATE = None ∧
  (message_no TM_ENABLE_VIOLATE =? message_no CLOSE_REQ)%nat = false ∧ owner TM_ENABLE_VIOLATE = None.
Proof. vm_compute. done. Qed.

Lemma violate_overload : "tx_enable_violate"%string ∈ ccb_overloads.
Proof. apply (bool_decide_unpack _). vm_compute. exact Logic.I. Qed.

Lemma handled_event b id type x ec b' id' type' x' :
  handle_message b id type x = (ec, [Handled b' id' type' x']) → b' = b ∧ id' = id ∧ x' = x.
Proof.
  assert (∀ l b0, overload l b0 id type x = [Handled b' id' type' x'] → b' = b0 ∧ id' = id ∧ x' = x) as Ho.
  { intros l b0. unfold overload. destruct (bool_decide _); intros [=]; by subst. }
  destruct b; cbn [handle_message]; try (intros [=]; fail).
  - intros E. apply (f_equal snd) in E. by apply Ho in E.
  - intros E. apply (f_equal snd) in E. by apply Ho in E.
  - intros E. apply (f_equal snd) in E. unfold rlb_handle_message in E. cbn [snd] in E.
    destruct (id =? _)%nat; [by injection E as <- <- <- <-|by apply Ho in E].
Qed.

Lemma sent_handled_by m b x : (m, b) ∈ sent_messages → handled_by m b x = true.
Proof.
  intros Hin%list_elem_of_In. pose proof (proj1 (forallb_forall _ _) (sent_handled x) (m, b) Hin) as Hs. exact Hs.
Qed.

Lemma handled_by_route block_types m b type x body :
  handled_by m b x = true → runs block_types b = true → owner m = Some (b, type) → parse type body = Some x →
  ∃ ec type', route block_types m (fun b type => process_as b type (message_no m) body) = (ec, [Handled b (message_no m) type' x]).
Proof.
  unfold handled_by, route. intros Hs Hr Eo Hp. rewrite Eo in *.
  apply andb_true_iff in Hs as [[Hc%negb_true_iff _]%andb_true_iff Hs]. rewrite Hc, Hr.
  unfold process_as, process_msg_as. rewrite Hp.
  destruct (handle_message b (message_no m) type x) as [ec ev] eqn:Eh. cbn [snd] in Hs. exists ec.
  destruct ev as [|[b' id' type' x'| |] [|]]; try discriminate Hs. exists type'.
  by destruct (handled_event _ _ _ _ _ _ _ _ _ Eh) as (-> & -> & ->).
Qed.


End node.

(** ** A node

    It runs a concurrency and a replication block; a body is its own content. *)

Definition demo_blocks : list string := [NodeId.BLOCK_CCB; NodeId.BLOCK_RLB].
Definition demo_parse (type : string) (body : list Z) : option (list Z) := Some body.
Definition demo_reply (type : string) (m : list Z) : option EC := None.

Lemma node_routes_witness :
  handler demo_parse demo_reply (processors demo_blocks) (message_no C2D_READ_DATA_REQ) [7] = Some (None, []) ∧
  handler demo_parse demo_reply (processors demo_blocks) (message_no TX_TM_COMMIT) [7] =
    Some (None, [Handled MESSAGE_BLOCK_CCB 32 "tx_tm_commit" [7]]) ∧
  local_handler demo_reply (processors demo_blocks) (message_no TX_TM_COMMIT) [7] =
    handler demo_parse demo_reply (processors demo_blocks) (message_no TX_TM_COMMIT) [7].
Proof.
  destruct (node_routes demo_parse demo_reply demo_blocks) as (H1 & H2 & _). split_and!.
  - rewrite H1. vm_compute. reflexivity.
  - rewrite H1. vm_compute. reflexivity.
  - apply H2. reflexivity.
Defined.


End Node.
