(* ===== verification/NetService.v ===== *)
(** * The network service of a node

    [src/network/net_service.cpp], [include/network/net_service.h] and
    [src/network/sock_server.cpp].  A service owns four pools of threads, keeps a
    number of outgoing connections to every other server, and posts what a block
    sends either to the handler of its own node or to one of the connections to
    the destination, drawn at random.  The acceptors of [sock_server] take the
    incoming connections.

    Connecting, the timers of [handle_connect_done] and the writes are under way
    until the environment completes them; a client counts its attempts and timers.
    The connections of one peer share a strand, so what is posted to them runs in
    order.

    - [contexts_served]: whatever the order in which the table of pools is
      walked, each context is run by the configured number of threads, at least
      one; a second start does nothing;
    - [client_reconnects]: until a write or read fails, every client of a started
      service is connected or is connecting; after a failure the next message for
      it starts a new attempt, and is kept only if its sender asked for that;
    - [down_connects_twice]: each message sent while a connection is down starts
      an attempt of its own, and the second to succeed ends the write that the
      first one's connection is in;
    - [accept_error_final]: after an error an acceptor accepts no more. *)

From S2P Require Import Prelude Common.
From S2P Require Import Bytes ByteBuffer MessageCodec ConnectionSend.
#[local] Open Scope Z_scope.

Module NetService.
Import MessageCodec.MessageCodec ConnectionSend.ConnectionSend.

(* @src include/network/net_service.h 35 40 service_type *)
Inductive service_type := SERVICE_ASYNC_CONTEXT | SERVICE_IO | SERVICE_CC | SERVICE_REPLICATION.

#[export] Instance service_type_eq_dec : EqDecision service_type.
Proof. solve_decision. Defined.

Definition service_types : list service_type := [SERVICE_ASYNC_CONTEXT; SERVICE_IO; SERVICE_CC; SERVICE_REPLICATION].

Definition service_no (s : service_type) : nat :=
  match s with SERVICE_ASYNC_CONTEXT => 0 | SERVICE_IO => 1 | SERVICE_CC => 2 | SERVICE_REPLICATION => 3 end.

(* @src src/network/net_service.cpp 14 18 service_thread_num *)
Definition service_thread_num (s : service_type) : Z :=
  match s with SERVICE_ASYNC_CONTEXT => 4 | SERVICE_IO => 20 | SERVICE_CC => 4 | SERVICE_REPLICATION => 1 end.

(* @src include/common/block_config.h 16 26 block_config *)
Record block_config := mk_block_config {
  threads_cc_ : Z;
  threads_io_ : Z;
  threads_replication_ : Z;
  threads_async_context_ : Z;
  connections_per_peer_ : Z;
}.

(* @src include/common/variable.h 15 15 CONNECTIONS_PER_PEER *)
Definition CONNECTIONS_PER_PEER : Z := 10.

(* @src include/common/block_config.h 76 81 block_config::connections_per_peer *)
Definition connections_per_peer (c : block_config) : Z :=
  if connections_per_peer_ c =? 0 then CONNECTIONS_PER_PEER else connections_per_peer_ c.

(** The 64-bit setting is narrowed; zero stands for the default. *)
(* @src src/network/net_service.cpp 29 54 net_service::net_service *)
Definition thread_num (c : block_config) (s : service_type) : Z :=
  let n := u32 (match s with
                | SERVICE_ASYNC_CONTEXT => threads_async_context_ c
                | SERVICE_IO => threads_io_ c
                | SERVICE_CC => threads_cc_ c
                | SERVICE_REPLICATION => threads_replication_ c
                end) in
  if n =? 0 then service_thread_num s else n.

(* @src include/network/client.h 13 19 node_peer *)
Record node_peer := mk_peer { node_id_ : Z; address_ : string; port_ : Z }.

(** A server of the configuration, with the address this zone reaches it by. *)
Record server := mk_server { sv_peer : node_peer; sv_is_client : bool }.

(** [attempts] and [timers] count what will come back: a resolve or connect, and
    the wait after a failed one. *)
(* @src include/network/client.h 21 43 client *)
Record client := mk_client { peer_ : node_peer; conn : connection; attempts : nat; timers : nat }.
#[export] Instance eta_client : Eta client := fun c => mk_client (peer_ c) (conn c) (attempts c) (timers c).

(** What is posted: a message for the handler of the own node, or for one of the
    connections to a peer. *)
Inductive post :=
| PLocal (m : message)
| PRemote (id : Z) (i : nat) (m : message) (non_connect_send : bool).

Inductive net_event :=
| OnStart (block : Z)
| OnStop (block : Z)
| LocalHandle (m : message).

(** [io_context_] holds the hints the contexts are made with. *)
(* @src include/network/net_service.h 45 71 net_service *)
Record net_service := mk_service {
  self_ : Z;
  block_config_ : block_config;
  started_ : bool;
  stopped_ : bool;
  peers_ : gmap Z node_peer;
  out_coming_conn_ : gmap Z (list client);
  io_context_ : list Z;
  io_context_threads_ : list (service_type * Z);
  threads_ : list (service_type * nat);
  local_handler_ : bool;
  blocks_ : list Z;
  posts : list post;
}.
#[export] Instance eta_service : Eta net_service := fun s =>
  mk_service (self_ s) (block_config_ s) (started_ s) (stopped_ s) (peers_ s) (out_coming_conn_ s) (io_context_ s)
    (io_context_threads_ s) (threads_ s) (local_handler_ s) (blocks_ s) (posts s).

(** [insert] keeps the first of two servers with one id. *)
(* @src src/network/net_service.cpp 23 27 net_service::net_service *)
Fixpoint add_peers (servers : list server) (m : gmap Z node_peer) : gmap Z node_peer :=
  match servers with
  | [] => m
  | c :: cs =>
      add_peers cs (if sv_is_client c then m
                    else match m !! node_id_ (sv_peer c) with
                         | Some _ => m
                         | None => <[node_id_ (sv_peer c) := sv_peer c]> m
                         end)
  end.

(** [order] is the order in which the hash table of pools is walked. *)
(* @src src/network/net_service.cpp 20 65 net_service::net_service *)
Definition new_service (self : Z) (c : block_config) (servers : list server) (order : list service_type) : net_service :=
  mk_service self c false false (add_peers servers ∅) ∅ (map (thread_num c) order) (map (fun s => (s, thread_num c s)) order) []
    false [] [].

(* @src src/network/net_service.cpp 177 177 net_service::register_block *)
Definition register_block (b : Z) (s : net_service) : net_service := s <| blocks_ := blocks_ s ++ [b] |>.

(* @src src/network/net_service.cpp 200 202 net_service::register_local_handler *)
Definition register_local_handler (s : net_service) : net_service := s <| local_handler_ := true |>.

(* @src src/network/net_service.cpp 173 175 net_service::get_service *)
Definition get_service (t : service_type) (s : net_service) : option Z := io_context_ s !! service_no t.

(** The threads of each pool; thread [(st, j)] runs context [service_no st]. *)
(* @src src/network/net_service.cpp 77 86 net_service::start *)
Definition create_threads (l : list (service_type * Z)) : list (service_type * nat) :=
  l ≫= fun p => map (pair p.1) (seq 0 (Z.to_nat p.2)).

(* @src src/network/net_service.cpp 179 194 net_service::service_thread *)
Definition service_thread (t : service_type * nat) : nat := service_no t.1.

(** The constructor of a client wants a node id and a port. *)
(* @src src/network/net_service.cpp 95 112 net_service::start *)
Definition connect_peer (n : Z) (p : node_peer) : option (list client) :=
  if (node_id_ p =? 0) || (port_ p =? 0) then None
  else Some (replicate (Z.to_nat n) (mk_client p new_client 1 0)).

(** [None]: an assertion fails. *)
(* @src src/network/net_service.cpp 69 118 net_service::start *)
Definition start (s : net_service) : option (net_service * list net_event) :=
  if started_ s then Some (s, [])
  else
    let n := connections_per_peer (block_config_ s) in
    let conns := connect_peer n <$> peers_ s in
    if decide (map_Forall (fun _ c => c ≠ None) conns) then
      Some (s <| started_ := true |> <| threads_ := threads_ s ++ create_threads (io_context_threads_ s) |>
              <| out_coming_conn_ := omap id conns |>,
            map OnStart (blocks_ s))
    else None.

(** ** Sending *)

(** [i] is the number drawn: [random(n)] is below [n]. *)
(* @src src/network/net_service.cpp 156 166 net_service::get_connection *)
Definition get_connection (id : Z) (i : nat) (s : net_service) : result client :=
  match out_coming_conn_ s !! id with
  | Some cs => match cs !! i with Some c => inl c | None => inr EC_NET_CANNOT_FIND_CONNECTION end
  | None => inr EC_NET_CANNOT_FIND_CONNECTION
  end.

(* @src include/network/net_service.h 147 167 net_service::async_send_remote *)
Definition async_send_remote (id : Z) (i : nat) (m : message) (non_connect_send : bool) (s : net_service) : net_service :=
  match get_connection id i s with
  | inl _ => s <| posts := posts s ++ [PRemote id i m non_connect_send] |>
  | inr _ => s
  end.

(* @src include/network/net_service.h 132 145 net_service::async_send_local *)
Definition async_send_local (m : message) (s : net_service) : net_service := s <| posts := posts s ++ [PLocal m] |>.

(* @src include/network/net_service.h 119 128 net_service::async_send *)
Definition async_send (id : Z) (i : nat) (m : message) (non_connect_send : bool) (s : net_service) : net_service :=
  if (self_ s =? id) && local_handler_ s then async_send_local m s
  else async_send_remote id i m non_connect_send s.

Definition on_client (id : Z) (i : nat) (f : client → option client) (s : net_service) : option net_service :=
  cs ← out_coming_conn_ s !! id;
  c ← cs !! i;
  c' ← f c;
  Some (s <| out_coming_conn_ := <[id := <[i := c']> cs]> (out_coming_conn_ s) |>).

(* @src src/network/net_service.cpp 168 171 net_service::async_client_connect *)
Definition async_client_connect (c : client) : client := c <| attempts := S (attempts c) |>.

(** The closure that [async_send_remote] posts. *)
(* @src include/network/net_service.h 154 162 net_service::async_send_remote *)
Definition send_on (m : message) (non_connect_send : bool) (c : client) : option client :=
  match gut_async_send m non_connect_send (conn c) with
  | None => None
  | Some (ec, k) =>
      let c := c <| conn := k |> in
      Some (match ec with EC_NET_UNCONNECTED => async_client_connect c | _ => c end)
  end.

(** The posts of one peer run in order. *)
Definition same_peer (p p' : post) : bool :=
  match p, p' with PRemote id _ _ _, PRemote id' _ _ _ => id =? id' | _, _ => false end.

Definition run_post (j : nat) (s : net_service) : option (net_service * list net_event) :=
  p ← posts s !! j;
  if forallb (fun p' => negb (same_peer p' p)) (take j (posts s)) then
    let s := s <| posts := delete j (posts s) |> in
    match p with
    | PLocal m => Some (s, [LocalHandle m])
    | PRemote id i m nc => s ← on_client id i (send_on m nc) s; Some (s, [])
    end
  else None.

(** ** Connecting *)

Inductive connect_result := Connected | ConnectFailed | ResolveFailed.

(** An attempt comes back.  The handler of a connect does nothing once the service
    is stopped; that of a failed resolve waits and tries again. *)
(* @src src/network/net_service.cpp 216 277 net_service::resolve_connect *)
Definition connect_done (r : connect_result) (stopped : bool) (c : client) : option client :=
  match attempts c with
  | O => None
  | S n =>
      let c := c <| attempts := n |> in
      match r with
      | Connected => if stopped then Some c else k ← handle_connect_done (conn c); Some (c <| conn := k |>)
      | ConnectFailed => Some (if stopped then c else c <| timers := S (timers c) |>)
      | ResolveFailed => Some (c <| timers := S (timers c) |>)
      end
  end.

(** The wait after a failed attempt is over. *)
(* @src src/network/net_service.cpp 260 269 net_service::handle_connect_done *)
Definition timer_fires (stopped : bool) (c : client) : option client :=
  match timers c with
  | O => None
  | S n =>
      let c := c <| timers := n |> in
      Some (if stopped then c else async_client_connect c)
  end.

(* @src src/network/net_service.cpp 208 212 net_service::stop *)
Definition stop (s : net_service) : net_service := s <| stopped_ := true |>.

(** [None]: it waits until the service is stopped. *)
(* @src src/network/net_service.cpp 120 154 net_service::join *)
Definition join (s : net_service) : option (net_service * list net_event) :=
  if stopped_ s then Some (s <| threads_ := [] |> <| out_coming_conn_ := ∅ |>, map OnStop (blocks_ s))
  else None.

(** ** Runs *)

Inductive label :=
| LSend (id : Z) (i : nat) (m : message) (non_connect_send : bool)
| LPost (j : nat)
| LConnect (id : Z) (i : nat) (r : connect_result)
| LTimer (id : Z) (i : nat)
| LWritten (id : Z) (i : nat)
| LFailed (id : Z) (i : nat)
| LStop.

Definition exec (l : label) (s : net_service) : option net_service :=
  match l with
  | LSend id i m nc => Some (async_send id i m nc s)
  | LPost j => fst <$> run_post j s
  | LConnect id i r => on_client id i (connect_done r (stopped_ s)) s
  | LTimer id i => on_client id i (timer_fires (stopped_ s)) s
  | LWritten id i => on_client id i (fun c => k ← write_complete (conn c); Some (c <| conn := k |>)) s
  | LFailed id i => on_client id i (fun c => Some (c <| conn := write_failed (conn c) |>)) s
  | LStop => Some (stop s)
  end.

Fixpoint run (ls : list label) (s : net_service) : option net_service :=
  match ls with
  | [] => Some s
  | l :: ls => s ← exec l s; run ls s
  end.

(** ** Threads *)

Lemma thread_num_pos c t : 1 ≤ thread_num c t.
Proof.
  unfold thread_num. set (n := u32 _). assert (0 ≤ n) by (apply Z.mod_pos_bound; lia).
  destruct (Z.eqb_spec n 0); [destruct t; simpl; lia|lia].
Qed.

Lemma service_no_inj t t' : service_no t = service_no t' → t = t'.
Proof. by destruct t, t'. Qed.

Lemma pool_threads t t' n :
  length (filter (fun th => service_thread th = service_no t) (map (pair t') (seq 0 n))) = if decide (t = t') then n else 0%nat.
Proof.
  generalize 0%nat at 1. induction n as [|n IH]; intros k; simpl; [by destruct (decide _)|]. rewrite filter_cons.
  unfold service_thread at 1. simpl. specialize (IH (S k)). destruct (decide (t = t')) as [->|Hne].
  - rewrite decide_True by done. simpl. by rewrite IH.
  - rewrite decide_False; [exact IH|]. intros E. apply Hne. symmetry. by apply service_no_inj.
Qed.

Lemma create_cons t n l : create_threads ((t, n) :: l) = map (pair t) (seq 0 (Z.to_nat n)) ++ create_threads l.
Proof. done. Qed.

Lemma count_threads c t order : NoDup order → t ∈ order →
  length (filter (fun th => service_thread th = service_no t) (create_threads (map (fun s => (s, thread_num c s)) order)))
  = Z.to_nat (thread_num c t).
Proof.
  assert (∀ l, t ∉ l → length (filter (fun th => service_thread th = service_no t)
    (create_threads (map (fun s => (s, thread_num c s)) l))) = 0%nat) as Hnot.
  { intros l. induction l as [|t' l IH]; intros Hn; [done|]. cbn [map].
    rewrite create_cons, filter_app, length_app, pool_threads, IH, decide_False by set_solver. done. }
  induction order as [|t' l IH]; intros Hnd Hin; [set_solver|]. apply NoDup_cons in Hnd as [Hn Hnd].
  cbn [map]. rewrite create_cons, filter_app, length_app, pool_threads. destruct (decide (t = t')) as [->|Hne].
  - rewrite Hnot by done. lia.
  - rewrite IH; [done|done|set_solver].
Qed.

(** Each context of a service is served.  Whatever the order in which the
    table of pools is walked, after [start] the context that [get_service] returns
    for a pool exists and is run by as many threads as are configured for that
    pool, or by the default where the setting is zero, and so by at least one;
    every peer has its connections, each of which is being established; and a
    second [start] changes nothing. *)
Theorem contexts_served self c servers order s ev :
  order ≡ₚ service_types → start (new_service self c servers order) = Some (s, ev) →
  (∀ t, is_Some (get_service t s) ∧
     Z.of_nat (length (filter (fun th => service_thread th = service_no t) (threads_ s))) = thread_num c t ∧
     1 ≤ thread_num c t) ∧
  (∀ id p, peers_ s !! id = Some p → out_coming_conn_ s !! id =
     Some (replicate (Z.to_nat (connections_per_peer c)) (mk_client p new_client 1 0))) ∧
  start s = Some (s, []).
Proof.
  intros Ho. unfold start. cbn [started_ new_service]. case_decide as Hall; [|done]. intros [= <- <-].
  assert (NoDup order) as Hnd.
  { rewrite Ho. apply (bool_decide_unpack _). vm_compute. exact I. }
  split_and!; [|intros id p Hp|done].
  - intros t. assert (t ∈ order) as Ht by (rewrite Ho; destruct t; set_solver). split_and!.
    + unfold get_service. simpl. apply lookup_lt_is_Some_2. rewrite length_map, Ho. destruct t; simpl; lia.
    + simpl. rewrite count_threads by done. pose proof (thread_num_pos c t). lia.
    + apply thread_num_pos.
  - simpl in *. rewrite lookup_omap, lookup_fmap, Hp. simpl. unfold connect_peer.
    specialize (Hall id (connect_peer (connections_per_peer c) p)). simpl in Hall. rewrite lookup_fmap, Hp in Hall.
    specialize (Hall eq_refl). unfold connect_peer in Hall. by destruct (_ || _).
Qed.

(** ** Clients *)

Definition trying (c : client) : Prop := connected_ (conn c) = true ∨ (0 < attempts c + timers c)%nat.

Definition all_trying (s : net_service) : Prop :=
  ∀ id cs i c, out_coming_conn_ s !! id = Some cs → cs !! i = Some c → trying c.

Lemma send_connected m nc k ec k' : gut_async_send m nc k = Some (ec, k') → connected_ k' = connected_ k.
Proof.
  unfold gut_async_send. destruct (connected_ k) eqn:Ec; simpl.
  - destruct (writing_in_action_ k); simpl; repeat case_match; intros [= <- <-]; done.
  - destruct nc; repeat case_match; intros [= <- <-]; done.
Qed.

Lemma async_write_done_connected k k' : async_write_done k = Some k' → connected_ k' = true.
Proof. unfold async_write_done. repeat case_match; intros [= <-]; done. Qed.

Lemma write_complete_connected k k' : write_complete k = Some k' → connected_ k' = connected_ k ∨ connected_ k' = true.
Proof. unfold write_complete. destruct (views k); [intros [= <-]; by left|]. intros E%async_write_done_connected. by right. Qed.

Lemma on_client_trying id i f s s' :
  all_trying s → (∀ c c', f c = Some c' → trying c → trying c') → on_client id i f s = Some s' → all_trying s'.
Proof.
  intros Ha Hf. unfold on_client. intros (cs & Ecs & (c & Ec & (c' & Ef & [= <-])%bind_Some)%bind_Some)%bind_Some.
  intros id' cs' i' d. simpl. destruct (decide (id' = id)) as [->|Hne].
  - rewrite lookup_insert_eq. intros [= <-]. destruct (decide (i' = i)) as [->|Hi].
    + rewrite list_lookup_insert_eq by by eapply lookup_lt_Some. intros [= <-]. eapply Hf; [done|]. by eapply Ha.
    + rewrite list_lookup_insert_ne by done. by apply (Ha id).
  - rewrite lookup_insert_ne by done. apply Ha.
Qed.

Lemma send_on_trying m nc c c' : send_on m nc c = Some c' → trying c → trying c'.
Proof.
  unfold send_on. destruct (gut_async_send m nc (conn c)) as [[ec k]|] eqn:E; [|done]. apply send_connected in E.
  intros [= <-] [H|H]; [left|right]; destruct ec; simpl; rewrite ?E; try done; lia.
Qed.

Definition fails (l : label) : bool := match l with LFailed _ _ => true | _ => false end.

Lemma exec_trying l s s' : fails l = false → stopped_ s' = false → all_trying s → exec l s = Some s' → all_trying s'.
Proof.
  intros Hf Hst Ha. destruct l as [id i m nc|j|id i r|id i|id i|id i|]; simpl; try done.
  - intros [= <-]. unfold async_send, async_send_local, async_send_remote. repeat case_match; exact Ha.
  - destruct (run_post j s) as [[s1 ev]|] eqn:E; [|done]. intros [= <-]. revert E. unfold run_post.
    intros (p & Ep & E)%bind_Some. case_match; [|done]. destruct p as [m|id i m nc]; [by injection E as <- _|].
    apply bind_Some in E as (s2 & E & [= <- _]). eapply on_client_trying; [|intros c c'; apply send_on_trying|exact E]. exact Ha.
  - intros E. assert (stopped_ s = false) as Hs.
    { revert E. unfold on_client. intros (cs & _ & (c & _ & (c' & _ & [= <-])%bind_Some)%bind_Some)%bind_Some. exact Hst. }
    rewrite Hs in E. eapply on_client_trying; [done| |exact E]. intros c c'. unfold connect_done.
    destruct (attempts c) as [|n]; [done|]. destruct r; simpl.
    + intros (k & Ek & [= <-])%bind_Some _. left. simpl. unfold handle_connect_done in Ek. by eapply async_write_done_connected.
    + intros [= <-] _. right. simpl. lia.
    + intros [= <-] _. right. simpl. lia.
  - intros E. assert (stopped_ s = false) as Hs.
    { revert E. unfold on_client. intros (cs & _ & (c & _ & (c' & _ & [= <-])%bind_Some)%bind_Some)%bind_Some. exact Hst. }
    rewrite Hs in E. eapply on_client_trying; [done| |exact E]. intros c c'. unfold timer_fires.
    destruct (timers c) as [|n]; [done|]. intros [= <-] _. right. simpl. lia.
  - apply on_client_trying; [done|]. intros c c' (k & Ek & [= <-])%bind_Some [H|H]; [|by right].
    left. simpl. destruct (write_complete_connected _ _ Ek); congruence.
  - intros [= <-]. done.
Qed.

Lemma exec_stopped l s s' : exec l s = Some s' → stopped_ s = true → stopped_ s' = true.
Proof.
  assert (∀ id i f s1 s2, on_client id i f s1 = Some s2 → stopped_ s2 = stopped_ s1) as Hc.
  { intros id i f s1 s2. unfold on_client.
    by intros (cs & _ & (c & _ & (c' & _ & [= <-])%bind_Some)%bind_Some)%bind_Some. }
  destruct l as [id i m nc|j|id i r|id i|id i|id i|]; simpl.
  - intros [= <-]. unfold async_send, async_send_local, async_send_remote. by repeat case_match.
  - destruct (run_post j s) as [[s1 ev]|] eqn:E; [|done]. intros [= <-]. revert E. unfold run_post.
    intros (p & Ep & E)%bind_Some. case_match; [|done]. destruct p as [m|id i m nc]; [by injection E as <- _|].
    apply bind_Some in E as (s2 & E%Hc & [= <- _]). rewrite E. done.
  - intros E%Hc. congruence.
  - intros E%Hc. congruence.
  - intros E%Hc. congruence.
  - intros E%Hc. congruence.
  - by intros [= <-].
Qed.

Lemma run_stopped ls s s' : run ls s = Some s' → stopped_ s = true → stopped_ s' = true.
Proof.
  revert s. induction ls as [|l ls IH]; intros s; simpl; [by intros [= <-]|].
  intros (s1 & E & Hr)%bind_Some Hs. eapply IH; [done|]. by eapply exec_stopped.
Qed.

Lemma run_trying ls s s' :
  forallb (fun l => negb (fails l)) ls = true → stopped_ s' = false → all_trying s → run ls s = Some s' → all_trying s'.
Proof.
  revert s. induction ls as [|l ls IH]; intros s Hf Hst Ha; simpl; [by intros [= <-]|].
  simpl in Hf. apply andb_true_iff in Hf as [Hl%negb_true_iff Hf]. intros (s1 & E & Hr)%bind_Some.
  apply (IH s1); [done|done| |done]. apply (exec_trying l s); [done| |done|done].
  destruct (stopped_ s1) eqn:Hs1; [|done]. rewrite (run_stopped _ _ _ Hr Hs1) in Hst. done.
Qed.

Lemma started_trying self c servers order s ev : start (new_service self c servers order) = Some (s, ev) → all_trying s.
Proof.
  unfold start. cbn [started_ new_service]. case_decide as Hall; [|done]. intros [= <- <-].
  intros id cs i d. simpl. rewrite lookup_omap, lookup_fmap. destruct (add_peers servers ∅ !! id) as [p|]; [|done]. simpl.
  unfold connect_peer. destruct (_ || _); [done|]. intros [= <-]. intros [-> _]%lookup_replicate. right. simpl. lia.
Qed.

(** C26: A client keeps trying to reach its peer.  In every run of a started
    service that is not stopped, as long as no write or read on a connection has
    failed, every client is connected, or an attempt to connect or the wait before
    the next one is under way.  In any state, a message sent through a client that
    is not connected starts an attempt; the message is lost unless its sender asked
    to keep it, and then it is queued behind those kept before. *)
Theorem client_reconnects self c servers order s0 ev ls s :
  start (new_service self c servers order) = Some (s0, ev) → run ls s0 = Some s → stopped_ s = false →
  (forallb (fun l => negb (fails l)) ls = true → all_trying s) ∧
  (∀ m nc d b, connected_ (conn d) = false → proto_to_buf m.1 m.2 ByteBuffer.default_buffer = Some (inr b) →
     ∃ d', send_on m nc d = Some d' ∧ attempts d' = S (attempts d) ∧
       send_msg_pending_ (conn d') = send_msg_pending_ (conn d) ++ if nc then [b] else []).
Proof.
  intros Hs Hr Hst. split.
  - intros Hf. eapply run_trying; [exact Hf|done| |exact Hr]. by eapply started_trying.
  - intros m nc d b Hc Eb. unfold send_on, gut_async_send. rewrite Hc, Eb. simpl.
    destruct nc; eexists; (split; [reflexivity|]); (split; [done|]); simpl; by rewrite ?app_nil_r.
Qed.

(** ** A service with one peer *)

Definition demo_config : block_config := mk_block_config 2 0 0 3 1.
Definition demo_peer : node_peer := mk_peer 7 "10.0.0.7" 8001.
Definition demo_order : list service_type := [SERVICE_REPLICATION; SERVICE_CC; SERVICE_IO; SERVICE_ASYNC_CONTEXT].
Definition demo_new : net_service :=
  new_service 5 demo_config [mk_server demo_peer false; mk_server (mk_peer 9 "10.0.0.9" 8002) true] demo_order.
Definition demo_started : net_service := from_option fst demo_new (start demo_new).

Lemma demo_start : start demo_new = Some (demo_started, []).
Proof. vm_compute. reflexivity. Qed.

(** The contexts are run by 3, 20, 2 and 1 threads, although the hints of the
    contexts, in the order of the table, are 1, 2, 20 and 3. *)
Lemma contexts_served_witness :
  io_context_ demo_started = [1; 2; 20; 3] ∧
  Z.of_nat (length (filter (fun th => service_thread th = service_no SERVICE_ASYNC_CONTEXT) (threads_ demo_started))) = 3.
Proof.
  split; [vm_compute; reflexivity|].
  refine (proj1 (proj2 (proj1 (contexts_served 5 demo_config _ demo_order demo_started [] _ demo_start) SERVICE_ASYNC_CONTEXT))).
  unfold demo_order, service_types. solve_Permutation.
Defined.

(** The first attempt fails, the second succeeds. *)
Definition demo_run : list label :=
  [LConnect 7 0 ConnectFailed; LTimer 7 0; LSend 7 0 (3, [1]) false; LPost 0; LConnect 7 0 Connected].

Lemma client_reconnects_witness :
  ∃ s, run demo_run demo_started = Some s ∧ all_trying s.
Proof.
  destruct (run demo_run demo_started) as [s|] eqn:E; [|vm_compute in E; discriminate]. exists s. split; [reflexivity|].
  apply (client_reconnects 5 demo_config [mk_server demo_peer false; mk_server (mk_peer 9 "10.0.0.9" 8002) true] demo_order
    demo_started [] demo_run s demo_start E); [|reflexivity].
  vm_compute in E. injection E as <-. reflexivity.
Defined.

(** While the connection is down each message starts an attempt of its own.  When
    both succeed, the second ends the write that the first one's connection is in:
    the next message starts another write over the same buffer. *)
Theorem down_connects_twice :
  ∃ s k, run [LConnect 7 0 Connected; LFailed 7 0; LSend 7 0 (3, [1]) false; LPost 0; LSend 7 0 (3, [2]) false; LPost 0;
           LConnect 7 0 Connected; LSend 7 0 (3, [3]) false; LPost 0; LConnect 7 0 Connected; LSend 7 0 (3, [4]) false; LPost 0]
           demo_started = Some s ∧
    (conn <$> (out_coming_conn_ s !! 7 ≫= lookup 0%nat)) = Some k ∧ views k = [11; 11].
Proof. eexists _, _. split; [vm_compute; reflexivity|]. split; vm_compute; reflexivity. Qed.

(** ** The acceptors *)

(** The two listening sockets; [armed] are the accepts under way.  A connection
    is known by the address of its peer. *)
(* @src include/network/sock_server.h 26 51 sock_server *)
Record sock_server := mk_sock_server {
  ss_stopped_ : bool;
  armed : list bool;
  incomming_conn_ : gmap string nat;
}.
#[export] Instance eta_sock_server : Eta sock_server := fun s => mk_sock_server (ss_stopped_ s) (armed s) (incomming_conn_ s).

(* @src src/network/sock_server.cpp 48 67 sock_server::start *)
Definition ss_start : sock_server := mk_sock_server false [true; true] ∅.

(** The result of an accept: the address and the connection, or an error. *)
(* @src src/network/sock_server.cpp 14 42 sock_server::async_accept_connection *)
Definition accepted (a : nat) (r : option (string * nat)) (s : sock_server) : option sock_server :=
  match armed s !! a with
  | Some true =>
      let s := s <| armed := <[a := false]> (armed s) |> in
      if ss_stopped_ s then Some s
      else match r with
           | Some (ip, c) =>
               let m := match incomming_conn_ s !! ip with Some _ => incomming_conn_ s | None => <[ip := c]> (incomming_conn_ s) end in
               Some (s <| incomming_conn_ := m |> <| armed := <[a := true]> (armed s) |>)
           | None => Some s
           end
  | _ => None
  end.

(** The connections it closes. *)
(* @src src/network/sock_server.cpp 69 95 sock_server::stop *)
Definition ss_stop (s : sock_server) : sock_server * list nat :=
  if ss_stopped_ s then (s, [])
  else (s <| ss_stopped_ := true |> <| incomming_conn_ := ∅ |>, map snd (map_to_list (incomming_conn_ s))).

Fixpoint accept_all (l : list (nat * option (string * nat))) (s : sock_server) : option sock_server :=
  match l with
  | [] => Some s
  | (a, r) :: l => s ← accepted a r s; accept_all l s
  end.

(** After an error on one of the listening sockets no accept is under way there:
    the node takes no more connections on it. *)
Theorem accept_error_final a s s' :
  accepted a None s = Some s' → ∀ r, accepted a r s' = None.
Proof.
  unfold accepted. destruct (armed s !! a) as [[]|] eqn:E; [|done..]. intros H r.
  assert (armed s' !! a = Some false) as ->; [|done].
  destruct (ss_stopped_ _); injection H as <-; simpl; rewrite list_lookup_insert_eq; try done; by eapply lookup_lt_Some.
Qed.

End NetService.
