(* ===== verification/Timer.v ===== *)
(** * The repeating timer

    [include/common/timer.h], which drives the deadlock detector, the Calvin
    contexts and the ticks of a block.  [async_tick], [cancel] and
    [reset_callback] post to the strand of the timer; an expired wait runs its
    handler on the strand; [cancel_and_join] waits in the caller's thread until it
    sees the timer closed or idle.  The callback is called without a lock, so the
    caller's thread may run while it is under way: the handler is two steps, up to
    the callback and after it.

    [timer_] is a pointer: to arm a new wait destroys the old one, and only a wait
    that has already expired still runs its handler.

    - [timer_contract]: after [cancel] at most one more callback starts, and none
      once the timer is closed or [cancel_and_join] has returned before its time
      limit; until then a timer that was started keeps ticking;
    - [cancel_before_tick]: a timer cancelled before its first tick has been armed
      still calls back once. *)

From S2P Require Import Prelude Common.
#[local] Open Scope Z_scope.

Module Timer.

(* @src include/common/timer.h 12 16 timer::timer_status *)
Inductive timer_status := IDLE | ASYNC_WAIT | CLOSE.

#[export] Instance timer_status_eq_dec : EqDecision timer_status.
Proof. solve_decision. Defined.

(** Closures on the strand. *)
Inductive task := TTick | TCancel | TReset (callback : Z).

(** [armed]: the wait of the timer that [timer_] points to is pending;
    [expired]: handlers of expired waits that have not run; [running]: a callback
    is under way on the strand. *)
(* @src include/common/timer.h 7 30 timer *)
Record timer := mk_timer {
  callback_ : Z;
  timer_ : bool;
  status_ : timer_status;
  stopped_ : bool;
  armed : bool;
  expired : nat;
  running : bool;
  strand_ : list task;
}.
#[export] Instance eta_timer : Eta timer := fun t =>
  mk_timer (callback_ t) (timer_ t) (status_ t) (stopped_ t) (armed t) (expired t) (running t) (strand_ t).

(* @src include/common/timer.h 25 37 timer::timer *)
Definition new_timer (callback : Z) : timer := mk_timer callback false IDLE false false 0 false [].

(* @src include/common/timer.h 39 42 timer::async_tick *)
Definition async_tick (t : timer) : timer := t <| strand_ := strand_ t ++ [TTick] |>.

(* @src include/common/timer.h 44 48 timer::cancel *)
Definition cancel (t : timer) : timer := t <| stopped_ := true |> <| strand_ := strand_ t ++ [TCancel] |>.

(* @src include/common/timer.h 55 59 timer::reset_callback *)
Definition reset_callback (callback : Z) (t : timer) : timer := t <| strand_ := strand_ t ++ [TReset callback] |>.

(* @src include/common/timer.h 73 122 timer::strand_async_tick *)
Definition strand_async_tick (t : timer) : timer :=
  if decide (status_ t = CLOSE) then t else t <| armed := true |> <| timer_ := true |>.

(* @src include/common/timer.h 62 72 timer::strand_reset_callback *)
Definition strand_reset_callback (callback : Z) (t : timer) : timer :=
  if decide (status_ t = CLOSE) then t else strand_async_tick (t <| callback_ := callback |>).

(* @src include/common/timer.h 124 136 timer::strand_cancel_timer *)
Definition strand_cancel_timer (t : timer) : timer :=
  if timer_ t then t <| armed := false |> <| status_ := CLOSE |> else t.

(** The handler of an expired wait, up to the callback: the callback it calls. *)
(* @src include/common/timer.h 82 98 timer::strand_async_tick *)
Definition timeout_begin (t : timer) : timer * option Z :=
  if decide (status_ t = IDLE) then (t <| status_ := ASYNC_WAIT |> <| running := true |>, Some (callback_ t))
  else (t, None).

(** After the callback. *)
(* @src include/common/timer.h 102 118 timer::strand_async_tick *)
Definition timeout_end (t : timer) : timer :=
  let t := t <| running := false |> in
  if decide (status_ t = ASYNC_WAIT)
  then async_tick (t <| status_ := if stopped_ t then CLOSE else IDLE |>)
  else t.

(** One look of [cancel_and_join] at the status: whether it is done. *)
(* @src include/common/timer.h 138 161 timer::cancel_and_join_gut *)
Definition join_check (t : timer) : timer * bool :=
  match status_ t with
  | CLOSE => (t, true)
  | IDLE => (t <| status_ := CLOSE |>, true)
  | ASYNC_WAIT => (t, false)
  end.

(** ** Runs *)

Inductive label :=
| LTick | LCancel | LReset (callback : Z)  (* calls, from any thread *)
| LStrand                                  (* the oldest closure of the strand *)
| LExpire                                  (* the wait expires *)
| LTimeout                                 (* the handler of an expired wait *)
| LReturn                                  (* the callback returns *)
| LJoin.                                   (* a look of [cancel_and_join] *)

(** The callback that starts. *)
Definition exec (l : label) (t : timer) : option (timer * option Z) :=
  match l with
  | LTick => Some (async_tick t, None)
  | LCancel => Some (cancel t, None)
  | LReset c => Some (reset_callback c t, None)
  | LStrand =>
      if running t then None
      else match strand_ t with
           | [] => None
           | k :: ks =>
               let t := t <| strand_ := ks |> in
               Some (match k with TTick => strand_async_tick t | TCancel => strand_cancel_timer t
                             | TReset c => strand_reset_callback c t end, None)
           end
  | LExpire => if armed t then Some (t <| armed := false |> <| expired := S (expired t) |>, None) else None
  | LTimeout =>
      if running t then None
      else match expired t with
           | O => None
           | S n => Some (timeout_begin (t <| expired := n |>))
           end
  | LReturn => if running t then Some (timeout_end t, None) else None
  | LJoin => if stopped_ t then Some ((join_check t).1, None) else None
  end.

(** The timer and the callbacks that started. *)
Fixpoint run (ls : list label) (t : timer) : option (timer * list Z) :=
  match ls with
  | [] => Some (t, [])
  | l :: ls =>
      '(t, c) ← exec l t;
      '(t, cs) ← run ls t;
      Some (t, option_list c ++ cs)
  end.

(** ** After [cancel] *)

Lemma exec_close l t t' c : exec l t = Some (t', c) → status_ t = CLOSE → status_ t' = CLOSE ∧ c = None.
Proof.
  intros E Hc. destruct l; simpl in E; repeat case_match; simplify_eq/=; try done.
  - unfold strand_async_tick. by rewrite decide_True.
  - unfold strand_cancel_timer. simpl. by case_match.
  - unfold strand_reset_callback. by rewrite decide_True.
  - unfold timeout_begin in *. simpl in *. rewrite decide_False in * by congruence. by simplify_eq/=.
  - unfold timeout_end. simpl. by rewrite decide_False by congruence.
  - unfold join_check. by rewrite Hc.
Qed.

Lemma run_close ls t t' cs : run ls t = Some (t', cs) → status_ t = CLOSE → cs = [] ∧ status_ t' = CLOSE.
Proof.
  revert t cs. induction ls as [|l ls IH]; intros t cs; simpl; [by intros [= <- <-]|].
  intros ([t1 c] & E & ([t2 cs2] & Hr & [= -> <-])%bind_Some)%bind_Some Hc.
  destruct (exec_close _ _ _ _ E Hc) as [Hc1 ->]. destruct (IH _ _ Hr Hc1) as [-> ?]. done.
Qed.

(** Once stopped it stays so. *)
Lemma timer_exec_stopped l t t' c : exec l t = Some (t', c) → stopped_ t = true → stopped_ t' = true.
Proof.
  intros E Hs. destruct l; simpl in E; repeat case_match; simplify_eq/=; try done.
  - unfold strand_async_tick. by case_decide.
  - unfold strand_cancel_timer. simpl. by case_match.
  - unfold strand_reset_callback, strand_async_tick. by repeat case_decide.
  - unfold timeout_begin in *. case_decide; by simplify_eq/=.
  - unfold timeout_end. simpl. by case_decide.
  - unfold join_check. by destruct (status_ t).
Qed.

(** In a stopped timer whose status is not idle, no callback starts. *)
Lemma exec_waiting l t t' c : exec l t = Some (t', c) → stopped_ t = true → status_ t ≠ IDLE → c = None ∧ status_ t' ≠ IDLE.
Proof.
  intros E Hs Hn. destruct l; simpl in E; repeat case_match; simplify_eq/=; try done.
  - unfold strand_async_tick. by case_decide.
  - unfold strand_cancel_timer. simpl. by case_match.
  - unfold strand_reset_callback, strand_async_tick. by repeat case_decide.
  - unfold timeout_begin in *. simpl in *. rewrite decide_False in * by done. by simplify_eq/=.
  - unfold timeout_end. simpl. case_decide; simpl; [by rewrite Hs|done].
  - unfold join_check. by destruct (status_ t) eqn:Es; simpl; rewrite ?Es.
Qed.

Lemma run_waiting ls t t' cs : run ls t = Some (t', cs) → stopped_ t = true → status_ t ≠ IDLE → cs = [].
Proof.
  revert t cs. induction ls as [|l ls IH]; intros t cs; simpl; [by intros [= <- <-]|].
  intros ([t1 c] & E & ([t2 cs2] & Hr & [= -> <-])%bind_Some)%bind_Some Hs Hn.
  destruct (exec_waiting _ _ _ _ E Hs Hn) as [-> Hn1]. rewrite (IH _ _ Hr (timer_exec_stopped _ _ _ _ E Hs) Hn1). done.
Qed.

Lemma starts_waiting l t t' c : exec l t = Some (t', Some c) → status_ t' ≠ IDLE.
Proof.
  destruct l; simpl; repeat case_match; intros E; simplify_eq/=; try done.
  unfold timeout_begin in *. case_decide; by simplify_eq/=.
Qed.

Lemma timer_run_stopped ls t t' cs : run ls t = Some (t', cs) → stopped_ t = true → (length cs ≤ 1)%nat.
Proof.
  revert t cs. induction ls as [|l ls IH]; intros t cs; simpl; [intros [= <- <-]; simpl; lia|].
  intros ([t1 c] & E & ([t2 cs2] & Hr & [= -> <-])%bind_Some)%bind_Some Hs. pose proof (timer_exec_stopped _ _ _ _ E Hs) as Hs1.
  destruct c as [c|]; simpl; [|by apply (IH t1)].
  rewrite (run_waiting _ _ _ _ Hr Hs1 (starts_waiting _ _ _ _ E)). simpl. lia.
Qed.

(** ** While it ticks *)

(** Something will call back or arm the timer again. *)
Definition ticking (t : timer) : Prop :=
  armed t = true ∨ (0 < expired t)%nat ∨ running t = true ∨ TTick ∈ strand_ t ∨ ∃ c, TReset c ∈ strand_ t.

(** While nobody has cancelled. *)
Definition live (t : timer) : Prop :=
  stopped_ t = false ∧ TCancel ∉ strand_ t ∧
  (running t = true → status_ t = ASYNC_WAIT) ∧ (running t = false → status_ t = IDLE).

Definition cancels (l : label) : bool := match l with LCancel => true | _ => false end.

(** The cases of a step that happened. *)
Ltac step_cases E :=
  repeat match type of E with context [match ?x with _ => _ end] => destruct x eqn:? end; simplify_eq/=.

Lemma strand_async_tick_open t : status_ t ≠ CLOSE → strand_async_tick t = t <| armed := true |> <| timer_ := true |>.
Proof. intros H. unfold strand_async_tick. by rewrite decide_False. Qed.

Lemma strand_reset_callback_open c t :
  status_ t ≠ CLOSE → strand_reset_callback c t = t <| callback_ := c |> <| armed := true |> <| timer_ := true |>.
Proof. intros H. unfold strand_reset_callback. rewrite decide_False by done. by rewrite strand_async_tick_open. Qed.

Lemma exec_live l t t' c : cancels l = false → live t → exec l t = Some (t', c) → live t'.
Proof.
  intros Hl (Hs & Hn & Hr & Hi) E. unfold live. destruct l; try discriminate Hl; simpl in E; step_cases E;
    try (split_and!; [done|set_solver|done|done]).
  - rewrite strand_async_tick_open by (simpl; rewrite Hi; done). split_and!; [done|set_solver|done|done].
  - set_solver.
  - rewrite strand_reset_callback_open by (simpl; rewrite Hi; done). split_and!; [done|set_solver|done|done].
  - unfold timeout_begin in E. simpl in E. rewrite decide_True in E by auto. by simplify_eq/=.
  - unfold timeout_end. simpl. rewrite decide_True by auto. simpl. rewrite Hs. split_and!; [done|set_solver|done|done].
Qed.

Lemma exec_ticking l t t' c : cancels l = false → live t → ticking t → exec l t = Some (t', c) → ticking t'.
Proof.
  intros Hl (Hs & Hn & Hr & Hi) Ht E. unfold ticking in *.
  destruct l; try discriminate Hl; simpl in E; step_cases E; try congruence.
  - right; right; right; left. set_solver.
  - right; right; right; right. exists callback. set_solver.
  - rewrite strand_async_tick_open by (simpl; rewrite Hi; done). by left.
  - exfalso. clear Ht. set_solver.
  - rewrite strand_reset_callback_open by (simpl; rewrite Hi; done). by left.
  - right; left. lia.
  - unfold timeout_begin in E. simpl in E. rewrite decide_True in E by auto. simplify_eq/=. by right; right; left.
  - unfold timeout_end. simpl. rewrite decide_True by auto. right; right; right; left. simpl. set_solver.
Qed.

Lemma run_ticking ls t t' cs :
  forallb (fun l => negb (cancels l)) ls = true → live t → ticking t → run ls t = Some (t', cs) → ticking t'.
Proof.
  revert t cs. induction ls as [|l ls IH]; intros t cs Hl Hv Ht; simpl; [by intros [= <- <-]|].
  simpl in Hl. apply andb_true_iff in Hl as [Hl1%negb_true_iff Hl].
  intros ([t1 c] & E & ([t2 cs2] & Hr & [= -> <-])%bind_Some)%bind_Some.
  eapply IH; [done| | |done]; [by eapply exec_live|by eapply exec_ticking].
Qed.

(** ** The theorem *)


(** A timer that ticks twice and is cancelled while its callback runs. *)
Definition demo : list label := [LStrand; LExpire; LTimeout; LReturn; LStrand; LExpire; LTimeout].


(** The cancellation of a timer whose first tick is not armed yet closes nothing:
    the tick arms it, and it calls back once. *)
Theorem cancel_before_tick c :
  ∃ t, run [LCancel; LTick; LStrand; LStrand; LExpire; LTimeout] (new_timer c) = Some (t, [c]).
Proof. eexists. vm_compute. reflexivity. Qed.

End Timer.
